(** * The slurmctld job-step manager (src/slurmctld/step_mgr.c)

    A shallow embedding of the step placement and accounting core of
    step_mgr.c: the step registry of a job, CPU / memory / core accounting,
    the node picker, the core picker, step creation, partial and full
    completion, and the step time-limit sweep.

    Conventions.
    - C integers are values of [Z]; every conversion the C code performs
      (uint16_t, uint32_t, int) is written out with [u16], [u32], [i32].
    - Arrays are lists read with [!!] and written with [<[ i := v ]>];
      a read or write outside the array stops the run ([Fatal]).
    - Bitmaps ([bitstr_t *]) are lists of booleans, one per bit.
    - [fatal(...)], failed [xassert]s and memory faults end the run of the
      daemon; they are the [Fatal] outcome of the monad [M]. *)

From Stdlib Require Import ZArith Lia Bool.
From stdpp Require Import base numbers list strings.

Local Open Scope Z_scope.

(** ** Machine integers *)

Definition u16 (z : Z) : Z := z mod 65536.
Definition u32 (z : Z) : Z := z mod 4294967296.
Definition i32 (z : Z) : Z := (z + 2147483648) mod 4294967296 - 2147483648.

Definition NO_VAL : Z := 4294967294.        (* 0xfffffffe *)
Definition INFINITE : Z := 4294967295.      (* 0xffffffff *)
Definition NO_VAL16 : Z := 65534.           (* (uint16_t) NO_VAL *)
Definition STEP_ID_LIMIT : Z := 4294967280. (* 0xfffffff0 *)

(** MAX / MIN as the C macros expand, on operands already converted to a
    common type. *)
Definition MAX (a b : Z) : Z := if a >? b then a else b.
Definition MIN (a b : Z) : Z := if a <? b then a else b.

(** [MIN(a, b)] with [a] an int and [b] a uint32_t, stored into an int:
    the comparison and the result are unsigned. *)
Definition MIN_int_u32 (a b : Z) : Z := i32 (MIN (u32 a) b).

(** ** Bitmaps

    src/common/bitstring.c is not part of the sources; the operations
    below follow the bitstring interface as step_mgr.c uses it. *)

Abbreviation bitstr := (list bool).

Definition bit_size (b : bitstr) : nat := length b.
Definition bit_alloc (n : nat) : bitstr := replicate n false.
Definition bit_copy (b : bitstr) : bitstr := b.

Definition bit_test (b : bitstr) (i : nat) : bool :=
  match b !! i with Some v => v | None => false end.

Definition bit_set (b : bitstr) (i : nat) : bitstr := <[ i := true ]> b.
Definition bit_clear (b : bitstr) (i : nat) : bitstr := <[ i := false ]> b.

Definition bit_not (b : bitstr) : bitstr := map negb b.
Definition bit_and (b1 b2 : bitstr) : bitstr := zip_with andb b1 b2.
Definition bit_or (b1 b2 : bitstr) : bitstr := zip_with orb b1 b2.

Fixpoint bit_set_count (b : bitstr) : nat :=
  match b with
  | [] => 0%nat
  | x :: r => ((if x then 1 else 0) + bit_set_count r)%nat
  end.

Definition bit_clear_count (b : bitstr) : nat :=
  (bit_size b - bit_set_count b)%nat.

(** Index of the first / last set bit, -1 when no bit is set. *)
Fixpoint bit_ffs_from (k : nat) (b : bitstr) : Z :=
  match b with
  | [] => -1
  | x :: r => if x then Z.of_nat k else bit_ffs_from (S k) r
  end.
Definition bit_ffs (b : bitstr) : Z := bit_ffs_from 0 b.

Fixpoint bit_fls_from (k : nat) (b : bitstr) : Z :=
  match b with
  | [] => -1
  | x :: r =>
      let l := bit_fls_from (S k) r in
      if l >=? 0 then l else if x then Z.of_nat k else -1
  end.
Definition bit_fls (b : bitstr) : Z := bit_fls_from 0 b.

(** [bit_super_set b1 b2]: every bit set in [b1] is set in [b2]. *)
Fixpoint bit_super_set (b1 b2 : bitstr) : bool :=
  match b1, b2 with
  | [], _ => true
  | x :: r1, [] => negb x && bit_super_set r1 []
  | x :: r1, y :: r2 => (negb x || y) && bit_super_set r1 r2
  end.

Fixpoint bit_equal (b1 b2 : bitstr) : bool :=
  match b1, b2 with
  | [], [] => true
  | x :: r1, y :: r2 => Bool.eqb x y && bit_equal r1 r2
  | _, _ => false
  end.

(** [bit_nset b start stop]: set the bits start..stop, both included. *)
Definition bit_nset (b : bitstr) (start stop : nat) : bitstr :=
  imap (fun i x => if (start <=? i)%nat && (i <=? stop)%nat then true else x) b.

(** [bit_pick_cnt b nbits]: a bitmap of the size of [b] holding the first
    [nbits] set bits of [b]; NULL when [b] has fewer set bits. *)
Fixpoint pick_first (n : nat) (b : bitstr) : bitstr :=
  match b with
  | [] => []
  | x :: r =>
      match n with
      | O => false :: pick_first O r
      | S m => if x then true :: pick_first m r else false :: pick_first n r
      end
  end.

Definition bit_pick_cnt (b : bitstr) (nbits : Z) : option bitstr :=
  if Z.of_nat (bit_set_count b) <? nbits then None
  else Some (pick_first (Z.to_nat nbits) b).

(** [bit_get_pos_num b pos]: how many bits are set below [pos], or -1 when
    bit [pos] itself is clear. *)
Definition bit_get_pos_num (b : bitstr) (pos : nat) : Z :=
  if bit_test b pos then Z.of_nat (bit_set_count (take pos b)) else -1.

(** The indices [first .. last] a [for (i = first; i <= last; i++)] loop
    visits. *)
Definition range_incl (first last : Z) : list nat :=
  seq (Z.to_nat first) (Z.to_nat (last + 1 - first)).

(** ** Return codes and enumerations

    slurm_errno.h and slurm.h are not part of the sources; the codes are
    an enumeration of the names step_mgr.c returns, [PLUGIN_RC] standing
    for any other code a plugin hands back. *)

Inductive slurm_rc : Type :=
  | SLURM_SUCCESS | SLURM_ERROR | EINVAL | ENOENT
  | ESLURM_INVALID_JOB_ID | ESLURM_USER_ID_MISSING | ESLURM_ALREADY_DONE
  | ESLURM_DISABLED | ESLURM_DUPLICATE_JOB_ID | ESLURM_ACCESS_DENIED
  | ESLURM_BAD_DIST | ESLURM_TASKDIST_ARBITRARY_UNSUPPORTED
  | ESLURM_PATHNAME_TOO_LONG | ESLURM_BAD_TASK_COUNT
  | ESLURM_REQUESTED_NODE_CONFIG_UNAVAILABLE | ESLURM_INVALID_NODE_COUNT
  | ESLURM_PROLOG_RUNNING | ESLURM_NODES_BUSY | ESLURM_NODE_NOT_AVAIL
  | ESLURM_INVALID_TASK_MEMORY | ESLURM_INVALID_GRES
  | ESLURM_TOO_MANY_REQUESTED_CPUS | ESLURMD_TOOMANYSTEPS
  | ESLURM_INVALID_TIME_LIMIT | ESLURM_INTERCONNECT_FAILURE
  | ESLURM_JOB_PENDING
  | PLUGIN_RC (code : Z).

Definition rc_is_success (rc : slurm_rc) : bool :=
  match rc with SLURM_SUCCESS => true | _ => false end.

(** task_dist_states; [SLURM_DIST_OTHER] is any value of the uint16_t
    field that names no distribution step_create accepts. *)
Inductive task_dist_states : Type :=
  | SLURM_DIST_CYCLIC | SLURM_DIST_BLOCK | SLURM_DIST_ARBITRARY
  | SLURM_DIST_PLANE | SLURM_DIST_CYCLIC_CYCLIC | SLURM_DIST_CYCLIC_BLOCK
  | SLURM_DIST_BLOCK_CYCLIC | SLURM_DIST_BLOCK_BLOCK
  | SLURM_DIST_OTHER (code : Z).

(** Job states (slurm.h): the base state lives in the low byte, flags
    above it. *)
Definition JOB_PENDING : Z := 0.
Definition JOB_RUNNING : Z := 1.
Definition JOB_SUSPENDED : Z := 2.
Definition JOB_STATE_BASE : Z := 255.      (* 0x00ff *)
Definition JOB_CONFIGURING : Z := 16384.   (* 0x4000 *)

(** ** Records

    slurmctld.h, job_resources.h and slurm_protocol_defs.h are not part of
    the sources: the records list the fields step_mgr.c reads and writes,
    with the integer widths its casts and format strings show. *)

(** [setter_of eta proj] builds the function that replaces field [proj]
    of a record, from the eta expansion [eta] of the record. *)
Ltac setter_of eta proj :=
  let body := eval cbv beta delta [eta] in eta in
  match eval pattern proj in body with
  | ?F _ =>
      let s := eval cbv beta in (fun v r => F (fun _ => v) r) in
      exact s
  end.

(** job_step_create_request_msg_t: the step-creation request. The message
    is an in/out argument of step_create, which rewrites several fields. *)
Module Req.
Record t := mk {
  job_id : Z;
  user_id : Z;
  min_nodes : Z;
  max_nodes : Z;
  cpu_count : Z;
  num_tasks : Z;
  relative : Z;
  task_dist : task_dist_states;
  plane_size : Z;
  port : Z;
  host : option string;
  name : option string;
  network : option string;
  node_list : option string;
  exclusive : Z;
  ckpt_dir : option string;
  ckpt_interval : Z;
  mem_per_cpu : Z;
  resv_port_cnt : Z;
  no_kill : Z;
  overcommit : Z;
  time_limit : Z;
  gres : option string
}.
Definition eta (r : t) : t :=
  mk (job_id r) (user_id r) (min_nodes r) (max_nodes r) (cpu_count r)
    (num_tasks r) (relative r) (task_dist r) (plane_size r) (port r)
    (host r) (name r) (network r) (node_list r) (exclusive r) (ckpt_dir r)
    (ckpt_interval r) (mem_per_cpu r) (resv_port_cnt r) (no_kill r)
    (overcommit r) (time_limit r) (gres r).
Definition set_min_nodes : Z -> t -> t :=
  ltac:(setter_of eta min_nodes).
Definition set_cpu_count : Z -> t -> t :=
  ltac:(setter_of eta cpu_count).
Definition set_num_tasks : Z -> t -> t :=
  ltac:(setter_of eta num_tasks).
Definition set_task_dist : task_dist_states -> t -> t :=
  ltac:(setter_of eta task_dist).
Definition set_node_list : (option string) -> t -> t :=
  ltac:(setter_of eta node_list).
Definition set_mem_per_cpu : Z -> t -> t :=
  ltac:(setter_of eta mem_per_cpu).
Definition set_resv_port_cnt : Z -> t -> t :=
  ltac:(setter_of eta resv_port_cnt).
Definition set_no_kill : Z -> t -> t :=
  ltac:(setter_of eta no_kill).
Definition set_overcommit : Z -> t -> t :=
  ltac:(setter_of eta overcommit).
Definition set_gres : (option string) -> t -> t :=
  ltac:(setter_of eta gres).
End Req.

(** slurm_step_layout_t: node_cnt is a uint32_t, tasks a uint16_t array with
    one entry per step node. *)
Module Layout.
Record t := mk {
  node_list : string;
  node_cnt : Z;
  task_cnt : Z;
  tasks : list Z
}.
Definition eta (r : t) : t :=
  mk (node_list r) (node_cnt r) (task_cnt r) (tasks r).
End Layout.

(** struct step_record. The back pointer job_ptr is not a field: the job
    is passed next to the step. Plugin handles (gres_list, switch_job,
    check_job) have the opaque type G. *)
Module Step.
Record t {G : Type} := mk {
  step_id : Z;
  start_time : Z;
  time_limit : Z;
  requid : Z;
  step_node_bitmap : bitstr;
  cyclic_alloc : Z;
  gres : option string;
  gres_list : option G;
  port : Z;
  host : option string;
  batch_step : bool;
  cpus_per_task : Z;
  mem_per_cpu : Z;
  ckpt_interval : Z;
  ckpt_time : Z;
  cpu_count : Z;
  exit_code : Z;
  exclusive : Z;
  ckpt_dir : option string;
  no_kill : Z;
  name : option string;
  network : option string;
  step_layout : option Layout.t;
  resv_port_cnt : Z;
  switch_job : option G;
  check_job : option G;
  core_bitmap_job : option bitstr;
  exit_node_bitmap : option bitstr;
  pre_sus_time : Z;
  tot_sus_time : Z
}.
Arguments t : clear implicits.
Arguments mk {G}.
Section Setters.
Context {G : Type}.
Definition eta (r : t G) : t G :=
  mk (step_id r) (start_time r) (time_limit r) (requid r)
    (step_node_bitmap r) (cyclic_alloc r) (gres r) (gres_list r) (port r)
    (host r) (batch_step r) (cpus_per_task r) (mem_per_cpu r)
    (ckpt_interval r) (ckpt_time r) (cpu_count r) (exit_code r)
    (exclusive r) (ckpt_dir r) (no_kill r) (name r) (network r)
    (step_layout r) (resv_port_cnt r) (switch_job r) (check_job r)
    (core_bitmap_job r) (exit_node_bitmap r) (pre_sus_time r)
    (tot_sus_time r).
Definition set_step_id : Z -> t G -> t G :=
  ltac:(setter_of eta (@step_id G)).
Definition set_time_limit : Z -> t G -> t G :=
  ltac:(setter_of eta (@time_limit G)).
Definition set_gres_list : (option G) -> t G -> t G :=
  ltac:(setter_of eta (@gres_list G)).
Definition set_mem_per_cpu : Z -> t G -> t G :=
  ltac:(setter_of eta (@mem_per_cpu G)).
Definition set_exit_code : Z -> t G -> t G :=
  ltac:(setter_of eta (@exit_code G)).
Definition set_step_layout : (option Layout.t) -> t G -> t G :=
  ltac:(setter_of eta (@step_layout G)).
Definition set_resv_port_cnt : Z -> t G -> t G :=
  ltac:(setter_of eta (@resv_port_cnt G)).
Definition set_switch_job : (option G) -> t G -> t G :=
  ltac:(setter_of eta (@switch_job G)).
Definition set_check_job : (option G) -> t G -> t G :=
  ltac:(setter_of eta (@check_job G)).
Definition set_core_bitmap_job : (option bitstr) -> t G -> t G :=
  ltac:(setter_of eta (@core_bitmap_job G)).
Definition set_exit_node_bitmap : (option bitstr) -> t G -> t G :=
  ltac:(setter_of eta (@exit_node_bitmap G)).
End Setters.
End Step.

(** job_resources_t: cpus and cpus_used are uint16_t arrays, memory_allocated
    and memory_used optional uint32_t arrays, all indexed by the position of
    the node among the job's nodes. *)
Module Res.
Record t := mk {
  core_bitmap : bitstr;
  core_bitmap_used : bitstr;
  cpu_array_cnt : Z;
  cpu_array_value : option (list Z);
  cpus : list Z;
  cpus_used : list Z;
  cores_per_socket : list Z;
  sockets_per_node : list Z;
  sock_core_rep_count : list Z;
  memory_allocated : option (list Z);
  memory_used : option (list Z);
  nhosts : Z;
  node_bitmap : bitstr
}.
Definition eta (r : t) : t :=
  mk (core_bitmap r) (core_bitmap_used r) (cpu_array_cnt r)
    (cpu_array_value r) (cpus r) (cpus_used r) (cores_per_socket r)
    (sockets_per_node r) (sock_core_rep_count r) (memory_allocated r)
    (memory_used r) (nhosts r) (node_bitmap r).
Definition set_core_bitmap_used : bitstr -> t -> t :=
  ltac:(setter_of eta core_bitmap_used).
Definition set_cpus_used : (list Z) -> t -> t :=
  ltac:(setter_of eta cpus_used).
Definition set_memory_used : (option (list Z)) -> t -> t :=
  ltac:(setter_of eta memory_used).
End Res.

(** struct job_record. details is NULL or holds the prolog_running flag;
    part_max_time stands for part_ptr->max_time. *)
Module Job.
Record t {G : Type} := mk {
  job_id : Z;
  user_id : Z;
  job_state : Z;
  details : option bool;
  end_time : Z;
  time_limit : Z;
  time_last_active : Z;
  node_bitmap : option bitstr;
  job_resrcs : Res.t;
  step_list : list (Step.t G);
  next_step_id : Z;
  gres_list : option G;
  derived_ec : Z;
  name : option string;
  network : option string;
  part_max_time : Z;
  total_cpus : Z;
  db_index : Z;
  batch_host : string;
  start_time : Z
}.
Arguments t : clear implicits.
Arguments mk {G}.
Section Setters.
Context {G : Type}.
Definition eta (r : t G) : t G :=
  mk (job_id r) (user_id r) (job_state r) (details r) (end_time r)
    (time_limit r) (time_last_active r) (node_bitmap r) (job_resrcs r)
    (step_list r) (next_step_id r) (gres_list r) (derived_ec r) (name r)
    (network r) (part_max_time r) (total_cpus r) (db_index r)
    (batch_host r) (start_time r).
Definition set_job_state : Z -> t G -> t G :=
  ltac:(setter_of eta (@job_state G)).
Definition set_end_time : Z -> t G -> t G :=
  ltac:(setter_of eta (@end_time G)).
Definition set_time_last_active : Z -> t G -> t G :=
  ltac:(setter_of eta (@time_last_active G)).
Definition set_job_resrcs : Res.t -> t G -> t G :=
  ltac:(setter_of eta (@job_resrcs G)).
Definition set_step_list : (list (Step.t G)) -> t G -> t G :=
  ltac:(setter_of eta (@step_list G)).
Definition set_next_step_id : Z -> t G -> t G :=
  ltac:(setter_of eta (@next_step_id G)).
Definition set_gres_list : (option G) -> t G -> t G :=
  ltac:(setter_of eta (@gres_list G)).
Definition set_derived_ec : Z -> t G -> t G :=
  ltac:(setter_of eta (@derived_ec G)).
End Setters.
End Job.

(** struct node_record, as far as the step manager looks at it. *)
Module Node.
Record t := mk {
  name : string;
  power_save : bool;     (* IS_NODE_POWER_SAVE *)
  no_respond : bool;     (* IS_NODE_NO_RESPOND *)
  cpus : Z;
  config_cpus : Z        (* config_ptr->cpus *)
}.
End Node.

(** slurmctld_conf and the build configuration. *)
Module Conf.
Record t := mk {
  max_tasks_per_node : Z;     (* uint16_t *)
  enforce_part_limits : bool;
  switch_type : string;
  fast_schedule : bool;
  cr_memory : bool;           (* select_type_param & CR_MEMORY *)
  have_front_end : bool;      (* HAVE_FRONT_END *)
  have_bg : bool;             (* HAVE_BG *)
  with_slurmdbd : bool
}.
End Conf.

(** The global node table and the bitmap of nodes that are up. *)
Module Cluster.
Record t := mk {
  node_record_table : list Node.t;
  up_node_bitmap : bitstr
}.
Definition node_record_count (c : t) : nat := length (node_record_table c).
End Cluster.

(** ** Daemon state outside the job table *)

Inductive log_level : Type := LOG_ERROR | LOG_INFO | LOG_VERBOSE.

Inductive slurm_msg_type : Type :=
  | REQUEST_KILL_TIMELIMIT | REQUEST_SIGNAL_TASKS.

(** agent_arg_t with the kill_job_msg_t it carries. *)
Module Agent.
Record t := mk {
  msg_type : slurm_msg_type;
  retry : Z;
  hostlist : list string;
  node_count : Z;
  job_id : Z;
  step_id : Z;
  job_state : Z;
  job_uid : Z;
  time : Z;
  start_time : Z
}.
End Agent.

(** The log, the agent's request queue, the static [last_core_inx] of
    _pick_step_cores and last_job_update. *)
Module Glob.
Record t := mk {
  log : list (log_level * string);
  agent_queue : list Agent.t;
  last_core_inx : Z;
  last_job_update : Z
}.
Definition eta (r : t) : t :=
  mk (log r) (agent_queue r) (last_core_inx r) (last_job_update r).
Definition set_log : list (log_level * string) -> t -> t :=
  ltac:(setter_of eta log).
Definition set_agent_queue : list Agent.t -> t -> t :=
  ltac:(setter_of eta agent_queue).
Definition set_last_core_inx : Z -> t -> t :=
  ltac:(setter_of eta last_core_inx).
Definition set_last_job_update : Z -> t -> t :=
  ltac:(setter_of eta last_job_update).
End Glob.

(** ** The monad: global state, and runs that end in fatal() *)

Inductive outcome (A : Type) : Type :=
  | Ok (a : A) (g : Glob.t)
  | Fatal (msg : string).
Arguments Ok {A} a g.
Arguments Fatal {A} msg.

Definition M (A : Type) : Type := Glob.t -> outcome A.

Definition ret {A} (a : A) : M A := fun g => Ok a g.
Definition bind {A B} (m : M A) (k : A -> M B) : M B :=
  fun g => match m g with Ok a g' => k a g' | Fatal msg => Fatal msg end.
Definition fatal {A} (msg : string) : M A := fun _ => Fatal msg.

Declare Scope ctld_scope.
Delimit Scope ctld_scope with ctld.
Notation "x <- m ;; k" := (bind m (fun x => k))
  (at level 100, m at next level, right associativity) : ctld_scope.
Notation "'do' p <- m ;; k" := (bind m (fun x => let 'p := x in k))
  (at level 100, p pattern, m at next level, right associativity) : ctld_scope.
Notation "m ;; k" := (bind m (fun _ => k))
  (at level 100, right associativity) : ctld_scope.
Local Open Scope ctld_scope.

Definition log_msg (lvl : log_level) (msg : string) : M unit :=
  fun g => Ok tt (Glob.set_log (Glob.log g ++ [(lvl, msg)]) g).
Definition error (msg : string) : M unit := log_msg LOG_ERROR msg.
Definition info (msg : string) : M unit := log_msg LOG_INFO msg.
Definition verbose (msg : string) : M unit := log_msg LOG_VERBOSE msg.

Definition agent_queue_request (a : Agent.t) : M unit :=
  fun g => Ok tt (Glob.set_agent_queue (Glob.agent_queue g ++ [a]) g).

Definition touch_last_job_update (now : Z) : M unit :=
  fun g => Ok tt (Glob.set_last_job_update now g).

(** Array accesses: an index outside the array is a memory fault. *)
Definition array_get (a : list Z) (i : Z) : M Z :=
  if i <? 0 then fatal "array index out of bounds"
  else match a !! Z.to_nat i with
       | Some v => ret v
       | None => fatal "array index out of bounds"
       end.

Definition array_set (a : list Z) (i : Z) (v : Z) : M (list Z) :=
  if (i <? 0) || (Z.of_nat (length a) <=? i)
  then fatal "array index out of bounds"
  else ret (<[ Z.to_nat i := v ]> a).

Definition is_Some_b {A} (p : option A) : bool :=
  match p with Some _ => true | None => false end.

(** An optional array the code dereferences without a NULL test. *)
Definition deref {A} (p : option A) : M A :=
  match p with Some a => ret a | None => fatal "NULL dereference" end.

(** The counters of the exclusive-mode loop. *)
Module Excl.
Record t := mk {
  node_inx : Z;
  nodes_avail : bitstr;
  nodes_picked_cnt : Z;     (* uint32_t *)
  tasks_picked_cnt : Z;     (* uint32_t *)
  total_task_cnt : Z        (* uint32_t *)
}.
End Excl.

(** The state of the loop at lines 704-770, which fills usable_cpu_cnt[]
    and drops the nodes that memory or gres leave without a task. *)
Module Usable.
Record t := mk {
  node_inx : Z;
  nodes_avail : bitstr;
  usable_cpu_cnt : list Z;      (* uint32_t, indexed by node *)
  fail_mode : slurm_rc;
  mem_blocked_nodes : Z;        (* int *)
  mem_blocked_cpus : Z          (* int *)
}.
End Usable.

(** step_complete_msg_t, without the accounting data it carries. *)
Module Cmsg.
Record t := mk {
  job_id : Z;
  job_step_id : Z;
  range_first : Z;      (* uint32_t *)
  range_last : Z;       (* uint32_t *)
  step_rc : Z           (* uint32_t *)
}.
End Cmsg.

(** ** Plugins and other external code

    What the step manager calls outside step_mgr.c, as the functions it
    relies on. [G] is the type of the opaque plugin handles. *)
Module Plug.
Record t {G : Type} := mk {
  (* gres_plugin_step_state_validate(gres, &step_gres_list, job_gres_list) *)
  gres_plugin_step_state_validate :
    option string -> option G -> slurm_rc * option G;
  (* gres_plugin_step_test(step_gres, job_gres, node_inx, ignore_alloc):
     a uint32_t CPU count, NO_VAL when the step asks for no gres *)
  gres_plugin_step_test : option G -> option G -> Z -> bool -> Z;
  (* gres_plugin_step_alloc(step_gres, job_gres, node_inx, cpus):
     the step's and the job's gres state afterwards *)
  gres_plugin_step_alloc :
    option G -> option G -> Z -> Z -> option G * option G;
  (* gres_plugin_step_dealloc(step_gres, job_gres) *)
  gres_plugin_step_dealloc : option G -> option G -> option G * option G;
  (* node_name2bitmap(names, false, &bitmap): the bitmap, None when the
     error code is not zero *)
  node_name2bitmap : string -> option bitstr;
  bitmap2node_name : bitstr -> string;
  (* slurm_step_layout_create(node_list, cpus_per_node, cpu_count_reps,
     node_count, num_tasks, cpus_per_task, task_dist, plane_size) *)
  slurm_step_layout_create :
    string -> list Z -> list Z -> Z -> Z -> Z -> task_dist_states -> Z ->
    option Layout.t;
  resv_port_alloc : Step.t G -> slurm_rc;
  (* switch_alloc_jobinfo: None when it returns < 0 *)
  switch_alloc_jobinfo : option G;
  (* switch_build_jobinfo(job, node_list, tasks, cyclic, network):
     true when it returns < 0 *)
  switch_build_jobinfo :
    G -> string -> list Z -> Z -> option string -> bool;
  (* checkpoint_alloc_jobinfo: None when it returns < 0 *)
  checkpoint_alloc_jobinfo : option G;
  (* get_job_resources_cnt(job_resrcs, node_inx, &sockets, &cores):
     None when it fails, else the two uint16_t counts *)
  get_job_resources_cnt : Res.t -> Z -> option (Z * Z);
  (* get_job_resources_offset(job_resrcs, node_inx, sock_inx, core_inx):
     the bit of that core in the job's core bitmaps, negative on error *)
  get_job_resources_offset : Res.t -> Z -> Z -> Z -> Z;
  validate_slurm_user : Z -> bool;
  getuid : Z
}.
Arguments t : clear implicits.
End Plug.

Section StepMgr.

Context {G : Type}.
Variable conf : Conf.t.
Variable cluster : Cluster.t.
Variable plug : Plug.t G.

(** Return true if memory is a reserved resource (step_mgr.c:2965). The
    value is read once from the configuration. *)
Definition _is_mem_resv : bool := Conf.cr_memory conf.

(** ** The step registry of a job *)

(** _create_step_record (step_mgr.c:101): NULL once next_step_id has
    reached the reserved ids, else a zeroed record with start_time,
    time_limit and requid set, appended to the job's step list. The new
    record is the last element of the list. *)
Definition empty_step (now : Z) : Step.t G :=
  Step.mk 0 now INFINITE (-1) [] 0 None None 0 None false 0 0 0 0 0 0 0
          None 0 None None None 0 None None None None 0 0.

Definition _create_step_record (now : Z) (job_ptr : Job.t G)
  : M (option (Step.t G) * Job.t G) :=
  if Job.next_step_id job_ptr >=? STEP_ID_LIMIT then
    info "job has reached step id limit" ;;
    ret (None, job_ptr)
  else
    let step_ptr := empty_step now in
    touch_last_job_update now ;;
    ret (Some step_ptr,
         Job.set_step_list (Job.step_list job_ptr ++ [step_ptr]) job_ptr).

(** The position of the first record with the given id: what the list
    iterator of delete_step_record stops at. *)
Fixpoint step_index (steps : list (Step.t G)) (step_id : Z) : option nat :=
  match steps with
  | [] => None
  | s :: rest =>
      if Step.step_id s =? step_id then Some 0%nat
      else option_map S (step_index rest step_id)
  end.

(** delete_step_record (step_mgr.c:193): remove the first record with
    this step id; ENOENT when there is none. What it tells the switch,
    port and checkpoint plugins about the removed record stays outside. *)
Definition delete_step_record (now : Z) (job_ptr : Job.t G) (step_id : Z)
  : M (slurm_rc * Job.t G) :=
  touch_last_job_update now ;;
  match step_index (Job.step_list job_ptr) step_id with
  | Some k =>
      ret (SLURM_SUCCESS,
           Job.set_step_list (delete k (Job.step_list job_ptr)) job_ptr)
  | None => ret (ENOENT, job_ptr)
  end.

(** find_step_record (step_mgr.c:264): the first record with this id, or
    the first record at all when step_id is NO_VAL. The pointer it
    returns is the position of the record in the list. *)
Fixpoint find_step_record (steps : list (Step.t G)) (step_id : Z)
  : option nat :=
  match steps with
  | [] => None
  | s :: rest =>
      if (Step.step_id s =? step_id) || (step_id =? NO_VAL) then Some 0%nat
      else option_map S (find_step_record rest step_id)
  end.

(** find_job_record (job_mgr.c, not part of the sources): the position of
    the job with this id in the job table. *)
Fixpoint find_job_record (jobs : list (Job.t G)) (job_id : Z) : option nat :=
  match jobs with
  | [] => None
  | j :: rest =>
      if Job.job_id j =? job_id then Some 0%nat
      else option_map S (find_job_record rest job_id)
  end.

(** ** Resource accounting: deallocation *)

(** Lines 1361-1381 of _step_dealloc_lps: give back the CPUs and the
    memory of one node, at index [job_node_inx] of the job's arrays.
    [cpus_alloc] is an int; cpus_used[] is compared with it as an int and
    stored back as a uint16_t; mem_use is the uint32_t product. *)
Definition dealloc_node (step_ptr : Step.t G) (job_node_inx cpus_alloc : Z)
  (job_resrcs_ptr : Res.t) : M Res.t :=
  used <- array_get (Res.cpus_used job_resrcs_ptr) job_node_inx ;;
  cpus_used' <-
    (if used >=? cpus_alloc then
       array_set (Res.cpus_used job_resrcs_ptr) job_node_inx
                 (u16 (used - cpus_alloc))
     else
       error "_step_dealloc_lps: cpu underflow" ;;
       array_set (Res.cpus_used job_resrcs_ptr) job_node_inx 0) ;;
  let res1 := Res.set_cpus_used cpus_used' job_resrcs_ptr in
  if negb (Step.mem_per_cpu step_ptr =? 0) && _is_mem_resv then
    let mem_use := u32 (Step.mem_per_cpu step_ptr * cpus_alloc) in
    memory_used <- deref (Res.memory_used res1) ;;
    mused <- array_get memory_used job_node_inx ;;
    memory_used' <-
      (if mused >=? mem_use then
         array_set memory_used job_node_inx (mused - mem_use)
       else
         error "_step_dealloc_lps: mem underflow" ;;
         array_set memory_used job_node_inx 0) ;;
    ret (Res.set_memory_used (Some memory_used') res1)
  else ret res1.

(** The node loop of _step_dealloc_lps (lines 1352-1390) over the indices
    still to visit; [job_node_inx] and [step_node_inx] are the counters
    before the node is looked at. *)
Fixpoint dealloc_loop (step_ptr : Step.t G) (layout : Layout.t)
  (nodes : list nat) (job_node_inx step_node_inx : Z)
  (job_resrcs_ptr : Res.t) : M Res.t :=
  match nodes with
  | [] => ret job_resrcs_ptr
  | i_node :: rest =>
      if negb (bit_test (Res.node_bitmap job_resrcs_ptr) i_node) then
        dealloc_loop step_ptr layout rest job_node_inx step_node_inx
                     job_resrcs_ptr
      else
        let job_node_inx := job_node_inx + 1 in
        if negb (bit_test (Step.step_node_bitmap step_ptr) i_node) then
          dealloc_loop step_ptr layout rest job_node_inx step_node_inx
                       job_resrcs_ptr
        else
          let step_node_inx := step_node_inx + 1 in
          if job_node_inx >=? Res.nhosts job_resrcs_ptr then
            fatal "_step_dealloc_lps: node index bad"
          else
            tasks <- array_get (Layout.tasks layout) step_node_inx ;;
            let cpus_alloc := i32 (tasks * Step.cpus_per_task step_ptr) in
            res' <- dealloc_node step_ptr job_node_inx cpus_alloc
                                 job_resrcs_ptr ;;
            if u32 step_node_inx =? u32 (Layout.node_cnt layout - 1) then
              ret res'
            else
              dealloc_loop step_ptr layout rest job_node_inx step_node_inx
                           res'
  end.

(** _step_dealloc_lps (step_mgr.c:1324). The step and the job's resources
    are both written; the step's core bitmap is freed at the end. *)
Definition _step_dealloc_lps (step_ptr : Step.t G) (job_ptr : Job.t G)
  : M (Step.t G * Job.t G) :=
  let job_resrcs_ptr := Job.job_resrcs job_ptr in
  match Step.step_layout step_ptr with
  | None => ret (step_ptr, job_ptr)        (* batch step *)
  | Some layout =>
      let i_first := bit_ffs (Res.node_bitmap job_resrcs_ptr) in
      let i_last := bit_fls (Res.node_bitmap job_resrcs_ptr) in
      if i_first =? -1 then ret (step_ptr, job_ptr)   (* empty bitmap *)
      else
        step1 <-
          (if negb (Step.mem_per_cpu step_ptr =? 0) && _is_mem_resv &&
              (negb (is_Some_b (Res.memory_allocated job_resrcs_ptr)) ||
               negb (is_Some_b (Res.memory_used job_resrcs_ptr)))
           then
             error "_step_dealloc_lps: lack memory allocation details" ;;
             ret (Step.set_mem_per_cpu 0 step_ptr)
           else ret step_ptr) ;;
        res1 <- dealloc_loop step1 layout (range_incl i_first i_last)
                             (-1) (-1) job_resrcs_ptr ;;
        if Conf.have_bg conf then
          ret (step1, Job.set_job_resrcs res1 job_ptr)
        else
          match Step.core_bitmap_job step1 with
          | Some core_bitmap_job =>
              (* Mark the job's cores as no longer in use *)
              let res2 :=
                Res.set_core_bitmap_used
                  (bit_and (Res.core_bitmap_used res1)
                           (bit_not core_bitmap_job)) res1 in
              ret (Step.set_core_bitmap_job None step1,
                   Job.set_job_resrcs res2 job_ptr)
          | None => ret (step1, Job.set_job_resrcs res1 job_ptr)
          end
  end.

(** ** Step completion *)

(** job_step_complete (step_mgr.c:440) on the job table [jobs]. The
    record found by find_step_record is written back at its position
    before delete_step_record looks the id up again. The requeue flag and
    the job return code are not used by the function. *)
Definition job_step_complete (now : Z) (jobs : list (Job.t G))
  (job_id step_id uid : Z) : M (slurm_rc * list (Job.t G)) :=
  match find_job_record jobs job_id with
  | None =>
      info "job_step_complete: invalid job id" ;;
      ret (ESLURM_INVALID_JOB_ID, jobs)
  | Some jk =>
      job_ptr <- deref (jobs !! jk) ;;
      if negb (Job.user_id job_ptr =? uid) && negb (uid =? 0) &&
         negb (uid =? Plug.getuid plug) then
        error "Security violation, JOB_COMPLETE RPC" ;;
        ret (ESLURM_USER_ID_MISSING, jobs)
      else
        match find_step_record (Job.step_list job_ptr) step_id with
        | None => ret (ESLURM_INVALID_JOB_ID, jobs)
        | Some sk =>
            step_ptr <- deref (Job.step_list job_ptr !! sk) ;;
            let job1 :=
              Job.set_derived_ec
                (MAX (Job.derived_ec job_ptr) (Step.exit_code step_ptr))
                job_ptr in
            do (step1, job2) <- _step_dealloc_lps step_ptr job1 ;;
            let '(step_gres, job_gres) :=
              Plug.gres_plugin_step_dealloc plug (Step.gres_list step1)
                                            (Job.gres_list job2) in
            let step2 := Step.set_gres_list step_gres step1 in
            let job3 :=
              Job.set_step_list (<[ sk := step2 ]> (Job.step_list job2))
                                (Job.set_gres_list job_gres job2) in
            touch_last_job_update now ;;
            do (error_code, job4) <- delete_step_record now job3 step_id ;;
            match error_code with
            | ENOENT =>
                info "job_step_complete step not found" ;;
                ret (ESLURM_ALREADY_DONE, <[ jk := job4 ]> jobs)
            | _ => ret (SLURM_SUCCESS, <[ jk := job4 ]> jobs)
            end
        end
  end.

(** ** Core picker *)

(** The (core_inx, sock_inx) pairs in the order of the first pair of
    loops of _pick_step_cores: cores outside, sockets inside. *)
Definition core_sock_pairs (core_order : list Z) (sockets : Z)
  : list (Z * Z) :=
  flat_map (fun core_inx =>
              map (fun s => (core_inx, Z.of_nat s)) (seq 0 (Z.to_nat sockets)))
           core_order.

(** The state of the first pass: whether the function has returned,
    cpu_cnt, the job's resources (core_bitmap_used is written) and the
    step's core_bitmap_job. *)
Definition pass_state : Type := bool * Z * Res.t * bitstr.

(** First pass, lines 1137-1161: select idle cores first. *)
Fixpoint pick_idle_cores (job_node_inx : Z) (use_all_cores : bool)
  (pairs : list (Z * Z)) (cpu_cnt : Z) (job_resrcs_ptr : Res.t)
  (stepb : bitstr) : M pass_state :=
  match pairs with
  | [] => ret (false, cpu_cnt, job_resrcs_ptr, stepb)
  | (core_inx, sock_inx) :: rest =>
      let bit_offset :=
        Plug.get_job_resources_offset plug job_resrcs_ptr job_node_inx
                                      sock_inx core_inx in
      if bit_offset <? 0 then fatal "get_job_resources_offset"
      else
        let o := Z.to_nat bit_offset in
        if negb (bit_test (Res.core_bitmap job_resrcs_ptr) o) then
          pick_idle_cores job_node_inx use_all_cores rest cpu_cnt
                          job_resrcs_ptr stepb
        else if negb use_all_cores &&
                bit_test (Res.core_bitmap_used job_resrcs_ptr) o then
          pick_idle_cores job_node_inx use_all_cores rest cpu_cnt
                          job_resrcs_ptr stepb
        else
          let res' :=
            Res.set_core_bitmap_used
              (bit_set (Res.core_bitmap_used job_resrcs_ptr) o)
              job_resrcs_ptr in
          let stepb := bit_set stepb o in
          let cpu_cnt := i32 (cpu_cnt - 1) in
          if cpu_cnt =? 0 then ret (true, cpu_cnt, res', stepb)
          else pick_idle_cores job_node_inx use_all_cores rest cpu_cnt
                               res' stepb
  end.

(** Second pass, lines 1170-1191: over-subscribe cores the step does not
    hold yet; only the step's bitmap is written. *)
Fixpoint pick_busy_cores (job_resrcs_ptr : Res.t) (job_node_inx : Z)
  (pairs : list (Z * Z)) (cpu_cnt : Z) (stepb : bitstr)
  : M (Z * bitstr) :=
  match pairs with
  | [] => ret (cpu_cnt, stepb)
  | (core_inx, sock_inx) :: rest =>
      let bit_offset :=
        Plug.get_job_resources_offset plug job_resrcs_ptr job_node_inx
                                      sock_inx core_inx in
      if bit_offset <? 0 then fatal "get_job_resources_offset"
      else
        let o := Z.to_nat bit_offset in
        if negb (bit_test (Res.core_bitmap job_resrcs_ptr) o) then
          pick_busy_cores job_resrcs_ptr job_node_inx rest cpu_cnt stepb
        else if bit_test stepb o then      (* already taken by this step *)
          pick_busy_cores job_resrcs_ptr job_node_inx rest cpu_cnt stepb
        else
          let stepb := bit_set stepb o in
          let cpu_cnt := i32 (cpu_cnt - 1) in
          if cpu_cnt =? 0 then ret (cpu_cnt, stepb)
          else pick_busy_cores job_resrcs_ptr job_node_inx rest cpu_cnt stepb
  end.

(** use_all_cores, as line 1129 computes it. *)
Definition use_all_cores_of (task_cnt sockets cores : Z) : bool :=
  task_cnt =? cores * sockets.

(** cpu_cnt, as lines 1118 and 1133-1134 compute it. *)
Definition cpu_cnt_of (step_ptr : Step.t G) (task_cnt : Z) : Z :=
  if Step.cpus_per_task step_ptr >? 0
  then i32 (task_cnt * Step.cpus_per_task step_ptr)
  else task_cnt.

Definition cores_from (first count : Z) : list Z :=
  map (fun i => Z.rem (first + Z.of_nat i) count) (seq 0 (Z.to_nat count)).

(** _pick_step_cores (step_mgr.c:1112): add [task_cnt] tasks on job node
    [job_node_inx] to the step's and the job's core bitmaps. *)
Definition _pick_step_cores (step_ptr : Step.t G) (job_resrcs_ptr : Res.t)
  (job_node_inx task_cnt : Z) : M (Step.t G * Res.t) :=
  let stepb :=
    match Step.core_bitmap_job step_ptr with
    | Some b => b
    | None => bit_alloc (bit_size (Res.core_bitmap job_resrcs_ptr))
    end in
  match Plug.get_job_resources_cnt plug job_resrcs_ptr job_node_inx with
  | None => fatal "get_job_resources_cnt"
  | Some (sockets, cores) =>
      let use_all_cores := use_all_cores_of task_cnt sockets cores in
      let cpu_cnt := cpu_cnt_of step_ptr task_cnt in
      do (returned, cpu_cnt, res1, stepb) <-
        pick_idle_cores job_node_inx use_all_cores
          (core_sock_pairs (map Z.of_nat (seq 0 (Z.to_nat cores))) sockets)
          cpu_cnt job_resrcs_ptr stepb ;;
      if returned || use_all_cores then
        ret (Step.set_core_bitmap_job (Some stepb) step_ptr, res1)
      else
        verbose "job step needs to over-subscribe cores" ;;
        if cores =? 0 then fatal "integer division by zero"
        else
          last <- (fun g => Ok (Z.rem (Glob.last_core_inx g + 1) cores)
                               (Glob.set_last_core_inx
                                  (Z.rem (Glob.last_core_inx g + 1) cores) g)) ;;
          do (_, stepb) <-
            pick_busy_cores res1 job_node_inx
              (core_sock_pairs (cores_from last cores) sockets)
              cpu_cnt stepb ;;
          ret (Step.set_core_bitmap_job (Some stepb) step_ptr, res1)
  end.

(** ** Resource accounting: allocation *)

(** The node loop of step_alloc_lps (lines 1243-1280). *)
Fixpoint alloc_loop (pick_step_cores : bool) (layout : Layout.t)
  (nodes : list nat) (job_node_inx step_node_inx : Z)
  (step_ptr : Step.t G) (job_ptr : Job.t G) : M (Step.t G * Job.t G) :=
  match nodes with
  | [] => ret (step_ptr, job_ptr)
  | i_node :: rest =>
      let job_resrcs_ptr := Job.job_resrcs job_ptr in
      if negb (bit_test (Res.node_bitmap job_resrcs_ptr) i_node) then
        alloc_loop pick_step_cores layout rest job_node_inx step_node_inx
                   step_ptr job_ptr
      else
        let job_node_inx := job_node_inx + 1 in
        if negb (bit_test (Step.step_node_bitmap step_ptr) i_node) then
          alloc_loop pick_step_cores layout rest job_node_inx step_node_inx
                     step_ptr job_ptr
        else
          let step_node_inx := step_node_inx + 1 in
          if job_node_inx >=? Res.nhosts job_resrcs_ptr then
            fatal "step_alloc_lps: node index bad"
          else
            tasks <- array_get (Layout.tasks layout) step_node_inx ;;
            let cpus_alloc := i32 (tasks * Step.cpus_per_task step_ptr) in
            used <- array_get (Res.cpus_used job_resrcs_ptr) job_node_inx ;;
            cpus_used' <- array_set (Res.cpus_used job_resrcs_ptr)
                                    job_node_inx (u16 (used + cpus_alloc)) ;;
            let res1 := Res.set_cpus_used cpus_used' job_resrcs_ptr in
            let '(step_gres, job_gres) :=
              Plug.gres_plugin_step_alloc plug (Step.gres_list step_ptr)
                (Job.gres_list job_ptr) job_node_inx cpus_alloc in
            let step1 := Step.set_gres_list step_gres step_ptr in
            res2 <-
              (if negb (Step.mem_per_cpu step1 =? 0) && _is_mem_resv then
                 memory_used <- deref (Res.memory_used res1) ;;
                 mused <- array_get memory_used job_node_inx ;;
                 memory_used' <-
                   array_set memory_used job_node_inx
                     (u32 (mused + Step.mem_per_cpu step1 * cpus_alloc)) ;;
                 ret (Res.set_memory_used (Some memory_used') res1)
               else ret res1) ;;
            do (step2, res3) <-
              (if pick_step_cores
               then _pick_step_cores step1 res2 job_node_inx tasks
               else ret (step1, res2)) ;;
            let job1 :=
              Job.set_job_resrcs res3 (Job.set_gres_list job_gres job_ptr) in
            if u32 step_node_inx =? u32 (Layout.node_cnt layout - 1) then
              ret (step2, job1)
            else
              alloc_loop pick_step_cores layout rest job_node_inx
                         step_node_inx step2 job1
  end.

(** step_alloc_lps (step_mgr.c:1196): debit the CPUs, the memory and the
    cores of a new step. *)
Definition step_alloc_lps (step_ptr : Step.t G) (job_ptr : Job.t G)
  : M (Step.t G * Job.t G) :=
  let job_resrcs_ptr := Job.job_resrcs job_ptr in
  match Step.step_layout step_ptr with
  | None => ret (step_ptr, job_ptr)        (* batch step *)
  | Some layout =>
      let i_first := bit_ffs (Res.node_bitmap job_resrcs_ptr) in
      let i_last := bit_fls (Res.node_bitmap job_resrcs_ptr) in
      if i_first =? -1 then ret (step_ptr, job_ptr)   (* empty bitmap *)
      else
        let '(pick_step_cores, step1) :=
          if Conf.have_bg conf then (false, step_ptr)
          else if is_Some_b (Step.core_bitmap_job step_ptr) then
            (false, step_ptr)        (* "scontrol reconfig" of live system *)
          else if (Step.exclusive step_ptr =? 0) ||
                  (Step.cpu_count step_ptr =? Job.total_cpus job_ptr) then
            (* Step uses all of job's cores *)
            (false,
             Step.set_core_bitmap_job
               (Some (bit_copy (Res.core_bitmap job_resrcs_ptr))) step_ptr)
          else (true, step_ptr) in
        step2 <-
          (if negb (Step.mem_per_cpu step1 =? 0) && _is_mem_resv &&
              (negb (is_Some_b (Res.memory_allocated job_resrcs_ptr)) ||
               negb (is_Some_b (Res.memory_used job_resrcs_ptr)))
           then
             error "step_alloc_lps: lack memory allocation details" ;;
             ret (Step.set_mem_per_cpu 0 step1)
           else ret step1) ;;
        alloc_loop pick_step_cores layout (range_incl i_first i_last)
                   (-1) (-1) step2 job_ptr
  end.

(** ** Node picker *)

(** What _pick_step_nodes hands back: the picked bitmap (NULL on error),
    *return_code, and the request and the job as it leaves them. *)
Definition pick_result : Type :=
  (option bitstr * slurm_rc * Req.t * Job.t G)%type.

(** Lines 539-566: before the first step of a job, wait for the prolog
    and for nodes that are powering up. [Some rc] is an early return. *)
Fixpoint first_step_nodes_ready (nodes : list nat) (node_bitmap : bitstr)
  : M bool :=
  match nodes with
  | [] => ret true
  | i :: rest =>
      if negb (bit_test node_bitmap i) then
        first_step_nodes_ready rest node_bitmap
      else
        node_ptr <- deref (Cluster.node_record_table cluster !! i) ;;
        if Node.power_save node_ptr || Node.no_respond node_ptr then
          ret false
        else first_step_nodes_ready rest node_bitmap
  end.

(** The job as the failed check leaves it (lines 557-560): its end time
    is moved to allow for node boot time. *)
Definition extend_end_time (now : Z) (job_ptr : Job.t G) : Job.t G :=
  if negb (Job.time_limit job_ptr =? INFINITE) then
    Job.set_end_time (now + u32 (Job.time_limit job_ptr * 60)) job_ptr
  else job_ptr.

Definition first_step_check (now : Z) (job_ptr : Job.t G)
  (node_bitmap : bitstr) : M (option slurm_rc * Job.t G) :=
  if Job.next_step_id job_ptr =? 0 then
    if match Job.details job_ptr with
       | Some prolog_running => prolog_running
       | None => false
       end
    then ret (Some ESLURM_PROLOG_RUNNING, job_ptr)
    else
      ready <- first_step_nodes_ready
                 (range_incl (bit_ffs node_bitmap)
                    (Z.of_nat (Cluster.node_record_count cluster) - 1))
                 node_bitmap ;;
      if ready then
        ret (None,
             Job.set_job_state
               (Z.ldiff (Job.job_state job_ptr) JOB_CONFIGURING) job_ptr)
      else ret (Some ESLURM_NODES_BUSY, extend_end_time now job_ptr)
  else ret (None, job_ptr).

(** Exclusive mode, lines 616-658: the tasks one node can take now
    (avail_tasks) and at best (total_tasks), both ints. [None] is a read
    outside the job's arrays. *)
Definition excl_node_tasks (job_ptr : Job.t G) (step_spec : Req.t)
  (step_gres_list : option G) (cpus_per_task node_inx : Z)
  : option (Z * Z) :=
  let job_resrcs_ptr := Job.job_resrcs job_ptr in
  cpus ← Res.cpus job_resrcs_ptr !! Z.to_nat node_inx;
  cpus_used ← Res.cpus_used job_resrcs_ptr !! Z.to_nat node_inx;
  let avail_cpus := cpus - cpus_used in
  let total_cpus := cpus in
  let '(avail_tasks, total_tasks) :=
    if cpus_per_task >? 0
    then (Z.quot avail_cpus cpus_per_task, Z.quot total_cpus cpus_per_task)
    else (i32 (Req.num_tasks step_spec), i32 (Req.num_tasks step_spec)) in
  '(avail_tasks, total_tasks) ←
    (if negb (Req.mem_per_cpu step_spec =? 0) then
       memory_allocated ← Res.memory_allocated job_resrcs_ptr;
       memory_used ← Res.memory_used job_resrcs_ptr;
       mem_alloc ← memory_allocated !! Z.to_nat node_inx;
       mem_used ← memory_used !! Z.to_nat node_inx;
       let avail_mem := u32 (mem_alloc - mem_used) in
       let task_cnt := i32 (avail_mem / Req.mem_per_cpu step_spec) in
       let task_cnt :=
         if cpus_per_task >? 0 then Z.quot task_cnt cpus_per_task
         else task_cnt in
       let avail_tasks := MIN avail_tasks task_cnt in
       let total_mem := mem_alloc in
       let task_cnt := i32 (total_mem / Req.mem_per_cpu step_spec) in
       let task_cnt :=
         if cpus_per_task >? 0 then Z.quot task_cnt cpus_per_task
         else task_cnt in
       Some (avail_tasks, MIN total_tasks task_cnt)
     else Some (avail_tasks, total_tasks));
  let gres_cnt :=
    Plug.gres_plugin_step_test plug step_gres_list (Job.gres_list job_ptr)
                               node_inx false in
  let gres_cnt :=
    if cpus_per_task >? 0 then gres_cnt / cpus_per_task else gres_cnt in
  let avail_tasks := MIN_int_u32 avail_tasks gres_cnt in
  let gres_cnt :=
    Plug.gres_plugin_step_test plug step_gres_list (Job.gres_list job_ptr)
                               node_inx true in
  let gres_cnt :=
    if cpus_per_task >? 0 then gres_cnt / cpus_per_task else gres_cnt in
  let total_tasks := MIN_int_u32 total_tasks gres_cnt in
  Some (avail_tasks, total_tasks).

(** One turn of the loop at lines 610-675 for node [i]. *)
Definition excl_step (job_ptr : Job.t G) (step_spec : Req.t)
  (step_gres_list : option G) (cpus_per_task : Z)
  (selected_nodes : option bitstr) (st : Excl.t) (i : nat)
  : option Excl.t :=
  if negb (bit_test (Res.node_bitmap (Job.job_resrcs job_ptr)) i) then Some st
  else
    let node_inx := Excl.node_inx st + 1 in
    if negb (bit_test (Excl.nodes_avail st) i) then    (* node now DOWN *)
      Some (Excl.mk node_inx (Excl.nodes_avail st) (Excl.nodes_picked_cnt st)
                    (Excl.tasks_picked_cnt st) (Excl.total_task_cnt st))
    else
      '(avail_tasks, total_tasks) ←
        excl_node_tasks job_ptr step_spec step_gres_list cpus_per_task
                        node_inx;
      if negb (Req.max_nodes step_spec =? 0) &&
         (Excl.nodes_picked_cnt st >=? Req.max_nodes step_spec) then
        Some (Excl.mk node_inx (bit_clear (Excl.nodes_avail st) i)
                      (Excl.nodes_picked_cnt st) (Excl.tasks_picked_cnt st)
                      (Excl.total_task_cnt st))
      else if (avail_tasks <=? 0) ||
              (negb (is_Some_b selected_nodes) &&
               (Excl.nodes_picked_cnt st >=? Req.min_nodes step_spec) &&
               (Excl.tasks_picked_cnt st >? 0) &&
               (Excl.tasks_picked_cnt st >=? Req.num_tasks step_spec)) then
        Some (Excl.mk node_inx (bit_clear (Excl.nodes_avail st) i)
                      (Excl.nodes_picked_cnt st) (Excl.tasks_picked_cnt st)
                      (u32 (Excl.total_task_cnt st + total_tasks)))
      else
        Some (Excl.mk node_inx (Excl.nodes_avail st)
                      (u32 (Excl.nodes_picked_cnt st + 1))
                      (u32 (Excl.tasks_picked_cnt st + avail_tasks))
                      (u32 (Excl.total_task_cnt st + total_tasks))).

Fixpoint excl_loop (job_ptr : Job.t G) (step_spec : Req.t)
  (step_gres_list : option G) (cpus_per_task : Z)
  (selected_nodes : option bitstr) (nodes : list nat) (st : Excl.t)
  : option Excl.t :=
  match nodes with
  | [] => Some st
  | i :: rest =>
      st' ← excl_step job_ptr step_spec step_gres_list cpus_per_task
                      selected_nodes st i;
      excl_loop job_ptr step_spec step_gres_list cpus_per_task
                selected_nodes rest st'
  end.

(** Lines 579-605: the named nodes of an exclusive step. [inl tt] stands
    for goto cleanup. *)
Definition excl_selected_nodes (job_node_bitmap : bitstr)
  (step_spec : Req.t) : M (unit + option bitstr) :=
  match Req.node_list step_spec with
  | None => ret (inr None)
  | Some node_list =>
      match Plug.node_name2bitmap plug node_list with
      | None =>
          info "_pick_step_nodes: invalid node list" ;; ret (inl tt)
      | Some selected_nodes =>
          if negb (bit_super_set selected_nodes job_node_bitmap) then
            info "_pick_step_nodes: selected nodes not in job" ;;
            ret (inl tt)
          else if negb (bit_super_set selected_nodes
                          (Cluster.up_node_bitmap cluster)) then
            info "_pick_step_nodes: selected nodes are DOWN" ;;
            ret (inl tt)
          else ret (inr (Some selected_nodes))
      end
  end.

(** Lines 677-693: the verdict of exclusive mode from the counters. *)
Definition excl_verdict (step_spec : Req.t) (selected_nodes : option bitstr)
  (st : Excl.t) : option bitstr * slurm_rc :=
  let tasks_picked_cnt :=
    match selected_nodes with
    | Some sel =>
        if negb (bit_equal sel (Excl.nodes_avail st)) then 0
          (* some required nodes have no available processors,
             defer request *)
        else Excl.tasks_picked_cnt st
    | None => Excl.tasks_picked_cnt st
    end in
  if tasks_picked_cnt >=? Req.num_tasks step_spec then
    (Some (Excl.nodes_avail st), SLURM_SUCCESS)
  else if Excl.total_task_cnt st >=? Req.num_tasks step_spec then
    (None, ESLURM_NODES_BUSY)
  else (None, ESLURM_REQUESTED_NODE_CONFIG_UNAVAILABLE).

(** The exclusive branch, lines 571-694. *)
Definition pick_exclusive (job_ptr : Job.t G) (job_node_bitmap : bitstr)
  (step_spec : Req.t) (step_gres_list : option G) (cpus_per_task : Z)
  (nodes_avail : bitstr) : M (option bitstr * slurm_rc) :=
  sel <- excl_selected_nodes job_node_bitmap step_spec ;;
  match sel with
  | inl _ => ret (None, ESLURM_REQUESTED_NODE_CONFIG_UNAVAILABLE)
  | inr selected_nodes =>
      let node_bitmap := Res.node_bitmap (Job.job_resrcs job_ptr) in
      match excl_loop job_ptr step_spec step_gres_list cpus_per_task
              selected_nodes
              (range_incl (bit_ffs node_bitmap) (bit_fls node_bitmap))
              (Excl.mk (-1) nodes_avail 0 0 0) with
      | None => fatal "array index out of bounds"
      | Some st => ret (excl_verdict step_spec selected_nodes st)
      end
  end.

(** _count_cpus (step_mgr.c:1069): the CPUs of the job on the nodes of
    [bitmap], an int. The job of the model always has its resources, so
    only the first branch of the function is there. *)
Fixpoint count_cpus_loop (job_ptr : Job.t G) (job_node_bitmap bitmap : bitstr)
  (usable_cpu_cnt : option (list Z)) (nodes : list nat) (node_inx sum : Z)
  : M Z :=
  match nodes with
  | [] => ret sum
  | i :: rest =>
      if negb (bit_test (Res.node_bitmap (Job.job_resrcs job_ptr)) i) then
        count_cpus_loop job_ptr job_node_bitmap bitmap usable_cpu_cnt rest
                        node_inx sum
      else
        let node_inx := node_inx + 1 in
        if negb (bit_test job_node_bitmap i) || negb (bit_test bitmap i) then
          (* absent from current job or step bitmap *)
          count_cpus_loop job_ptr job_node_bitmap bitmap usable_cpu_cnt rest
                          node_inx sum
        else
          c <- match usable_cpu_cnt with
               | Some usable => array_get usable (Z.of_nat i)
               | None =>
                   array_get (Res.cpus (Job.job_resrcs job_ptr)) (node_inx - 1)
               end ;;
          count_cpus_loop job_ptr job_node_bitmap bitmap usable_cpu_cnt rest
                          node_inx (i32 (sum + c))
  end.

Definition _count_cpus (job_ptr : Job.t G) (job_node_bitmap bitmap : bitstr)
  (usable_cpu_cnt : option (list Z)) : M Z :=
  count_cpus_loop job_ptr job_node_bitmap bitmap usable_cpu_cnt
                  (seq 0 (Cluster.node_record_count cluster)) 0 0.

(** One turn of that loop; [inl rc] is the early return of lines
    758-765. *)
Definition usable_step (job_ptr : Job.t G) (step_spec : Req.t)
  (step_gres_list : option G) (cpus_per_task : Z) (st : Usable.t) (i : nat)
  : M (slurm_rc + Usable.t) :=
  let job_resrcs_ptr := Job.job_resrcs job_ptr in
  if negb (bit_test (Res.node_bitmap job_resrcs_ptr) i) then ret (inr st)
  else
    let node_inx := Usable.node_inx st + 1 in
    if negb (bit_test (Usable.nodes_avail st) i) then    (* node now DOWN *)
      ret (inr (Usable.mk node_inx (Usable.nodes_avail st)
                  (Usable.usable_cpu_cnt st) (Usable.fail_mode st)
                  (Usable.mem_blocked_nodes st) (Usable.mem_blocked_cpus st)))
    else
      total_cpus <- array_get (Res.cpus job_resrcs_ptr) node_inx ;;
      let avail_cpus := total_cpus in
      usable <- array_set (Usable.usable_cpu_cnt st) (Z.of_nat i) avail_cpus ;;
      let fail_mode := Usable.fail_mode st in
      do (total_cpus, avail_cpus, usable, fail_mode) <-
        (if negb (Req.mem_per_cpu step_spec =? 0) then
           memory_allocated <- deref (Res.memory_allocated job_resrcs_ptr) ;;
           memory_used <- deref (Res.memory_used job_resrcs_ptr) ;;
           (* ignore current step allocations *)
           tmp_mem <- array_get memory_allocated node_inx ;;
           let tmp_cpus := tmp_mem / Req.mem_per_cpu step_spec in
           let total_cpus := MIN total_cpus tmp_cpus in
           (* consider current step allocations *)
           mem_used <- array_get memory_used node_inx ;;
           let tmp_mem := u32 (tmp_mem - mem_used) in
           let tmp_cpus := tmp_mem / Req.mem_per_cpu step_spec in
           if tmp_cpus <? avail_cpus then
             usable' <- array_set usable (Z.of_nat i) tmp_cpus ;;
             ret (total_cpus, tmp_cpus, usable', ESLURM_INVALID_TASK_MEMORY)
           else ret (total_cpus, avail_cpus, usable, fail_mode)
         else ret (total_cpus, avail_cpus, usable, fail_mode)) ;;
      do (total_cpus, avail_cpus, usable, fail_mode) <-
        (if is_Some_b (Req.gres step_spec) then
           (* ignore current step allocations *)
           let tmp_cpus :=
             Plug.gres_plugin_step_test plug step_gres_list
               (Job.gres_list job_ptr) node_inx true in
           let total_cpus := MIN total_cpus tmp_cpus in
           (* consider current step allocations *)
           let tmp_cpus :=
             Plug.gres_plugin_step_test plug step_gres_list
               (Job.gres_list job_ptr) node_inx false in
           if tmp_cpus <? avail_cpus then
             usable' <- array_set usable (Z.of_nat i) tmp_cpus ;;
             ret (total_cpus, tmp_cpus, usable', ESLURM_INVALID_GRES)
           else ret (total_cpus, avail_cpus, usable, fail_mode)
         else ret (total_cpus, avail_cpus, usable, fail_mode)) ;;
      let '(avail_tasks, total_tasks) :=
        if cpus_per_task >? 0
        then (avail_cpus / cpus_per_task, total_cpus / cpus_per_task)
        else (avail_cpus, total_cpus) in
      if avail_tasks =? 0 then
        if Req.min_nodes step_spec =? INFINITE then
          ret (inl (if total_tasks =? 0 then fail_mode
                    else ESLURM_NODES_BUSY))
        else
          ret (inr (Usable.mk node_inx
                      (bit_clear (Usable.nodes_avail st) i) usable fail_mode
                      (i32 (Usable.mem_blocked_nodes st + 1))
                      (i32 (Usable.mem_blocked_cpus st +
                            u32 (total_cpus - avail_cpus)))))
      else
        ret (inr (Usable.mk node_inx (Usable.nodes_avail st) usable fail_mode
                    (Usable.mem_blocked_nodes st)
                    (Usable.mem_blocked_cpus st))).

Fixpoint usable_loop (job_ptr : Job.t G) (step_spec : Req.t)
  (step_gres_list : option G) (cpus_per_task : Z) (nodes : list nat)
  (st : Usable.t) : M (slurm_rc + Usable.t) :=
  match nodes with
  | [] => ret (inr st)
  | i :: rest =>
      r <- usable_step job_ptr step_spec step_gres_list cpus_per_task st i ;;
      match r with
      | inl rc => ret (inl rc)
      | inr st' =>
          usable_loop job_ptr step_spec step_gres_list cpus_per_task rest st'
      end
  end.

(** goto cleanup (lines 1050-1057). *)
Definition cleanup (return_code : slurm_rc) : option bitstr * slurm_rc :=
  (None,
   if rc_is_success return_code
   then ESLURM_REQUESTED_NODE_CONFIG_UNAVAILABLE
   else return_code).

(** The bitmaps the second half of _pick_step_nodes works on. *)
Definition pick_maps : Type :=
  (bitstr * option bitstr * option bitstr)%type.
  (* nodes_avail, nodes_idle, nodes_picked *)

(** Lines 778-868: seed nodes_picked from the named nodes. *)
Definition pick_named_nodes (job_node_bitmap : bitstr) (step_spec : Req.t)
  (nodes_avail : bitstr)
  : M ((option bitstr * slurm_rc) * Req.t + Req.t * bitstr * option bitstr) :=
  match Req.node_list step_spec with
  | None => ret (inr (step_spec, nodes_avail,
                      Some (bit_alloc (bit_size nodes_avail))))
  | Some node_list =>
      match Plug.node_name2bitmap plug node_list with
      | None =>
          info "_pick_step_nodes: invalid node list" ;;
          ret (inl (cleanup SLURM_SUCCESS, step_spec))
      | Some selected_nodes =>
          if negb (bit_super_set selected_nodes job_node_bitmap) then
            info "_pick_step_nodes: requested nodes not part of job" ;;
            ret (inl (cleanup SLURM_SUCCESS, step_spec))
          else if negb (bit_super_set selected_nodes nodes_avail) then
            info "_pick_step_nodes: requested nodes have inadequate memory" ;;
            ret (inl (cleanup ESLURM_INVALID_TASK_MEMORY, step_spec))
          else
            do (spec1, selected) <-
              match Req.task_dist step_spec with
              | SLURM_DIST_ARBITRARY =>
                  if String.eqb (Conf.switch_type conf) "switch/elan" then
                    info "Can't do an ARBITRARY task layout with switch type elan. Switching DIST type to BLOCK" ;;
                    ret (Req.set_min_nodes
                           (Z.of_nat (bit_set_count nodes_avail))
                           (Req.set_task_dist SLURM_DIST_BLOCK
                              (Req.set_node_list None step_spec)),
                         None)
                  else
                    ret (Req.set_min_nodes
                           (Z.of_nat (bit_set_count selected_nodes))
                           step_spec,
                         Some selected_nodes)
              | _ => ret (step_spec, Some selected_nodes)
              end ;;
            match selected with
            | None => ret (inr (spec1, nodes_avail, None))
            | Some selected_nodes =>
                let node_cnt :=
                  if negb (Req.min_nodes spec1 =? 0) ||
                     negb (Req.max_nodes spec1 =? 0)
                  then Z.of_nat (bit_set_count selected_nodes) else 0 in
                if negb (Req.max_nodes spec1 =? 0) &&
                   (node_cnt >? Req.max_nodes spec1) then
                  info "_pick_step_nodes: requested nodes exceed max node count" ;;
                  ret (inl (cleanup SLURM_SUCCESS, spec1))
                else if negb (Req.min_nodes spec1 =? 0) &&
                        (node_cnt >? Req.min_nodes spec1) then
                  ret (inr (spec1, selected_nodes,
                            Some (bit_alloc (bit_size nodes_avail))))
                else
                  ret (inr (spec1,
                            bit_and nodes_avail (bit_not selected_nodes),
                            Some (bit_copy selected_nodes)))
            end
      end
  end.

(** Lines 870-905: drop the first [relative] nodes, or else find the
    nodes no other step of the job uses. *)
Definition pick_relative_or_idle (job_ptr : Job.t G) (step_spec : Req.t)
  (nodes_avail : bitstr) : M (unit + bitstr * option bitstr) :=
  if negb (Req.relative step_spec =? NO_VAL16) then
    match bit_pick_cnt nodes_avail (Req.relative step_spec) with
    | None =>
        info "_pick_step_nodes: Invalid relative value" ;; ret (inl tt)
    | Some relative_nodes =>
        ret (inr (bit_and nodes_avail (bit_not relative_nodes), None))
    end
  else
    let nodes_idle :=
      fold_left (fun idle step_p => bit_or idle (Step.step_node_bitmap step_p))
                (Job.step_list job_ptr) (bit_alloc (bit_size nodes_avail)) in
    ret (inr (nodes_avail, Some (bit_and (bit_not nodes_idle) nodes_avail))).

(** Lines 920-936: on a homogeneous allocation a CPU count is turned
    into a node count. [inl] is the request with which the function gives
    up (too many CPUs for max_nodes). *)
Definition cpu_count_to_min_nodes (job_ptr : Job.t G) (step_spec : Req.t)
  : M (Req.t + Req.t) :=
  match Res.cpu_array_value (Job.job_resrcs job_ptr) with
  | Some cpu_array_value =>
      if negb (Req.cpu_count step_spec =? 0) &&
         (Res.cpu_array_cnt (Job.job_resrcs job_ptr) =? 1) then
        v0 <- array_get cpu_array_value 0 ;;
        if v0 =? 0 then fatal "integer division by zero"
        else
          let i := i32 (u32 (Req.cpu_count step_spec + (v0 - 1)) / v0) in
          let spec1 :=
            Req.set_min_nodes
              (if u32 i >? Req.min_nodes step_spec then u32 i
               else Req.min_nodes step_spec) step_spec in
          if negb (Req.max_nodes spec1 =? 0) &&
             (Req.max_nodes spec1 <? Req.min_nodes spec1) then
            info "Job step max node count incompatable with CPU count" ;;
            ret (inl spec1)
          else ret (inr spec1)
      else ret (inr step_spec)
  | None => ret (inr step_spec)
  end.

(** Lines 938-982: top nodes_picked up to min_nodes, from the idle nodes
    first. [inl rc] is goto cleanup with that *return_code. The second
    component of the result is nodes_picked_cnt. *)
Definition pick_min_nodes (job_node_bitmap : bitstr) (step_spec : Req.t)
  (mem_blocked_nodes : Z) (maps : pick_maps)
  : M (slurm_rc + pick_maps * Z) :=
  let '(nodes_avail, nodes_idle, nodes_picked) := maps in
  if Req.min_nodes step_spec =? 0 then ret (inr (maps, 0))
  else
    picked <- deref nodes_picked ;;
    let nodes_picked_cnt := Z.of_nat (bit_set_count picked) in
    r1 <-
      match nodes_idle with
      | Some idle =>
          if (Z.of_nat (bit_set_count idle) >=? Req.min_nodes step_spec) &&
             (Req.min_nodes step_spec >? u32 nodes_picked_cnt) then
            match bit_pick_cnt idle
                    (i32 (Req.min_nodes step_spec - nodes_picked_cnt)) with
            | None => ret (inl SLURM_SUCCESS)
            | Some node_tmp =>
                ret (inr (bit_and nodes_avail (bit_not node_tmp),
                          Some (bit_and idle (bit_not node_tmp)),
                          bit_or picked node_tmp,
                          i32 (Req.min_nodes step_spec)))
            end
          else ret (inr (nodes_avail, nodes_idle, picked, nodes_picked_cnt))
      | None => ret (inr (nodes_avail, nodes_idle, picked, nodes_picked_cnt))
      end ;;
    match r1 with
    | inl rc => ret (inl rc)
    | inr (nodes_avail, nodes_idle, picked, nodes_picked_cnt) =>
        if Req.min_nodes step_spec >? u32 nodes_picked_cnt then
          match bit_pick_cnt nodes_avail
                  (i32 (Req.min_nodes step_spec - nodes_picked_cnt)) with
          | None =>
              if Req.min_nodes step_spec <=?
                 u32 (i32 (Z.of_nat (bit_set_count nodes_avail) +
                           nodes_picked_cnt + mem_blocked_nodes)) then
                ret (inl ESLURM_NODES_BUSY)
              else if negb (bit_super_set job_node_bitmap
                              (Cluster.up_node_bitmap cluster)) then
                ret (inl ESLURM_NODE_NOT_AVAIL)
              else ret (inl SLURM_SUCCESS)
          | Some node_tmp =>
              ret (inr ((bit_and nodes_avail (bit_not node_tmp), nodes_idle,
                         Some (bit_or picked node_tmp)),
                        i32 (Req.min_nodes step_spec)))
          end
        else ret (inr ((nodes_avail, nodes_idle, Some picked),
                       nodes_picked_cnt))
    end.

(** The while loop at lines 993-1022: add nodes one at a time until the
    CPU count is reached. Every turn clears a bit of nodes_avail, so
    [fuel] turns are enough when [fuel] is the number of its set bits (see
    [add_nodes_loop_fuel]). The state is the request, nodes_avail,
    nodes_picked, nodes_picked_cnt and cpus_picked_cnt. *)
Definition add_state : Type := (Req.t * bitstr * bitstr * Z * Z)%type.

Fixpoint add_nodes_loop (fuel : nat) (job_ptr : Job.t G)
  (job_node_bitmap : bitstr) (usable_cpu_cnt : option (list Z))
  (st : add_state) : M add_state :=
  let '(step_spec, nodes_avail, nodes_picked, nodes_picked_cnt,
        cpus_picked_cnt) := st in
  match fuel with
  | O => ret st
  | S fuel' =>
      if negb (Req.cpu_count step_spec >? u32 cpus_picked_cnt) then ret st
      else
        match bit_pick_cnt nodes_avail 1 with
        | None => ret st
        | Some node_tmp =>
            cpu_cnt <- _count_cpus job_ptr job_node_bitmap node_tmp
                                   usable_cpu_cnt ;;
            if cpu_cnt =? 0 then
              (* Node not usable (memory insufficient to allocate any
                 CPUs, etc.) *)
              add_nodes_loop fuel' job_ptr job_node_bitmap usable_cpu_cnt
                (step_spec, bit_and nodes_avail (bit_not node_tmp),
                 nodes_picked, nodes_picked_cnt, cpus_picked_cnt)
            else
              let nodes_picked := bit_or nodes_picked node_tmp in
              let nodes_avail := bit_and nodes_avail (bit_not node_tmp) in
              let nodes_picked_cnt := i32 (nodes_picked_cnt + 1) in
              let step_spec :=
                if negb (Req.min_nodes step_spec =? 0)
                then Req.set_min_nodes (u32 nodes_picked_cnt) step_spec
                else step_spec in
              let cpus_picked_cnt := i32 (cpus_picked_cnt + cpu_cnt) in
              if negb (Req.max_nodes step_spec =? 0) &&
                 (u32 nodes_picked_cnt >=? Req.max_nodes step_spec) then
                ret (step_spec, nodes_avail, nodes_picked, nodes_picked_cnt,
                     cpus_picked_cnt)
              else
                add_nodes_loop fuel' job_ptr job_node_bitmap usable_cpu_cnt
                  (step_spec, nodes_avail, nodes_picked, nodes_picked_cnt,
                   cpus_picked_cnt)
        end
  end.

(** Lines 984-1048: make sure the picked nodes have enough CPUs, and
    return them. *)
Definition pick_cpu_count (job_ptr : Job.t G) (job_node_bitmap : bitstr)
  (step_spec : Req.t) (usable_cpu_cnt : option (list Z))
  (mem_blocked_cpus : Z) (maps : pick_maps) (nodes_picked_cnt : Z)
  : M (option bitstr * slurm_rc * Req.t) :=
  let '(nodes_avail, nodes_idle, nodes_picked) := maps in
  if Req.cpu_count step_spec =? 0 then
    ret (nodes_picked, SLURM_SUCCESS, step_spec)
  else
    picked <- deref nodes_picked ;;
    cpus_picked_cnt <- _count_cpus job_ptr job_node_bitmap picked
                                   usable_cpu_cnt ;;
    do (spec1, nodes_avail, picked, nodes_picked_cnt, cpus_picked_cnt) <-
      (if (Req.cpu_count step_spec >? u32 cpus_picked_cnt) &&
          ((Req.max_nodes step_spec =? 0) ||
           (Req.max_nodes step_spec >? u32 nodes_picked_cnt)) then
         (* Attempt to add more nodes to allocation *)
         add_nodes_loop (bit_set_count nodes_avail) job_ptr job_node_bitmap
           usable_cpu_cnt
           (step_spec, nodes_avail, picked,
            Z.of_nat (bit_set_count picked), cpus_picked_cnt)
       else
         ret (step_spec, nodes_avail, picked, nodes_picked_cnt,
              cpus_picked_cnt)) ;;
    (* user is requesting more cpus than we got from the picked nodes we
       should return with an error *)
    if Req.cpu_count spec1 >? u32 cpus_picked_cnt then
      if Req.cpu_count spec1 <=?
         u32 (i32 (cpus_picked_cnt + mem_blocked_cpus)) then
        ret (cleanup ESLURM_NODES_BUSY, spec1)
      else if negb (bit_super_set job_node_bitmap
                      (Cluster.up_node_bitmap cluster)) then
        ret (cleanup ESLURM_NODE_NOT_AVAIL, spec1)
      else ret (cleanup SLURM_SUCCESS, spec1)
    else ret (Some picked, SLURM_SUCCESS, spec1).

(** Lines 696-1048: the picker when the step is not exclusive. *)
Definition pick_shared (job_ptr : Job.t G) (job_node_bitmap : bitstr)
  (step_spec : Req.t) (step_gres_list : option G) (cpus_per_task : Z)
  (nodes_avail : bitstr) : M (option bitstr * slurm_rc * Req.t) :=
  let node_bitmap := Res.node_bitmap (Job.job_resrcs job_ptr) in
  r <-
    (if (negb (Req.mem_per_cpu step_spec =? 0) && _is_mem_resv) ||
        is_Some_b (Req.gres step_spec) then
       u <- usable_loop job_ptr step_spec step_gres_list cpus_per_task
              (range_incl (bit_ffs node_bitmap) (bit_fls node_bitmap))
              (Usable.mk (-1) nodes_avail
                 (replicate (Cluster.node_record_count cluster) 0)
                 ESLURM_INVALID_TASK_MEMORY 0 0) ;;
       match u with
       | inl rc => ret (inl rc)
       | inr st =>
           ret (inr (Usable.nodes_avail st, Some (Usable.usable_cpu_cnt st),
                     Usable.mem_blocked_nodes st, Usable.mem_blocked_cpus st))
       end
     else ret (inr (nodes_avail, None, 0, 0))) ;;
  match r with
  | inl rc => ret (None, rc, step_spec)
  | inr (nodes_avail, usable_cpu_cnt, mem_blocked_nodes, mem_blocked_cpus) =>
      if Req.min_nodes step_spec =? INFINITE then     (* use all nodes *)
        ret (Some nodes_avail, SLURM_SUCCESS, step_spec)
      else
        named <- pick_named_nodes job_node_bitmap step_spec nodes_avail ;;
        match named with
        | inl (res, spec1) => ret (res, spec1)
        | inr (spec1, nodes_avail, nodes_picked) =>
            rel <- pick_relative_or_idle job_ptr spec1 nodes_avail ;;
            match rel with
            | inl _ => ret (cleanup SLURM_SUCCESS, spec1)
            | inr (nodes_avail, nodes_idle) =>
                c <- cpu_count_to_min_nodes job_ptr spec1 ;;
                match c with
                | inl spec2 =>
                    ret (cleanup ESLURM_TOO_MANY_REQUESTED_CPUS, spec2)
                | inr spec2 =>
                    m <- pick_min_nodes job_node_bitmap spec2
                           mem_blocked_nodes
                           (nodes_avail, nodes_idle, nodes_picked) ;;
                    match m with
                    | inl rc => ret (cleanup rc, spec2)
                    | inr (maps, nodes_picked_cnt) =>
                        pick_cpu_count job_ptr job_node_bitmap spec2
                          usable_cpu_cnt mem_blocked_cpus maps
                          nodes_picked_cnt
                    end
                end
            end
        end
  end.

(** _pick_step_nodes (step_mgr.c:494). The batch_step argument is not
    used by the function. *)
Definition _pick_step_nodes (now : Z) (job_ptr : Job.t G)
  (step_spec : Req.t) (step_gres_list : option G) (cpus_per_task : Z)
  : M pick_result :=
  match Job.node_bitmap job_ptr with
  | None =>
      ret (None, ESLURM_REQUESTED_NODE_CONFIG_UNAVAILABLE, step_spec, job_ptr)
  | Some job_node_bitmap =>
      if negb (Req.max_nodes step_spec =? 0) &&
         (Req.max_nodes step_spec <? Req.min_nodes step_spec) then
        ret (None, ESLURM_INVALID_NODE_COUNT, step_spec, job_ptr)
      else
        let nodes_avail :=
          bit_and (bit_copy job_node_bitmap)
                  (Cluster.up_node_bitmap cluster) in
        spec1 <-
          (if negb (Req.mem_per_cpu step_spec =? 0) &&
              (negb (is_Some_b (Res.memory_allocated (Job.job_resrcs job_ptr)))
               || negb (is_Some_b (Res.memory_used (Job.job_resrcs job_ptr))))
           then
             error "_pick_step_nodes: job lacks memory allocation details to enforce memory limits" ;;
             ret (Req.set_mem_per_cpu 0 step_spec)
           else ret step_spec) ;;
        do (early, job1) <- first_step_check now job_ptr job_node_bitmap ;;
        match early with
        | Some rc => ret (None, rc, spec1, job1)
        | None =>
            if negb (Req.exclusive spec1 =? 0) then
              (* In exclusive mode, just satisfy the processor count. *)
              do (picked, rc) <-
                pick_exclusive job1 job_node_bitmap spec1 step_gres_list
                               cpus_per_task nodes_avail ;;
              ret (picked, rc, spec1, job1)
            else
              do (picked, rc, spec2) <-
                pick_shared job1 job_node_bitmap spec1 step_gres_list
                            cpus_per_task nodes_avail ;;
              ret (picked, rc, spec2, job1)
        end
  end.

(** ** Step layout *)

(** The loop of step_layout_create (lines 1754-1825) that builds the
    run-length arrays cpus_per_node[] / cpu_count_reps[]. The arrays are
    the lists built so far, last run first; [None] is return NULL. *)
Fixpoint layout_loop (step_ptr : Step.t G) (job_ptr : Job.t G)
  (job_node_bitmap : bitstr) (node_count : Z) (nodes : list nat)
  (job_node_offset set_nodes : Z) (runs : list (Z * Z))
  : M (option (list (Z * Z))) :=
  match nodes with
  | [] => ret (Some runs)
  | i :: rest =>
      let job_resrcs_ptr := Job.job_resrcs job_ptr in
      if negb (bit_test job_node_bitmap i) then
        layout_loop step_ptr job_ptr job_node_bitmap node_count rest
                    job_node_offset set_nodes runs
      else
        let job_node_offset := job_node_offset + 1 in
        if negb (bit_test (Step.step_node_bitmap step_ptr) i) then
          layout_loop step_ptr job_ptr job_node_bitmap node_count rest
                      job_node_offset set_nodes runs
        else
          (* find out the position in the job *)
          let pos := bit_get_pos_num (Res.node_bitmap job_resrcs_ptr) i in
          if pos =? -1 then ret None
          else if pos >=? Res.nhosts job_resrcs_ptr then
            fatal "step_layout_create: node index bad"
          else
            cpus <- array_get (Res.cpus job_resrcs_ptr) pos ;;
            usable_cpus <-
              (if negb (Step.exclusive step_ptr =? 0) then
                 used <- array_get (Res.cpus_used job_resrcs_ptr) pos ;;
                 ret (cpus - used)
               else ret cpus) ;;
            usable_cpus <-
              (if negb (Step.mem_per_cpu step_ptr =? 0) && _is_mem_resv then
                 memory_allocated <-
                   deref (Res.memory_allocated job_resrcs_ptr) ;;
                 memory_used <- deref (Res.memory_used job_resrcs_ptr) ;;
                 mem_alloc <- array_get memory_allocated pos ;;
                 mem_used <- array_get memory_used pos ;;
                 let usable_mem := i32 (mem_alloc - mem_used) in
                 let usable_mem :=
                   i32 (u32 usable_mem / Step.mem_per_cpu step_ptr) in
                 ret (MIN usable_cpus usable_mem)
               else ret usable_cpus) ;;
            let gres_cpus :=
              Plug.gres_plugin_step_test plug (Step.gres_list step_ptr)
                (Job.gres_list job_ptr) job_node_offset false in
            let usable_cpus := MIN_int_u32 usable_cpus gres_cpus in
            if usable_cpus <=? 0 then
              error "step_layout_create no usable cpus" ;; ret None
            else
              runs' <-
                match runs with
                | (cpus_per_node, reps) :: older =>
                    if negb (cpus_per_node =? usable_cpus) then
                      if node_count <=? Z.of_nat (length runs) then
                        fatal "cpus_per_node: array index out of bounds"
                      else ret ((u16 usable_cpus, 1) :: runs)
                    else ret ((cpus_per_node, u32 (reps + 1)) :: older)
                | [] =>
                    if node_count <=? 0 then
                      fatal "cpus_per_node: array index out of bounds"
                    else ret [(u16 usable_cpus, 1)]
                end ;;
              let set_nodes := set_nodes + 1 in
              if u32 set_nodes =? node_count then ret (Some runs')
              else
                layout_loop step_ptr job_ptr job_node_bitmap node_count rest
                            job_node_offset set_nodes runs'
  end.

(** step_layout_create (step_mgr.c:1720): the layout, NULL on failure,
    and the step, whose mem_per_cpu the function may clear. *)
Definition step_layout_create (step_ptr : Step.t G) (job_ptr : Job.t G)
  (step_node_list : string) (node_count num_tasks cpus_per_task : Z)
  (task_dist : task_dist_states) (plane_size : Z)
  : M (option Layout.t * Step.t G) :=
  let job_resrcs_ptr := Job.job_resrcs job_ptr in
  step1 <-
    (if negb (Step.mem_per_cpu step_ptr =? 0) && _is_mem_resv &&
        (negb (is_Some_b (Res.memory_allocated job_resrcs_ptr)) ||
         negb (is_Some_b (Res.memory_used job_resrcs_ptr)))
     then
       error "step_layout_create: lack memory allocation details to enforce memory limits" ;;
       ret (Step.set_mem_per_cpu 0 step_ptr)
     else ret step_ptr) ;;
  job_node_bitmap <- deref (Job.node_bitmap job_ptr) ;;
  (* build the cpus-per-node arrays for the subset of nodes used by this
     job step *)
  runs <- layout_loop step1 job_ptr job_node_bitmap node_count
            (range_incl (bit_ffs job_node_bitmap) (bit_fls job_node_bitmap))
            (-1) 0 [] ;;
  match runs with
  | None => ret (None, step1)
  | Some runs =>
      (* layout the tasks on the nodes *)
      ret (Plug.slurm_step_layout_create plug step_node_list
             (map fst (rev runs)) (map snd (rev runs)) node_count num_tasks
             cpus_per_task task_dist plane_size,
           step1)
  end.

(** ** Step creation *)

Definition IS_JOB_PENDING (job_ptr : Job.t G) : bool :=
  Z.land (Job.job_state job_ptr) JOB_STATE_BASE =? JOB_PENDING.
Definition IS_JOB_SUSPENDED (job_ptr : Job.t G) : bool :=
  Z.land (Job.job_state job_ptr) JOB_STATE_BASE =? JOB_SUSPENDED.
Definition IS_JOB_FINISHED (job_ptr : Job.t G) : bool :=
  Z.land (Job.job_state job_ptr) JOB_STATE_BASE >? JOB_SUSPENDED.

(** _test_strlen (step_mgr.c:1406): true when the string is too long. *)
Definition _test_strlen (test_str : option string) (max_str_len : Z) : bool :=
  let i := match test_str with
           | Some s => Z.of_nat (String.length s)
           | None => 0
           end in
  i >? max_str_len.

(** Lines 1448-1463: the checks on the job; [Some rc] is the error
    returned. *)
Definition step_create_job_checks (job_ptr : Job.t G) (step_specs : Req.t)
  : option slurm_rc :=
  if negb (is_Some_b (Job.details job_ptr)) || IS_JOB_SUSPENDED job_ptr then
    Some ESLURM_DISABLED
  else if IS_JOB_PENDING job_ptr then Some ESLURM_DUPLICATE_JOB_ID
  else if negb (Req.user_id step_specs =? Job.user_id job_ptr) then
    Some ESLURM_ACCESS_DENIED
  else None.

(** Lines 1472-1497: the checks on the end of the job and on the
    request. *)
Definition step_create_request_checks (now : Z) (job_ptr : Job.t G)
  (step_specs : Req.t) : option slurm_rc :=
  if IS_JOB_FINISHED job_ptr || (Job.end_time job_ptr <=? now) then
    Some ESLURM_ALREADY_DONE
  else if match Req.task_dist step_specs with
          | SLURM_DIST_OTHER _ => true
          | _ => false
          end then Some ESLURM_BAD_DIST
  else if match Req.task_dist step_specs with
          | SLURM_DIST_ARBITRARY =>
              String.eqb (Conf.switch_type conf) "switch/elan"
          | _ => false
          end then Some ESLURM_TASKDIST_ARBITRARY_UNSUPPORTED
  else if _test_strlen (Req.ckpt_dir step_specs) 1024 ||
          _test_strlen (Req.gres step_specs) 1024 ||
          _test_strlen (Req.host step_specs) 1024 ||
          _test_strlen (Req.name step_specs) 1024 ||
          _test_strlen (Req.network step_specs) 1024 ||
          _test_strlen (Req.node_list step_specs) (1024 * 64) then
    Some ESLURM_PATHNAME_TOO_LONG
  else None.

(** Lines 1504-1512: the overcommit flag. *)
Definition normalize_overcommit (step_specs : Req.t) : Req.t :=
  if negb (Req.overcommit step_specs =? 0) then
    if negb (Req.exclusive step_specs =? 0) then
      (* Not really a legitimate combination, try to exclusively
         allocate one CPU per task *)
      Req.set_cpu_count (Req.num_tasks step_specs)
                        (Req.set_overcommit 0 step_specs)
    else Req.set_cpu_count 0 step_specs
  else step_specs.

(** Lines 1520-1527: cpus_per_task, an int, by reversing what srun
    does. *)
Definition cpus_per_task_of (step_specs : Req.t) : Z :=
  if (Req.cpu_count step_specs =? 0) ||
     negb (Z.rem (Req.cpu_count step_specs) (Req.num_tasks step_specs) =? 0)
  then 0
  else
    let cpus_per_task :=
      i32 (Req.cpu_count step_specs / Req.num_tasks step_specs) in
    if cpus_per_task <? 1 then 1 else cpus_per_task.

(** Lines 1551-1556: the task count of a request that gives none. *)
Definition default_num_tasks (step_specs : Req.t) (node_count : Z) : Req.t :=
  if Req.num_tasks step_specs =? NO_VAL then
    if negb (Req.cpu_count step_specs =? NO_VAL) then
      Req.set_num_tasks (Req.cpu_count step_specs) step_specs
    else Req.set_num_tasks (u32 node_count) step_specs
  else step_specs.

(** Line 1558: the cap on tasks per node. *)
Definition task_count_too_big (step_specs : Req.t) (node_count : Z) : bool :=
  Req.num_tasks step_specs >?
  u32 (i32 (node_count * Conf.max_tasks_per_node conf)).

(** Write the record [step_ptr] points to: it sits at position [k] of
    the job's step list. *)
Definition store_step (k : nat) (step_ptr : Step.t G) (job_ptr : Job.t G)
  : Job.t G :=
  Job.set_step_list (<[ k := step_ptr ]> (Job.step_list job_ptr)) job_ptr.

(** Lines 1677-1682: the largest task count of a node. *)
Fixpoint max_tasks_loop (tasks : list Z) (idx : list nat) (resv_port_cnt : Z)
  : M Z :=
  match idx with
  | [] => ret resv_port_cnt
  | i :: rest =>
      t <- array_get tasks (Z.of_nat i) ;;
      max_tasks_loop tasks rest (MAX resv_port_cnt t)
  end.

(** What step_create returns: the code, the request as rewritten, the
    job, and *new_step_record. *)
Definition create_result : Type :=
  (slurm_rc * Req.t * Job.t G * option (Step.t G))%type.

(** Lines 1656-1708 for a step that is not a batch script: layout,
    reserved ports, switch, and the debit of CPUs, memory and cores. The
    record is at position [k] of the step list. *)
Definition step_create_launch (now : Z) (k : nat) (step_ptr : Step.t G)
  (job_ptr : Job.t G) (step_specs : Req.t) (step_node_list : string)
  (cpus_per_task : Z) : M create_result :=
  do (layout, step1) <-
    step_layout_create step_ptr job_ptr step_node_list
      (Req.min_nodes step_specs) (Req.num_tasks step_specs)
      (u16 cpus_per_task) (Req.task_dist step_specs)
      (Req.plane_size step_specs) ;;
  match layout with
  | None =>
      do (_, job1) <-
        delete_step_record now (store_step k step1 job_ptr)
                           (Step.step_id step1) ;;
      ret (if negb (Req.mem_per_cpu step_specs =? 0)
           then ESLURM_INVALID_TASK_MEMORY else SLURM_ERROR,
           step_specs, job1, None)
  | Some step_layout =>
      let step2 := Step.set_step_layout (Some step_layout) step1 in
      spec1 <-
        (if negb (Req.resv_port_cnt step_specs =? NO_VAL16) &&
            (Req.resv_port_cnt step_specs =? 0) then
           (* reserved port count set to maximum task count on any node
              plus one *)
           m <- max_tasks_loop (Layout.tasks step_layout)
                  (seq 0 (Z.to_nat (Layout.node_cnt step_layout)))
                  (Req.resv_port_cnt step_specs) ;;
           ret (Req.set_resv_port_cnt (u16 (m + 1)) step_specs)
         else ret step_specs) ;;
      let step3 :=
        if negb (Req.resv_port_cnt spec1 =? NO_VAL16)
        then Step.set_resv_port_cnt (Req.resv_port_cnt spec1) step2
        else step2 in
      let port_rc :=
        if negb (Req.resv_port_cnt spec1 =? NO_VAL16)
        then Plug.resv_port_alloc plug step3 else SLURM_SUCCESS in
      if negb (rc_is_success port_rc) then
        do (_, job1) <-
          delete_step_record now (store_step k step3 job_ptr)
                             (Step.step_id step3) ;;
        ret (port_rc, spec1, job1, None)
      else
        match Plug.switch_alloc_jobinfo plug with
        | None => fatal "step_create: switch_alloc_jobinfo error"
        | Some switch_job =>
            let step4 := Step.set_switch_job (Some switch_job) step3 in
            if Plug.switch_build_jobinfo plug switch_job
                 (Layout.node_list step_layout) (Layout.tasks step_layout)
                 (Step.cyclic_alloc step4) (Step.network step4) then
              error "switch_build_jobinfo" ;;
              do (_, job1) <-
                delete_step_record now (store_step k step4 job_ptr)
                                   (Step.step_id step4) ;;
              ret (ESLURM_INTERCONNECT_FAILURE, spec1, job1, None)
            else
              do (step5, job1) <- step_alloc_lps step4 job_ptr ;;
              ret (SLURM_SUCCESS, spec1, store_step k step5 job1, Some step5)
        end
  end.

(** Lines 1655-1718: the end of step_create, once the time limit of the
    step is settled. *)
Definition step_create_finish (now : Z) (k : nat) (step_ptr : Step.t G)
  (job_ptr : Job.t G) (step_specs : Req.t) (batch_step : bool)
  (step_node_list : string) (cpus_per_task : Z) : M create_result :=
  (* a batch script does not need switch info *)
  do (rc, spec1, job1, launched) <-
    (if negb batch_step then
       step_create_launch now k step_ptr job_ptr step_specs step_node_list
                          cpus_per_task
     else
       ret (SLURM_SUCCESS, step_specs, store_step k step_ptr job_ptr,
            Some step_ptr)) ;;
  match launched with
  | None => ret (rc, spec1, job1, None)
  | Some step1 =>
      match Plug.checkpoint_alloc_jobinfo plug with
      | None => fatal "step_create: checkpoint_alloc_jobinfo error"
      | Some check_job =>
          let step2 := Step.set_check_job (Some check_job) step1 in
          ret (SLURM_SUCCESS, spec1, store_step k step2 job1, Some step2)
      end
  end.

(** Lines 1568-1718: create the record and fill it in. [nodeset] is the
    bitmap _pick_step_nodes returned. *)
Definition step_create_record (now : Z) (job_ptr : Job.t G)
  (step_specs : Req.t) (batch_step : bool) (step_gres_list : option G)
  (nodeset : bitstr) (cpus_per_task orig_cpu_count : Z) : M create_result :=
  let k := length (Job.step_list job_ptr) in
  do (created, job1) <- _create_step_record now job_ptr ;;
  match created with
  | None => ret (ESLURMD_TOOMANYSTEPS, step_specs, job1, None)
  | Some step0 =>
      let step_id := Job.next_step_id job1 in
      let job2 := Job.set_next_step_id (u32 (step_id + 1)) job1 in
      (* Here is where the node list is set for the step *)
      let '(step_node_list, spec1) :=
        match Req.node_list step_specs, Req.task_dist step_specs with
        | Some node_list, SLURM_DIST_ARBITRARY =>
            (node_list,
             Req.set_node_list (Some (Plug.bitmap2node_name plug nodeset))
                               step_specs)
        | _, _ =>
            (Plug.bitmap2node_name plug nodeset,
             Req.set_node_list (Some (Plug.bitmap2node_name plug nodeset))
                               step_specs)
        end in
      let cyclic_alloc :=
        match Req.task_dist spec1 with
        | SLURM_DIST_CYCLIC | SLURM_DIST_CYCLIC_CYCLIC
        | SLURM_DIST_CYCLIC_BLOCK => 1
        | _ => 0
        end in
      let nonempty (s : option string) :=
        match s with
        | Some str => negb (String.eqb str "")
        | None => false
        end in
      let step1 : Step.t G :=
        Step.mk step_id (Step.start_time step0) (Step.time_limit step0)
          (Step.requid step0) nodeset cyclic_alloc (Req.gres spec1)
          step_gres_list (Req.port spec1) (Req.host spec1) batch_step
          (u16 cpus_per_task) (Req.mem_per_cpu spec1)
          (Req.ckpt_interval spec1) now orig_cpu_count NO_VAL
          (Req.exclusive spec1) (Req.ckpt_dir spec1) (Req.no_kill spec1)
          (* step's name and network default to job's values if not
             specified in the step specification *)
          (if nonempty (Req.name spec1) then Req.name spec1
           else Job.name job_ptr)
          (if nonempty (Req.network spec1) then Req.network spec1
           else Job.network job_ptr)
          (Step.step_layout step0) (Step.resv_port_cnt step0)
          (Step.switch_job step0) (Step.check_job step0)
          (Step.core_bitmap_job step0) (Step.exit_node_bitmap step0)
          (Step.pre_sus_time step0) (Step.tot_sus_time step0) in
      let spec2 := Req.set_gres None spec1 in
      (* the step time_limit is recorded as submitted, but the
         allocation time limits may cut it short *)
      if (Req.time_limit spec2 =? NO_VAL) || (Req.time_limit spec2 =? 0) ||
         (Req.time_limit spec2 =? INFINITE) then
        step_create_finish now k (Step.set_time_limit INFINITE step1) job2
                           spec2 batch_step step_node_list cpus_per_task
      else if (Req.time_limit spec2 >? Job.part_max_time job_ptr) &&
              Conf.enforce_part_limits conf then
        (* enforce partition limits if necessary *)
        info "_step_create: step time greater than partition's" ;;
        do (_, job3) <-
          delete_step_record now (store_step k step1 job2) step_id ;;
        ret (ESLURM_INVALID_TIME_LIMIT, spec2, job3, None)
      else
        step_create_finish now k
          (Step.set_time_limit (Req.time_limit spec2) step1) job2 spec2
          batch_step step_node_list cpus_per_task
  end.

(** Lines 1499-1566, from the overcommit flag to the cap on the task
    count, and then the creation of the record. What step_create reports
    to the accounting storage at its end stays outside. *)
Definition step_create_job (now : Z) (job_ptr : Job.t G) (step_specs : Req.t)
  (batch_step : bool) : M create_result :=
  (* if the overcommit flag is checked, we 0 set cpu_count=0 which makes
     it so we don't check to see the available cpus *)
  let orig_cpu_count := Req.cpu_count step_specs in
  let spec1 := normalize_overcommit step_specs in
  (* determine cpus_per_task value by reversing what srun does *)
  if Req.num_tasks spec1 <? 1 then
    ret (ESLURM_BAD_TASK_COUNT, spec1, job_ptr, None)
  else
    let cpus_per_task := cpus_per_task_of spec1 in
    let spec2 :=
      if Req.no_kill spec1 >? 1 then Req.set_no_kill 1 spec1 else spec1 in
    let '(i, step_gres_list) :=
      Plug.gres_plugin_step_state_validate plug (Req.gres spec2)
                                           (Job.gres_list job_ptr) in
    if negb (rc_is_success i) then ret (i, spec2, job_ptr, None)
    else
      let job1 := Job.set_time_last_active now job_ptr in
      do (nodeset, ret_code, spec3, job2) <-
        _pick_step_nodes now job1 spec2 step_gres_list cpus_per_task ;;
      match nodeset with
      | None => ret (ret_code, spec3, job2, None)
      | Some nodeset =>
          let node_count := Z.of_nat (bit_set_count nodeset) in
          let spec4 := default_num_tasks spec3 node_count in
          if task_count_too_big spec4 node_count then
            error "step has invalid task count" ;;
            ret (ESLURM_BAD_TASK_COUNT, spec4, job2, None)
          else
            step_create_record now job2 spec4 batch_step step_gres_list
                               nodeset cpus_per_task orig_cpu_count
      end.

(** step_create (step_mgr.c:1430) on the job table [jobs]. *)
Definition step_create (now : Z) (jobs : list (Job.t G)) (step_specs : Req.t)
  (batch_step : bool)
  : M (slurm_rc * Req.t * list (Job.t G) * option (Step.t G)) :=
  match find_job_record jobs (Req.job_id step_specs) with
  | None => ret (ESLURM_INVALID_JOB_ID, step_specs, jobs, None)
  | Some jk =>
      job_ptr <- deref (jobs !! jk) ;;
      do (rc, spec', job', new_step_record) <-
        match step_create_job_checks job_ptr step_specs with
        | Some rc => ret (rc, step_specs, job_ptr, None)
        | None =>
            (if batch_step
             then info "user attempting to run batch script within an existing job"
             else ret tt) ;;
            match step_create_request_checks now job_ptr step_specs with
            | Some rc => ret (rc, step_specs, job_ptr, None)
            | None => step_create_job now job_ptr step_specs batch_step
            end
        end ;;
      ret (rc, spec', <[ jk := job' ]> jobs, new_step_record)
  end.

(** ** Partial completion *)

(** Lines 2257-2340 of step_partial_comp, for the step found: the code,
    the step as written, and the out parameters *rem and *max_rc (None
    when the function returns before it writes them). What the switch
    plugin is told when nodes are released, and the accounting data that
    are aggregated, stay outside; the switch handle is dropped once every
    node has reported. *)
Definition step_partial_comp_step (step_ptr : Step.t G) (req : Cmsg.t)
  : M (slurm_rc * Step.t G * option Z * option Z) :=
  if Step.batch_step step_ptr then
    let step1 := Step.set_exit_code (Cmsg.step_rc req) step_ptr in
    ret (SLURM_SUCCESS, step1, Some 0, Some (Step.exit_code step1))
  else if Cmsg.range_last req <? Cmsg.range_first req then
    error "step_partial_comp: range" ;;
    ret (EINVAL, step_ptr, None, None)
  else
    let checked :=
      match Step.exit_node_bitmap step_ptr with
      | None =>
          (* initialize the node bitmap for exited nodes *)
          let nodes := bit_set_count (Step.step_node_bitmap step_ptr) in
          if Cmsg.range_last req >=? Z.of_nat nodes then None
          else Some (bit_alloc nodes, Cmsg.step_rc req)
      | Some exit_node_bitmap =>
          let nodes := bit_size exit_node_bitmap in
          if Cmsg.range_last req >=? Z.of_nat nodes then None
          else Some (exit_node_bitmap,
                     MAX (Step.exit_code step_ptr) (Cmsg.step_rc req))
      end in
    match checked with
    | None =>      (* range is zero origin *)
        error "step_partial_comp: last" ;;
        ret (EINVAL, step_ptr, None, None)
    | Some (exit_node_bitmap, exit_code) =>
        let exit_node_bitmap :=
          bit_nset exit_node_bitmap (Z.to_nat (Cmsg.range_first req))
                   (Z.to_nat (Cmsg.range_last req)) in
        let rem_nodes := Z.of_nat (bit_clear_count exit_node_bitmap) in
        let step1 :=
          Step.set_exit_node_bitmap (Some exit_node_bitmap)
            (Step.set_exit_code exit_code step_ptr) in
        let step2 :=
          if rem_nodes =? 0 then Step.set_switch_job None step1 (* release all switch windows *)
          else step1 in
        ret (SLURM_SUCCESS, step2, Some rem_nodes,
             Some (Step.exit_code step2))
    end.

(** step_partial_comp (step_mgr.c:2225) on the job table. *)
Definition step_partial_comp (jobs : list (Job.t G)) (req : Cmsg.t)
  (uid : Z) : M (slurm_rc * list (Job.t G) * option Z * option Z) :=
  (* find the job, step, and validate input *)
  match find_job_record jobs (Cmsg.job_id req) with
  | None =>
      info "step_partial_comp: JobID invalid" ;;
      ret (ESLURM_INVALID_JOB_ID, jobs, None, None)
  | Some jk =>
      job_ptr <- deref (jobs !! jk) ;;
      if IS_JOB_PENDING job_ptr then
        info "step_partial_comp: JobID pending" ;;
        ret (ESLURM_JOB_PENDING, jobs, None, None)
      else if negb (Plug.validate_slurm_user plug uid) &&
              negb (uid =? Job.user_id job_ptr) then
        (* Normally from slurmstepd, from srun on some failures *)
        error "Security violation: REQUEST_STEP_COMPLETE RPC" ;;
        ret (ESLURM_USER_ID_MISSING, jobs, None, None)
      else
        match find_step_record (Job.step_list job_ptr)
                (Cmsg.job_step_id req) with
        | None =>
            info "step_partial_comp: StepID invalid" ;;
            ret (ESLURM_INVALID_JOB_ID, jobs, None, None)
        | Some sk =>
            step_ptr <- deref (Job.step_list job_ptr !! sk) ;;
            do (rc, step1, rem, max_rc) <-
              step_partial_comp_step step_ptr req ;;
            ret (rc, <[ jk := store_step sk step1 job_ptr ]> jobs, rem,
                 max_rc)
        end
  end.

(** ** Time limits *)

(** The names of the nodes of a bitmap, in the order of the node table
    (the loop at lines 2907-2913). *)
Fixpoint bitmap_hostlist (nodes : list nat) (bitmap : bitstr)
  : M (list string) :=
  match nodes with
  | [] => ret []
  | i :: rest =>
      if negb (bit_test bitmap i) then bitmap_hostlist rest bitmap
      else
        node_ptr <- deref (Cluster.node_record_table cluster !! i) ;;
        names <- bitmap_hostlist rest bitmap ;;
        ret (Node.name node_ptr :: names)
  end.

(** _signal_step_timelimit (step_mgr.c:2875): queue one
    REQUEST_KILL_TIMELIMIT request for the nodes of the step, or for the
    front-end node. Nothing is queued for a step without nodes. *)
Definition _signal_step_timelimit (job_ptr : Job.t G) (step_ptr : Step.t G)
  (now : Z) : M unit :=
  hostlist <-
    (if Conf.have_front_end conf then ret [Job.batch_host job_ptr]
     else bitmap_hostlist (seq 0 (Cluster.node_record_count cluster))
                          (Step.step_node_bitmap step_ptr)) ;;
  let node_count := Z.of_nat (length hostlist) in
  if node_count =? 0 then ret tt
  else
    agent_queue_request
      (Agent.mk REQUEST_KILL_TIMELIMIT 1 hostlist node_count
                (Job.job_id job_ptr) (Step.step_id step_ptr)
                (Job.job_state job_ptr) (Job.user_id job_ptr) now
                (Job.start_time job_ptr)).

(** job_run_mins, as line 2950 computes it: time_t arithmetic, division
    towards zero, then the cast to uint32_t. *)
Definition job_run_mins_of (step_ptr : Step.t G) (now : Z) : Z :=
  u32 (Z.quot ((now - Step.start_time step_ptr) - Step.tot_sus_time step_ptr)
              60).

(** The list walk of check_job_step_time_limit (lines 2945-2960). *)
Fixpoint time_limit_loop (job_ptr : Job.t G) (now : Z)
  (steps : list (Step.t G)) : M unit :=
  match steps with
  | [] => ret tt
  | step_ptr :: rest =>
      if (Step.time_limit step_ptr =? INFINITE) ||
         (Step.time_limit step_ptr =? NO_VAL) then
        time_limit_loop job_ptr now rest
      else
        let job_run_mins := job_run_mins_of step_ptr now in
        (if job_run_mins >=? Step.time_limit step_ptr then
           (* this step has timed out *)
           info "check_job_step_time_limit: job step has timed out" ;;
           _signal_step_timelimit job_ptr step_ptr now
         else ret tt) ;;
        time_limit_loop job_ptr now rest
  end.

(** check_job_step_time_limit (step_mgr.c:2932). The job is only read. *)
Definition check_job_step_time_limit (job_ptr : Job.t G) (now : Z) : M unit :=
  if negb (Job.job_state job_ptr =? JOB_RUNNING) then ret tt
  else time_limit_loop job_ptr now (Job.step_list job_ptr).

(** ** Purging the registry *)

(** The list walk of delete_step_records (lines 147-161): with filter 1
    the records that hold a switch allocation are skipped, every other
    record is removed. *)
Fixpoint delete_step_records_loop (filter : Z) (steps : list (Step.t G))
  : list (Step.t G) :=
  match steps with
  | [] => []
  | step_ptr :: rest =>
      if (filter =? 1) && is_Some_b (Step.switch_job step_ptr) then
        step_ptr :: delete_step_records_loop filter rest
      else delete_step_records_loop filter rest
  end.

(** delete_step_records (step_mgr.c:138). What the switch and checkpoint
    plugins are told about a removed record stays outside. *)
Definition delete_step_records (now : Z) (job_ptr : Job.t G) (filter : Z)
  : M (Job.t G) :=
  touch_last_job_update now ;;
  ret (Job.set_step_list
         (delete_step_records_loop filter (Job.step_list job_ptr)) job_ptr).

(** ** Step update *)

(** The walk over all steps of update_step (lines 3007-3015). *)
Fixpoint update_step_all (time_limit : Z) (steps : list (Step.t G))
  : M (list (Step.t G)) :=
  match steps with
  | [] => ret []
  | step_ptr :: rest =>
      info "Updating step time limit" ;;
      rest' <- update_step_all time_limit rest ;;
      ret (Step.set_time_limit time_limit step_ptr :: rest')
  end.

(** update_step (step_mgr.c:2983) on the job table, for the request
    (job_id, step_id, time_limit) of user [uid]. validate_operator and
    assoc_mgr_is_user_acct_coord are not part of the sources: they are
    the two tests passed in, the second one on the job whose account it
    reads. *)
Definition update_step (validate_operator : Z -> bool)
  (is_user_acct_coord : Z -> Job.t G -> bool) (now : Z)
  (jobs : list (Job.t G)) (job_id step_id time_limit uid : Z)
  : M (slurm_rc * list (Job.t G)) :=
  match find_job_record jobs job_id with
  | None =>
      error "update_step: invalid job id" ;;
      ret (ESLURM_INVALID_JOB_ID, jobs)
  | Some jk =>
      job_ptr <- deref (jobs !! jk) ;;
      if negb (Job.user_id job_ptr =? uid) && negb (validate_operator uid) &&
         negb (is_user_acct_coord uid job_ptr) then
        error "Security violation, STEP_UPDATE RPC" ;;
        ret (ESLURM_USER_ID_MISSING, jobs)
      else if step_id =? NO_VAL then
        (* No need to limit step time limit as job time limit will kill
           any steps with any time limit *)
        steps <- update_step_all time_limit (Job.step_list job_ptr) ;;
        (if negb (Z.of_nat (length (Job.step_list job_ptr)) =? 0)
         then touch_last_job_update now else ret tt) ;;
        ret (SLURM_SUCCESS, <[ jk := Job.set_step_list steps job_ptr ]> jobs)
      else
        match find_step_record (Job.step_list job_ptr) step_id with
        | Some sk =>
            step_ptr <- deref (Job.step_list job_ptr !! sk) ;;
            info "Updating step time limit" ;;
            touch_last_job_update now ;;
            ret (SLURM_SUCCESS,
                 <[ jk := store_step sk
                            (Step.set_time_limit time_limit step_ptr)
                            job_ptr ]> jobs)
        | None => ret (ESLURM_INVALID_JOB_ID, jobs)
        end
  end.

(** ** Suspend and resume *)

Definition set_pre_sus_time (v : Z) (s : Step.t G) : Step.t G :=
  Step.mk (Step.step_id s) (Step.start_time s) (Step.time_limit s)
    (Step.requid s) (Step.step_node_bitmap s) (Step.cyclic_alloc s)
    (Step.gres s) (Step.gres_list s) (Step.port s) (Step.host s)
    (Step.batch_step s) (Step.cpus_per_task s) (Step.mem_per_cpu s)
    (Step.ckpt_interval s) (Step.ckpt_time s) (Step.cpu_count s)
    (Step.exit_code s) (Step.exclusive s) (Step.ckpt_dir s) (Step.no_kill s)
    (Step.name s) (Step.network s) (Step.step_layout s)
    (Step.resv_port_cnt s) (Step.switch_job s) (Step.check_job s)
    (Step.core_bitmap_job s) (Step.exit_node_bitmap s) v
    (Step.tot_sus_time s).

Definition set_tot_sus_time (v : Z) (s : Step.t G) : Step.t G :=
  Step.mk (Step.step_id s) (Step.start_time s) (Step.time_limit s)
    (Step.requid s) (Step.step_node_bitmap s) (Step.cyclic_alloc s)
    (Step.gres s) (Step.gres_list s) (Step.port s) (Step.host s)
    (Step.batch_step s) (Step.cpus_per_task s) (Step.mem_per_cpu s)
    (Step.ckpt_interval s) (Step.ckpt_time s) (Step.cpu_count s)
    (Step.exit_code s) (Step.exclusive s) (Step.ckpt_dir s) (Step.no_kill s)
    (Step.name s) (Step.network s) (Step.step_layout s)
    (Step.resv_port_cnt s) (Step.switch_job s) (Step.check_job s)
    (Step.core_bitmap_job s) (Step.exit_node_bitmap s)
    (Step.pre_sus_time s) v.

(** _suspend_job_step (step_mgr.c:2429). [suspend_time] is
    job_ptr->suspend_time, a field the job record of this development
    does not carry. The times are time_t values added through the double
    of difftime, which is exact below 2^53 seconds. *)
Definition _suspend_job_step (suspend_time : Z) (step_ptr : Step.t G)
  (now : Z) : Step.t G :=
  if negb (suspend_time =? 0) && (suspend_time >? Step.start_time step_ptr)
  then set_pre_sus_time (Step.pre_sus_time step_ptr + (now - suspend_time))
                        step_ptr
  else set_pre_sus_time
         (Step.pre_sus_time step_ptr + (now - Step.start_time step_ptr))
         step_ptr.

(** suspend_job_step (step_mgr.c:2445): update time stamps for job step
    suspend. *)
Definition suspend_job_step (suspend_time now : Z) (job_ptr : Job.t G)
  : Job.t G :=
  Job.set_step_list
    (map (fun step_ptr => _suspend_job_step suspend_time step_ptr now)
         (Job.step_list job_ptr)) job_ptr.

(** _resume_job_step (step_mgr.c:2459). *)
Definition _resume_job_step (suspend_time : Z) (step_ptr : Step.t G)
  (now : Z) : Step.t G :=
  if negb (suspend_time =? 0) && (suspend_time <? Step.start_time step_ptr)
  then set_tot_sus_time
         (Step.tot_sus_time step_ptr + (now - Step.start_time step_ptr))
         step_ptr
  else set_tot_sus_time (Step.tot_sus_time step_ptr + (now - suspend_time))
                        step_ptr.

(** resume_job_step (step_mgr.c:2474): update time stamps for job step
    resume. *)
Definition resume_job_step (suspend_time now : Z) (job_ptr : Job.t G)
  : Job.t G :=
  Job.set_step_list
    (map (fun step_ptr => _resume_job_step suspend_time step_ptr now)
         (Job.step_list job_ptr)) job_ptr.

(** run_time, as lines 1888-1896 of _pack_ctld_job_step_info compute it
    for the step info sent to users. *)
Definition step_run_time (suspend_time now : Z) (job_ptr : Job.t G)
  (step_ptr : Step.t G) : Z :=
  if IS_JOB_SUSPENDED job_ptr then Step.pre_sus_time step_ptr
  else
    let begin_time := MAX (Step.start_time step_ptr) suspend_time in
    Step.pre_sus_time step_ptr + (now - begin_time).

(** ** Node names and positions in a step *)

(** The loop of _step_range_to_hostlist (lines 2351-2360); [node_inx] is
    the counter before node [i] is looked at. *)
Fixpoint step_range_loop (nodes : list nat) (step_ptr : Step.t G)
  (range_first range_last node_inx : Z) : M (list string) :=
  match nodes with
  | [] => ret []
  | i :: rest =>
      if negb (bit_test (Step.step_node_bitmap step_ptr) i) then
        step_range_loop rest step_ptr range_first range_last node_inx
      else
        let node_inx := node_inx + 1 in
        if (node_inx >=? range_first) && (node_inx <=? range_last) then
          node_ptr <- deref (Cluster.node_record_table cluster !! i) ;;
          names <- step_range_loop rest step_ptr range_first range_last
                                   node_inx ;;
          ret (Node.name node_ptr :: names)
        else step_range_loop rest step_ptr range_first range_last node_inx
  end.

(** _step_range_to_hostlist (step_mgr.c:2345): convert a range of nodes
    allocated to a step to a hostlist with names of those nodes. *)
Definition _step_range_to_hostlist (step_ptr : Step.t G)
  (range_first range_last : Z) : M (list string) :=
  step_range_loop (seq 0 (Cluster.node_record_count cluster)) step_ptr
                  range_first range_last (-1).

(** _step_hostname_to_inx (step_mgr.c:2367): convert a single node name
    to its offset within a step's nodes allocation, -1 on error.
    find_node_record (node_mgr.c) is not part of the sources: it is the
    lookup passed in, which gives the index of the node in the table. *)
Definition _step_hostname_to_inx (find_node_record : string -> option nat)
  (step_ptr : Step.t G) (node_name : string) : Z :=
  match find_node_record node_name with
  | None => -1
  | Some node_inx =>
      fold_left (fun node_offset i =>
                   if bit_test (Step.step_node_bitmap step_ptr) i
                   then node_offset + 1 else node_offset)
                (seq 0 node_inx) 0
  end.

(** ** Epilog completion *)

(** One turn of the list walk of step_epilog_complete (lines 2401-2422):
    whether the step is counted, and the step as written. *)
Definition step_epilog_step (find_node_record : string -> option nat)
  (node_inx : nat) (node_name : string) (step_ptr : Step.t G)
  : bool * Step.t G :=
  if negb (is_Some_b (Step.switch_job step_ptr)) ||
     negb (bit_test (Step.step_node_bitmap step_ptr) node_inx) then
    (false, step_ptr)
  else
    match Step.exit_node_bitmap step_ptr with
    | Some exit_node_bitmap =>
        let step_offset :=
          _step_hostname_to_inx find_node_record step_ptr node_name in
        if (step_offset <? 0) ||
           bit_test exit_node_bitmap (Z.to_nat step_offset) then
          (false, step_ptr)
        else
          (true,
           Step.set_exit_node_bitmap
             (Some (bit_set exit_node_bitmap (Z.to_nat step_offset)))
             step_ptr)
    | None => (true, step_ptr)
    end.

Fixpoint step_epilog_loop (find_node_record : string -> option nat)
  (node_inx : nat) (node_name : string) (steps : list (Step.t G)) (rc : Z)
  : Z * list (Step.t G) :=
  match steps with
  | [] => (rc, [])
  | step_ptr :: rest =>
      let '(counted, step1) :=
        step_epilog_step find_node_record node_inx node_name step_ptr in
      let '(rc', rest') :=
        step_epilog_loop find_node_record node_inx node_name rest
                         (if counted then i32 (rc + 1) else rc) in
      (rc', step1 :: rest')
  end.

(** step_epilog_complete (step_mgr.c:2385): the count of steps for which
    the switch is told of a partial completion, and the job. What the
    switch plugin is told stays outside; [switch_g_part_comp] is the
    answer of the plugin to whether it supports partial completions. *)
Definition step_epilog_complete (switch_g_part_comp : bool)
  (find_node_record : string -> option nat) (job_ptr : Job.t G)
  (node_name : string) : Z * Job.t G :=
  if negb switch_g_part_comp then
    (* don't bother with partial completions *)
    (0, job_ptr)
  else
    match find_node_record node_name with
    | None => (0, job_ptr)
    | Some node_inx =>
        let '(rc, steps) :=
          step_epilog_loop find_node_record node_inx node_name
                           (Job.step_list job_ptr) 0 in
        (rc, Job.set_step_list steps job_ptr)
    end.

(** ** Notions used to state the properties *)

(** The caller may complete steps of the job: the test at line 453. *)
Definition may_complete (job_ptr : Job.t G) (uid : Z) : Prop :=
  Job.user_id job_ptr = uid \/ uid = 0 \/ uid = Plug.getuid plug.

(** The registry and the debits of a job: its step list, its resources
    (cpus_used, memory_used, core_bitmap_used) and its gres state. *)
Definition same_accounting (job job' : Job.t G) : Prop :=
  Job.step_list job' = Job.step_list job /\
  Job.job_resrcs job' = Job.job_resrcs job /\
  Job.gres_list job' = Job.gres_list job.

(** The request fields the picker never writes. *)
Definition same_counts (spec spec' : Req.t) : Prop :=
  Req.num_tasks spec' = Req.num_tasks spec /\
  Req.cpu_count spec' = Req.cpu_count spec /\
  Req.max_nodes spec' = Req.max_nodes spec /\
  Req.exclusive spec' = Req.exclusive spec /\
  Req.time_limit spec' = Req.time_limit spec /\
  Req.resv_port_cnt spec' = Req.resv_port_cnt spec /\
  Req.gres spec' = Req.gres spec.

(** A job whose registry is [l] followed by the record under
    construction, which carries a step id no record of [l] has. *)
Definition fresh_id (l : list (Step.t G)) (step_id : Z) : Prop :=
  forall s, s ∈ l -> Step.step_id s <> step_id.

(** How the creation of a record ends, for a job whose registry was [l]
    before: either with an error, the registry [l] again and the debits of
    [job_in]; or with success and the new record, with id [step_id], at
    the end of the registry. *)
Definition record_outcome (l : list (Step.t G)) (step_id : Z)
  (job_in : Job.t G) (r : create_result) : Prop :=
  let '(rc, _, job', new) := r in
  Job.next_step_id job' = Job.next_step_id job_in /\
  match new with
  | None =>
      rc <> SLURM_SUCCESS /\ Job.step_list job' = l /\
      Job.job_resrcs job' = Job.job_resrcs job_in /\
      Job.gres_list job' = Job.gres_list job_in
  | Some s =>
      rc = SLURM_SUCCESS /\ Step.step_id s = step_id /\
      Job.step_list job' = l ++ [s]
  end.

(** [jobs'] is [jobs] with every job's registry and debits as before. *)
Definition same_accounting_all (jobs jobs' : list (Job.t G)) : Prop :=
  Forall2 same_accounting jobs jobs'.

(** The names of the nodes of a bitmap, in table order. *)
Definition node_names (bitmap : bitstr) (nodes : list nat) : list string :=
  flat_map (fun i =>
              if bit_test bitmap i then
                match Cluster.node_record_table cluster !! i with
                | Some node_ptr => [Node.name node_ptr]
                | None => []
                end
              else []) nodes.

(** The host list of the request for a step: the front-end node, or the
    nodes of the step. *)
Definition timelimit_hostlist (job_ptr : Job.t G) (step_ptr : Step.t G)
  : list string :=
  if Conf.have_front_end conf then [Job.batch_host job_ptr]
  else node_names (Step.step_node_bitmap step_ptr)
                  (seq 0 (Cluster.node_record_count cluster)).

(** The request _signal_step_timelimit queues for a step. *)
Definition timelimit_request (job_ptr : Job.t G) (step_ptr : Step.t G)
  (now : Z) : Agent.t :=
  let hostlist := timelimit_hostlist job_ptr step_ptr in
  Agent.mk REQUEST_KILL_TIMELIMIT 1 hostlist (Z.of_nat (length hostlist))
           (Job.job_id job_ptr) (Step.step_id step_ptr)
           (Job.job_state job_ptr) (Job.user_id job_ptr) now
           (Job.start_time job_ptr).

(** A step the sweep signals: a limit is set and has been reached. *)
Definition timed_out (step_ptr : Step.t G) (now : Z) : bool :=
  negb ((Step.time_limit step_ptr =? INFINITE) ||
        (Step.time_limit step_ptr =? NO_VAL)) &&
  (job_run_mins_of step_ptr now >=? Step.time_limit step_ptr).

(** The caller may report for the job: the test at line 2243. *)
Definition may_report (job_ptr : Job.t G) (uid : Z) : Prop :=
  Plug.validate_slurm_user plug uid = true \/ uid = Job.user_id job_ptr.


(** The (job index, step index) pairs at which the node loops of
    step_alloc_lps and _step_dealloc_lps touch the job's arrays: the
    counters job_node_inx and step_node_inx of the loop at every node of
    the step, up to the node at which the loop breaks. *)
Fixpoint lps_pairs (job_bitmap step_bitmap : bitstr) (node_cnt : Z)
  (nodes : list nat) (job_node_inx step_node_inx : Z) : list (Z * Z) :=
  match nodes with
  | [] => []
  | i_node :: rest =>
      if negb (bit_test job_bitmap i_node) then
        lps_pairs job_bitmap step_bitmap node_cnt rest job_node_inx
                  step_node_inx
      else
        let job_node_inx := job_node_inx + 1 in
        if negb (bit_test step_bitmap i_node) then
          lps_pairs job_bitmap step_bitmap node_cnt rest job_node_inx
                    step_node_inx
        else
          let step_node_inx := step_node_inx + 1 in
          (job_node_inx, step_node_inx) ::
          (if u32 step_node_inx =? u32 (node_cnt - 1) then []
           else lps_pairs job_bitmap step_bitmap node_cnt rest job_node_inx
                          step_node_inx)
  end.

(** The position of node [i] among the nodes of the job, and among the
    nodes of the job that the step runs on. *)
Definition job_pos (job_bitmap : bitstr) (i : nat) : Z :=
  Z.of_nat (bit_set_count (take i job_bitmap)).
Definition step_pos (job_bitmap step_bitmap : bitstr) (i : nat) : Z :=
  Z.of_nat (bit_set_count (take i (bit_and job_bitmap step_bitmap))).

(** A counter after [amount] is given back: never below zero. *)
Definition credit (used amount : Z) : Z :=
  if used >=? amount then used - amount else 0.

(** memory_used[m], when the array is there. *)
Definition memory_used_at (job_resrcs_ptr : Res.t) (m : nat) : option Z :=
  match Res.memory_used job_resrcs_ptr with
  | Some a => a !! m
  | None => None
  end.

(** The fields of the job's resources that _step_dealloc_lps reads. *)
Definition same_layout (res res' : Res.t) : Prop :=
  Res.node_bitmap res' = Res.node_bitmap res /\
  Res.nhosts res' = Res.nhosts res /\
  Res.cpus res' = Res.cpus res /\
  Res.memory_allocated res' = Res.memory_allocated res /\
  Res.core_bitmap res' = Res.core_bitmap res /\
  Res.core_bitmap_used res' = Res.core_bitmap_used res /\
  length (Res.cpus_used res') = length (Res.cpus_used res) /\
  is_Some_b (Res.memory_used res') = is_Some_b (Res.memory_used res).

Definition cpu_underflow : log_level * string :=
  (LOG_ERROR, "_step_dealloc_lps: cpu underflow").
Definition mem_underflow : log_level * string :=
  (LOG_ERROR, "_step_dealloc_lps: mem underflow").

(** The memory accounting of the step is on: the test at line 1370. *)
Definition mem_on (step : Step.t G) : bool :=
  negb (Step.mem_per_cpu step =? 0) && Conf.cr_memory conf.

(** What _step_dealloc_lps does to the counters of job node [j] when it
    gives back [alloc] CPUs there: [res] and [res'] are the job's
    resources before and after, [log] the log afterwards. cpus_used[j] is
    compared with [alloc] as an int and stored as a uint16_t; the memory
    given back is the uint32_t product mem_per_cpu * alloc. *)
Definition credited_at (step : Step.t G) (res res' : Res.t)
  (log : list (log_level * string)) (j alloc : Z) : Prop :=
  (exists used,
     Res.cpus_used res !! Z.to_nat j = Some used /\
     Res.cpus_used res' !! Z.to_nat j =
     Some (if used >=? alloc then u16 (used - alloc) else 0) /\
     (used < alloc -> cpu_underflow ∈ log)) /\
  (mem_on step = true ->
   exists used,
     memory_used_at res (Z.to_nat j) = Some used /\
     memory_used_at res' (Z.to_nat j) =
     Some (credit used (u32 (Step.mem_per_cpu step * alloc))) /\
     (used < u32 (Step.mem_per_cpu step * alloc) -> mem_underflow ∈ log)).

(** The counters of job node [m] are the same in [res] and [res']. *)
Definition same_at (res res' : Res.t) (m : nat) : Prop :=
  Res.cpus_used res' !! m = Res.cpus_used res !! m /\
  memory_used_at res' m = memory_used_at res m.

(** Node [i] is a node of the step that the accounting loops reach: it
    belongs to the job and to the step, and its position in the step is
    below the node count of the layout. *)
Definition step_node (res : Res.t) (step : Step.t G) (layout : Layout.t)
  (i : nat) : Prop :=
  bit_test (Res.node_bitmap res) i = true /\
  bit_test (Step.step_node_bitmap step) i = true /\
  step_pos (Res.node_bitmap res) (Step.step_node_bitmap step) i <
  Layout.node_cnt layout.

(** *** Core picker *)






(** *** Exclusive mode of the node picker *)

(** The sum of avail_tasks (when [total] is false) or of total_tasks
    (when it is true) over the nodes among [nodes] that belong to the
    job and to [keep]; [node_inx] is the number of job nodes met so far,
    less one. *)
Fixpoint tasks_over (total : bool) (job_ptr : Job.t G) (step_spec : Req.t)
  (step_gres_list : option G) (cpus_per_task : Z) (keep : bitstr)
  (nodes : list nat) (node_inx : Z) : Z :=
  match nodes with
  | [] => 0
  | i :: rest =>
      if negb (bit_test (Res.node_bitmap (Job.job_resrcs job_ptr)) i) then
        tasks_over total job_ptr step_spec step_gres_list cpus_per_task keep
                   rest node_inx
      else
        let node_inx := node_inx + 1 in
        (if bit_test keep i then
           match excl_node_tasks job_ptr step_spec step_gres_list
                                 cpus_per_task node_inx with
           | Some (avail_tasks, total_tasks) =>
               if total then total_tasks else avail_tasks
           | None => 0
           end
         else 0) +
        tasks_over total job_ptr step_spec step_gres_list cpus_per_task keep
                   rest node_inx
  end.

(** The nodes the loop of exclusive mode visits. *)
Definition excl_nodes (job_ptr : Job.t G) : list nat :=
  range_incl (bit_ffs (Res.node_bitmap (Job.job_resrcs job_ptr)))
             (bit_fls (Res.node_bitmap (Job.job_resrcs job_ptr))).

(** The task count the verdict of exclusive mode compares with num_tasks
    (lines 677-686): the uint32_t sum of avail_tasks over the surviving
    nodes, which the code zeroes when nodes were named and bit_equal
    finds the surviving set different from the named set. *)
Definition effective_tasks (job_ptr : Job.t G) (step_spec : Req.t)
  (step_gres_list : option G) (cpus_per_task : Z)
  (selected_nodes : option bitstr) (surviving : bitstr) : Z :=
  let picked :=
    u32 (tasks_over false job_ptr step_spec step_gres_list cpus_per_task
                    surviving (excl_nodes job_ptr) (-1)) in
  match selected_nodes with
  | Some sel => if bit_equal sel surviving then picked else 0
  | None => picked
  end.

(** *** Sentences as worded, for comparison with the code *)

(** "Completing a step id that is not in the registry of the job returns
    already-done." *)
Definition missing_step_is_already_done (now : Z) (jobs : list (Job.t G))
  (job_id step_id uid : Z) (g : Glob.t) : Prop :=
  forall jk job,
    find_job_record jobs job_id = Some jk -> jobs !! jk = Some job ->
    may_complete job uid ->
    (forall s, s ∈ Job.step_list job -> Step.step_id s <> step_id) ->
    exists jobs' g',
      job_step_complete now jobs job_id step_id uid g =
      Ok (ESLURM_ALREADY_DONE, jobs') g'.

(** "cpus_per_task is cpu_count / num_tasks when cpu_count is nonzero and
    num_tasks divides it evenly, and 0 otherwise." *)
Definition cpus_per_task_by_division (step_specs : Req.t) : Z :=
  if negb (Req.cpu_count step_specs =? 0) &&
     (Req.cpu_count step_specs mod Req.num_tasks step_specs =? 0)
  then Req.cpu_count step_specs / Req.num_tasks step_specs
  else 0.

(** *** The registry as a lookup table *)

(** The record find_step_record points to. *)
Definition found_step (steps : list (Step.t G)) (step_id : Z)
  : option (Step.t G) :=
  k ← find_step_record steps step_id; steps !! k.

(** The requests the time-limit sweep owes for a list of steps: one for
    every step that has timed out and has a node to signal, in the order
    of the list. *)
Definition timelimit_requests (job_ptr : Job.t G) (now : Z)
  (steps : list (Step.t G)) : list Agent.t :=
  map (fun step_ptr => timelimit_request job_ptr step_ptr now)
      (filter (fun step_ptr =>
                 timed_out step_ptr now = true /\
                 timelimit_hostlist job_ptr step_ptr <> [])
              steps).

(** *** Epilog completion *)

(** The step holds a switch allocation, runs on node [node_inx], and has
    not recorded the exit of that node. *)
Definition awaits_epilog (node_inx : nat) (step_ptr : Step.t G) : bool :=
  is_Some_b (Step.switch_job step_ptr) &&
  bit_test (Step.step_node_bitmap step_ptr) node_inx &&
  match Step.exit_node_bitmap step_ptr with
  | Some exit_node_bitmap =>
      negb (bit_test exit_node_bitmap
              (bit_set_count (take node_inx (Step.step_node_bitmap step_ptr))))
  | None => true
  end.

(** The step holds a switch allocation, runs on node [node_inx], and
    keeps no record of the nodes that have exited. *)
Definition untracked_on (node_inx : nat) (step_ptr : Step.t G) : bool :=
  is_Some_b (Step.switch_job step_ptr) &&
  bit_test (Step.step_node_bitmap step_ptr) node_inx &&
  negb (is_Some_b (Step.exit_node_bitmap step_ptr)).

(** *** Debits *)

(** The fields of the job's resources that say where its nodes are: the
    accounting loops read them and never write them. *)
Definition same_nodes (res res' : Res.t) : Prop :=
  Res.node_bitmap res' = Res.node_bitmap res /\
  Res.nhosts res' = Res.nhosts res /\
  Res.cpus res' = Res.cpus res /\
  Res.memory_allocated res' = Res.memory_allocated res /\
  Res.core_bitmap res' = Res.core_bitmap res /\
  length (Res.cpus_used res') = length (Res.cpus_used res) /\
  is_Some_b (Res.memory_used res') = is_Some_b (Res.memory_used res).

(** The fields of a step that the accounting loops read. *)
Definition same_shape (step step' : Step.t G) : Prop :=
  Step.step_id step' = Step.step_id step /\
  Step.step_node_bitmap step' = Step.step_node_bitmap step /\
  Step.cpus_per_task step' = Step.cpus_per_task step /\
  Step.mem_per_cpu step' = Step.mem_per_cpu step /\
  Step.step_layout step' = Step.step_layout step /\
  Step.exclusive step' = Step.exclusive step /\
  Step.cpu_count step' = Step.cpu_count step.

(** What step_alloc_lps does to the counters of job node [j] when it
    takes [alloc] CPUs there: cpus_used[j] is stored back as a uint16_t,
    and, when [mem] says that memory is accounted, memory_used[j] grows
    by the product with [mem_per_cpu], stored as a uint32_t. *)
Definition debited_at (mem : bool) (mem_per_cpu : Z) (res res' : Res.t)
  (j alloc : Z) : Prop :=
  (exists used,
     Res.cpus_used res !! Z.to_nat j = Some used /\
     Res.cpus_used res' !! Z.to_nat j = Some (u16 (used + alloc))) /\
  (mem = true ->
   exists used,
     memory_used_at res (Z.to_nat j) = Some used /\
     memory_used_at res' (Z.to_nat j) =
     Some (u32 (used + mem_per_cpu * alloc))).

(** Memory is accounted for the step on this job: the step asks for
    memory, memory is a reserved resource, and the job has both memory
    arrays (the tests at lines 1232-1239 and 1341-1348). *)
Definition mem_accounted (step : Step.t G) (res : Res.t) : bool :=
  mem_on step && is_Some_b (Res.memory_allocated res) &&
  is_Some_b (Res.memory_used res).

(** What _step_dealloc_lps does to the counters of job node [j] when it
    gives back [alloc] CPUs there. *)
Definition given_back_at (mem : bool) (mem_per_cpu : Z) (res res' : Res.t)
  (j alloc : Z) : Prop :=
  (exists used,
     Res.cpus_used res !! Z.to_nat j = Some used /\
     Res.cpus_used res' !! Z.to_nat j =
     Some (if used >=? alloc then u16 (used - alloc) else 0)) /\
  (mem = true ->
   exists used,
     memory_used_at res (Z.to_nat j) = Some used /\
     memory_used_at res' (Z.to_nat j) =
     Some (credit used (u32 (mem_per_cpu * alloc)))).

(** The positions the accounting loops visit for a step on a job. *)
Definition step_pairs (step : Step.t G) (res : Res.t) (layout : Layout.t)
  : list (Z * Z) :=
  lps_pairs (Res.node_bitmap res) (Step.step_node_bitmap step)
            (Layout.node_cnt layout)
            (range_incl (bit_ffs (Res.node_bitmap res))
                        (bit_fls (Res.node_bitmap res))) (-1) (-1).

(** Every bit set in [a] is set in [b]. *)
Definition bit_subset (a b : bitstr) : Prop :=
  forall i, bit_test a i = true -> bit_test b i = true.

(** The nodes a step of [job] may get: those of the job that are up. *)
Definition job_up_nodes (job : Job.t G) : bitstr :=
  match Job.node_bitmap job with
  | Some job_node_bitmap =>
      bit_and job_node_bitmap (Cluster.up_node_bitmap cluster)
  | None => []
  end.

(** The three bitmaps of the second half of the picker lie in [A]. *)
Definition maps_in (A : bitstr) (maps : pick_maps) : Prop :=
  bit_subset maps.1.1 A /\
  (forall b, maps.1.2 = Some b -> bit_subset b A) /\
  (forall b, maps.2 = Some b -> bit_subset b A).

(** The fields of a new record that step_create settles before it lays
    the tasks out and debits the job. *)
Definition same_record (step step' : Step.t G) : Prop :=
  Step.step_id step' = Step.step_id step /\
  Step.step_node_bitmap step' = Step.step_node_bitmap step /\
  Step.start_time step' = Step.start_time step /\
  Step.time_limit step' = Step.time_limit step /\
  Step.batch_step step' = Step.batch_step step /\
  Step.cpus_per_task step' = Step.cpus_per_task step /\
  Step.exclusive step' = Step.exclusive step.

(** The time limit step_create gives a step (lines 1625-1638). *)
Definition step_time_limit_of (time_limit : Z) : Z :=
  if (time_limit =? NO_VAL) || (time_limit =? 0) || (time_limit =? INFINITE)
  then INFINITE else time_limit.

(** *** Core picker *)

(** Bitmap [b'] is [b] with some more bits set, all of them bits of
    [within]. *)
Definition grown_within (within b b' : bitstr) : Prop :=
  bit_size b' = bit_size b /\
  (forall o, bit_test b o = true -> bit_test b' o = true) /\
  (forall o, bit_test b' o = true -> bit_test b o = false ->
             bit_test within o = true).

(** *** Exclusive mode *)

(** Node [i] of the job has room for a task of the request: avail_tasks,
    as exclusive mode computes it for the node's position in the job, is
    positive. *)
Definition has_free_task (job_ptr : Job.t G) (step_spec : Req.t)
  (step_gres_list : option G) (cpus_per_task : Z) (i : nat) : Prop :=
  exists avail_tasks total_tasks,
    excl_node_tasks job_ptr step_spec step_gres_list cpus_per_task
      (job_pos (Res.node_bitmap (Job.job_resrcs job_ptr)) i) =
    Some (avail_tasks, total_tasks) /\
    0 < avail_tasks.

(** *** CPU count of a set of nodes *)

(** The nodes _count_cpus tallies: those of the node table that are in
    the job's resources, in the job's current node bitmap and in
    [bitmap]. *)
Definition is_counted (job_ptr : Job.t G) (job_node_bitmap bitmap : bitstr)
  (i : nat) : bool :=
  bit_test (Res.node_bitmap (Job.job_resrcs job_ptr)) i &&
  bit_test job_node_bitmap i && bit_test bitmap i.

Definition counted_nodes (job_ptr : Job.t G) (job_node_bitmap bitmap : bitstr)
  : list nat :=
  List.filter (is_counted job_ptr job_node_bitmap bitmap)
              (seq 0 (Cluster.node_record_count cluster)).

(** What node [i] adds to the tally: usable_cpu_cnt[i] when the array is
    given, else the job's CPU count at the position of the node in the
    job's resources. *)
Definition counted_cpus (job_ptr : Job.t G) (usable_cpu_cnt : option (list Z))
  (i : nat) : option Z :=
  match usable_cpu_cnt with
  | Some usable => usable !! i
  | None =>
      Res.cpus (Job.job_resrcs job_ptr) !!
        Z.to_nat (job_pos (Res.node_bitmap (Job.job_resrcs job_ptr)) i)
  end.

Definition cpus_total (job_ptr : Job.t G) (usable_cpu_cnt : option (list Z))
  (nodes : list nat) : Z :=
  foldr (fun i acc => default 0 (counted_cpus job_ptr usable_cpu_cnt i) + acc)
        0 nodes.

(** *** A created step and its debit *)

(** The record [s] of a new step of [job] and the job [job'] that holds
    it come out of one run of step_alloc_lps on the resources of [job]:
    [job'] has the resources that run left and [s] the nodes, layout, CPUs
    per task and memory per CPU of the record it returned. *)
Definition debited_by_alloc (job job' : Job.t G) (s : Step.t G) : Prop :=
  exists step4 jobB g0 step5 jobA g0',
    step_alloc_lps step4 jobB g0 = Ok (step5, jobA) g0' /\
    Job.job_resrcs jobB = Job.job_resrcs job /\
    Job.job_resrcs job' = Job.job_resrcs jobA /\
    same_shape step5 s /\
    Step.step_layout step4 = Step.step_layout s /\
    Step.step_node_bitmap step4 = Step.step_node_bitmap s /\
    Step.cpus_per_task step4 = Step.cpus_per_task s.

(** Job id and owner. *)
Definition same_owner (job job' : Job.t G) : Prop :=
  Job.job_id job' = Job.job_id job /\ Job.user_id job' = Job.user_id job.

(** *** Before the first step *)

(** Node [i] of the node table is powering up or does not respond. *)
Definition node_waking (i : nat) : bool :=
  match Cluster.node_record_table cluster !! i with
  | Some node_ptr => Node.power_save node_ptr || Node.no_respond node_ptr
  | None => false
  end.

(** Some node of the bitmap is powering up or does not respond. *)
Definition nodes_waking (node_bitmap : bitstr) : bool :=
  existsb (fun i => bit_test node_bitmap i && node_waking i)
          (seq 0 (Cluster.node_record_count cluster)).

Definition prolog_running (job_ptr : Job.t G) : bool :=
  match Job.details job_ptr with
  | Some running => running
  | None => false
  end.

(** *** Node counts of the shared picker *)

(** No bit is set in both bitmaps. *)
Definition bit_disjoint (a b : bitstr) : Prop :=
  forall i, bit_test a i = true -> bit_test b i = false.

(** The bitmaps of the second half of the picker on a cluster of [n]
    nodes: both of [n] bits, and no picked node still available. *)
Definition maps_ok (n : nat) (nodes_avail nodes_picked : bitstr) : Prop :=
  bit_size nodes_avail = n /\ bit_size nodes_picked = n /\
  bit_disjoint nodes_picked nodes_avail.

(** The idle nodes, when they are computed, are [n] bits among the
    available nodes. *)
Definition idle_ok (n : nat) (nodes_avail : bitstr)
  (nodes_idle : option bitstr) : Prop :=
  forall idle, nodes_idle = Some idle ->
               bit_size idle = n /\ bit_subset idle nodes_avail.

(** *** Run-length arrays of the layout *)

(** The sum of cpu_count_reps[]. *)
Definition reps_total (runs : list (Z * Z)) : Z :=
  foldr (fun run acc => run.2 + acc) 0 runs.

(** A run of cpus_per_node[] / cpu_count_reps[]: a uint16_t CPU count
    repeated at least once. *)
Definition run_ok (run : Z * Z) : Prop :=
  0 <= run.1 < 65536 /\ 1 <= run.2.
End StepMgr.

(** * A two-node cluster for examples

    Nodes n0 and n1 with 4 CPUs and 8192 MB each (2 sockets of 2 cores),
    one running job 1 of user 100 that owns both nodes, no gres, and a
    layout routine that hands every node the same number of tasks. *)

Definition ex_conf : Conf.t :=
  Conf.mk 128 false "switch/none" true true false false false.

Definition ex_cluster : Cluster.t :=
  Cluster.mk [Node.mk "n0" false false 4 4; Node.mk "n1" false false 4 4]
             [true; true].

Definition ex_plug : Plug.t Z :=
  Plug.mk Z
    (fun _ _ => (SLURM_SUCCESS, None))
    (fun _ _ _ _ => NO_VAL)
    (fun s j _ _ => (s, j))
    (fun s j => (s, j))
    (fun names =>
       if String.eqb names "n0" then Some [true; false]
       else if String.eqb names "n1" then Some [false; true]
       else if String.eqb names "n[0-1]" then Some [true; true]
       else None)
    (fun b => if bit_equal b [true; true] then "n[0-1]"
              else if bit_equal b [true; false] then "n0"
              else if bit_equal b [false; true] then "n1" else "")
    (fun node_list _ _ node_count num_tasks _ _ _ =>
       if node_count =? 0 then None
       else Some (Layout.mk node_list node_count num_tasks
                    (replicate (Z.to_nat node_count) (num_tasks / node_count))))
    (fun _ => SLURM_SUCCESS)
    (Some 0)
    (fun _ _ _ _ _ => false)
    (Some 0)
    (fun _ _ => Some (2, 2))
    (fun _ node_inx sock_inx core_inx => node_inx * 4 + sock_inx * 2 + core_inx)
    (fun uid => uid =? 0)
    0.

Definition ex_res : Res.t :=
  Res.mk (replicate 8 true) (replicate 8 false) 1 (Some [4]) [4; 4] [0; 0]
         [2] [2] [2] (Some [8192; 8192]) (Some [0; 0]) 2 [true; true].

Definition ex_job : Job.t Z :=
  Job.mk 1 100 JOB_RUNNING (Some false) 1000000 60 0 (Some [true; true])
         ex_res [] 0 None 0 (Some "job") None 120 8 0 "n0" 0.

Definition ex_glob : Glob.t := Glob.mk [] [] 0 0.

(** A request of user 100 for [num_tasks] tasks on job 1. *)
Definition ex_req (num_tasks cpu_count exclusive : Z) : Req.t :=
  Req.mk 1 100 1 0 cpu_count num_tasks NO_VAL16 SLURM_DIST_BLOCK 0 0 None
         None None None exclusive None 0 0 NO_VAL16 0 0 0 None.


(** The request [ex_req 4 4 1] with 100 MB per CPU, granted at time 10:
    job 1 then has step 0, four tasks on node n0. *)
Definition ex_created
  : outcome (slurm_rc * Req.t * list (Job.t Z) * option (Step.t Z)) :=
  Eval vm_compute in
    step_create ex_conf ex_cluster ex_plug 10 [ex_job]
                (Req.set_mem_per_cpu 100 (ex_req 4 4 1)) false ex_glob.

Definition ex_step0 : Step.t Z :=
  Eval vm_compute in
    match ex_created with
    | Ok (_, _, _, Some step_ptr) _ => step_ptr
    | _ => empty_step 0
    end.

Definition ex_job1 : Job.t Z :=
  Eval vm_compute in
    match ex_created with
    | Ok (_, _, [job_ptr], _) _ => job_ptr
    | _ => ex_job
    end.

(** Job 1 with step 0 under a time limit of one minute. *)
Definition ex_job_limited : Job.t Z :=
  Job.set_step_list [Step.set_time_limit 1 ex_step0] ex_job1.

(** The exclusive request for four tasks that names node n0. *)
Definition ex_named_req : Req.t :=
  Req.set_node_list (Some "n0") (ex_req 4 4 1).

(** A request for 2^31 CPUs and one task. *)
Definition ex_huge_req : Req.t := ex_req 1 2147483648 0.

(** A step of four tasks with two CPUs each that has no core bitmap yet,
    and the resources of job 1 with core 0 of node n0 in use. *)
Definition ex_step_wide : Step.t Z :=
  Step.mk 1 10 INFINITE (-1) [true; false] 0 None None 0 None false 2 0 0 0
          8 0 1 None 0 None None None 0 None None None None 0 0.

Definition ex_res_busy : Res.t :=
  Res.set_core_bitmap_used
    [true; false; false; false; false; false; false; false] ex_res.

(** A report that node 0 of step 0 of job 1 is done, with exit code 3. *)
Definition ex_cmsg : Cmsg.t := Cmsg.mk 1 0 0 0 3.


(** find_node_record on the example cluster. *)
Definition ex_find_node (name : string) : option nat :=
  if String.eqb name "n0" then Some 0%nat
  else if String.eqb name "n1" then Some 1%nat
  else None.

(** A step of four tasks on node n0 that shares the cores of job 1, with
    100 MB per CPU, before step_alloc_lps has debited it. *)
Definition ex_step_shared : Step.t Z :=
  Step.mk 1 10 INFINITE (-1) [true; false] 0 None None 0 None false 1 100 0 0
          4 0 0 None 0 None None (Some (Layout.mk "n0" 1 4 [4])) 0 None None
          None None 0 0.

(** The exclusive request for four tasks, on one node at most. *)
Definition ex_req_one_node : Req.t :=
  Req.mk 1 100 1 1 4 4 NO_VAL16 SLURM_DIST_BLOCK 0 0 None None None None 1
         None 0 0 NO_VAL16 0 0 0 None.

(** A request for eight CPUs shared with other steps, on one or two
    nodes. *)
Definition ex_req_shared : Req.t :=
  Req.mk 1 100 1 2 8 8 NO_VAL16 SLURM_DIST_BLOCK 0 0 None None None None 0
         None 0 0 NO_VAL16 0 0 0 None.

(** The exclusive request for eight tasks, granted at time 10: job 1 then
    has step 0 with four tasks on each of n0 and n1. *)
Definition ex_created_two
  : outcome (slurm_rc * Req.t * list (Job.t Z) * option (Step.t Z)) :=
  Eval vm_compute in
    step_create ex_conf ex_cluster ex_plug 10 [ex_job] (ex_req 8 8 1) false
                ex_glob.

Definition ex_step_two : Step.t Z :=
  Eval vm_compute in
    match ex_created_two with
    | Ok (_, _, _, Some step_ptr) _ => step_ptr
    | _ => empty_step 0
    end.

Definition ex_job_two : Job.t Z :=
  Eval vm_compute in
    match ex_created_two with
    | Ok (_, _, [job_ptr], _) _ => job_ptr
    | _ => ex_job
    end.

(** * Properties *)

Section Properties.

Context {G : Type}.
Variable conf : Conf.t.
Variable cluster : Cluster.t.
Variable plug : Plug.t G.

(** ** The monad *)

Lemma bind_Ok {A B} (m : M A) (k : A -> M B) g b g' :
  bind m k g = Ok b g' ->
  exists a g1, m g = Ok a g1 /\ k a g1 = Ok b g'.
Proof.
  unfold bind. destruct (m g) as [a g1|msg]; [eauto|discriminate].
Qed.

Lemma ret_Ok {A} (a b : A) g g' : ret a g = Ok b g' -> a = b /\ g = g'.
Proof. unfold ret. intros H. by inversion H. Qed.

Lemma log_msg_Ok lvl msg g u g' :
  log_msg lvl msg g = Ok u g' ->
  g' = Glob.set_log (Glob.log g ++ [(lvl, msg)]) g.
Proof. unfold log_msg. intros H. by inversion H. Qed.

Lemma array_get_Ok a i g v g' :
  array_get a i g = Ok v g' ->
  0 <= i /\ a !! Z.to_nat i = Some v /\ g' = g.
Proof.
  unfold array_get. destruct (Z.ltb_spec i 0); [discriminate|].
  destruct (a !! Z.to_nat i) eqn:E; [|discriminate].
  unfold ret. intros Hr. inversion Hr. by subst.
Qed.

Lemma array_set_Ok a i v g a' g' :
  array_set a i v g = Ok a' g' ->
  0 <= i < Z.of_nat (length a) /\ a' = <[ Z.to_nat i := v ]> a /\ g' = g.
Proof.
  unfold array_set.
  destruct (Z.ltb_spec i 0); [discriminate|].
  destruct (Z.leb_spec (Z.of_nat (length a)) i); [discriminate|].
  simpl. unfold ret. intros Hr. inversion Hr. subst. repeat split; lia.
Qed.

Lemma deref_Ok {A} (p : option A) g a g' :
  deref p g = Ok a g' -> p = Some a /\ g' = g.
Proof.
  unfold deref. destruct p; [|discriminate].
  unfold ret. intros H. by inversion H.
Qed.

(** Invert a run that returned: split binds, resolve returns. *)
Ltac inv_run :=
  repeat match goal with
  | H : bind _ _ _ = Ok _ _ |- _ =>
      let a := fresh "a" in let g1 := fresh "g" in
      let H1 := fresh "Hrun" in let H2 := fresh "Hrun" in
      apply bind_Ok in H; destruct H as (a & g1 & H1 & H2)
  | H : ret _ _ = Ok _ _ |- _ =>
      apply ret_Ok in H; destruct H; subst
  | H : fatal _ _ = Ok _ _ |- _ => discriminate H
  | H : Fatal _ = Ok _ _ |- _ => discriminate H
  | H : Ok _ _ = Ok _ _ |- _ => inversion H; subst; clear H
  | H : deref _ _ = Ok _ _ |- _ =>
      apply deref_Ok in H; destruct H; subst
  | H : array_get _ _ _ = Ok _ _ |- _ =>
      apply array_get_Ok in H; destruct H as (? & ? & ?); subst
  | H : array_set _ _ _ _ = Ok _ _ |- _ =>
      apply array_set_Ok in H; destruct H as (? & ? & ?); subst
  | H : (_, _) = (_, _) |- _ => inversion H; subst; clear H
  end.

(** ** Machine integers *)

Lemma u16_range z : 0 <= u16 z < 65536.
Proof. unfold u16. apply Z.mod_pos_bound. lia. Qed.

Lemma u32_range z : 0 <= u32 z < 4294967296.
Proof. unfold u32. apply Z.mod_pos_bound. lia. Qed.

Lemma u16_id z : 0 <= z < 65536 -> u16 z = z.
Proof. unfold u16. intros. by apply Z.mod_small. Qed.

Lemma u32_id z : 0 <= z < 4294967296 -> u32 z = z.
Proof. unfold u32. intros. by apply Z.mod_small. Qed.

Lemma i32_id z : -2147483648 <= z < 2147483648 -> i32 z = z.
Proof. unfold i32. intros. rewrite Z.mod_small; lia. Qed.

Lemma i32_range z : -2147483648 <= i32 z < 2147483648.
Proof.
  unfold i32.
  pose proof (Z.mod_pos_bound (z + 2147483648) 4294967296). lia.
Qed.

(** ** The registry *)

Lemma step_index_Some (steps : list (Step.t G)) step_id k :
  step_index steps step_id = Some k ->
  exists s, steps !! k = Some s /\ Step.step_id s = step_id.
Proof.
  revert k. induction steps as [|s rest IH]; intros k; simpl; [done|].
  destruct (Z.eqb_spec (Step.step_id s) step_id).
  - intros [= <-]. eauto.
  - destruct (step_index rest step_id) as [k'|]; [|done].
    intros [= <-]. simpl. by apply IH.
Qed.

Lemma step_index_None (steps : list (Step.t G)) step_id :
  step_index steps step_id = None <->
  (forall s, s ∈ steps -> Step.step_id s <> step_id).
Proof.
  induction steps as [|s rest IH]; simpl.
  - split; [|done]. intros _ s Hs. by apply elem_of_nil in Hs.
  - destruct (Z.eqb_spec (Step.step_id s) step_id) as [E|E].
    + split; [done|]. intros Hall. exfalso. apply (Hall s); [left|done].
    + destruct (step_index rest step_id) eqn:Hr; simpl.
      * split; [done|]. intros Hall.
        assert (Some n = @None nat) as Habs; [|done].
        apply IH. intros s' Hs'. apply Hall. by right.
      * split; [|done]. intros _ s' Hs'.
        apply elem_of_cons in Hs' as [->|Hs']; [done|].
        by apply IH.
Qed.

Lemma find_step_record_index (steps : list (Step.t G)) step_id :
  step_id <> NO_VAL -> find_step_record steps step_id = step_index steps step_id.
Proof.
  intros Hne. induction steps as [|s rest IH]; simpl; [done|].
  destruct (Z.eqb_spec step_id NO_VAL); [done|].
  rewrite orb_false_r. by rewrite IH.
Qed.

Lemma find_job_record_Some (jobs : list (Job.t G)) job_id k :
  find_job_record jobs job_id = Some k ->
  exists j, jobs !! k = Some j /\ Job.job_id j = job_id.
Proof.
  revert k. induction jobs as [|j rest IH]; intros k; simpl; [done|].
  destruct (Z.eqb_spec (Job.job_id j) job_id).
  - intros [= <-]. eauto.
  - destruct (find_job_record rest job_id) as [k'|]; [|done].
    intros [= <-]. simpl. by apply IH.
Qed.

Lemma find_job_record_insert (jobs : list (Job.t G)) job_id k j j' :
  jobs !! k = Some j -> Job.job_id j' = Job.job_id j ->
  find_job_record (<[ k := j' ]> jobs) job_id = find_job_record jobs job_id.
Proof.
  revert k. induction jobs as [|x rest IH]; intros k; [done|].
  destruct k as [|k]; simpl.
  - intros [= ->] ->. done.
  - intros Hk Hid. by rewrite (IH k).
Qed.

(** ** Completion of a step that is not in the registry *)

Lemma may_complete_test job_ptr uid :
  may_complete plug job_ptr uid ->
  negb (Job.user_id job_ptr =? uid) && negb (uid =? 0) &&
  negb (uid =? Plug.getuid plug) = false.
Proof.
  intros [H|[H|H]].
  - apply Z.eqb_eq in H. by rewrite H.
  - apply Z.eqb_eq in H. rewrite H. by rewrite andb_false_r.
  - apply Z.eqb_eq in H. rewrite H. by rewrite andb_false_r.
Qed.

Lemma delete_step_record_found now (job_ptr : Job.t G) step_id k g :
  step_index (Job.step_list job_ptr) step_id = Some k ->
  delete_step_record now job_ptr step_id g =
  Ok (SLURM_SUCCESS,
      Job.set_step_list (delete k (Job.step_list job_ptr)) job_ptr)
     (Glob.set_last_job_update now g).
Proof. intros H. unfold delete_step_record, bind, touch_last_job_update. by rewrite H. Qed.

Lemma step_index_insert (steps : list (Step.t G)) step_id k s s' :
  steps !! k = Some s -> Step.step_id s' = Step.step_id s ->
  step_index (<[ k := s' ]> steps) step_id = step_index steps step_id.
Proof.
  revert k. induction steps as [|x rest IH]; intros k; [done|].
  destruct k as [|k]; simpl.
  - intros [= ->] ->. done.
  - intros Hk Hid. by rewrite (IH k).
Qed.

Lemma step_index_delete (steps : list (Step.t G)) step_id k :
  NoDup (map Step.step_id steps) ->
  step_index steps step_id = Some k ->
  step_index (delete k steps) step_id = None.
Proof.
  revert k. induction steps as [|x rest IH]; intros k; [done|].
  simpl. intros Hnd. apply NoDup_cons in Hnd as [Hx Hnd].
  destruct (Z.eqb_spec (Step.step_id x) step_id) as [E|E].
  - intros [= <-]. simpl. apply step_index_None.
    intros s Hs Hid. apply Hx. rewrite E, <- Hid.
    apply list_elem_of_fmap. eauto.
  - destruct (step_index rest step_id) as [k'|] eqn:Hr; [|done].
    intros [= <-]. simpl.
    destruct (Z.eqb_spec (Step.step_id x) step_id); [done|].
    by rewrite (IH k').
Qed.

Lemma delete_insert_same {A} (l : list A) k x :
  delete k (<[ k := x ]> l) = delete k l.
Proof.
  revert k. induction l as [|y l IH]; intros [|k]; simpl; try done.
  by rewrite IH.
Qed.

(** How job_step_complete runs when the step is in the registry. *)
Lemma job_step_complete_found now (jobs : list (Job.t G)) job_id step_id uid
  g jk job sk step step1 job2 g1 :
  find_job_record jobs job_id = Some jk -> jobs !! jk = Some job ->
  may_complete plug job uid -> step_id <> NO_VAL ->
  step_index (Job.step_list job) step_id = Some sk ->
  Job.step_list job !! sk = Some step ->
  _step_dealloc_lps conf step
    (Job.set_derived_ec (MAX (Job.derived_ec job) (Step.exit_code step)) job)
    g = Ok (step1, job2) g1 ->
  Job.step_list job2 = Job.step_list job ->
  Step.step_id step1 = Step.step_id step ->
  job_step_complete conf plug now jobs job_id step_id uid g =
  Ok (SLURM_SUCCESS,
      <[ jk := Job.set_step_list (delete sk (Job.step_list job))
                 (Job.set_gres_list
                    (Plug.gres_plugin_step_dealloc plug (Step.gres_list step1)
                       (Job.gres_list job2)).2 job2) ]> jobs)
     (Glob.set_last_job_update now (Glob.set_last_job_update now g1)).
Proof.
  intros Hjob Hjk Hmay Hne Hidx Hsk Hdealloc Hlist Hid.
  unfold job_step_complete. rewrite Hjob.
  unfold bind at 1. rewrite Hjk. simpl.
  rewrite (may_complete_test _ _ Hmay).
  rewrite (find_step_record_index _ _ Hne), Hidx.
  unfold bind at 1. rewrite Hsk. simpl.
  unfold bind at 1. rewrite Hdealloc.
  destruct (Plug.gres_plugin_step_dealloc plug (Step.gres_list step1)
              (Job.gres_list job2)) as [step_gres job_gres] eqn:Hg.
  unfold bind at 1. unfold touch_last_job_update at 1.
  unfold bind at 1.
  erewrite delete_step_record_found; last first.
  { simpl. rewrite Hlist. erewrite step_index_insert; eauto. }
  simpl. unfold ret. rewrite Hlist, delete_insert_same. reflexivity.
Qed.

(** _step_dealloc_lps writes the job's resources and nothing else of the
    job; it keeps the id of the step. *)
Lemma step_dealloc_lps_frame (step : Step.t G) (job : Job.t G) g step1 job1 g1 :
  _step_dealloc_lps conf step job g = Ok (step1, job1) g1 ->
  Job.step_list job1 = Job.step_list job /\
  Job.gres_list job1 = Job.gres_list job /\
  Job.job_id job1 = Job.job_id job /\
  Job.user_id job1 = Job.user_id job /\
  Job.next_step_id job1 = Job.next_step_id job /\
  Step.step_id step1 = Step.step_id step /\
  Step.gres_list step1 = Step.gres_list step.
Proof.
  unfold _step_dealloc_lps. intros H.
  destruct (Step.step_layout step) as [layout|]; [|by inv_run].
  destruct (bit_ffs _ =? -1); [by inv_run|].
  apply bind_Ok in H as (s1 & g2 & Hs1 & H).
  assert (Step.step_id s1 = Step.step_id step /\
          Step.gres_list s1 = Step.gres_list step) as [Hid Hgres].
  { destruct (_ && _ && _) in Hs1; inv_run; done. }
  apply bind_Ok in H as (res1 & g3 & _ & H).
  destruct (Conf.have_bg conf); [by inv_run|].
  destruct (Step.core_bitmap_job s1); by inv_run.
Qed.

(** C5 (as the code has it). For a job the caller may complete and a step
    id other than NO_VAL: when no record of the job has this id,
    job_step_complete returns ESLURM_INVALID_JOB_ID (not
    ESLURM_ALREADY_DONE) and changes nothing; when the record exists, the
    completion returns SLURM_SUCCESS, the job's resources are those
    _step_dealloc_lps leaves, the gres of the step are given back and the
    record is gone from the registry, so that a second completion of the
    same id returns ESLURM_INVALID_JOB_ID again. *)
Theorem job_step_complete_missing_step now (jobs : list (Job.t G))
  job_id step_id uid g jk job :
  find_job_record jobs job_id = Some jk -> jobs !! jk = Some job ->
  may_complete plug job uid -> step_id <> NO_VAL ->
  ((forall s, s ∈ Job.step_list job -> Step.step_id s <> step_id) ->
   job_step_complete conf plug now jobs job_id step_id uid g =
   Ok (ESLURM_INVALID_JOB_ID, jobs) g) /\
  (forall sk step step1 job2 g1,
     step_index (Job.step_list job) step_id = Some sk ->
     Job.step_list job !! sk = Some step ->
     NoDup (map Step.step_id (Job.step_list job)) ->
     _step_dealloc_lps conf step
       (Job.set_derived_ec (MAX (Job.derived_ec job) (Step.exit_code step))
          job) g = Ok (step1, job2) g1 ->
     exists job' jobs' g2,
       job_step_complete conf plug now jobs job_id step_id uid g =
       Ok (SLURM_SUCCESS, jobs') g2 /\
       jobs' = <[ jk := job' ]> jobs /\
       Job.step_list job' = delete sk (Job.step_list job) /\
       (forall s, s ∈ Job.step_list job' -> Step.step_id s <> step_id) /\
       Job.job_resrcs job' = Job.job_resrcs job2 /\
       Job.gres_list job' =
       (Plug.gres_plugin_step_dealloc plug (Step.gres_list step)
          (Job.gres_list job)).2 /\
       job_step_complete conf plug now jobs' job_id step_id uid g2 =
       Ok (ESLURM_INVALID_JOB_ID, jobs') g2).
Proof.
  intros Hjob Hjk Hmay Hne.
  assert (forall jobs0 job0 g0,
    find_job_record jobs0 job_id = Some jk -> jobs0 !! jk = Some job0 ->
    may_complete plug job0 uid ->
    (forall s, s ∈ Job.step_list job0 -> Step.step_id s <> step_id) ->
    job_step_complete conf plug now jobs0 job_id step_id uid g0 =
    Ok (ESLURM_INVALID_JOB_ID, jobs0) g0) as Hmissing.
  { intros jobs0 job0 g0 Hj0 Hk0 Hmay0 Hnone.
    unfold job_step_complete. rewrite Hj0.
    unfold bind at 1. rewrite Hk0. simpl.
    rewrite (may_complete_test _ _ Hmay0).
    rewrite (find_step_record_index _ _ Hne).
    apply step_index_None in Hnone. by rewrite Hnone. }
  split; [by apply Hmissing|].
  intros sk step step1 job2 g1 Hidx Hsk Hnd Hdealloc.
  destruct (step_dealloc_lps_frame _ _ _ _ _ _ Hdealloc)
    as (Hlist & Hgres & Hjid & Huid & _ & Hid & Hsgres).
  eexists _, _, _. split.
  { eapply job_step_complete_found; eauto. }
  split; [reflexivity|].
  assert (forall s, s ∈ delete sk (Job.step_list job) ->
                    Step.step_id s <> step_id) as Hgone.
  { apply step_index_None. by apply step_index_delete. }
  split; [reflexivity|]. split; [exact Hgone|].
  split; [reflexivity|]. split.
  { simpl. by rewrite Hsgres, Hgres. }
  eapply Hmissing;
    [ | apply list_lookup_insert_eq; by eapply lookup_lt_Some | | exact Hgone ].
  - erewrite find_job_record_insert; eauto.
  - unfold may_complete in *. simpl. by rewrite Huid.
Qed.

(** ** What the node picker leaves alone *)

Lemma same_accounting_refl (job : Job.t G) : same_accounting job job.
Proof. by repeat split. Qed.

Lemma same_accounting_trans (j1 j2 j3 : Job.t G) :
  same_accounting j1 j2 -> same_accounting j2 j3 -> same_accounting j1 j3.
Proof.
  intros (?&?&?) (?&?&?). repeat split; congruence.
Qed.

Lemma first_step_check_frame now (job : Job.t G) node_bitmap g early job' g' :
  first_step_check cluster now job node_bitmap g = Ok (early, job') g' ->
  same_accounting job job' /\
  Job.next_step_id job' = Job.next_step_id job /\
  Job.node_bitmap job' = Job.node_bitmap job /\
  Job.name job' = Job.name job /\ Job.network job' = Job.network job /\
  Job.part_max_time job' = Job.part_max_time job /\
  Job.total_cpus job' = Job.total_cpus job /\
  match early with Some rc => rc <> SLURM_SUCCESS | None => True end.
Proof.
  unfold first_step_check, extend_end_time. intros H.
  destruct (Job.next_step_id job =? 0).
  - destruct (match Job.details job with Some p => p | None => false end).
    + inv_run. by repeat split.
    + apply bind_Ok in H as (ready & g1 & _ & H).
      destruct ready; inv_run; [by repeat split|].
      destruct (negb _); by repeat split.
  - inv_run. by repeat split.
Qed.

Lemma same_counts_refl spec : same_counts spec spec.
Proof. by repeat split. Qed.

Lemma same_counts_trans s1 s2 s3 :
  same_counts s1 s2 -> same_counts s2 s3 -> same_counts s1 s3.
Proof.
  intros (?&?&?&?&?&?&?) (?&?&?&?&?&?&?). repeat split; congruence.
Qed.

Lemma pick_named_nodes_counts job_node_bitmap spec nodes_avail g r g' :
  pick_named_nodes conf plug job_node_bitmap spec nodes_avail g = Ok r g' ->
  match r with
  | inl (res, spec') => same_counts spec spec' /\ res.2 <> SLURM_SUCCESS
  | inr (spec', _, _) => same_counts spec spec'
  end.
Proof.
  unfold pick_named_nodes, cleanup. intros H.
  destruct (Req.node_list spec); [|by inv_run].
  destruct (Plug.node_name2bitmap plug _); [|by inv_run].
  destruct (negb (bit_super_set _ job_node_bitmap)); [by inv_run|].
  destruct (negb (bit_super_set _ nodes_avail)); [by inv_run|].
  apply bind_Ok in H as ([spec1 sel] & g1 & H1 & H).
  assert (same_counts spec spec1) as Hc.
  { destruct (Req.task_dist spec); inv_run; try done.
    destruct (String.eqb _ _); inv_run; done. }
  destruct sel; [|by inv_run].
  destruct (_ && _); [by inv_run|].
  destruct (_ && _); by inv_run.
Qed.

Lemma cpu_count_to_min_nodes_counts (job : Job.t G) spec g r g' :
  cpu_count_to_min_nodes job spec g = Ok r g' ->
  match r with inl spec' | inr spec' => same_counts spec spec' end.
Proof.
  unfold cpu_count_to_min_nodes. intros H.
  destruct (Res.cpu_array_value _); [|by inv_run].
  destruct (_ && _); [|by inv_run].
  apply bind_Ok in H as (v0 & g1 & _ & H).
  destruct (v0 =? 0); [done|].
  destruct (_ && _); by inv_run.
Qed.

Lemma add_nodes_loop_counts fuel (job : Job.t G) bm usable st g st' g' :
  add_nodes_loop cluster fuel job bm usable st g = Ok st' g' ->
  same_counts st.1.1.1.1 st'.1.1.1.1.
Proof.
  revert st g. induction fuel as [|fuel IH]; intros [[[[spec av] pk] n] c] g;
    simpl; intros H; [by inv_run|].
  destruct (negb _); [by inv_run|].
  destruct (bit_pick_cnt av 1) as [tmp|]; [|by inv_run].
  apply bind_Ok in H as (cnt & g1 & _ & H).
  destruct (cnt =? 0).
  - by apply IH in H.
  - destruct (negb (Req.min_nodes spec =? 0)) eqn:Hm.
    + destruct (_ && _).
      * inv_run. done.
      * apply IH in H. eapply same_counts_trans; [|exact H]. done.
    + destruct (_ && _).
      * inv_run. done.
      * by apply IH in H.
Qed.

Lemma pick_cpu_count_counts (job : Job.t G) bm spec usable mbc maps npc g r g' :
  pick_cpu_count cluster job bm spec usable mbc maps npc g = Ok r g' ->
  same_counts spec r.2.
Proof.
  unfold pick_cpu_count, cleanup. destruct maps as [[av idle] pk]. intros H.
  destruct (Req.cpu_count spec =? 0); [by inv_run|].
  apply bind_Ok in H as (picked & g1 & _ & H).
  apply bind_Ok in H as (cpc & g2 & _ & H).
  apply bind_Ok in H as ([[[[spec1 av1] pk1] n1] c1] & g3 & H1 & H).
  assert (same_counts spec spec1) as Hc.
  { destruct (_ && _); [|by inv_run].
    by apply add_nodes_loop_counts in H1. }
  destruct (Req.cpu_count spec1 >? u32 c1); [|by inv_run].
  destruct (_ <=? _); [by inv_run|].
  destruct (negb _); by inv_run.
Qed.

Lemma pick_shared_counts (job : Job.t G) bm spec gres cpt avail g r g' :
  pick_shared conf cluster plug job bm spec gres cpt avail g = Ok r g' ->
  same_counts spec r.2.
Proof.
  unfold pick_shared. intros H.
  apply bind_Ok in H as (u & g1 & _ & H).
  destruct u as [rc|[[[av usable] mbn] mbc]]; [by inv_run|].
  destruct (Req.min_nodes spec =? INFINITE); [by inv_run|].
  apply bind_Ok in H as (named & g2 & Hnamed & H).
  apply pick_named_nodes_counts in Hnamed.
  destruct named as [[res spec1]|[[spec1 av1] pk]].
  { inv_run. by destruct Hnamed. }
  apply bind_Ok in H as (rel & g3 & _ & H).
  destruct rel as [|[av2 idle]]; [by inv_run|].
  apply bind_Ok in H as (c & g4 & Hc & H).
  apply cpu_count_to_min_nodes_counts in Hc.
  destruct c as [spec2|spec2].
  { inv_run. by eapply same_counts_trans. }
  apply bind_Ok in H as (m & g5 & _ & H).
  destruct m as [rc|[maps npc]].
  { inv_run. by eapply same_counts_trans. }
  apply pick_cpu_count_counts in H.
  eapply same_counts_trans; [exact Hnamed|].
  by eapply same_counts_trans.
Qed.

(** _pick_step_nodes writes job_state and end_time of the job, and
    min_nodes, mem_per_cpu, task_dist and node_list of the request. *)
Lemma pick_step_nodes_frame now (job : Job.t G) spec gres cpt g
  picked rc spec' job' g' :
  _pick_step_nodes conf cluster plug now job spec gres cpt g =
  Ok (picked, rc, spec', job') g' ->
  same_accounting job job' /\ same_counts spec spec' /\
  Job.next_step_id job' = Job.next_step_id job /\
  Job.name job' = Job.name job /\ Job.network job' = Job.network job /\
  Job.part_max_time job' = Job.part_max_time job.
Proof.
  unfold _pick_step_nodes. intros H.
  destruct (Job.node_bitmap job) as [bm|].
  2:{ inv_run. split; [apply same_accounting_refl|done]. }
  destruct (_ && _).
  { inv_run. split; [apply same_accounting_refl|done]. }
  apply bind_Ok in H as (spec1 & g1 & Hspec1 & H).
  assert (same_counts spec spec1) as Hc1.
  { destruct (_ && _) in Hspec1; inv_run; done. }
  apply bind_Ok in H as ([early job1] & g2 & Hfirst & H).
  apply first_step_check_frame in Hfirst
    as (Hacc & Hnext & _ & Hname & Hnet & Hpart & _).
  destruct early as [rc0|]; [by inv_run|].
  destruct (negb (Req.exclusive spec1 =? 0)).
  - apply bind_Ok in H as ([pk rc1] & g3 & _ & H). by inv_run.
  - apply bind_Ok in H as ([[pk rc1] spec2] & g3 & Hsh & H).
    apply pick_shared_counts in Hsh. inv_run.
    repeat split; try done; try apply Hacc.
    all: try (destruct Hc1 as (?&?&?&?&?&?&?);
              destruct Hsh as (?&?&?&?&?&?&?); simpl in *; congruence).
Qed.

(** ** Normalization of the request *)

Lemma normalize_overcommit_num_tasks spec :
  Req.num_tasks (normalize_overcommit spec) = Req.num_tasks spec.
Proof.
  unfold normalize_overcommit.
  destruct (negb (Req.overcommit spec =? 0)); [|done].
  by destruct (negb (Req.exclusive spec =? 0)).
Qed.

(** C7 (as the code has it). For a request whose cpu_count and num_tasks
    are uint32_t values: with overcommit and exclusive both set,
    overcommit is cleared and cpu_count becomes num_tasks; with overcommit
    alone, cpu_count becomes 0; otherwise the request is unchanged. A
    request without tasks is then answered ESLURM_BAD_TASK_COUNT. For the
    others cpus_per_task is 0 when cpu_count is 0 or num_tasks does not
    divide it, and else the quotient cpu_count / num_tasks as an int: the
    quotient itself below 2^31, and 1 from 2^31 on, where the int is
    negative and the code raises it to 1. *)
Theorem step_create_normalization now (job : Job.t G) spec batch g :
  0 <= Req.cpu_count spec < 4294967296 ->
  0 <= Req.num_tasks spec < 4294967296 ->
  let spec1 := normalize_overcommit spec in
  let q := Req.cpu_count spec1 / Req.num_tasks spec1 in
  (Req.overcommit spec <> 0 -> Req.exclusive spec <> 0 ->
   Req.overcommit spec1 = 0 /\ Req.cpu_count spec1 = Req.num_tasks spec) /\
  (Req.overcommit spec <> 0 -> Req.exclusive spec = 0 ->
   Req.overcommit spec1 = Req.overcommit spec /\ Req.cpu_count spec1 = 0) /\
  (Req.overcommit spec = 0 -> spec1 = spec) /\
  (Req.num_tasks spec = 0 ->
   step_create_job conf cluster plug now job spec batch g =
   Ok (ESLURM_BAD_TASK_COUNT, spec1, job, None) g) /\
  (1 <= Req.num_tasks spec ->
   (Req.cpu_count spec1 = 0 \/
    Req.cpu_count spec1 mod Req.num_tasks spec1 <> 0 ->
    cpus_per_task_of spec1 = 0) /\
   (Req.cpu_count spec1 <> 0 ->
    Req.cpu_count spec1 mod Req.num_tasks spec1 = 0 ->
    (q < 2147483648 -> cpus_per_task_of spec1 = q) /\
    (2147483648 <= q -> cpus_per_task_of spec1 = 1))).
Proof.
  intros Hcpu Htasks spec1 q.
  assert (Req.num_tasks spec1 = Req.num_tasks spec) as Hnt
    by apply normalize_overcommit_num_tasks.
  assert (0 <= Req.cpu_count spec1 < 4294967296) as Hcpu1.
  { subst spec1. unfold normalize_overcommit.
    destruct (negb (Req.overcommit spec =? 0)); [|done].
    destruct (negb (Req.exclusive spec =? 0)); simpl; lia. }
  repeat split.
  - subst spec1. unfold normalize_overcommit.
    destruct (Z.eqb_spec (Req.overcommit spec) 0); [done|].
    destruct (Z.eqb_spec (Req.exclusive spec) 0); done.
  - subst spec1. unfold normalize_overcommit.
    destruct (Z.eqb_spec (Req.overcommit spec) 0); [done|].
    destruct (Z.eqb_spec (Req.exclusive spec) 0); done.
  - subst spec1. unfold normalize_overcommit.
    destruct (Z.eqb_spec (Req.overcommit spec) 0); [done|].
    destruct (Z.eqb_spec (Req.exclusive spec) 0); done.
  - subst spec1. unfold normalize_overcommit.
    destruct (Z.eqb_spec (Req.overcommit spec) 0); [done|].
    destruct (Z.eqb_spec (Req.exclusive spec) 0); [done|]. lia.
  - intros H. subst spec1. unfold normalize_overcommit.
    destruct (Z.eqb_spec (Req.overcommit spec) 0); [|done].
    by destruct spec.
  - intros H0. unfold step_create_job. fold spec1. rewrite Hnt, H0. done.
  - intros Hcase. unfold cpus_per_task_of.
    rewrite Z.rem_mod_nonneg by lia.
    destruct (Z.eqb_spec (Req.cpu_count spec1) 0) as [|Hne]; [done|].
    destruct (Z.eqb_spec (Req.cpu_count spec1 mod Req.num_tasks spec1) 0);
      [|done].
    by destruct Hcase.
  - intros Hlt. unfold cpus_per_task_of.
    rewrite Z.rem_mod_nonneg by lia.
    destruct (Z.eqb_spec (Req.cpu_count spec1) 0) as [|Hne]; [done|].
    destruct (Z.eqb_spec (Req.cpu_count spec1 mod Req.num_tasks spec1) 0);
      [|done].
    simpl. fold q.
    assert (1 <= q).
    { subst q. apply Z.div_le_lower_bound; [lia|].
      assert (Req.num_tasks spec1 <= Req.cpu_count spec1); [|lia].
      apply Z.divide_pos_le; [lia|]. apply Z.mod_divide; lia. }
    rewrite i32_id by lia.
    destruct (Z.ltb_spec q 1); [lia|done].
  - intros Hge. unfold cpus_per_task_of.
    rewrite Z.rem_mod_nonneg by lia.
    destruct (Z.eqb_spec (Req.cpu_count spec1) 0) as [|Hne]; [done|].
    destruct (Z.eqb_spec (Req.cpu_count spec1 mod Req.num_tasks spec1) 0);
      [|done].
    simpl. fold q.
    assert (q < 4294967296).
    { subst q. apply Z.div_lt_upper_bound; nia. }
    assert (i32 q = q - 4294967296) as ->.
    { unfold i32.
      replace (q + 2147483648) with
        ((q - 2147483648) + 1 * 4294967296) by lia.
      rewrite Z.mod_add by lia. rewrite Z.mod_small; lia. }
    destruct (Z.ltb_spec (q - 4294967296) 1); [done|lia].
Qed.

(** ** The default task count *)

(** C10. Let step_create be called with num_tasks = NO_VAL, let the gres
    of the request be valid and let _pick_step_nodes return the bitmap
    [nodeset]. Then num_tasks becomes cpu_count (as the overcommit rules
    left it) when that is not NO_VAL, and the number of picked nodes
    otherwise; this value is the one compared with
    node_count * max_tasks_per_node: above it the request is answered
    ESLURM_BAD_TASK_COUNT, else the step record is created with it. *)
Theorem step_create_default_num_tasks now (job : Job.t G) spec batch g
  gres nodeset rc3 spec3 job2 g2 :
  Req.num_tasks spec = NO_VAL ->
  let spec1 := normalize_overcommit spec in
  let cpus_per_task := cpus_per_task_of spec1 in
  let spec2 :=
    if Req.no_kill spec1 >? 1 then Req.set_no_kill 1 spec1 else spec1 in
  Plug.gres_plugin_step_state_validate plug (Req.gres spec2)
    (Job.gres_list job) = (SLURM_SUCCESS, gres) ->
  _pick_step_nodes conf cluster plug now (Job.set_time_last_active now job)
    spec2 gres cpus_per_task g = Ok (Some nodeset, rc3, spec3, job2) g2 ->
  let node_count := Z.of_nat (bit_set_count nodeset) in
  node_count < 4294967296 ->
  let num_tasks :=
    if Req.cpu_count spec1 =? NO_VAL then node_count
    else Req.cpu_count spec1 in
  let spec4 := Req.set_num_tasks num_tasks spec3 in
  step_create_job conf cluster plug now job spec batch g =
  if num_tasks >? u32 (i32 (node_count * Conf.max_tasks_per_node conf))
  then Ok (ESLURM_BAD_TASK_COUNT, spec4, job2, None)
          (Glob.set_log
             (Glob.log g2 ++ [(LOG_ERROR, "step has invalid task count")]) g2)
  else step_create_record conf plug now job2 spec4 batch gres
         nodeset cpus_per_task (Req.cpu_count spec) g2.
Proof.
  intros Hnt spec1 cpus_per_task spec2 Hgres Hpick node_count Hcount
    num_tasks spec4.
  assert (Req.num_tasks spec2 = NO_VAL /\
          Req.cpu_count spec2 = Req.cpu_count spec1) as [Hnt2 Hcpu2].
  { subst spec2. rewrite <- Hnt, <- (normalize_overcommit_num_tasks spec).
    fold spec1. by destruct (Req.no_kill spec1 >? 1). }
  destruct (pick_step_nodes_frame _ _ _ _ _ _ _ _ _ _ _ Hpick)
    as (_ & (Hnt3 & Hcpu3 & _) & _).
  assert (Req.num_tasks spec1 = NO_VAL) as Hnt1.
  { subst spec1. by rewrite normalize_overcommit_num_tasks. }
  unfold step_create_job. fold spec1. rewrite Hnt1. simpl.
  fold spec2. rewrite Hgres. simpl. fold cpus_per_task.
  unfold bind at 1. rewrite Hpick. fold node_count.
  assert (default_num_tasks spec3 node_count = spec4) as ->.
  { unfold default_num_tasks. rewrite Hnt3, Hnt2. simpl.
    rewrite Hcpu3, Hcpu2. subst spec4 num_tasks.
    destruct (Req.cpu_count spec1 =? NO_VAL); simpl; [|done].
    rewrite u32_id; [done|]. subst node_count. lia. }
  unfold task_count_too_big.
  assert (Req.num_tasks spec4 = num_tasks) as -> by done.
  destruct (num_tasks >? _); done.
Qed.

(** ** The picker does not read the step id counter

    Past the check for the first step, _pick_step_nodes reads the job's
    node bitmap, resources, gres and step list only: moving next_step_id
    changes nothing of what it computes. *)
















(** ** The new record: created last, removed on failure *)

Lemma insert_app_last {A} (l : list A) x y :
  <[ length l := x ]> (l ++ [y]) = l ++ [x].
Proof. induction l as [|z l IH]; simpl; [done|]. by rewrite IH. Qed.

Lemma delete_app_last {A} (l : list A) x : delete (length l) (l ++ [x]) = l.
Proof. induction l as [|z l IH]; simpl; [done|]. by rewrite IH. Qed.

Lemma step_index_app_last (l : list (Step.t G)) x step_id :
  (forall s, s ∈ l -> Step.step_id s <> step_id) ->
  Step.step_id x = step_id ->
  step_index (l ++ [x]) step_id = Some (length l).
Proof.
  intros Hl Hx. induction l as [|z l IH]; simpl.
  - apply Z.eqb_eq in Hx. by rewrite Hx.
  - destruct (Z.eqb_spec (Step.step_id z) step_id) as [E|E].
    + exfalso. apply (Hl z); [left|done].
    + rewrite IH; [done|]. intros s Hs. apply Hl. by right.
Qed.

Lemma delete_new_step now (job : Job.t G) l x0 x g :
  Job.step_list job = l ++ [x0] -> fresh_id l (Step.step_id x) ->
  delete_step_record now (store_step (length l) x job) (Step.step_id x) g =
  Ok (SLURM_SUCCESS, Job.set_step_list l job) (Glob.set_last_job_update now g).
Proof.
  intros Hlist Hfresh. unfold store_step. rewrite Hlist, insert_app_last.
  erewrite delete_step_record_found.
  2:{ simpl. by apply step_index_app_last. }
  simpl. by rewrite delete_app_last.
Qed.

Lemma step_layout_create_frame (step : Step.t G) (job : Job.t G)
  node_list nc nt cpt td ps g layout step1 g1 :
  step_layout_create conf plug step job node_list nc nt cpt td ps g =
  Ok (layout, step1) g1 ->
  step1 = step \/ step1 = Step.set_mem_per_cpu 0 step.
Proof.
  unfold step_layout_create. intros H.
  apply bind_Ok in H as (s1 & g2 & Hs1 & H).
  assert (s1 = step \/ s1 = Step.set_mem_per_cpu 0 step) as Hs.
  { destruct (_ && _ && _) in Hs1; inv_run; auto. }
  apply bind_Ok in H as (bm & g3 & _ & H).
  apply bind_Ok in H as (runs & g4 & _ & H).
  destruct runs; by inv_run.
Qed.

(** What the core picker and the debit loop keep. *)
Lemma pick_idle_cores_frame jni all pairs cnt res sb g r g' :
  pick_idle_cores plug jni all pairs cnt res sb g = Ok r g' ->
  exists used, r.1.2 = Res.set_core_bitmap_used used res.
Proof.
  revert cnt res sb. induction pairs as [|[c s] rest IH]; intros cnt res sb;
    simpl; intros H.
  - inv_run. exists (Res.core_bitmap_used res). by destruct res.
  - destruct (_ <? 0); [done|].
    destruct (negb (bit_test (Res.core_bitmap res) _)); [by eapply IH|].
    destruct (_ && _); [by eapply IH|].
    destruct (_ =? 0).
    + inv_run. simpl. eauto.
    + apply IH in H as [used ->]. simpl. eauto.
Qed.

Lemma pick_step_cores_frame (step : Step.t G) res jni tasks g step1 res1 g1 :
  _pick_step_cores plug step res jni tasks g = Ok (step1, res1) g1 ->
  (exists b, step1 = Step.set_core_bitmap_job b step) /\
  (exists used, res1 = Res.set_core_bitmap_used used res).
Proof.
  unfold _pick_step_cores. intros H.
  destruct (Plug.get_job_resources_cnt plug res jni) as [[sockets cores]|];
    [|done].
  apply bind_Ok in H as ([[[returned cnt] res'] sb] & g2 & Hidle & H).
  apply pick_idle_cores_frame in Hidle as [used Hres]. simpl in Hres.
  destruct (returned || _).
  - inv_run. split; eauto.
  - apply bind_Ok in H as (? & g3 & _ & H).
    destruct (cores =? 0); [done|].
    apply bind_Ok in H as (last & g4 & _ & H).
    apply bind_Ok in H as ([cnt2 sb2] & g5 & _ & H).
    inv_run. split; eauto.
Qed.

Lemma alloc_loop_frame pick layout nodes jni sni (step : Step.t G)
  (job : Job.t G) g step1 job1 g1 :
  alloc_loop conf plug pick layout nodes jni sni step job g =
  Ok (step1, job1) g1 ->
  Step.step_id step1 = Step.step_id step /\
  Job.step_list job1 = Job.step_list job /\
  Job.next_step_id job1 = Job.next_step_id job.
Proof.
  revert jni sni step job g.
  induction nodes as [|i rest IH]; intros jni sni step job g; simpl;
    intros H; [by inv_run|].
  destruct (negb (bit_test (Res.node_bitmap _) i)); [by eapply IH|].
  destruct (negb (bit_test (Step.step_node_bitmap step) i)); [by eapply IH|].
  destruct (_ >=? _); [done|].
  apply bind_Ok in H as (tasks & g2 & _ & H).
  apply bind_Ok in H as (used & g3 & _ & H).
  apply bind_Ok in H as (cu & g4 & _ & H).
  destruct (Plug.gres_plugin_step_alloc _ _ _ _ _) as [sg jg].
  apply bind_Ok in H as (res2 & g5 & _ & H).
  apply bind_Ok in H as ([step2 res3] & g6 & Hcores & H).
  assert (Step.step_id step2 = Step.step_id step) as Hid.
  { destruct pick.
    - apply pick_step_cores_frame in Hcores as [[b ->] _]. done.
    - by inv_run. }
  destruct (_ =? _).
  - by inv_run.
  - apply IH in H as (-> & -> & ->). done.
Qed.

Lemma step_alloc_lps_frame (step : Step.t G) (job : Job.t G) g step1 job1 g1 :
  step_alloc_lps conf plug step job g = Ok (step1, job1) g1 ->
  Step.step_id step1 = Step.step_id step /\
  Job.step_list job1 = Job.step_list job /\
  Job.next_step_id job1 = Job.next_step_id job.
Proof.
  unfold step_alloc_lps. intros H.
  destruct (Step.step_layout step); [|by inv_run].
  destruct (_ =? -1); [by inv_run|].
  destruct (if Conf.have_bg conf then _ else _) as [pick s1] eqn:Hpick.
  assert (Step.step_id s1 = Step.step_id step) as Hs1.
  { destruct (Conf.have_bg conf); [by inv_run|].
    destruct (is_Some_b _); [by inv_run|].
    destruct (_ || _); by inv_run. }
  apply bind_Ok in H as (s2 & g2 & Hs2 & H).
  assert (Step.step_id s2 = Step.step_id s1) as Hs2'.
  { destruct (_ && _ && _) in Hs2; by inv_run. }
  apply alloc_loop_frame in H as (-> & -> & ->). by rewrite Hs2'.
Qed.

Lemma rc_is_success_false rc : rc_is_success rc = false -> rc <> SLURM_SUCCESS.
Proof. by destruct rc. Qed.

Lemma step_create_launch_outcome now l x0 (step : Step.t G) (job : Job.t G)
  spec node_list cpt g r g' :
  Job.step_list job = l ++ [x0] -> fresh_id l (Step.step_id step) ->
  step_create_launch conf plug now (length l) step job spec node_list cpt g =
  Ok r g' ->
  record_outcome l (Step.step_id step) job r.
Proof.
  intros Hlist Hfresh. unfold step_create_launch. intros H.
  apply bind_Ok in H as ([layout step1] & g1 & Hlayout & H).
  assert (Step.step_id step1 = Step.step_id step) as Hid1.
  { apply step_layout_create_frame in Hlayout as [->| ->]; done. }
  destruct layout as [layout|].
  2:{ apply bind_Ok in H as ([rc1 job1] & g2 & Hdel & H).
      rewrite delete_new_step with (x0 := x0) in Hdel;
        [|done|by rewrite Hid1].
      inv_run. unfold record_outcome; simpl. repeat split; try done.
      destruct (negb _); discriminate. }
  apply bind_Ok in H as (spec1 & g2 & _ & H).
  set (step2 := Step.set_step_layout (Some layout) step1) in *.
  set (step3 := if negb (Req.resv_port_cnt spec1 =? NO_VAL16)
                then Step.set_resv_port_cnt (Req.resv_port_cnt spec1) step2
                else step2) in *.
  assert (Step.step_id step3 = Step.step_id step) as Hid3.
  { unfold step3, step2. destruct (negb _); exact Hid1. }
  set (port_rc := if negb (Req.resv_port_cnt spec1 =? NO_VAL16)
                  then Plug.resv_port_alloc plug step3
                  else SLURM_SUCCESS) in *.
  destruct (rc_is_success port_rc) eqn:Hport; cbn [negb] in H.
  2:{ apply bind_Ok in H as ([rc1 job1] & g3 & Hdel & H).
      rewrite delete_new_step with (x0 := x0) in Hdel;
        [|done|by rewrite Hid3].
      inv_run. unfold record_outcome; simpl. repeat split; try done. by apply rc_is_success_false. }
  destruct (Plug.switch_alloc_jobinfo plug) as [switch_job|]; [|done].
  destruct (Plug.switch_build_jobinfo _ _ _ _ _ _).
  { apply bind_Ok in H as (? & g3 & _ & H).
    apply bind_Ok in H as ([rc1 job1] & g4 & Hdel & H).
    rewrite delete_new_step with (x0 := x0) in Hdel;
      [|done|simpl; by rewrite Hid3].
    inv_run. unfold record_outcome; simpl. repeat split; done. }
  apply bind_Ok in H as ([step5 job1] & g3 & Halloc & H).
  apply step_alloc_lps_frame in Halloc as (Hid5 & Hl1 & Hn1).
  inv_run. unfold record_outcome; simpl. repeat split; try done.
  - by rewrite Hid5.
  - unfold store_step. simpl. by rewrite Hl1, Hlist, insert_app_last.
Qed.

Lemma step_create_finish_outcome now l x0 (step : Step.t G) (job : Job.t G)
  spec batch node_list cpt g r g' :
  Job.step_list job = l ++ [x0] -> fresh_id l (Step.step_id step) ->
  step_create_finish conf plug now (length l) step job spec batch node_list
                     cpt g = Ok r g' ->
  record_outcome l (Step.step_id step) job r.
Proof.
  intros Hlist Hfresh. unfold step_create_finish. intros H.
  apply bind_Ok in H as ([[[rc1 spec1] job1] launched] & g1 & Hl & H).
  assert (record_outcome l (Step.step_id step) job
            (rc1, spec1, job1, launched)) as Hout.
  { destruct batch; simpl in Hl.
    - inv_run. unfold record_outcome; simpl. repeat split; try done.
      unfold store_step. simpl. by rewrite Hlist, insert_app_last.
    - by eapply step_create_launch_outcome. }
  destruct launched as [step1|]; [|by inv_run].
  destruct (Plug.checkpoint_alloc_jobinfo plug); [|done].
  inv_run. destruct Hout as (Hn & _ & Hid & Hl1).
  repeat split; try done.
  unfold store_step. simpl. rewrite Hl1. by rewrite insert_app_last.
Qed.

(** step_create_record: at the id limit nothing is created; below it the
    id counter moves on by one, and the new record carries the old value
    of the counter. *)
Lemma step_create_record_outcome now (job : Job.t G) spec batch gres nodeset
  cpt orig g rc spec' job' new g' :
  fresh_id (Job.step_list job) (Job.next_step_id job) ->
  step_create_record conf plug now job spec batch gres nodeset cpt orig g =
  Ok (rc, spec', job', new) g' ->
  (Job.next_step_id job >= STEP_ID_LIMIT ->
   rc = ESLURMD_TOOMANYSTEPS /\ job' = job /\ new = None) /\
  (Job.next_step_id job < STEP_ID_LIMIT ->
   Job.next_step_id job' = u32 (Job.next_step_id job + 1)) /\
  match new with
  | None =>
      rc <> SLURM_SUCCESS /\ Job.step_list job' = Job.step_list job /\
      Job.job_resrcs job' = Job.job_resrcs job /\
      Job.gres_list job' = Job.gres_list job
  | Some s =>
      rc = SLURM_SUCCESS /\ Step.step_id s = Job.next_step_id job /\
      Job.step_list job' = Job.step_list job ++ [s]
  end.
Proof.
  intros Hfresh. unfold step_create_record. intros H.
  apply bind_Ok in H as ([created job1] & g1 & Hc & H).
  unfold _create_step_record in Hc.
  destruct (Z.geb_spec (Job.next_step_id job) STEP_ID_LIMIT) as [Hlim|Hlim].
  { inv_run. unfold record_outcome; simpl. repeat split; try done. lia. }
  inv_run. simpl in H.
  destruct (match Req.node_list spec with Some _ => _ | None => _ end)
    as [node_list spec1].
  set (l := Job.step_list job) in *.
  match type of H with
  | context [Job.set_next_step_id ?n ?j] =>
      set (job2 := Job.set_next_step_id n j) in *
  end.
  assert (Job.step_list job2 = l ++ [empty_step now]) as Hl2 by done.
  assert (forall r,
            record_outcome l (Job.next_step_id job) job2 r ->
            (Job.next_step_id job >= STEP_ID_LIMIT ->
             r.1.1.1 = ESLURMD_TOOMANYSTEPS /\ r.1.2 = job /\ r.2 = None) /\
            (Job.next_step_id job < STEP_ID_LIMIT ->
             Job.next_step_id r.1.2 = u32 (Job.next_step_id job + 1)) /\
            match r.2 with
            | None =>
                r.1.1.1 <> SLURM_SUCCESS /\ Job.step_list r.1.2 = l /\
                Job.job_resrcs r.1.2 = Job.job_resrcs job /\
                Job.gres_list r.1.2 = Job.gres_list job
            | Some s =>
                r.1.1.1 = SLURM_SUCCESS /\
                Step.step_id s = Job.next_step_id job /\
                Job.step_list r.1.2 = l ++ [s]
            end) as Hwrap.
  { intros [[[rc0 sp0] j0] n0] (Hn & Hout). simpl.
    split; [lia|]. split; [intros _; by rewrite Hn|].
    destruct n0; [done|]. destruct Hout as (?&?&?&?). done. }
  destruct (_ || _ || _).
  { apply step_create_finish_outcome with (l := l) (x0 := empty_step now)
      in H; [|done|done].
    by apply Hwrap in H. }
  destruct (_ && _).
  { apply bind_Ok in H as (? & g2 & _ & H).
    apply bind_Ok in H as ([rc1 job3] & g3 & Hdel & H).
    rewrite delete_new_step with (x0 := empty_step now) (l := l) in Hdel;
      [|done|done].
    inv_run. simpl. repeat split; try done; lia. }
  apply step_create_finish_outcome with (l := l) (x0 := empty_step now)
    in H; [|done|done].
  by apply Hwrap in H.
Qed.

(** step_create on one job: without a new record the registry and the
    debits are as before; with one, it carries the old value of the id
    counter and sits at the end of the registry. *)
Lemma step_create_job_outcome now (job : Job.t G) spec batch g
  rc spec' job' new g' :
  fresh_id (Job.step_list job) (Job.next_step_id job) ->
  step_create_job conf cluster plug now job spec batch g =
  Ok (rc, spec', job', new) g' ->
  (Job.next_step_id job >= STEP_ID_LIMIT ->
   new = None /\ Job.next_step_id job' = Job.next_step_id job) /\
  (Job.next_step_id job < STEP_ID_LIMIT ->
   Job.next_step_id job' = Job.next_step_id job \/
   Job.next_step_id job' = u32 (Job.next_step_id job + 1)) /\
  match new with
  | None => same_accounting job job'
  | Some s =>
      rc = SLURM_SUCCESS /\ Step.step_id s = Job.next_step_id job /\
      Job.step_list job' = Job.step_list job ++ [s] /\
      Job.next_step_id job < STEP_ID_LIMIT /\
      Job.next_step_id job' = u32 (Job.next_step_id job + 1)
  end.
Proof.
  intros Hfresh. unfold step_create_job. intros H.
  assert (forall j, same_accounting job j ->
                    Job.next_step_id j = Job.next_step_id job ->
    (Job.next_step_id job >= STEP_ID_LIMIT ->
     @None (Step.t G) = None /\ Job.next_step_id j = Job.next_step_id job) /\
    (Job.next_step_id job < STEP_ID_LIMIT ->
     Job.next_step_id j = Job.next_step_id job \/
     Job.next_step_id j = u32 (Job.next_step_id job + 1)) /\
    same_accounting job j) as Hsame.
  { intros j Hacc Hn. repeat split; auto; apply Hacc. }
  destruct (_ <? 1).
  { inv_run. apply Hsame; [apply same_accounting_refl|done]. }
  destruct (Plug.gres_plugin_step_state_validate _ _ _) as [i gres].
  destruct (negb (rc_is_success i)).
  { inv_run. apply Hsame; [apply same_accounting_refl|done]. }
  apply bind_Ok in H as ([[[nodeset rc3] spec3] job2] & g2 & Hpick & H).
  apply pick_step_nodes_frame in Hpick as (Hacc & _ & Hnext & _).
  destruct nodeset as [nodeset|].
  2:{ inv_run. by apply Hsame. }
  destruct (task_count_too_big _ _ _).
  { apply bind_Ok in H as (? & g3 & _ & H). inv_run. by apply Hsame. }
  destruct Hacc as (Hl & Hr & Hg). simpl in Hl, Hr, Hg, Hnext.
  apply step_create_record_outcome in H as (Hlim & Hbelow & Hout).
  2:{ by rewrite Hl, Hnext. }
  rewrite Hnext in Hlim, Hbelow. rewrite Hl, Hnext in Hout.
  split; [|split].
  - intros Hge. destruct (Hlim Hge) as (_ & -> & ->). done.
  - intros Hlt. right. by apply Hbelow.
  - destruct new as [s|].
    + destruct Hout as (-> & Hid & Hlist). repeat split; try done.
      * destruct (Z.ltb_spec (Job.next_step_id job) STEP_ID_LIMIT); [done|].
        destruct Hlim as (_ & _ & Hnone); [lia|done].
      * apply Hbelow.
        destruct (Z.ltb_spec (Job.next_step_id job) STEP_ID_LIMIT); [done|].
        destruct Hlim as (_ & _ & Hnone); [lia|done].
    + destruct Hout as (_ & Hlist & Hres & Hgres).
      repeat split; congruence.
Qed.

Lemma same_accounting_all_insert (jobs : list (Job.t G)) k job job' :
  jobs !! k = Some job -> same_accounting job job' ->
  same_accounting_all jobs (<[ k := job' ]> jobs).
Proof.
  intros Hk Hacc. unfold same_accounting_all.
  revert k Hk. induction jobs as [|j rest IH]; intros [|k] Hk; simpl in *;
    try done.
  - inversion Hk; subst. constructor; [done|].
    clear. induction rest; constructor; [apply same_accounting_refl|done].
  - constructor; [apply same_accounting_refl|by apply IH].
Qed.

Lemma same_accounting_all_refl (jobs : list (Job.t G)) :
  same_accounting_all jobs jobs.
Proof.
  induction jobs; constructor; [apply same_accounting_refl|done].
Qed.

(** How step_create runs on the job table: the job of the request is
    the only one written. *)
Lemma step_create_inv now (jobs : list (Job.t G)) spec batch g
  rc spec' jobs' new g' :
  step_create conf cluster plug now jobs spec batch g =
  Ok (rc, spec', jobs', new) g' ->
  (find_job_record jobs (Req.job_id spec) = None /\
   rc = ESLURM_INVALID_JOB_ID /\ jobs' = jobs /\ new = None) \/
  (exists jk job job' g1,
     find_job_record jobs (Req.job_id spec) = Some jk /\
     jobs !! jk = Some job /\ jobs' = <[ jk := job' ]> jobs /\
     ((new = None /\ job' = job /\ rc <> SLURM_SUCCESS) \/
      step_create_job conf cluster plug now job spec batch g1 =
      Ok (rc, spec', job', new) g')).
Proof.
  unfold step_create. intros H.
  destruct (find_job_record jobs (Req.job_id spec)) as [jk|] eqn:Hfind.
  2:{ inv_run. left. done. }
  right. apply bind_Ok in H as (job & g1 & Hjob & H).
  apply deref_Ok in Hjob as [Hjob ->].
  apply bind_Ok in H as ([[[rc1 spec1] job1] new1] & g2 & Hrun & H).
  inv_run.
  destruct (step_create_job_checks job spec) as [rc0|] eqn:Hc1.
  { inv_run. eexists _, _, _, g'. repeat split; try done. left.
    repeat split; try done. unfold step_create_job_checks in Hc1.
    destruct (_ || _); [by inversion Hc1|].
    destruct (IS_JOB_PENDING _); [by inversion Hc1|].
    destruct (negb _); by inversion Hc1. }
  apply bind_Ok in Hrun as (? & g3 & _ & Hrun).
  destruct (step_create_request_checks conf now job spec) as [rc0|] eqn:Hc2.
  { inv_run. eexists _, _, _, g'. repeat split; try done. left.
    repeat split; try done. unfold step_create_request_checks in Hc2.
    destruct (_ || _); [by inversion Hc2|].
    destruct (match Req.task_dist _ with SLURM_DIST_OTHER _ => _ | _ => _ end);
      [by inversion Hc2|].
    destruct (match Req.task_dist _ with SLURM_DIST_ARBITRARY => _ | _ => _ end);
      [by inversion Hc2|].
    destruct (_ || _); by inversion Hc2. }
  eexists _, _, _, g3. repeat split; try done. by right.
Qed.

(** C1. When step_create returns an error code, it returns no step
    record, and every job of the table has the step list, the resources
    (cpus_used, memory_used, core_bitmap_used) and the gres state it had
    before the call: a record created on the way has been removed again
    by delete_step_record. The registries are those of a running
    controller: no record of a job carries the id the job hands out
    next. *)
Theorem step_create_error_rollback now (jobs : list (Job.t G)) spec batch g
  rc spec' jobs' new g' :
  (forall job, job ∈ jobs ->
               fresh_id (Job.step_list job) (Job.next_step_id job)) ->
  step_create conf cluster plug now jobs spec batch g =
  Ok (rc, spec', jobs', new) g' ->
  rc <> SLURM_SUCCESS ->
  new = None /\ same_accounting_all jobs jobs'.
Proof.
  intros Hfresh H Hrc.
  apply step_create_inv in H
    as [(_ & _ & -> & ->)|(jk & job & job' & g1 & _ & Hjob & -> & H)].
  { split; [done|apply same_accounting_all_refl]. }
  destruct H as [(-> & -> & _)|H].
  { split; [done|].
    eapply same_accounting_all_insert; [done|apply same_accounting_refl]. }
  apply step_create_job_outcome in H as (_ & _ & Hout).
  2:{ apply Hfresh. by eapply list_elem_of_lookup_2. }
  destruct new as [s|].
  { by destruct Hout as (-> & _). }
  split; [done|]. by eapply same_accounting_all_insert.
Qed.

(** ** The time-limit sweep *)

Lemma bitmap_hostlist_names bitmap nodes g :
  (forall i, i ∈ nodes -> (i < Cluster.node_record_count cluster)%nat) ->
  bitmap_hostlist cluster nodes bitmap g = Ok (node_names cluster bitmap nodes) g.
Proof.
  induction nodes as [|i rest IH]; intros Hin; simpl; [done|].
  assert (bitmap_hostlist cluster rest bitmap g =
          Ok (node_names cluster bitmap rest) g) as Hrest.
  { apply IH. intros j Hj. apply Hin. by right. }
  destruct (bit_test bitmap i); simpl; [|done].
  destruct (Cluster.node_record_table cluster !! i) as [node_ptr|] eqn:Hi.
  - unfold bind, deref, ret. simpl. by rewrite Hrest.
  - exfalso. apply lookup_ge_None in Hi.
    assert (i < Cluster.node_record_count cluster)%nat by (apply Hin; left).
    unfold Cluster.node_record_count in *. lia.
Qed.

Lemma node_names_spec bitmap name :
  name ∈ node_names cluster bitmap (seq 0 (Cluster.node_record_count cluster)) <->
  exists i node_ptr,
    Cluster.node_record_table cluster !! i = Some node_ptr /\
    bit_test bitmap i = true /\ Node.name node_ptr = name.
Proof.
  unfold node_names. rewrite list_elem_of_In, in_flat_map. split.
  - intros (i & _ & Hi). destruct (bit_test bitmap i) eqn:Hb; [|done].
    destruct (Cluster.node_record_table cluster !! i) as [n|] eqn:Hn;
      [|done].
    destruct Hi as [<-|[]]. eauto.
  - intros (i & n & Hn & Hb & <-). exists i. split.
    + apply in_seq. apply lookup_lt_Some in Hn.
      unfold Cluster.node_record_count. lia.
    + rewrite Hb, Hn. by left.
Qed.

Lemma signal_step_timelimit_run (job_ptr : Job.t G) step_ptr now g :
  _signal_step_timelimit conf cluster job_ptr step_ptr now g =
  Ok tt (if decide (timelimit_hostlist conf cluster job_ptr step_ptr = []) then g
         else Glob.set_agent_queue
                (Glob.agent_queue g ++ [timelimit_request conf cluster job_ptr step_ptr now])
                g).
Proof.
  unfold _signal_step_timelimit, timelimit_request, timelimit_hostlist.
  destruct (Conf.have_front_end conf); simpl.
  - unfold bind, ret. simpl. done.
  - unfold bind. rewrite bitmap_hostlist_names.
    2:{ intros i Hi. apply list_elem_of_In, in_seq in Hi. lia. }
    set (hl := node_names cluster _ _).
    destruct hl as [|h hl']; simpl; [done|].
    destruct (Z.eqb_spec (Z.of_nat (S (length hl'))) 0); [lia|]. done.
Qed.

Lemma time_limit_loop_run (job_ptr : Job.t G) now steps g :
  exists g',
    time_limit_loop conf cluster job_ptr now steps g = Ok tt g' /\
    forall step_ptr, step_ptr ∈ steps -> timed_out step_ptr now = true ->
      timelimit_hostlist conf cluster job_ptr step_ptr <> [] ->
      timelimit_request conf cluster job_ptr step_ptr now ∈ Glob.agent_queue g'.
Proof.
  assert (forall steps g, exists g',
    time_limit_loop conf cluster job_ptr now steps g = Ok tt g' /\
    (exists more, Glob.agent_queue g' = Glob.agent_queue g ++ more) /\
    forall step_ptr, step_ptr ∈ steps -> timed_out step_ptr now = true ->
      timelimit_hostlist conf cluster job_ptr step_ptr <> [] ->
      timelimit_request conf cluster job_ptr step_ptr now ∈ Glob.agent_queue g') as Hloop.
  { clear steps g. induction steps as [|s rest IH]; intros g; simpl.
    - exists g. split; [done|]. split; [exists []; by rewrite app_nil_r|].
      intros ? Hin. by apply elem_of_nil in Hin.
    - unfold timed_out.
      destruct ((Step.time_limit s =? INFINITE) || (Step.time_limit s =? NO_VAL))
        eqn:Hlim.
      + destruct (IH g) as (g' & Hrun & Hmore & Hin). exists g'.
        split; [done|]. split; [done|].
        intros step_ptr Hs. apply elem_of_cons in Hs as [->|Hs].
        * unfold timed_out. by rewrite Hlim.
        * by apply Hin.
      + destruct (job_run_mins_of s now >=? Step.time_limit s) eqn:Hexp.
        * unfold bind at 1. unfold bind at 1. unfold info, log_msg.
          rewrite signal_step_timelimit_run.
          set (g1 := if decide (timelimit_hostlist conf cluster job_ptr s = []) then _
                     else _).
          destruct (IH g1) as (g' & Hrun & [more Hmore] & Hin). exists g'.
          split; [done|]. split.
          { subst g1. rewrite Hmore.
            destruct (decide _); simpl; [by eexists|].
            rewrite <- app_assoc. by eexists. }
          intros step_ptr Hs. apply elem_of_cons in Hs as [->|Hs].
          -- intros _ Hne. rewrite Hmore. subst g1.
             destruct (decide _); [done|]. simpl.
             apply elem_of_app. left. apply elem_of_app. right. by left.
          -- by apply Hin.
        * unfold bind at 1. unfold ret at 1.
          destruct (IH g) as (g' & Hrun & Hmore & Hin). exists g'.
          split; [done|]. split; [done|].
          intros step_ptr Hs. apply elem_of_cons in Hs as [->|Hs].
          -- unfold timed_out. by rewrite Hlim, Hexp.
          -- by apply Hin. }
  destruct (Hloop steps g) as (g' & ? & _ & ?). eauto.
Qed.

(** C9. A job whose state is not JOB_RUNNING is left alone: nothing is
    logged or queued. For a running job the sweep returns, and for every
    step of the job whose time_limit is neither INFINITE nor NO_VAL and
    whose run time in minutes, (now - start_time - tot_sus_time) / 60 (a
    uint32_t value), has reached time_limit, the agent queue holds a
    REQUEST_KILL_TIMELIMIT request whose host list is the front-end node
    of the job on a front-end system, and else the names of exactly the
    nodes of step_node_bitmap (when the step has a node at all). The
    sweep only reads the job: its step list is not written. *)
Theorem check_job_step_time_limit_sweep (job_ptr : Job.t G) now g :
  (Job.job_state job_ptr <> JOB_RUNNING ->
   check_job_step_time_limit conf cluster job_ptr now g = Ok tt g) /\
  (Job.job_state job_ptr = JOB_RUNNING ->
   exists g',
     check_job_step_time_limit conf cluster job_ptr now g = Ok tt g' /\
     forall step_ptr,
       step_ptr ∈ Job.step_list job_ptr ->
       Step.time_limit step_ptr <> INFINITE ->
       Step.time_limit step_ptr <> NO_VAL ->
       let mins :=
         Z.quot (now - Step.start_time step_ptr - Step.tot_sus_time step_ptr)
                60 in
       0 <= mins < 4294967296 ->
       Step.time_limit step_ptr <= mins ->
       exists hostlist,
         (Conf.have_front_end conf = true ->
          hostlist = [Job.batch_host job_ptr]) /\
         (Conf.have_front_end conf = false ->
          forall name, name ∈ hostlist <->
            exists i node_ptr,
              Cluster.node_record_table cluster !! i = Some node_ptr /\
              bit_test (Step.step_node_bitmap step_ptr) i = true /\
              Node.name node_ptr = name) /\
         (hostlist <> [] ->
          Agent.mk REQUEST_KILL_TIMELIMIT 1 hostlist
                   (Z.of_nat (length hostlist)) (Job.job_id job_ptr)
                   (Step.step_id step_ptr) (Job.job_state job_ptr)
                   (Job.user_id job_ptr) now (Job.start_time job_ptr)
          ∈ Glob.agent_queue g')).
Proof.
  unfold check_job_step_time_limit. split.
  - intros Hstate. destruct (Z.eqb_spec (Job.job_state job_ptr) JOB_RUNNING);
      done.
  - intros Hstate. apply Z.eqb_eq in Hstate. rewrite Hstate. cbn [negb].
    destruct (time_limit_loop_run job_ptr now (Job.step_list job_ptr) g)
      as (g' & Hrun & Hq).
    exists g'. split; [done|].
    intros step_ptr Hin Hinf Hnoval Hrange Hexp.
    exists (timelimit_hostlist conf cluster job_ptr step_ptr). split; [|split].
    + unfold timelimit_hostlist. by intros ->.
    + unfold timelimit_hostlist. intros ->. intros name.
      apply node_names_spec.
    + intros Hne. apply (Hq step_ptr Hin); [|done].
      unfold timed_out, job_run_mins_of.
      apply Z.eqb_neq in Hinf, Hnoval. rewrite Hinf, Hnoval. simpl.
      rewrite u32_id by done. apply Z.geb_le. lia.
Qed.

(** ** Partial completion *)

Lemma MAX_max a b : MAX a b = Z.max a b.
Proof. unfold MAX. destruct (Z.gtb_spec a b); lia. Qed.

Lemma bit_test_alloc n i : bit_test (bit_alloc n) i = false.
Proof.
  unfold bit_test, bit_alloc.
  destruct (_ !! i) eqn:E; [|done].
  by apply lookup_replicate in E as [-> _].
Qed.

Lemma bit_size_alloc n : bit_size (bit_alloc n) = n.
Proof. apply length_replicate. Qed.

Lemma bit_size_nset b s e : bit_size (bit_nset b s e) = bit_size b.
Proof. apply length_imap. Qed.

Lemma bit_test_nset b s e i :
  (i < bit_size b)%nat ->
  bit_test (bit_nset b s e) i =
  ((s <=? i)%nat && (i <=? e)%nat) || bit_test b i.
Proof.
  intros Hi. unfold bit_test, bit_nset. rewrite list_lookup_imap.
  destruct (b !! i) as [x|] eqn:E; simpl.
  - by destruct ((s <=? i)%nat && (i <=? e)%nat).
  - apply lookup_ge_None in E. unfold bit_size in Hi. lia.
Qed.

(** bit_clear_count counts the clear bits. *)
Lemma bit_set_count_le b : (bit_set_count b <= length b)%nat.
Proof. induction b as [|[] b IH]; simpl; lia. Qed.

Lemma bit_clear_count_spec b :
  bit_clear_count b = length (filter (fun x => x = false) b).
Proof.
  unfold bit_clear_count, bit_size.
  induction b as [|x b IH]; [done|].
  pose proof (bit_set_count_le b).
  destruct x.
  - rewrite filter_cons_False by done. simpl in *. lia.
  - rewrite filter_cons_True by done. simpl in *. lia.
Qed.

(** C3. Take a step that is not a batch step, found by
    step_partial_comp for a report (range_first, range_last, step_rc) of
    uint32_t values, and let [nodes] be the number of bits set in
    step_node_bitmap; an exit_node_bitmap the step already has is of that
    size. When range_last < range_first or range_last >= nodes the report
    is answered EINVAL and nothing is written. Otherwise it is answered
    SLURM_SUCCESS: exit_node_bitmap has [nodes] bits, of which
    range_first..range_last are set and the others are as before (clear on
    the first report); exit_code is step_rc on the first report and
    max(exit_code, step_rc) afterwards; *rem is the number of entries of
    exit_node_bitmap that are false, counted on the list itself and not
    through bit_clear_count, and *max_rc is exit_code. *)
Theorem step_partial_comp_report (jobs : list (Job.t G)) req uid g
  jk job sk step :
  find_job_record jobs (Cmsg.job_id req) = Some jk ->
  jobs !! jk = Some job ->
  IS_JOB_PENDING job = false ->
  may_report plug job uid ->
  find_step_record (Job.step_list job) (Cmsg.job_step_id req) = Some sk ->
  Job.step_list job !! sk = Some step ->
  Step.batch_step step = false ->
  0 <= Cmsg.range_first req -> 0 <= Cmsg.range_last req ->
  let nodes := bit_set_count (Step.step_node_bitmap step) in
  (forall b, Step.exit_node_bitmap step = Some b -> bit_size b = nodes) ->
  (Cmsg.range_last req < Cmsg.range_first req \/
   Z.of_nat nodes <= Cmsg.range_last req ->
   exists g',
     step_partial_comp plug jobs req uid g =
     Ok (EINVAL, jobs, None, None) g') /\
  (Cmsg.range_first req <= Cmsg.range_last req < Z.of_nat nodes ->
   exists step' b',
     step_partial_comp plug jobs req uid g =
     Ok (SLURM_SUCCESS, <[ jk := store_step sk step' job ]> jobs,
         Some (Z.of_nat (length (filter (fun x => x = false) b'))),
         Some (Step.exit_code step'))
        g /\
     Step.exit_node_bitmap step' = Some b' /\
     bit_size b' = nodes /\
     (forall i, (i < nodes)%nat ->
        bit_test b' i =
        if (Z.to_nat (Cmsg.range_first req) <=? i)%nat &&
           (i <=? Z.to_nat (Cmsg.range_last req))%nat
        then true
        else match Step.exit_node_bitmap step with
             | Some b => bit_test b i
             | None => false
             end) /\
     Step.exit_code step' =
     match Step.exit_node_bitmap step with
     | Some _ => Z.max (Step.exit_code step) (Cmsg.step_rc req)
     | None => Cmsg.step_rc req
     end /\
     Step.step_id step' = Step.step_id step /\
     Step.step_node_bitmap step' = Step.step_node_bitmap step).
Proof.
  intros Hfind Hjob Hpend Hmay Hstep Hsk Hbatch Hfirst Hlast nodes Hsize.
  assert (
    step_partial_comp plug jobs req uid g =
    bind (step_partial_comp_step step req)
         (fun r => let '(rc, step1, rem, max_rc) := r in
                   ret (rc, <[ jk := store_step sk step1 job ]> jobs, rem,
                        max_rc)) g) as Hwrap.
  { unfold step_partial_comp. rewrite Hfind.
    unfold bind at 1. rewrite Hjob. simpl. rewrite Hpend.
    assert (negb (Plug.validate_slurm_user plug uid) &&
            negb (uid =? Job.user_id job) = false) as ->.
    { destruct Hmay as [->| ->]; [done|].
      rewrite Z.eqb_refl. apply andb_false_r. }
    rewrite Hstep. unfold bind at 1. rewrite Hsk. simpl. done. }
  rewrite Hwrap. clear Hwrap. unfold step_partial_comp_step.
  rewrite Hbatch. split.
  - intros Hbad.
    assert (<[ jk := store_step sk step job ]> jobs = jobs) as Hid.
    { apply list_insert_id. rewrite Hjob. f_equal. unfold store_step.
      rewrite list_insert_id by done. by destruct job. }
    destruct (Z.ltb_spec (Cmsg.range_last req) (Cmsg.range_first req)).
    { eexists. unfold bind, error, log_msg, ret. simpl. by rewrite Hid. }
    destruct Hbad as [?|Hbad]; [lia|].
    destruct (Step.exit_node_bitmap step) as [b|] eqn:Hb.
    + rewrite (Hsize b eq_refl). fold nodes.
      destruct (Z.geb_spec (Cmsg.range_last req) (Z.of_nat nodes)); [|lia].
      eexists. unfold bind, error, log_msg, ret. simpl. by rewrite Hid.
    + fold nodes.
      destruct (Z.geb_spec (Cmsg.range_last req) (Z.of_nat nodes)); [|lia].
      eexists. unfold bind, error, log_msg, ret. simpl. by rewrite Hid.
  - intros Hgood.
    destruct (Z.ltb_spec (Cmsg.range_last req) (Cmsg.range_first req));
      [lia|].
    destruct (Step.exit_node_bitmap step) as [b|] eqn:Hb.
    + rewrite (Hsize b eq_refl). fold nodes.
      destruct (Z.geb_spec (Cmsg.range_last req) (Z.of_nat nodes)); [lia|].
      eexists _, _. split; [by rewrite <- bit_clear_count_spec|].
      assert (forall s1 : Step.t G,
                Step.exit_node_bitmap
                  (if Z.of_nat (bit_clear_count
                       (bit_nset b (Z.to_nat (Cmsg.range_first req))
                                 (Z.to_nat (Cmsg.range_last req)))) =? 0
                   then Step.set_switch_job None s1 else s1) =
                Step.exit_node_bitmap s1) as Hsw.
      { intros s1. by destruct (_ =? 0). }
      split; [|split; [|split; [|split]]].
      * by destruct (_ =? 0).
      * rewrite bit_size_nset. by apply Hsize.
      * intros i Hi. rewrite bit_test_nset by (by rewrite (Hsize b)).
        by destruct (_ && _).
      * rewrite <- MAX_max. by destruct (_ =? 0).
      * by destruct (_ =? 0).
    + fold nodes.
      destruct (Z.geb_spec (Cmsg.range_last req) (Z.of_nat nodes)); [lia|].
      eexists _, _. split; [by rewrite <- bit_clear_count_spec|].
      split; [|split; [|split; [|split]]].
      * by destruct (_ =? 0).
      * by rewrite bit_size_nset, bit_size_alloc.
      * intros i Hi. rewrite bit_test_nset by (by rewrite bit_size_alloc).
        rewrite bit_test_alloc. by destruct (_ && _).
      * by destruct (_ =? 0).
      * by destruct (_ =? 0).
Qed.

(** ** Deallocation never wraps a counter *)

Lemma dealloc_node_spec (step : Step.t G) j alloc res g res' g' :
  dealloc_node conf step j alloc res g = Ok res' g' ->
  0 <= j /\ same_layout res res' /\
  (exists more, Glob.log g' = Glob.log g ++ more) /\
  (exists used,
     Res.cpus_used res !! Z.to_nat j = Some used /\
     Res.cpus_used res' =
     <[ Z.to_nat j := if used >=? alloc then u16 (used - alloc) else 0 ]>
       (Res.cpus_used res) /\
     (used < alloc -> cpu_underflow ∈ Glob.log g')) /\
  (mem_on conf step = false -> Res.memory_used res' = Res.memory_used res) /\
  (mem_on conf step = true ->
   exists a used,
     Res.memory_used res = Some a /\ a !! Z.to_nat j = Some used /\
     Res.memory_used res' =
     Some (<[ Z.to_nat j :=
                credit used (u32 (Step.mem_per_cpu step * alloc)) ]> a) /\
     (used < u32 (Step.mem_per_cpu step * alloc) ->
      mem_underflow ∈ Glob.log g')).
Proof.
  unfold dealloc_node, mem_on, _is_mem_resv. intros H.
  apply bind_Ok in H as (used & g1 & Hused & H).
  apply array_get_Ok in Hused as (Hj & Hused & ->).
  apply bind_Ok in H as (cu & g2 & Hcu & H).
  assert (cu = <[ Z.to_nat j := if used >=? alloc then u16 (used - alloc)
                                 else 0 ]> (Res.cpus_used res) /\
          (exists more, Glob.log g2 = Glob.log g ++ more) /\
          (used < alloc -> cpu_underflow ∈ Glob.log g2)) as (-> & Hlog2 & Hu2).
  { destruct (Z.geb_spec used alloc).
    - inv_run. split; [done|]. split; [exists []; by rewrite app_nil_r|lia].
    - apply bind_Ok in Hcu as (? & g3 & Hlog & Hcu).
      apply log_msg_Ok in Hlog. inv_run. simpl. split; [done|].
      split; [by eexists|]. intros _. apply elem_of_app. right. by left. }
  destruct (negb (Step.mem_per_cpu step =? 0) && Conf.cr_memory conf).
  - apply bind_Ok in H as (a & g3 & Ha & H).
    apply deref_Ok in Ha as [Ha ->]. simpl in Ha.
    apply bind_Ok in H as (mused & g4 & Hm & H).
    apply array_get_Ok in Hm as (_ & Hm & ->).
    apply bind_Ok in H as (mu & g5 & Hmu & H).
    set (mem_use := u32 (Step.mem_per_cpu step * alloc)) in *.
    assert (mu = <[ Z.to_nat j := credit mused mem_use ]> a /\
            (exists more, Glob.log g5 = Glob.log g2 ++ more) /\
            (mused < mem_use -> mem_underflow ∈ Glob.log g5))
      as (-> & [more5 Hlog5] & Hu5).
    { unfold credit. destruct (Z.geb_spec mused mem_use).
      - inv_run. split; [done|].
        split; [exists []; by rewrite app_nil_r|lia].
      - apply bind_Ok in Hmu as (? & g6 & Hlog & Hmu).
        apply log_msg_Ok in Hlog. inv_run. simpl. split; [done|].
        split; [by eexists|]. intros _. apply elem_of_app. right. by left. }
    inv_run. destruct Hlog2 as [more2 Hlog2].
    split; [done|]. split.
    { repeat split; simpl; try done. by rewrite length_insert.
      by rewrite Ha. }
    split. { exists (more2 ++ more5). by rewrite Hlog5, Hlog2, app_assoc. }
    split.
    { exists used. simpl. repeat split; try done.
      intros Hlt. rewrite Hlog5. apply elem_of_app. left. by apply Hu2. }
    split; [done|]. intros _. exists a, mused. by repeat split.
  - inv_run. split; [done|]. split.
    { repeat split; simpl; try done. by rewrite length_insert. }
    split; [done|]. split.
    { exists used. by repeat split. }
    split; [done|]. done.
Qed.

Lemma dealloc_node_pointwise (step : Step.t G) j alloc res g res' g' :
  dealloc_node conf step j alloc res g = Ok res' g' ->
  0 <= j /\ same_layout res res' /\
  (exists more, Glob.log g' = Glob.log g ++ more) /\
  (mem_on conf step = false -> Res.memory_used res' = Res.memory_used res) /\
  (forall m, m <> Z.to_nat j -> same_at res res' m) /\
  credited_at conf step res res' (Glob.log g') j alloc.
Proof.
  intros H. apply dealloc_node_spec in H
    as (Hj & Hlay & Hlog & (used & Hused & Hcu & Hunder) & Hoff & Hon).
  split; [done|]. split; [done|]. split; [done|]. split; [done|].
  assert (Z.to_nat j < length (Res.cpus_used res))%nat as Hlt
    by (by eapply lookup_lt_Some).
  split.
  - intros m Hm. split.
    + rewrite Hcu. by apply list_lookup_insert_ne.
    + unfold memory_used_at. destruct (mem_on conf step).
      * destruct Hon as (a & mu & Ha & Hmu & Hres & _); [done|].
        rewrite Hres, Ha. by apply list_lookup_insert_ne.
      * by rewrite Hoff.
  - split.
    + exists used. split; [done|]. split; [|done].
      rewrite Hcu. by apply list_lookup_insert_eq.
    + intros Hmem. destruct (Hon Hmem) as (a & mu & Ha & Hmu & Hres & Hunder').
      exists mu. unfold memory_used_at. rewrite Hres, Ha.
      split; [done|]. split; [|done].
      apply list_lookup_insert_eq. by eapply lookup_lt_Some.
Qed.

Lemma same_layout_refl res : same_layout res res.
Proof. by repeat split. Qed.

Lemma same_layout_trans r1 r2 r3 :
  same_layout r1 r2 -> same_layout r2 r3 -> same_layout r1 r3.
Proof.
  intros (?&?&?&?&?&?&?&?) (?&?&?&?&?&?&?&?). repeat split; congruence.
Qed.

Lemma lps_pairs_gt jb sb nc nodes j k p :
  p ∈ lps_pairs jb sb nc nodes j k -> j < p.1 /\ k < p.2.
Proof.
  revert j k. induction nodes as [|i rest IH]; intros j k; simpl.
  - intros Hp. by apply elem_of_nil in Hp.
  - destruct (negb (bit_test jb i)); [apply IH|].
    destruct (negb (bit_test sb i)).
    + intros Hp. apply IH in Hp. lia.
    + intros Hp. apply elem_of_cons in Hp as [->|Hp]; [simpl; lia|].
      destruct (_ =? _); [by apply elem_of_nil in Hp|].
      apply IH in Hp. lia.
Qed.

(** The node loop of _step_dealloc_lps gives back, at every pair
    (job index, step index) it visits, tasks[step index] * cpus_per_task
    CPUs, and leaves the counters of the other nodes alone. *)
Lemma dealloc_loop_spec (step : Step.t G) layout nodes :
  forall j k res g res' g',
    -1 <= j -> -1 <= k ->
    dealloc_loop conf step layout nodes j k res g = Ok res' g' ->
    let pairs :=
      lps_pairs (Res.node_bitmap res) (Step.step_node_bitmap step)
                (Layout.node_cnt layout) nodes j k in
    same_layout res res' /\
    (exists more, Glob.log g' = Glob.log g ++ more) /\
    (mem_on conf step = false ->
     Res.memory_used res' = Res.memory_used res) /\
    (forall m, (forall p, p ∈ pairs -> Z.to_nat p.1 <> m) ->
               same_at res res' m) /\
    (forall jj kk, (jj, kk) ∈ pairs ->
       0 <= jj /\ 0 <= kk /\
       exists tasks,
         Layout.tasks layout !! Z.to_nat kk = Some tasks /\
         credited_at conf step res res' (Glob.log g') jj
                     (i32 (tasks * Step.cpus_per_task step))).
Proof.
  induction nodes as [|i rest IH]; intros j k res g res' g' Hj Hk; simpl.
  - intros H. inv_run. split; [apply same_layout_refl|].
    split; [exists []; by rewrite app_nil_r|]. split; [done|].
    split; [done|]. intros jj kk Hin. by apply elem_of_nil in Hin.
  - destruct (negb (bit_test (Res.node_bitmap res) i)); [by apply IH|].
    destruct (negb (bit_test (Step.step_node_bitmap step) i)).
    { apply IH; lia. }
    destruct (_ >=? _); [done|]. intros H.
    apply bind_Ok in H as (tasks & g1 & Htasks & H).
    apply array_get_Ok in Htasks as (Hk1 & Htasks & ->).
    apply bind_Ok in H as (res1 & g2 & Hnode & H).
    apply dealloc_node_pointwise in Hnode
      as (Hj1 & Hlay1 & [more1 Hlog1] & Hoff1 & Hsame1 & Hcred1).
    destruct (u32 (k + 1) =? u32 (Layout.node_cnt layout - 1)).
    + inv_run. split; [done|]. split; [by eexists|]. split; [done|]. split.
      * intros m Hm. apply Hsame1. intros ->. apply (Hm (j + 1, k + 1)); [|done].
        by left.
      * intros jj kk Hin. apply elem_of_cons in Hin as [[= -> ->]|Hin].
        2:{ by apply elem_of_nil in Hin. }
        split; [done|]. split; [done|]. eauto.
    + assert (Res.node_bitmap res1 = Res.node_bitmap res) as Hbm
        by apply Hlay1.
      apply IH in H as (Hlay & [more Hlog] & Hoff & Hsame & Hpairs);
        [|lia|lia].
      rewrite Hbm in Hsame, Hpairs.
      set (rest_pairs := lps_pairs (Res.node_bitmap res)
             (Step.step_node_bitmap step) (Layout.node_cnt layout) rest
             (j + 1) (k + 1)) in *.
      assert (forall p, p ∈ rest_pairs -> Z.to_nat p.1 <> Z.to_nat (j + 1))
        as Hlater.
      { intros p Hp. apply lps_pairs_gt in Hp. lia. }
      split; [by eapply same_layout_trans|].
      split; [exists (more1 ++ more); by rewrite Hlog, Hlog1, app_assoc|].
      split; [intros Hm; by rewrite Hoff, Hoff1|]. split.
      * intros m Hm.
        destruct (Hsame m) as [Hc Hmem].
        { intros p Hp. apply Hm. by right. }
        destruct (Hsame1 m) as [Hc1 Hmem1].
        { intros ->. apply (Hm (j + 1, k + 1)); [by left|done]. }
        split; congruence.
      * intros jj kk Hin. apply elem_of_cons in Hin as [[= -> ->]|Hin].
        -- split; [done|]. split; [done|]. exists tasks. split; [done|].
           destruct (Hsame (Z.to_nat (j + 1)) Hlater) as [Hc Hmem].
           destruct Hcred1 as [(used & Hu & Hu' & Hlogu) Hmemc].
           split.
           ++ exists used. split; [done|]. split; [congruence|].
              intros Hlt. rewrite Hlog. apply elem_of_app. left. auto.
           ++ intros Hon. destruct (Hmemc Hon) as (mu & Hm0 & Hm1 & Hlogm).
              exists mu. split; [done|]. split; [congruence|].
              intros Hlt. rewrite Hlog. apply elem_of_app. left. auto.
        -- destruct (Hpairs jj kk Hin) as (Hjj & Hkk & t & Ht & Hcred).
           split; [done|]. split; [done|]. exists t. split; [done|].
           assert (Z.to_nat jj <> Z.to_nat (j + 1)) as Hne.
           { apply (Hlater (jj, kk) Hin). }
           destruct (Hsame1 _ Hne) as [Hc Hmem].
           destruct Hcred as [(used & Hu & Hu' & Hlogu) Hmemc].
           split.
           ++ exists used. split; [congruence|]. done.
           ++ intros Hon. destruct (Hmemc Hon) as (mu & Hm0 & Hm1 & Hlogm).
              exists mu. split; [congruence|]. done.
Qed.

(** ** Positions of nodes in the job and in the step *)

Lemma bit_test_nil i : bit_test [] i = false.
Proof. by destruct i. Qed.

Lemma bit_test_and b1 b2 i :
  bit_test (bit_and b1 b2) i = bit_test b1 i && bit_test b2 i.
Proof.
  unfold bit_test, bit_and. rewrite lookup_zip_with.
  destruct (b1 !! i) as [x|]; simpl; [|done].
  destruct (b2 !! i) as [y|]; simpl; [done|]. by rewrite andb_false_r.
Qed.

Lemma bit_set_count_take_S b i :
  bit_set_count (take (S i) b) =
  (bit_set_count (take i b) + if bit_test b i then 1 else 0)%nat.
Proof.
  revert i. induction b as [|x b IH]; intros i.
  - by destruct i.
  - destruct i as [|i].
    + simpl. unfold bit_test. simpl. destruct x; simpl; lia.
    + change (take (S (S i)) (x :: b)) with (x :: take (S i) b).
      change (take (S i) (x :: b)) with (x :: take i b).
      simpl bit_set_count. rewrite IH.
      change (bit_test (x :: b) (S i)) with (bit_test b i). lia.
Qed.

Lemma job_pos_S jb i :
  job_pos jb (S i) = job_pos jb i + if bit_test jb i then 1 else 0.
Proof.
  unfold job_pos. rewrite bit_set_count_take_S.
  destruct (bit_test jb i); lia.
Qed.

Lemma step_pos_S jb sb i :
  step_pos jb sb (S i) =
  step_pos jb sb i + if bit_test jb i && bit_test sb i then 1 else 0.
Proof.
  unfold step_pos. rewrite bit_set_count_take_S, bit_test_and.
  destruct (_ && _); lia.
Qed.

Lemma step_pos_mono jb sb i i' :
  (i <= i')%nat -> step_pos jb sb i <= step_pos jb sb i'.
Proof.
  induction 1 as [|i' _ IH]; [lia|]. rewrite step_pos_S.
  destruct (_ && _); lia.
Qed.

Lemma bit_set_count_clear b d :
  (forall i, (i < d)%nat -> bit_test b i = false) ->
  bit_set_count (take d b) = 0%nat.
Proof.
  induction d as [|d IH]; intros Hclear; [by rewrite take_0|].
  rewrite bit_set_count_take_S, IH by (intros; apply Hclear; lia).
  by rewrite Hclear by lia.
Qed.

Lemma bit_ffs_from_spec k b :
  (bit_ffs_from k b = -1 /\ forall i, bit_test b i = false) \/
  (exists d, bit_ffs_from k b = Z.of_nat (k + d) /\ bit_test b d = true /\
             forall i, (i < d)%nat -> bit_test b i = false).
Proof.
  revert k. induction b as [|x b IH]; intros k; simpl.
  - left. split; [done|]. apply bit_test_nil.
  - destruct x.
    + right. exists 0%nat. split; [f_equal; lia|]. split; [done|]. lia.
    + destruct (IH (S k)) as [[-> Hall]|(d & -> & Hd & Hlow)].
      * left. split; [done|]. intros [|i]; [done|]. apply Hall.
      * right. exists (S d). split; [f_equal; lia|]. split; [done|].
        intros [|i] Hi; [done|]. apply Hlow. lia.
Qed.

Lemma bit_fls_from_spec k b :
  (bit_fls_from k b = -1 /\ forall i, bit_test b i = false) \/
  (exists d, bit_fls_from k b = Z.of_nat (k + d) /\ bit_test b d = true /\
             forall i, (d < i)%nat -> bit_test b i = false).
Proof.
  revert k. induction b as [|x b IH]; intros k; simpl.
  - left. split; [done|]. apply bit_test_nil.
  - destruct (IH (S k)) as [[-> Hall]|(d & -> & Hd & Hhigh)]; simpl.
    + destruct x.
      * right. exists 0%nat. split; [f_equal; lia|]. split; [done|].
        intros [|i] Hi; [lia|]. apply Hall.
      * left. split; [done|]. intros [|i]; [done|]. apply Hall.
    + destruct (Z.geb_spec (Z.of_nat (S k + d)) 0); [|lia].
      right. exists (S d). split; [f_equal; lia|]. split; [done|].
      intros [|i] Hi; [lia|]. apply Hhigh. lia.
Qed.

(** Every set bit lies in the range a loop from bit_ffs to bit_fls
    visits, and no bit is set below the start of the range. *)
Lemma range_incl_covers b :
  let a := Z.to_nat (bit_ffs b) in
  let n := Z.to_nat (bit_fls b + 1 - bit_ffs b) in
  range_incl (bit_ffs b) (bit_fls b) = seq a n /\
  (forall i, bit_test b i = true -> (a <= i < a + n)%nat) /\
  (forall i, (i < a)%nat -> bit_test b i = false).
Proof.
  intros a n. split; [done|]. subst a n. unfold bit_ffs, bit_fls.
  destruct (bit_ffs_from_spec 0 b) as [[-> Hall]|(d & -> & Hd & Hlow)].
  - split; [|intros; apply Hall]. intros i Hi. by rewrite Hall in Hi.
  - destruct (bit_fls_from_spec 0 b) as [[-> Hall]|(e & -> & He & Hhigh)].
    { by rewrite Hall in Hd. }
    split.
    + intros i Hi.
      assert (d <= i)%nat.
      { destruct (Nat.le_gt_cases d i); [done|]. rewrite Hlow in Hi; done. }
      assert (i <= e)%nat.
      { destruct (Nat.le_gt_cases i e); [done|]. rewrite Hhigh in Hi; done. }
      lia.
    + intros i Hi. apply Hlow. lia.
Qed.

(** The pairs the node loop visits are the positions of the nodes of
    the step, as long as the step index stays below node_cnt. *)
Lemma lps_pairs_closed jb sb nc n :
  forall a jj kk,
    nc < 4294967296 ->
    step_pos jb sb a - 1 <= nc - 2 ->
    ((jj, kk) ∈ lps_pairs jb sb nc (seq a n) (job_pos jb a - 1)
                          (step_pos jb sb a - 1) <->
     exists i, (a <= i < a + n)%nat /\ bit_test jb i = true /\
               bit_test sb i = true /\ jj = job_pos jb i /\
               kk = step_pos jb sb i /\ kk < nc).
Proof.
  induction n as [|n IH]; intros a jj kk Hnc Hk; simpl.
  - split; [intros H; by apply elem_of_nil in H|]. intros (i & ? & _). lia.
  - pose proof (job_pos_S jb a) as HjS. pose proof (step_pos_S jb sb a) as HkS.
    assert (0 <= step_pos jb sb a) as Hk0 by (unfold step_pos; lia).
    destruct (bit_test jb a) eqn:Hja; simpl in *.
    2:{ replace (job_pos jb a - 1) with (job_pos jb (S a) - 1) by lia.
        replace (step_pos jb sb a - 1) with (step_pos jb sb (S a) - 1) by lia.
        rewrite IH by lia. split.
        - intros (i & ? & ?). exists i. split; [lia|done].
        - intros (i & Hi & Hb & ?). exists i. split; [|done].
          destruct (decide (i = a)) as [->|]; [congruence|lia]. }
    destruct (bit_test sb a) eqn:Hsa; simpl in *.
    2:{ replace (job_pos jb a - 1 + 1) with (job_pos jb (S a) - 1) by lia.
        replace (step_pos jb sb a - 1) with (step_pos jb sb (S a) - 1) by lia.
        rewrite IH by lia. split.
        - intros (i & ? & ?). exists i. split; [lia|done].
        - intros (i & Hi & Hb & Hs & ?). exists i. split; [|done].
          destruct (decide (i = a)) as [->|]; [congruence|lia]. }
    replace (job_pos jb a - 1 + 1) with (job_pos jb a) by lia.
    replace (step_pos jb sb a - 1 + 1) with (step_pos jb sb a) by lia.
    rewrite !u32_id by lia.
    destruct (Z.eqb_spec (step_pos jb sb a) (nc - 1)) as [Hbreak|Hgo].
    + split.
      * intros Hin. apply elem_of_cons in Hin as [[= -> ->]|Hin].
        2:{ by apply elem_of_nil in Hin. }
        exists a. repeat split; try done; lia.
      * intros (i & Hi & Hb & Hs & -> & -> & Hlt).
        destruct (decide (i = a)) as [->|Hne]; [by left|].
        pose proof (step_pos_mono jb sb (S a) i ltac:(lia)). lia.
    + replace (job_pos jb a) with (job_pos jb (S a) - 1) by lia.
      replace (step_pos jb sb a) with (step_pos jb sb (S a) - 1) by lia.
      rewrite elem_of_cons, IH by lia. split.
      * intros [[= -> ->]|(i & ? & ?)].
        -- exists a. repeat split; try done; lia.
        -- exists i. split; [lia|done].
      * intros (i & Hi & Hb & Hs & -> & -> & Hlt).
        destruct (decide (i = a)) as [->|Hne].
        -- left. f_equal; lia.
        -- right. exists i. repeat split; try done; lia.
Qed.

Lemma credit_nonneg used amount : 0 <= credit used amount.
Proof. unfold credit. destruct (Z.geb_spec used amount); lia. Qed.

Lemma credit_cases used amount :
  (amount <= used /\ credit used amount = used - amount) \/
  (used < amount /\ credit used amount = 0).
Proof. unfold credit. destruct (Z.geb_spec used amount); lia. Qed.

(** C2. Let _step_dealloc_lps return for a step with a layout of
    node_cnt >= 1 nodes, on a job whose cpus_used[] are uint16_t values
    and whose memory_used[] are not negative, the products
    tasks[k] * cpus_per_task fitting an int. Then at every node of the
    step, with position n in the job and k in the step, cpus_used[n] has
    gone down by exactly tasks[k] * cpus_per_task when it was at least
    that, and else is 0 with a cpu underflow in the log; when the memory
    of the step is accounted and the job has both memory arrays,
    memory_used[n] has likewise gone down by
    the uint32_t value mem_per_cpu * tasks[k] * cpus_per_task, or is 0
    with a mem underflow in the log. The counters of other nodes are
    untouched. Hence no cpus_used[n] and no memory_used[n] is below zero
    afterwards. *)
Theorem step_dealloc_lps_no_underflow (step : Step.t G) (job : Job.t G)
  layout g step1 job1 g1 :
  _step_dealloc_lps conf step job g = Ok (step1, job1) g1 ->
  Step.step_layout step = Some layout ->
  let res := Job.job_resrcs job in
  let res1 := Job.job_resrcs job1 in
  let jb := Res.node_bitmap res in
  let sb := Step.step_node_bitmap step in
  Forall (fun c => 0 <= c < 65536) (Res.cpus_used res) ->
  (forall a, Res.memory_used res = Some a -> Forall (fun c => 0 <= c) a) ->
  Forall (fun t => 0 <= t * Step.cpus_per_task step < 2147483648)
         (Layout.tasks layout) ->
  1 <= Layout.node_cnt layout < 4294967296 ->
  (forall i, step_node res step layout i ->
     exists tasks used,
       Layout.tasks layout !! Z.to_nat (step_pos jb sb i) = Some tasks /\
       Res.cpus_used res !! Z.to_nat (job_pos jb i) = Some used /\
       Res.cpus_used res1 !! Z.to_nat (job_pos jb i) =
       Some (credit used (tasks * Step.cpus_per_task step)) /\
       (used < tasks * Step.cpus_per_task step ->
        cpu_underflow ∈ Glob.log g1) /\
       (mem_on conf step = true ->
        is_Some_b (Res.memory_allocated res) = true ->
        is_Some_b (Res.memory_used res) = true ->
        exists mem_used,
          memory_used_at res (Z.to_nat (job_pos jb i)) = Some mem_used /\
          let amount :=
            u32 (Step.mem_per_cpu step *
                 (tasks * Step.cpus_per_task step)) in
          memory_used_at res1 (Z.to_nat (job_pos jb i)) =
          Some (credit mem_used amount) /\
          (mem_used < amount -> mem_underflow ∈ Glob.log g1))) /\
  (forall m, (forall i, step_node res step layout i ->
                        Z.to_nat (job_pos jb i) <> m) ->
             same_at res res1 m) /\
  Forall (fun c => 0 <= c) (Res.cpus_used res1) /\
  (forall a, Res.memory_used res1 = Some a -> Forall (fun c => 0 <= c) a).
Proof.
  intros Hrun Hlayout res res1 jb sb Hcpus Hmem Htasks Hcnt.
  unfold _step_dealloc_lps in Hrun. rewrite Hlayout in Hrun. fold res in Hrun.
  fold jb in Hrun.
  destruct (range_incl_covers jb) as (Hrange & Hcover & Hbelow).
  destruct (Z.eqb_spec (bit_ffs jb) (-1)) as [Hempty|Hne].
  { inv_run. subst res1. fold res.
    assert (forall i, bit_test jb i = false) as Hnone.
    { unfold bit_ffs in Hempty.
      destruct (bit_ffs_from_spec 0 jb) as [[_ ?]|(d & Hd & _)]; [done|lia]. }
    split; [|split; [|split]].
    - intros i (Hi & _). by rewrite Hnone in Hi.
    - done.
    - eapply Forall_impl; [exact Hcpus|]. simpl. lia.
    - done. }
  apply bind_Ok in Hrun as (step' & g2 & Hstep' & Hrun).
  assert (Step.step_node_bitmap step' = sb /\
          Step.cpus_per_task step' = Step.cpus_per_task step /\
          (mem_on conf step' = true -> mem_on conf step = true /\
             Step.mem_per_cpu step' = Step.mem_per_cpu step) /\
          (mem_on conf step = true ->
           is_Some_b (Res.memory_allocated res) = true ->
           is_Some_b (Res.memory_used res) = true ->
           mem_on conf step' = true) /\
          exists more2, Glob.log g2 = Glob.log g ++ more2)
    as (Hsb' & Hcpt' & Hon' & Hon'' & Hlog2).
  { unfold mem_on, _is_mem_resv in *.
    destruct (negb (Step.mem_per_cpu step =? 0) && Conf.cr_memory conf)
      eqn:Hm; simpl in Hstep'.
    - destruct (negb (is_Some_b (Res.memory_allocated res)) ||
                negb (is_Some_b (Res.memory_used res))) eqn:Harr.
      + apply bind_Ok in Hstep' as (? & g3 & Hl & Hstep').
        apply log_msg_Ok in Hl. inv_run. simpl.
        repeat split; try done.
        * intros _ Ha Hu. by rewrite Ha, Hu in Harr.
        * by eexists.
      + inv_run. repeat split; try done. exists []. by rewrite app_nil_r.
    - inv_run. repeat split; try done; try congruence.
      exists []. by rewrite app_nil_r. }
  apply bind_Ok in Hrun as (res' & g3 & Hloop & Hrun).
  rewrite Hrange in Hloop.
  apply dealloc_loop_spec in Hloop
    as (Hlay & [more3 Hlog3] & Hoff & Hsame & Hpairs); [|lia|lia].
  fold res jb in Hsame, Hpairs. rewrite Hsb' in Hsame, Hpairs.
  set (a := Z.to_nat (bit_ffs jb)) in *.
  set (n := Z.to_nat (bit_fls jb + 1 - bit_ffs jb)) in *.
  assert (job_pos jb a = 0) as Hja.
  { unfold job_pos. by rewrite bit_set_count_clear. }
  assert (step_pos jb sb a = 0) as Hsa.
  { unfold step_pos. rewrite bit_set_count_clear; [done|].
    intros i Hi. by rewrite bit_test_and, Hbelow. }
  assert (forall jj kk,
    (jj, kk) ∈ lps_pairs jb sb (Layout.node_cnt layout) (seq a n) (-1) (-1) <->
    exists i, step_node res step layout i /\ jj = job_pos jb i /\
              kk = step_pos jb sb i) as Hclosed.
  { intros jj kk.
    pose proof (lps_pairs_closed jb sb (Layout.node_cnt layout) n a jj kk)
      as Hc. rewrite Hja, Hsa in Hc. simpl in Hc. rewrite Hc by lia.
    unfold step_node. fold jb sb. split.
    - intros (i & _ & ? & ? & -> & -> & ?). exists i. done.
    - intros (i & (Hb & ? & ?) & -> & ->). exists i.
      split; [by apply Hcover|done]. }
  assert (Res.cpus_used res1 = Res.cpus_used res' /\
          Res.memory_used res1 = Res.memory_used res' /\
          exists more4, Glob.log g1 = Glob.log g3 ++ more4)
    as (Hcu1 & Hmu1 & [more4 Hlog4]).
  { subst res1. destruct (Conf.have_bg conf).
    - inv_run. repeat split. exists []. by rewrite app_nil_r.
    - destruct (Step.core_bitmap_job step'); inv_run; repeat split;
        exists []; by rewrite app_nil_r. }
  assert (forall m, same_at res res' m -> same_at res res1 m) as Hsame1.
  { intros m [? ?]. split; [congruence|].
    unfold memory_used_at in *. by rewrite Hmu1. }
  split; [|split; [|split]].
  - intros i Hnode.
    destruct (Hpairs (job_pos jb i) (step_pos jb sb i))
      as (_ & _ & tasks & Ht & (used & Hu & Hu' & Hlogu) & Hmemc).
    { apply Hclosed. eauto. }
    exists tasks, used.
    assert (0 <= tasks * Step.cpus_per_task step < 2147483648) as Hfit.
    { rewrite Forall_forall in Htasks. apply Htasks.
      by eapply list_elem_of_lookup_2. }
    rewrite Hcpt', i32_id in Hu', Hlogu, Hmemc by lia.
    assert (0 <= used < 65536) as Hused.
    { rewrite Forall_forall in Hcpus. apply Hcpus.
      by eapply list_elem_of_lookup_2. }
    split; [done|]. split; [done|]. split; [|split].
    + rewrite Hcu1, Hu'. f_equal. unfold credit.
      destruct (Z.geb_spec used (tasks * Step.cpus_per_task step)); [|done].
      apply u16_id. lia.
    + intros Hlt. rewrite Hlog4. apply elem_of_app. left. auto.
    + intros Hon Halloc Hmused.
      specialize (Hon'' Hon Halloc Hmused).
      destruct (Hon' Hon'') as [_ Hmpc].
      destruct (Hmemc Hon'') as (mu & Hm0 & Hm1 & Hlogm).
      rewrite Hmpc in Hm1, Hlogm.
      exists mu. split; [done|]. split.
      * unfold memory_used_at in *. by rewrite Hmu1.
      * intros Hlt. rewrite Hlog4. apply elem_of_app. left. auto.
  - intros m Hm. apply Hsame1, Hsame. intros [jj kk] Hp. simpl.
    apply Hclosed in Hp as (i & Hnode & -> & ->). by apply Hm.
  - rewrite Hcu1. apply Forall_lookup. intros m x Hx.
    destruct (decide (Exists (fun p : Z * Z => Z.to_nat p.1 = m)
                (lps_pairs jb sb (Layout.node_cnt layout) (seq a n) (-1) (-1))))
      as [Hex|Hnex].
    + apply Exists_exists in Hex as ([jj kk] & Hin & <-).
      destruct (Hpairs jj kk Hin)
        as (_ & _ & tasks & _ & (used & _ & Hu' & _) & _).
      simpl in Hx. rewrite Hu' in Hx. inversion Hx.
      destruct (_ >=? _); [apply u16_range|done].
    + destruct (Hsame m) as [Hc _].
      { intros p Hp Heq. apply Hnex, Exists_exists. eauto. }
      rewrite Hc in Hx. rewrite Forall_forall in Hcpus.
      apply list_elem_of_lookup_2, Hcpus in Hx. lia.
  - intros arr Harr. apply Forall_lookup. intros m x Hx.
    assert (memory_used_at res' m = Some x) as Hx'.
    { unfold memory_used_at. by rewrite <- Hmu1, Harr. }
    destruct (decide (Exists (fun p : Z * Z => Z.to_nat p.1 = m)
                (lps_pairs jb sb (Layout.node_cnt layout) (seq a n) (-1) (-1))))
      as [Hex|Hnex].
    + apply Exists_exists in Hex as ([jj kk] & Hin & <-).
      destruct (Hpairs jj kk Hin) as (_ & _ & tasks & _ & _ & Hmemc).
      destruct (mem_on conf step') eqn:Hon.
      * destruct (Hmemc eq_refl) as (mu & _ & Hm1 & _). simpl in Hx'.
        rewrite Hm1 in Hx'. inversion Hx'. apply credit_nonneg.
      * unfold memory_used_at in Hx'. rewrite (Hoff eq_refl) in Hx'.
        destruct (Res.memory_used res) as [ar0|] eqn:Har0; [|done].
        specialize (Hmem ar0 eq_refl). rewrite Forall_forall in Hmem.
        by apply list_elem_of_lookup_2, Hmem in Hx'.
    + destruct (Hsame m) as [_ Hc].
      { intros p Hp Heq. apply Hnex, Exists_exists. eauto. }
      rewrite Hc in Hx'. unfold memory_used_at in Hx'.
      destruct (Res.memory_used res) as [ar0|] eqn:Har0; [|done].
      specialize (Hmem ar0 eq_refl). rewrite Forall_forall in Hmem.
      by apply list_elem_of_lookup_2, Hmem in Hx'.
Qed.

(** ** The core picker *)

Lemma bit_test_set b o o' :
  bit_test (bit_set b o) o' =
  if decide (o = o') then bool_decide (o < length b)%nat else bit_test b o'.
Proof.
  unfold bit_test, bit_set. destruct (decide (o = o')) as [->|Hne].
  - destruct (decide (o' < length b)%nat) as [Hlt|Hge].
    + rewrite list_lookup_insert_eq by done. by rewrite bool_decide_eq_true_2.
    + rewrite list_insert_ge by lia. rewrite lookup_ge_None_2 by lia.
      by rewrite bool_decide_eq_false_2.
  - by rewrite list_lookup_insert_ne.
Qed.

Lemma bit_test_set_mono b o o' :
  bit_test b o' = true -> bit_test (bit_set b o) o' = true.
Proof.
  intros Hb. rewrite bit_test_set. destruct (decide (o = o')) as [->|]; [|done].
  apply bool_decide_eq_true_2. unfold bit_test in Hb.
  destruct (b !! o') eqn:E; [|done]. by eapply lookup_lt_Some.
Qed.

Lemma bit_test_lt b o : bit_test b o = true -> (o < length b)%nat.
Proof.
  unfold bit_test. destruct (b !! o) eqn:E; [|done].
  intros _. by eapply lookup_lt_Some.
Qed.






(** ** Exclusive mode of the node picker *)

Lemma bit_test_clear b i j :
  bit_test (bit_clear b i) j = if decide (i = j) then false else bit_test b j.
Proof.
  unfold bit_test, bit_clear. destruct (decide (i = j)) as [->|Hne].
  - destruct (decide (j < length b)%nat).
    + by rewrite list_lookup_insert_eq.
    + rewrite list_insert_ge by lia. by rewrite lookup_ge_None_2 by lia.
  - by rewrite list_lookup_insert_ne.
Qed.

Lemma u32_add_l a b : u32 (u32 a + b) = u32 (a + b).
Proof. unfold u32. by rewrite Zplus_mod_idemp_l. Qed.

(** What one turn of the loop does to the counters and to the bitmap. *)
Lemma excl_step_cases (job : Job.t G) spec gres cpt sel st i st' :
  excl_step plug job spec gres cpt sel st i = Some st' ->
  (forall j, j <> i ->
     bit_test (Excl.nodes_avail st') j = bit_test (Excl.nodes_avail st) j) /\
  (bit_test (Excl.nodes_avail st') i = true ->
   bit_test (Excl.nodes_avail st) i = true) /\
  if negb (bit_test (Res.node_bitmap (Job.job_resrcs job)) i)
  then st' = st
  else
    Excl.node_inx st' = Excl.node_inx st + 1 /\
    exists avail_tasks total_tasks,
      (bit_test (Excl.nodes_avail st) i = true ->
       excl_node_tasks plug job spec gres cpt (Excl.node_inx st + 1) =
       Some (avail_tasks, total_tasks)) /\
      Excl.tasks_picked_cnt st' =
      (if bit_test (Excl.nodes_avail st') i
       then u32 (Excl.tasks_picked_cnt st + avail_tasks)
       else Excl.tasks_picked_cnt st) /\
      (Req.max_nodes spec = 0 ->
       Excl.total_task_cnt st' =
       (if bit_test (Excl.nodes_avail st) i
        then u32 (Excl.total_task_cnt st + total_tasks)
        else Excl.total_task_cnt st)).
Proof.
  unfold excl_step. intros Hstep.
  destruct (bit_test (Res.node_bitmap (Job.job_resrcs job)) i); simpl in *.
  2:{ by inversion Hstep. }
  destruct (bit_test (Excl.nodes_avail st) i) eqn:Hav; simpl in Hstep.
  2:{ inversion Hstep; subst; simpl. rewrite Hav.
      split; [done|]. split; [done|]. split; [done|]. by exists 0, 0. }
  destruct (excl_node_tasks plug job spec gres cpt (Excl.node_inx st + 1))
    as [[a t]|] eqn:Htasks; [|done].
  simpl in Hstep.
  destruct (negb (Req.max_nodes spec =? 0) && _) eqn:Hmax.
  { inversion Hstep; subst; simpl. rewrite bit_test_clear, decide_True by done.
    split; [intros j Hj; by rewrite bit_test_clear, decide_False|].
    split; [done|]. split; [done|]. exists a, t.
    split; [done|]. split; [done|]. intros Hz. rewrite Hz in Hmax. done. }
  destruct ((a <=? 0) || _).
  { inversion Hstep; subst; simpl. rewrite bit_test_clear, decide_True by done.
    split; [intros j Hj; by rewrite bit_test_clear, decide_False|].
    split; [done|]. split; [done|]. by exists a, t. }
  inversion Hstep; subst; simpl. rewrite Hav.
  split; [done|]. split; [done|]. split; [done|]. by exists a, t.
Qed.

Lemma excl_loop_frame (job : Job.t G) spec gres cpt sel nodes :
  forall st st',
    excl_loop plug job spec gres cpt sel nodes st = Some st' ->
    (forall j, j ∉ nodes ->
       bit_test (Excl.nodes_avail st') j = bit_test (Excl.nodes_avail st) j) /\
    (forall j, bit_test (Excl.nodes_avail st') j = true ->
               bit_test (Excl.nodes_avail st) j = true).
Proof.
  induction nodes as [|i rest IH]; intros st st' Hloop; simpl in Hloop.
  { by inversion Hloop. }
  destruct (excl_step plug job spec gres cpt sel st i) as [st1|] eqn:Hstep;
    [|done].
  simpl in Hloop. apply IH in Hloop as [Hout Hsub].
  apply excl_step_cases in Hstep as (Hother & Hat & _). split.
  - intros j Hj. apply not_elem_of_cons in Hj as [Hne Hj].
    rewrite Hout by done. by apply Hother.
  - intros j Hj. apply Hsub in Hj.
    destruct (decide (j = i)) as [->|Hne]; [by apply Hat|].
    by rewrite <- Hother.
Qed.

Lemma tasks_over_ext total (job : Job.t G) spec gres cpt k1 k2 nodes :
  (forall j, j ∈ nodes -> bit_test k1 j = bit_test k2 j) ->
  forall n, tasks_over plug total job spec gres cpt k1 nodes n =
            tasks_over plug total job spec gres cpt k2 nodes n.
Proof.
  induction nodes as [|i rest IH]; intros Hext n; [done|]. simpl.
  rewrite (Hext i) by apply list_elem_of_here.
  assert (forall m, tasks_over plug total job spec gres cpt k1 rest m =
                    tasks_over plug total job spec gres cpt k2 rest m)
    as Hrest.
  { apply IH. intros j Hj. apply Hext. by apply list_elem_of_further. }
  by rewrite !Hrest.
Qed.

(** tasks_picked_cnt is the sum of avail_tasks over the nodes that
    survive. *)
Lemma excl_loop_picked (job : Job.t G) spec gres cpt sel nodes :
  NoDup nodes ->
  forall st st',
    0 <= Excl.tasks_picked_cnt st < 4294967296 ->
    excl_loop plug job spec gres cpt sel nodes st = Some st' ->
    Excl.tasks_picked_cnt st' =
    u32 (Excl.tasks_picked_cnt st +
         tasks_over plug false job spec gres cpt (Excl.nodes_avail st')
                    nodes (Excl.node_inx st)).
Proof.
  induction 1 as [|i rest Hi Hnd IH]; intros st st' Hp Hloop;
    simpl in Hloop.
  { inversion Hloop; subst. simpl. by rewrite Z.add_0_r, u32_id by lia. }
  destruct (excl_step plug job spec gres cpt sel st i) as [st1|] eqn:Hstep;
    [|done].
  simpl in Hloop.
  pose proof (excl_loop_frame _ _ _ _ _ _ _ _ Hloop) as [Hout _].
  pose proof (excl_step_cases _ _ _ _ _ _ _ _ Hstep) as (Hother & Hat & Hcase).
  simpl. destruct (bit_test (Res.node_bitmap (Job.job_resrcs job)) i);
    simpl in Hcase |- *.
  2:{ subst st1. by apply IH. }
  destruct Hcase as (Hinx & a & t & Htasks & Hpicked & _).
  assert (0 <= Excl.tasks_picked_cnt st1 < 4294967296) as Hp1.
  { rewrite Hpicked. destruct (bit_test _ i); [apply u32_range|done]. }
  rewrite (Hout i Hi), (IH st1 st' Hp1 Hloop), Hinx, Hpicked.
  destruct (bit_test (Excl.nodes_avail st1) i) eqn:Hb1.
  - rewrite (Htasks (Hat eq_refl)), u32_add_l. f_equal. lia.
  - f_equal.
Qed.

(** Without a node limit, total_task_cnt is the sum of total_tasks over
    the nodes that were available. *)
Lemma excl_loop_total (job : Job.t G) spec gres cpt sel nodes :
  Req.max_nodes spec = 0 ->
  NoDup nodes ->
  forall st st',
    0 <= Excl.total_task_cnt st < 4294967296 ->
    excl_loop plug job spec gres cpt sel nodes st = Some st' ->
    Excl.total_task_cnt st' =
    u32 (Excl.total_task_cnt st +
         tasks_over plug true job spec gres cpt (Excl.nodes_avail st)
                    nodes (Excl.node_inx st)).
Proof.
  intros Hz. induction 1 as [|i rest Hi Hnd IH]; intros st st' Ht Hloop;
    simpl in Hloop.
  { inversion Hloop; subst. simpl. by rewrite Z.add_0_r, u32_id by lia. }
  destruct (excl_step plug job spec gres cpt sel st i) as [st1|] eqn:Hstep;
    [|done].
  simpl in Hloop.
  pose proof (excl_step_cases _ _ _ _ _ _ _ _ Hstep) as (Hother & Hat & Hcase).
  simpl. destruct (bit_test (Res.node_bitmap (Job.job_resrcs job)) i);
    simpl in Hcase |- *.
  2:{ subst st1. by apply IH. }
  destruct Hcase as (Hinx & a & t & Htasks & _ & Htotal).
  specialize (Htotal Hz).
  assert (0 <= Excl.total_task_cnt st1 < 4294967296) as Ht1.
  { rewrite Htotal.
    destruct (bit_test (Excl.nodes_avail st) i); [apply u32_range|done]. }
  rewrite (IH st1 st' Ht1 Hloop), Hinx, Htotal.
  rewrite (tasks_over_ext true job spec gres cpt (Excl.nodes_avail st1)
             (Excl.nodes_avail st)).
  2:{ intros j Hj. apply Hother. intros ->. done. }
  destruct (bit_test (Excl.nodes_avail st) i) eqn:Hb.
  - rewrite (Htasks eq_refl), u32_add_l. f_equal. lia.
  - f_equal.
Qed.

Lemma bit_equal_test b1 b2 i :
  bit_equal b1 b2 = true -> bit_test b1 i = bit_test b2 i.
Proof.
  revert b2 i. induction b1 as [|x r1 IH]; intros [|y r2] i Heq;
    simpl in Heq; try done.
  apply andb_true_iff in Heq as [Hxy Heq]. apply Bool.eqb_prop in Hxy.
  destruct i as [|i]; [by subst|]. by apply (IH r2 i).
Qed.

(** The verdict of exclusive mode as the code computes it. Once the
    named nodes (if any) have passed their checks and the loop has run,
    the picker compares num_tasks with the task count [effective_tasks]:
    the uint32_t sum of avail_tasks over the surviving nodes, zeroed when
    nodes were named and bit_equal finds the surviving set different from
    the named set. It returns the surviving set when that count is at
    least num_tasks; otherwise it returns no set, with nodes-busy when
    total_task_cnt is at least num_tasks and config-unavailable when it
    is not. The surviving nodes are among the available ones; without a
    node limit total_task_cnt is the uint32_t sum of total_tasks over the
    available nodes of the job; and a named node that did not survive
    zeroes the count. *)
Lemma pick_exclusive_verdict (job : Job.t G) bm spec gres cpt avail g
  sel g1 st :
  excl_selected_nodes cluster plug bm spec g = Ok (inr sel) g1 ->
  excl_loop plug job spec gres cpt sel (excl_nodes job)
            (Excl.mk (-1) avail 0 0 0) = Some st ->
  let surviving := Excl.nodes_avail st in
  let effective := effective_tasks plug job spec gres cpt sel surviving in
  pick_exclusive cluster plug job bm spec gres cpt avail g =
  Ok (if effective >=? Req.num_tasks spec
      then (Some surviving, SLURM_SUCCESS)
      else if Excl.total_task_cnt st >=? Req.num_tasks spec
           then (None, ESLURM_NODES_BUSY)
           else (None, ESLURM_REQUESTED_NODE_CONFIG_UNAVAILABLE)) g1 /\
  (forall i, bit_test surviving i = true -> bit_test avail i = true) /\
  (Req.max_nodes spec = 0 ->
   Excl.total_task_cnt st =
   u32 (tasks_over plug true job spec gres cpt avail (excl_nodes job) (-1))) /\
  (forall named i, sel = Some named -> bit_test named i = true ->
                   bit_test surviving i = false -> effective = 0).
Proof.
  intros Hsel Hloop surviving effective.
  assert (NoDup (excl_nodes job)) as Hnd by apply NoDup_seq.
  assert (Excl.tasks_picked_cnt st =
          u32 (tasks_over plug false job spec gres cpt surviving
                          (excl_nodes job) (-1))) as Hpicked.
  { eapply excl_loop_picked in Hloop; [|done|simpl; lia]. done. }
  split; [|split; [|split]].
  - unfold pick_exclusive. unfold bind at 1. rewrite Hsel.
    fold (excl_nodes job). rewrite Hloop. unfold ret. f_equal.
    unfold excl_verdict, effective, effective_tasks. fold surviving.
    rewrite <- Hpicked. by destruct sel as [named|]; [destruct (bit_equal _ _)|].
  - intros i Hi. by apply (excl_loop_frame _ _ _ _ _ _ _ _ Hloop).
  - intros Hz.
    eapply excl_loop_total in Hloop; [|done|done|simpl; lia]. done.
  - intros named i -> Hn Hs. unfold effective, effective_tasks.
    destruct (bit_equal named surviving) eqn:Heq; [|done].
    apply (bit_equal_test _ _ i) in Heq. congruence.
Qed.
(** ** The fuel of the loop that adds nodes *)

Lemma pick_first_none b : bit_and b (bit_not (pick_first 0 b)) = b.
Proof.
  unfold bit_and, bit_not. induction b as [|x r IH]; [done|].
  simpl. by rewrite IH, andb_true_r.
Qed.

Lemma pick_first_one_count b :
  (1 <= bit_set_count b)%nat ->
  S (bit_set_count (bit_and b (bit_not (pick_first 1 b)))) = bit_set_count b.
Proof.
  induction b as [|x r IH]; simpl; [lia|]. intros Hc. destruct x; simpl.
  - fold (bit_not (pick_first 0 r)). fold (bit_and r (bit_not (pick_first 0 r))).
    by rewrite pick_first_none.
  - apply IH. simpl in Hc. lia.
Qed.

(** Every turn of the loop clears one bit of nodes_avail, and the loop
    ends when no bit is left: turns beyond the number of set bits are
    never taken. *)
Lemma add_nodes_loop_fuel fuel (job : Job.t G) bm usable :
  forall spec avail picked n c g,
    (bit_set_count avail <= fuel)%nat ->
    add_nodes_loop cluster fuel job bm usable (spec, avail, picked, n, c) g =
    add_nodes_loop cluster (bit_set_count avail) job bm usable
                   (spec, avail, picked, n, c) g.
Proof.
  induction fuel as [|fuel IH]; intros spec avail picked n c g Hfuel.
  { by replace (bit_set_count avail) with 0%nat by lia. }
  destruct (bit_set_count avail) as [|k] eqn:Hcount.
  - simpl. destruct (negb _); [done|].
    unfold bit_pick_cnt. rewrite Hcount. done.
  - assert (bit_set_count (bit_and avail (bit_not (pick_first 1 avail))) = k)
      as Hk.
    { pose proof (pick_first_one_count avail). lia. }
    simpl. destruct (negb _); [done|].
    unfold bit_pick_cnt. rewrite Hcount.
    destruct (Z.of_nat (S k) <? 1); [done|].
    change (Z.to_nat 1) with 1%nat. unfold bind.
    destruct (_count_cpus _ _ _ _ _ g) as [cpu_cnt g1|]; [|done].
    destruct (cpu_cnt =? 0).
    + rewrite IH by lia. by rewrite Hk.
    + destruct (_ && _); [done|]. rewrite IH by lia. by rewrite Hk.
Qed.

(** ** The registry as a lookup table *)

Lemma step_index_first (steps : list (Step.t G)) step_id k :
  step_index steps step_id = Some k ->
  forall j s, (j < k)%nat -> steps !! j = Some s -> Step.step_id s <> step_id.
Proof.
  revert k. induction steps as [|x rest IH]; intros k; simpl; [done|].
  destruct (Z.eqb_spec (Step.step_id x) step_id) as [E|E].
  - intros [= <-] j s Hj. lia.
  - destruct (step_index rest step_id) as [k'|] eqn:Hk; [|done].
    intros [= <-] j s Hj Hs. destruct j as [|j]; simpl in Hs.
    + by inversion Hs; subst.
    + apply (IH k' eq_refl j s); [lia|done].
Qed.

Lemma found_step_index (steps : list (Step.t G)) step_id :
  step_id <> NO_VAL ->
  found_step steps step_id = (k ← step_index steps step_id; steps !! k).
Proof. intros Hne. unfold found_step. by rewrite find_step_record_index. Qed.

Lemma found_step_None (steps : list (Step.t G)) step_id :
  step_id <> NO_VAL ->
  found_step steps step_id = None <->
  (forall s, s ∈ steps -> Step.step_id s <> step_id).
Proof.
  intros Hne. rewrite found_step_index by done.
  rewrite <- step_index_None.
  destruct (step_index steps step_id) as [k|] eqn:Hk; simpl; [|done].
  apply step_index_Some in Hk as (s & Hs & _). rewrite Hs. done.
Qed.

(** Deleting the first record with one id leaves the lookup of every
    other id as it was. *)
Lemma found_step_delete_other (steps : list (Step.t G)) step_id k other :
  step_index steps step_id = Some k -> other <> step_id ->
  (j ← step_index (delete k steps) other; delete k steps !! j) =
  (j ← step_index steps other; steps !! j).
Proof.
  revert k. induction steps as [|x rest IH]; intros k; simpl; [done|].
  destruct (Z.eqb_spec (Step.step_id x) step_id) as [E|E].
  - intros [= <-] Hne. simpl.
    destruct (Z.eqb_spec (Step.step_id x) other); [congruence|].
    by destruct (step_index rest other).
  - destruct (step_index rest step_id) as [k'|] eqn:Hk; [|done].
    intros [= <-] Hne. simpl.
    destruct (Z.eqb_spec (Step.step_id x) other); [done|].
    specialize (IH k' eq_refl Hne).
    destruct (step_index (delete k' rest) other),
             (step_index rest other); simpl in *; done.
Qed.

(** X1. find_step_record returns the first record of the registry when
    the id is NO_VAL (NULL for an empty registry); for any other id it
    returns the first record that carries the id, and NULL exactly when
    no record carries it. *)
Theorem find_step_record_first (steps : list (Step.t G)) step_id :
  (step_id = NO_VAL -> found_step steps step_id = head steps) /\
  (step_id <> NO_VAL ->
   match find_step_record steps step_id with
   | Some k =>
       exists s, steps !! k = Some s /\ Step.step_id s = step_id /\
         forall j s', (j < k)%nat -> steps !! j = Some s' ->
                      Step.step_id s' <> step_id
   | None => forall s, s ∈ steps -> Step.step_id s <> step_id
   end).
Proof.
  split.
  - intros ->. unfold found_step. destruct steps as [|s rest]; [done|].
    simpl. by destruct (Step.step_id s =? NO_VAL).
  - intros Hne. rewrite find_step_record_index by done.
    destruct (step_index steps step_id) as [k|] eqn:Hk.
    + destruct (step_index_Some _ _ _ Hk) as (s & Hs & Hid).
      exists s. split; [done|]. split; [done|].
      by apply step_index_first.
    + by apply step_index_None.
Qed.

(** X2. delete_step_record always stamps last_job_update. For an id that
    no record carries it answers ENOENT and leaves the job as it is. For
    an id that is found it answers 0 and removes one record; the lookup
    of every other id gives the record it gave before, and with ids that
    are unique the deleted id is no longer found. *)
Theorem delete_step_record_lookup now (job_ptr : Job.t G) step_id g :
  step_id <> NO_VAL ->
  exists rc job',
    delete_step_record now job_ptr step_id g =
    Ok (rc, job') (Glob.set_last_job_update now g) /\
    (found_step (Job.step_list job_ptr) step_id = None ->
     rc = ENOENT /\ job' = job_ptr) /\
    (is_Some (found_step (Job.step_list job_ptr) step_id) ->
     rc = SLURM_SUCCESS /\
     S (length (Job.step_list job')) = length (Job.step_list job_ptr) /\
     Job.job_resrcs job' = Job.job_resrcs job_ptr /\
     Job.next_step_id job' = Job.next_step_id job_ptr /\
     (forall other, other <> NO_VAL -> other <> step_id ->
        found_step (Job.step_list job') other =
        found_step (Job.step_list job_ptr) other) /\
     (NoDup (map Step.step_id (Job.step_list job_ptr)) ->
      found_step (Job.step_list job') step_id = None)).
Proof.
  intros Hne. unfold delete_step_record, bind, touch_last_job_update.
  rewrite !found_step_index by done.
  destruct (step_index (Job.step_list job_ptr) step_id) as [k|] eqn:Hk.
  - eexists _, _. split; [reflexivity|]. split.
    + simpl. apply step_index_Some in Hk as (s & Hs & _). by rewrite Hs.
    + intros _. split; [done|]. simpl.
      destruct (step_index_Some _ _ _ Hk) as (s & Hs & _).
      split. { rewrite length_delete by eauto.
               apply lookup_lt_Some in Hs. lia. }
      split; [done|]. split; [done|]. split.
      * intros other Ho Hne'. rewrite !found_step_index by done.
        by apply found_step_delete_other with (step_id := step_id).
      * intros Hnd. rewrite found_step_index by done.
        by rewrite step_index_delete.
  - eexists _, _. split; [reflexivity|]. split; [done|].
    simpl. by intros [? ?].
Qed.

(** ** What the time-limit sweep queues, exactly *)

Lemma time_limit_loop_exact (job_ptr : Job.t G) now steps :
  forall g, exists g',
    time_limit_loop conf cluster job_ptr now steps g = Ok tt g' /\
    Glob.agent_queue g' =
    Glob.agent_queue g ++ timelimit_requests conf cluster job_ptr now steps /\
    Glob.log g' =
    Glob.log g ++
    replicate (length (filter (fun s => timed_out s now = true) steps))
              (LOG_INFO,
               "check_job_step_time_limit: job step has timed out") /\
    Glob.last_core_inx g' = Glob.last_core_inx g /\
    Glob.last_job_update g' = Glob.last_job_update g.
Proof.
  unfold timelimit_requests.
  induction steps as [|s rest IH]; intros g; simpl.
  { exists g. rewrite !app_nil_r. done. }
  unfold timed_out at 1 2. fold (job_run_mins_of s now).
  destruct ((Step.time_limit s =? INFINITE) || (Step.time_limit s =? NO_VAL))
    eqn:Hlim; simpl.
  { rewrite filter_cons_False by (unfold timed_out; rewrite Hlim; simpl;
                                   intros [? _]; done).
    rewrite (filter_cons_False (fun s => timed_out s now = true))
      by (unfold timed_out; rewrite Hlim; done).
    apply IH. }
  unfold bind at 1.
  destruct (job_run_mins_of s now >=? Step.time_limit s) eqn:Hout.
  - unfold bind at 1, info, log_msg. rewrite signal_step_timelimit_run.
    rewrite (filter_cons_True (fun s => timed_out s now = true))
      by (unfold timed_out; rewrite Hlim, Hout; done).
    destruct (decide (timelimit_hostlist conf cluster job_ptr s = []))
      as [Hnil|Hnil].
    + rewrite filter_cons_False by (intros [_ ?]; done).
      destruct (IH (Glob.set_log
                      (Glob.log g ++
                       [(LOG_INFO,
                         "check_job_step_time_limit: job step has timed out")])
                      g))
        as (g' & Hrun & Hq & Hl & Hc & Hu).
      exists g'. split; [done|]. simpl in *. split; [done|].
      split; [by rewrite Hl, <- app_assoc|done].
    + rewrite filter_cons_True
        by (split; [unfold timed_out; rewrite Hlim, Hout; done|done]).
      edestruct IH as (g' & Hrun & Hq & Hl & Hc & Hu).
      exists g'. split; [exact Hrun|]. simpl in *.
      split; [by rewrite Hq, <- app_assoc|].
      split; [by rewrite Hl, <- app_assoc|done].
  - rewrite filter_cons_False
      by (unfold timed_out; rewrite Hlim, Hout; simpl; intros [? _]; done).
    rewrite (filter_cons_False (fun s => timed_out s now = true))
      by (unfold timed_out; rewrite Hlim, Hout; done).
    apply IH.
Qed.


(** ** Purging the registry *)

Lemma delete_step_records_loop_filter filter (steps : list (Step.t G)) :
  delete_step_records_loop filter steps =
  if filter =? 1
  then List.filter (fun s => is_Some_b (Step.switch_job s)) steps
  else [].
Proof.
  induction steps as [|s rest IH]; simpl; [by destruct (filter =? 1)|].
  rewrite IH. destruct (filter =? 1); simpl; [|done].
  by destruct (is_Some_b (Step.switch_job s)).
Qed.

(** X4. delete_step_records stamps last_job_update and empties the
    registry, except that with filter 1 the records that hold a switch
    allocation stay, unchanged and in their order. Unlike
    job_step_complete it gives nothing back: the job's resources
    (cpus_used, memory_used, core_bitmap_used) and its gres state are as
    before, also for the records it removes. *)
Theorem delete_step_records_purge now (job_ptr : Job.t G) filter g :
  exists job',
    delete_step_records now job_ptr filter g =
    Ok job' (Glob.set_last_job_update now g) /\
    (filter <> 1 -> Job.step_list job' = []) /\
    (filter = 1 ->
     Job.step_list job' =
     List.filter (fun s => is_Some_b (Step.switch_job s))
                 (Job.step_list job_ptr) /\
     forall s, s ∈ Job.step_list job' <->
               s ∈ Job.step_list job_ptr /\ is_Some (Step.switch_job s)) /\
    Job.job_resrcs job' = Job.job_resrcs job_ptr /\
    Job.gres_list job' = Job.gres_list job_ptr /\
    Job.next_step_id job' = Job.next_step_id job_ptr.
Proof.
  eexists. split; [reflexivity|]. simpl.
  rewrite delete_step_records_loop_filter.
  split; [|split; [|done]].
  - intros Hne. apply Z.eqb_neq in Hne. by rewrite Hne.
  - intros ->. simpl. split; [done|]. intros s.
    rewrite !list_elem_of_In, filter_In.
    destruct (Step.switch_job s); simpl; split; intros [? H]; split;
      try done; by inversion H.
Qed.

(** ** Step update *)

Lemma update_step_all_run time_limit (steps : list (Step.t G)) g :
  update_step_all time_limit steps g =
  Ok (map (Step.set_time_limit time_limit) steps)
     (Glob.set_log
        (Glob.log g ++
         replicate (length steps) (LOG_INFO, "Updating step time limit")) g).
Proof.
  revert g. induction steps as [|s rest IH]; intros g; simpl.
  { rewrite app_nil_r. by destruct g. }
  unfold bind at 1, info, log_msg. unfold bind. rewrite IH. simpl.
  unfold ret. f_equal. by rewrite <- app_assoc.
Qed.

(** The caller may update the steps of the job: the test at line 2997. *)
Lemma update_step_allowed (validate_operator : Z -> bool)
  (is_user_acct_coord : Z -> Job.t G -> bool) (job_ptr : Job.t G) uid :
  Job.user_id job_ptr = uid \/ validate_operator uid = true \/
  is_user_acct_coord uid job_ptr = true ->
  negb (Job.user_id job_ptr =? uid) && negb (validate_operator uid) &&
  negb (is_user_acct_coord uid job_ptr) = false.
Proof.
  intros [<-|[->| ->]].
  - by rewrite Z.eqb_refl.
  - by rewrite andb_false_r.
  - by rewrite andb_false_r.
Qed.

Lemma update_step_found (validate_operator : Z -> bool)
  (is_user_acct_coord : Z -> Job.t G -> bool) now (jobs : list (Job.t G))
  job_id step_id time_limit uid g jk job_ptr :
  find_job_record jobs job_id = Some jk -> jobs !! jk = Some job_ptr ->
  update_step validate_operator is_user_acct_coord now jobs job_id step_id
              time_limit uid g =
  (if negb (Job.user_id job_ptr =? uid) && negb (validate_operator uid) &&
      negb (is_user_acct_coord uid job_ptr) then
     error "Security violation, STEP_UPDATE RPC" ;;
     ret (ESLURM_USER_ID_MISSING, jobs)
   else if step_id =? NO_VAL then
     steps <- update_step_all time_limit (Job.step_list job_ptr) ;;
     (if negb (Z.of_nat (length (Job.step_list job_ptr)) =? 0)
      then touch_last_job_update now else ret tt) ;;
     ret (SLURM_SUCCESS, <[ jk := Job.set_step_list steps job_ptr ]> jobs)
   else
     match find_step_record (Job.step_list job_ptr) step_id with
     | Some sk =>
         step_ptr <- deref (Job.step_list job_ptr !! sk) ;;
         info "Updating step time limit" ;;
         touch_last_job_update now ;;
         ret (SLURM_SUCCESS,
              <[ jk := store_step sk
                         (Step.set_time_limit time_limit step_ptr)
                         job_ptr ]> jobs)
     | None => ret (ESLURM_INVALID_JOB_ID, jobs)
     end)%ctld g.
Proof. intros Hfind Hjob. unfold update_step. by rewrite Hfind, Hjob. Qed.

(** X5. update_step refuses an unknown job with ESLURM_INVALID_JOB_ID
    and a caller who is neither the owner, an operator nor a coordinator
    of the job's account with ESLURM_USER_ID_MISSING, the job table
    staying as it is. For a permitted caller a step id of NO_VAL sets the
    time limit of every step of the job (and stamps last_job_update only
    if the job has a step); another step id sets the limit of the first
    step with that id and of no other step, or answers
    ESLURM_INVALID_JOB_ID without a change when no step has the id. *)
Theorem update_step_time_limit validate_operator is_user_acct_coord now
  (jobs : list (Job.t G)) job_id step_id time_limit uid g :
  (find_job_record jobs job_id = None ->
   exists g',
     update_step validate_operator is_user_acct_coord now jobs job_id
                 step_id time_limit uid g =
     Ok (ESLURM_INVALID_JOB_ID, jobs) g' /\
     Glob.last_job_update g' = Glob.last_job_update g) /\
  (forall jk job_ptr,
     find_job_record jobs job_id = Some jk -> jobs !! jk = Some job_ptr ->
     (Job.user_id job_ptr <> uid -> validate_operator uid = false ->
      is_user_acct_coord uid job_ptr = false ->
      exists g',
        update_step validate_operator is_user_acct_coord now jobs job_id
                    step_id time_limit uid g =
        Ok (ESLURM_USER_ID_MISSING, jobs) g' /\
        Glob.last_job_update g' = Glob.last_job_update g) /\
     (Job.user_id job_ptr = uid \/ validate_operator uid = true \/
      is_user_acct_coord uid job_ptr = true ->
      (step_id = NO_VAL ->
       exists g',
         update_step validate_operator is_user_acct_coord now jobs job_id
                     step_id time_limit uid g =
         Ok (SLURM_SUCCESS,
             <[ jk := Job.set_step_list
                        (map (Step.set_time_limit time_limit)
                             (Job.step_list job_ptr)) job_ptr ]> jobs) g' /\
         Glob.last_job_update g' =
         if decide (Job.step_list job_ptr = []) then Glob.last_job_update g
         else now) /\
      (step_id <> NO_VAL ->
       match find_step_record (Job.step_list job_ptr) step_id with
       | None =>
           update_step validate_operator is_user_acct_coord now jobs job_id
                       step_id time_limit uid g =
           Ok (ESLURM_INVALID_JOB_ID, jobs) g
       | Some sk =>
           exists step_ptr g',
             Job.step_list job_ptr !! sk = Some step_ptr /\
             Step.step_id step_ptr = step_id /\
             update_step validate_operator is_user_acct_coord now jobs
                         job_id step_id time_limit uid g =
             Ok (SLURM_SUCCESS,
                 <[ jk := Job.set_step_list
                            (<[ sk := Step.set_time_limit time_limit
                                        step_ptr ]>
                               (Job.step_list job_ptr)) job_ptr ]> jobs) g' /\
             Glob.last_job_update g' = now
       end))).
Proof.
  split.
  - intros Hfind. unfold update_step. rewrite Hfind.
    eexists. split; [reflexivity|done].
  - intros jk job_ptr Hfind Hjob.
    pose proof (update_step_found validate_operator is_user_acct_coord now
                  jobs job_id step_id time_limit uid g jk job_ptr Hfind Hjob)
      as Heq.
    split.
    + intros Hu Hop Hco. apply Z.eqb_neq in Hu.
      rewrite Hu, Hop, Hco in Heq. eexists. split; [exact Heq|done].
    + intros Hok. rewrite update_step_allowed in Heq by done. split.
      * intros ->. rewrite Z.eqb_refl in Heq.
        unfold bind at 1 in Heq. rewrite update_step_all_run in Heq.
        destruct (Job.step_list job_ptr) as [|s rest] eqn:Hl.
        -- eexists. split; [exact Heq|done].
        -- eexists. split; [exact Heq|done].
      * intros Hne. pose proof Hne as Hne'. apply Z.eqb_neq in Hne'.
        rewrite Hne' in Heq.
        rewrite find_step_record_index in Heq |- * by done.
        destruct (step_index (Job.step_list job_ptr) step_id) as [sk|] eqn:Hk;
          [|done].
        destruct (step_index_Some _ _ _ Hk) as (s & Hs & Hid).
        exists s. rewrite Hs in Heq. eexists. split; [done|]. split; [done|].
        split; [exact Heq|done].
Qed.

Lemma filter_none {A} (P : A -> Prop) `{forall x, Decision (P x)} (l : list A) :
  (forall x, x ∈ l -> ~ P x) -> filter P l = [].
Proof.
  induction l as [|x l IH]; intros Hnone; [done|].
  rewrite filter_cons_False by (apply Hnone, list_elem_of_here).
  apply IH. intros y Hy. apply Hnone. by apply list_elem_of_further.
Qed.

(** X6. Once a permitted update_step has set the time limit of all steps
    of a job to INFINITE, the time-limit sweep of that job queues no
    request, whenever it runs. *)
Theorem update_step_lifts_time_limit validate_operator is_user_acct_coord
  now (jobs : list (Job.t G)) job_id uid g jk job_ptr rc jobs' g1 :
  find_job_record jobs job_id = Some jk -> jobs !! jk = Some job_ptr ->
  Job.user_id job_ptr = uid \/ validate_operator uid = true \/
  is_user_acct_coord uid job_ptr = true ->
  update_step validate_operator is_user_acct_coord now jobs job_id NO_VAL
              INFINITE uid g = Ok (rc, jobs') g1 ->
  rc = SLURM_SUCCESS /\
  exists job',
    jobs' !! jk = Some job' /\
    Forall (fun s => Step.time_limit s = INFINITE) (Job.step_list job') /\
    forall later g2, exists g3,
      check_job_step_time_limit conf cluster job' later g2 = Ok tt g3 /\
      Glob.agent_queue g3 = Glob.agent_queue g2.
Proof.
  intros Hfind Hjob Hok Hrun.
  rewrite (update_step_found _ _ _ _ _ _ _ _ _ _ _ Hfind Hjob) in Hrun.
  rewrite update_step_allowed in Hrun by done.
  change (NO_VAL =? NO_VAL) with true in Hrun. cbv iota in Hrun.
  unfold bind at 1 in Hrun. rewrite update_step_all_run in Hrun.
  assert (rc = SLURM_SUCCESS /\
          jobs' = <[ jk := Job.set_step_list
                             (map (Step.set_time_limit INFINITE)
                                  (Job.step_list job_ptr)) job_ptr ]> jobs)
    as [-> ->].
  { destruct (Job.step_list job_ptr); simpl in Hrun; by inv_run. }
  split; [done|]. eexists. split.
  { apply list_lookup_insert_eq. by eapply lookup_lt_Some. }
  simpl. split.
  { apply Forall_forall. intros s Hs.
    apply list_elem_of_fmap in Hs as (s0 & -> & _). done. }
  intros later g2. unfold check_job_step_time_limit.
  destruct (negb (Job.job_state _ =? JOB_RUNNING)); [by exists g2|].
  edestruct time_limit_loop_exact as (g3 & Hloop & Hq & _).
  exists g3. split; [exact Hloop|]. rewrite Hq.
  unfold timelimit_requests. simpl.
  rewrite filter_none; [by rewrite app_nil_r|].
  intros s Hs [Hout _].
  apply list_elem_of_fmap in Hs as (s0 & -> & _).
  unfold timed_out in Hout. simpl in Hout. done.
Qed.

(** ** Suspend, resume and the run time of a step *)

(** X7. Take a step that has started (a time_t start_time, not
    negative) when its job is suspended at t1 and resumed at t2, whatever
    suspend_time the job carries at the suspension (0, or the time of an
    earlier suspension or resume). suspend_job_step adds to pre_sus_time
    the time since the later of start_time and suspend_time, which is
    t1 - start_time when suspend_time is 0 or not after start_time and
    t1 - suspend_time otherwise, so that pre_sus_time becomes the run
    time the step reported at t1; resume_job_step (suspend_time being t1) adds t2 - t1
    to tot_sus_time; nothing else of the registry changes. The run time
    reported stands still while the job is suspended, and at a time t
    after the resume (suspend_time then being t2) it is the run time at
    t1 plus t - t2; the seconds the time-limit sweep counts,
    t - start_time - tot_sus_time, go down by t2 - t1. *)
Theorem suspend_resume_accounting (job_ptr : Job.t G) k step_ptr s0 t1 t2 t :
  Job.step_list job_ptr !! k = Some step_ptr ->
  0 <= Step.start_time step_ptr ->
  Step.start_time step_ptr <= t1 -> t1 <= t2 ->
  let job1 := suspend_job_step s0 t1 job_ptr in
  let job2 := resume_job_step t1 t2 job1 in
  exists step1 step2,
    Job.step_list job1 !! k = Some step1 /\
    Job.step_list job2 !! k = Some step2 /\
    Step.pre_sus_time step1 =
    Step.pre_sus_time step_ptr +
    (t1 - Z.max (Step.start_time step_ptr) s0) /\
    Step.tot_sus_time step1 = Step.tot_sus_time step_ptr /\
    Step.pre_sus_time step2 = Step.pre_sus_time step1 /\
    Step.tot_sus_time step2 = Step.tot_sus_time step_ptr + (t2 - t1) /\
    Step.step_id step2 = Step.step_id step_ptr /\
    Step.start_time step2 = Step.start_time step_ptr /\
    Step.time_limit step2 = Step.time_limit step_ptr /\
    length (Job.step_list job2) = length (Job.step_list job_ptr) /\
    Job.job_resrcs job2 = Job.job_resrcs job_ptr /\
    (forall j : Job.t G,
       IS_JOB_SUSPENDED j = false ->
       step_run_time s0 t1 j step_ptr = Step.pre_sus_time step1) /\
    (forall (j : Job.t G) s now,
       IS_JOB_SUSPENDED j = true ->
       step_run_time s now j step1 = Step.pre_sus_time step1) /\
    (forall j : Job.t G,
       IS_JOB_SUSPENDED j = false ->
       step_run_time t2 t j step2 =
       Step.pre_sus_time step_ptr +
       (t - Z.max (Step.start_time step_ptr) s0) - (t2 - t1)) /\
    t - Step.start_time step2 - Step.tot_sus_time step2 =
    t - Step.start_time step_ptr - Step.tot_sus_time step_ptr - (t2 - t1).
Proof.
  intros Hk Hstart Ht1 Ht2 job1 job2.
  exists (_suspend_job_step s0 step_ptr t1),
         (_resume_job_step t1 (_suspend_job_step s0 step_ptr t1) t2).
  assert (_suspend_job_step s0 step_ptr t1 =
          set_pre_sus_time
            (Step.pre_sus_time step_ptr +
             (t1 - Z.max (Step.start_time step_ptr) s0))
            step_ptr) as Hsus.
  { unfold _suspend_job_step.
    destruct (Z.eqb_spec s0 0) as [->|Hs0]; simpl.
    { by rewrite Z.max_l by lia. }
    destruct (Z.gtb_spec s0 (Step.start_time step_ptr)).
    - by rewrite Z.max_r by lia.
    - by rewrite Z.max_l by lia. }
  assert (_resume_job_step t1 (_suspend_job_step s0 step_ptr t1) t2 =
          set_tot_sus_time (Step.tot_sus_time step_ptr + (t2 - t1))
                           (_suspend_job_step s0 step_ptr t1)) as Hres.
  { unfold _resume_job_step. rewrite Hsus. simpl.
    destruct (Z.ltb_spec t1 (Step.start_time step_ptr)); [lia|].
    by rewrite andb_false_r. }
  subst job1 job2. unfold resume_job_step, suspend_job_step. simpl.
  rewrite !list_lookup_fmap, Hk. simpl.
  split; [done|]. split; [done|].
  rewrite Hres, Hsus. simpl.
  do 7 (split; [done|]). split; [by rewrite !length_map|].
  split; [done|]. split; [|split; [|split]].
  - intros j Hj. unfold step_run_time. rewrite Hj. by rewrite MAX_max.
  - intros j s now Hj. unfold step_run_time. by rewrite Hj.
  - intros j Hj. unfold step_run_time. rewrite Hj. simpl.
    rewrite MAX_max. lia.
  - lia.
Qed.

(** ** Node names and positions in a step *)

Lemma step_hostname_offset (b : bitstr) n :
  fold_left (fun node_offset i => if bit_test b i then node_offset + 1
                                  else node_offset) (seq 0 n) 0 =
  Z.of_nat (bit_set_count (take n b)).
Proof.
  induction n as [|n IH]; [done|].
  rewrite seq_S, fold_left_app, IH, bit_set_count_take_S. simpl.
  destruct (bit_test b n); lia.
Qed.

Lemma bit_set_count_take_le (b : bitstr) i j :
  (i <= j)%nat -> (bit_set_count (take i b) <= bit_set_count (take j b))%nat.
Proof.
  induction 1 as [|j Hle IH]; [lia|].
  rewrite bit_set_count_take_S. lia.
Qed.

Lemma bit_set_count_take_all (b : bitstr) n :
  (length b <= n)%nat -> bit_set_count (take n b) = bit_set_count b.
Proof. intros Hn. by rewrite take_ge. Qed.

Lemma bit_set_count_take_lt (b : bitstr) i :
  bit_test b i = true -> (bit_set_count (take i b) < bit_set_count b)%nat.
Proof.
  intros Hi. pose proof (bit_test_lt _ _ Hi) as Hlt.
  pose proof (bit_set_count_take_S b i) as HS. rewrite Hi in HS.
  pose proof (bit_set_count_take_le b (S i) (length b) ltac:(lia)) as Hle.
  rewrite (bit_set_count_take_all b (length b)) in Hle by lia. lia.
Qed.

(** Past the end of the range the loop adds no name. *)
Lemma step_range_loop_past nodes (step_ptr : Step.t G) first last :
  forall inx g, last <= inx ->
    step_range_loop cluster nodes step_ptr first last inx g = Ok [] g.
Proof.
  induction nodes as [|i rest IH]; intros inx g Hinx; simpl; [done|].
  destruct (negb (bit_test _ i)); [by apply IH|].
  destruct (Z.leb_spec (inx + 1) last); [lia|].
  rewrite andb_false_r. apply IH. lia.
Qed.

Lemma step_range_loop_one (step_ptr : Step.t G) i node_ptr n :
  Cluster.node_record_table cluster !! i = Some node_ptr ->
  bit_test (Step.step_node_bitmap step_ptr) i = true ->
  let pos j :=
    Z.of_nat (bit_set_count (take j (Step.step_node_bitmap step_ptr))) in
  forall a g, (a <= i < a + n)%nat ->
    step_range_loop cluster (seq a n) step_ptr (pos i) (pos i) (pos a - 1) g =
    Ok [Node.name node_ptr] g.
Proof.
  intros Hnode Hbit pos. induction n as [|n IH]; intros a g Ha; [lia|].
  simpl. assert (pos (S a) = pos a +
                 if bit_test (Step.step_node_bitmap step_ptr) a then 1 else 0)
    as HS.
  { unfold pos. rewrite bit_set_count_take_S.
    destruct (bit_test _ a); lia. }
  destruct (decide (a = i)) as [->|Hne].
  - rewrite Hbit. simpl. replace (pos i - 1 + 1) with (pos i) by lia.
    rewrite Z.geb_leb, !Z.leb_refl. simpl. rewrite Hnode.
    unfold bind, deref, ret.
    rewrite step_range_loop_past by lia. done.
  - destruct (bit_test (Step.step_node_bitmap step_ptr) a) eqn:Hba; simpl.
    + assert (pos (S a) <= pos i).
      { unfold pos. apply inj_le, bit_set_count_take_le. lia. }
      destruct (Z.geb_spec (pos a - 1 + 1) (pos i)); [lia|]. simpl.
      replace (pos a - 1 + 1) with (pos (S a) - 1) by lia.
      apply IH. lia.
    + replace (pos a - 1) with (pos (S a) - 1) by lia. apply IH. lia.
Qed.

(** X8. _step_hostname_to_inx answers -1 only for a name that
    find_node_record does not know. For the name of a node of the step
    it answers the position k of the node among the nodes of the step,
    0 <= k < number of step nodes, and _step_range_to_hostlist maps the
    range k..k back to that one name. *)
Theorem step_hostname_range_round_trip find_node_record (step_ptr : Step.t G)
  node_name :
  (find_node_record node_name = None ->
   _step_hostname_to_inx find_node_record step_ptr node_name = -1) /\
  (forall i node_ptr,
     find_node_record node_name = Some i ->
     Cluster.node_record_table cluster !! i = Some node_ptr ->
     Node.name node_ptr = node_name ->
     let k := _step_hostname_to_inx find_node_record step_ptr node_name in
     0 <= k /\
     (bit_test (Step.step_node_bitmap step_ptr) i = true ->
      k < Z.of_nat (bit_set_count (Step.step_node_bitmap step_ptr)) /\
      forall g, _step_range_to_hostlist cluster step_ptr k k g =
                Ok [node_name] g)).
Proof.
  unfold _step_hostname_to_inx. split; [by intros ->|].
  intros i node_ptr -> Hnode Hname. rewrite step_hostname_offset.
  split; [lia|]. intros Hbit. split.
  - apply inj_lt. by apply bit_set_count_take_lt.
  - intros g. unfold _step_range_to_hostlist. subst node_name.
    pose proof (step_range_loop_one step_ptr i node_ptr
                  (Cluster.node_record_count cluster) Hnode Hbit 0%nat g)
      as Hone.
    simpl in Hone. apply Hone. split; [lia|].
    apply lookup_lt_Some in Hnode. unfold Cluster.node_record_count. lia.
Qed.

(** ** Epilog completion *)

Lemma step_epilog_step_spec find_node_record i node_name (s : Step.t G) :
  find_node_record node_name = Some i ->
  (forall b, Step.exit_node_bitmap s = Some b ->
             (bit_set_count (Step.step_node_bitmap s) <= bit_size b)%nat) ->
  let r := step_epilog_step find_node_record i node_name s in
  r.1 = awaits_epilog i s /\
  awaits_epilog i r.2 = untracked_on i s /\
  untracked_on i r.2 = untracked_on i s /\
  Step.step_id r.2 = Step.step_id s /\
  Step.step_node_bitmap r.2 = Step.step_node_bitmap s /\
  Step.switch_job r.2 = Step.switch_job s /\
  (forall b, Step.exit_node_bitmap r.2 = Some b ->
             (bit_set_count (Step.step_node_bitmap r.2) <= bit_size b)%nat).
Proof.
  intros Hfind Hsize.
  unfold step_epilog_step, awaits_epilog, untracked_on, _step_hostname_to_inx.
  rewrite Hfind, step_hostname_offset.
  set (k := bit_set_count (take i (Step.step_node_bitmap s))).
  destruct (is_Some_b (Step.switch_job s)) eqn:Hsw; simpl.
  2:{ rewrite Hsw. simpl. by repeat split. }
  destruct (bit_test (Step.step_node_bitmap s) i) eqn:Hon; simpl.
  2:{ rewrite Hsw, Hon. simpl. by repeat split. }
  destruct (Step.exit_node_bitmap s) as [b|] eqn:Hb; simpl.
  2:{ rewrite Hsw, Hon, Hb. simpl. by repeat split. }
  destruct (Z.ltb_spec (Z.of_nat k) 0); [lia|]. simpl.
  rewrite Nat2Z.id.
  destruct (bit_test b k) eqn:Hbit; simpl.
  { rewrite Hsw, Hon, Hb. simpl. fold k. rewrite Hbit. by repeat split. }
  rewrite Hsw, Hon. simpl. fold k.
  assert (k < bit_size b)%nat as Hk.
  { pose proof (bit_set_count_take_lt _ _ Hon). specialize (Hsize b eq_refl).
    fold k in H0. lia. }
  rewrite bit_test_set, decide_True by done.
  rewrite bool_decide_eq_true_2 by done. simpl.
  do 6 (split; [done|]). intros b' [= <-].
  unfold bit_set, bit_size. rewrite length_insert. by apply Hsize.
Qed.

Lemma step_epilog_loop_spec find_node_record i node_name
  (steps : list (Step.t G)) :
  find_node_record node_name = Some i ->
  (forall s b, s ∈ steps -> Step.exit_node_bitmap s = Some b ->
     (bit_set_count (Step.step_node_bitmap s) <= bit_size b)%nat) ->
  forall rc,
    0 <= rc -> rc + Z.of_nat (length steps) < 2147483648 ->
    let r := step_epilog_loop find_node_record i node_name steps rc in
    r.1 = rc + Z.of_nat (length (List.filter (awaits_epilog i) steps)) /\
    length r.2 = length steps /\
    List.filter (awaits_epilog i) r.2 = List.filter (untracked_on i) r.2 /\
    length (List.filter (untracked_on i) r.2) =
    length (List.filter (untracked_on i) steps) /\
    map Step.step_id r.2 = map Step.step_id steps /\
    map Step.step_node_bitmap r.2 = map Step.step_node_bitmap steps /\
    (forall s b, s ∈ r.2 -> Step.exit_node_bitmap s = Some b ->
       (bit_set_count (Step.step_node_bitmap s) <= bit_size b)%nat).
Proof.
  intros Hfind. induction steps as [|s rest IH]; intros Hsize rc Hrc Hfit.
  { simpl. repeat split; try done; lia. }
  simpl in Hfit. simpl step_epilog_loop.
  destruct (step_epilog_step_spec find_node_record i node_name s Hfind)
    as (Hcnt & Haw & Hun & Hid & Hbm & _ & Hsz).
  { intros b. apply Hsize. apply list_elem_of_here. }
  destruct (step_epilog_step find_node_record i node_name s) as [counted s1].
  simpl in Hcnt, Haw, Hun, Hid, Hbm, Hsz.
  set (rc1 := if counted then i32 (rc + 1) else rc).
  assert (rc1 = rc + (if awaits_epilog i s then 1 else 0)) as Hrc1.
  { subst rc1. rewrite Hcnt. destruct (awaits_epilog i s); [|lia].
    apply i32_id. lia. }
  destruct (IH (fun s b Hs => Hsize s b (list_elem_of_further _ _ _ Hs)) rc1)
    as (H1 & H2 & H3 & H4 & H5 & H6 & H7).
  { rewrite Hrc1. destruct (awaits_epilog i s); lia. }
  { rewrite Hrc1. destruct (awaits_epilog i s); lia. }
  destruct (step_epilog_loop find_node_record i node_name rest rc1)
    as [rc' rest'].
  simpl in *. rewrite Haw, Hun, H3.
  split. { rewrite H1, Hrc1. destruct (awaits_epilog i s); simpl; lia. }
  split; [by rewrite H2|]. split; [done|].
  split. { destruct (untracked_on i s); simpl; by rewrite H4. }
  split; [by rewrite Hid, H5|]. split; [by rewrite Hbm, H6|].
  intros s' b Hs'. apply elem_of_cons in Hs' as [->|Hs']; [apply Hsz|].
  by apply H7.
Qed.

(** X9. step_epilog_complete answers 0 and changes nothing when the
    switch does no partial completions or the node is unknown. Else, for
    a registry whose exit bitmaps have a bit for every node of their
    step, it returns the number of steps that hold a switch allocation,
    run on the node and have not recorded its exit; it keeps the
    registry's ids and node bitmaps; and a second call for the same node
    counts only the steps that keep no exit bitmap at all: a step with
    an exit bitmap is counted once. *)
Theorem step_epilog_complete_counts switch_g_part_comp find_node_record
  (job_ptr : Job.t G) node_name :
  (switch_g_part_comp = false \/ find_node_record node_name = None ->
   step_epilog_complete switch_g_part_comp find_node_record job_ptr
                        node_name = (0, job_ptr)) /\
  (forall i,
     switch_g_part_comp = true -> find_node_record node_name = Some i ->
     Z.of_nat (length (Job.step_list job_ptr)) < 2147483648 ->
     (forall s b, s ∈ Job.step_list job_ptr ->
        Step.exit_node_bitmap s = Some b ->
        (bit_set_count (Step.step_node_bitmap s) <= bit_size b)%nat) ->
     exists job',
       step_epilog_complete switch_g_part_comp find_node_record job_ptr
                            node_name =
       (Z.of_nat (length (List.filter (awaits_epilog i)
                                      (Job.step_list job_ptr))), job') /\
       map Step.step_id (Job.step_list job') =
       map Step.step_id (Job.step_list job_ptr) /\
       map Step.step_node_bitmap (Job.step_list job') =
       map Step.step_node_bitmap (Job.step_list job_ptr) /\
       Job.job_resrcs job' = Job.job_resrcs job_ptr /\
       exists job'',
         step_epilog_complete switch_g_part_comp find_node_record job'
                              node_name =
         (Z.of_nat (length (List.filter (untracked_on i)
                                        (Job.step_list job_ptr))), job'') /\
         map Step.step_id (Job.step_list job'') =
         map Step.step_id (Job.step_list job_ptr)).
Proof.
  unfold step_epilog_complete. split.
  - intros [->| ->]; [done|]. by destruct switch_g_part_comp.
  - intros i -> Hfind Hlen Hsize. rewrite Hfind. simpl.
    destruct (step_epilog_loop_spec find_node_record i node_name
                (Job.step_list job_ptr) Hfind Hsize 0)
      as (H1 & H2 & H3 & H4 & H5 & H6 & H7); [lia|lia|].
    destruct (step_epilog_loop find_node_record i node_name
                (Job.step_list job_ptr) 0) as [rc steps1].
    simpl in *. eexists. split; [by rewrite H1|]. simpl.
    do 3 (split; [done|]).
    destruct (step_epilog_loop_spec find_node_record i node_name steps1
                Hfind H7 0) as (K1 & K2 & _ & _ & K5 & _); [lia|lia|].
    destruct (step_epilog_loop find_node_record i node_name steps1 0)
      as [rc2 steps2].
    simpl in *. eexists.
    split; [by rewrite K1, H3, H4|simpl; by rewrite K5, H5].
Qed.

(** ** What step_alloc_lps debits *)

Lemma same_nodes_refl res : same_nodes res res.
Proof. by repeat split. Qed.

Lemma same_nodes_trans r1 r2 r3 :
  same_nodes r1 r2 -> same_nodes r2 r3 -> same_nodes r1 r3.
Proof.
  intros (?&?&?&?&?&?&?) (?&?&?&?&?&?&?). repeat split; congruence.
Qed.

Lemma same_shape_refl (step : Step.t G) : same_shape step step.
Proof. by repeat split. Qed.

Lemma same_shape_trans (s1 s2 s3 : Step.t G) :
  same_shape s1 s2 -> same_shape s2 s3 -> same_shape s1 s3.
Proof.
  intros (?&?&?&?&?&?&?) (?&?&?&?&?&?&?). repeat split; congruence.
Qed.

(** The node loop of step_alloc_lps takes, at every pair of positions it
    visits, tasks[k] * cpus_per_task CPUs and the memory that goes with
    them, and leaves the counters of the other nodes alone. *)
Lemma alloc_loop_spec pick layout nodes :
  forall j k (step : Step.t G) (job : Job.t G) g step' job' g',
    -1 <= j -> -1 <= k ->
    alloc_loop conf plug pick layout nodes j k step job g =
    Ok (step', job') g' ->
    let res := Job.job_resrcs job in
    let res' := Job.job_resrcs job' in
    let pairs :=
      lps_pairs (Res.node_bitmap res) (Step.step_node_bitmap step)
                (Layout.node_cnt layout) nodes j k in
    same_nodes res res' /\ same_shape step step' /\
    (mem_on conf step = false ->
     Res.memory_used res' = Res.memory_used res) /\
    (pick = false ->
     Res.core_bitmap_used res' = Res.core_bitmap_used res /\
     Step.core_bitmap_job step' = Step.core_bitmap_job step) /\
    (forall m, (forall p, p ∈ pairs -> Z.to_nat p.1 <> m) ->
               same_at res res' m) /\
    (forall jj kk, (jj, kk) ∈ pairs ->
       0 <= jj /\ 0 <= kk /\
       exists tasks,
         Layout.tasks layout !! Z.to_nat kk = Some tasks /\
         debited_at (mem_on conf step) (Step.mem_per_cpu step) res res' jj
                    (i32 (tasks * Step.cpus_per_task step))).
Proof.
  induction nodes as [|i rest IH];
    intros j k step job g step' job' g' Hj Hk; simpl.
  - intros H. inv_run. split; [apply same_nodes_refl|].
    split; [apply same_shape_refl|]. split; [done|]. split; [done|].
    split; [done|]. intros jj kk Hin. by apply elem_of_nil in Hin.
  - destruct (negb (bit_test (Res.node_bitmap (Job.job_resrcs job)) i));
      [by apply IH|].
    destruct (negb (bit_test (Step.step_node_bitmap step) i)).
    { apply IH; lia. }
    destruct (_ >=? _); [done|]. intros H.
    apply bind_Ok in H as (tasks & g1 & Htasks & H).
    apply array_get_Ok in Htasks as (Hk1 & Htasks & ->).
    set (alloc := i32 (tasks * Step.cpus_per_task step)) in *.
    apply bind_Ok in H as (used & g2 & Hused & H).
    apply array_get_Ok in Hused as (Hj1 & Hused & ->).
    apply bind_Ok in H as (cu & g3 & Hcu & H).
    apply array_set_Ok in Hcu as (Hjlen & -> & ->).
    set (res := Job.job_resrcs job) in *.
    set (res1 := Res.set_cpus_used _ res) in *.
    destruct (Plug.gres_plugin_step_alloc plug (Step.gres_list step)
                (Job.gres_list job) (j + 1) alloc) as [step_gres job_gres].
    set (step1 := Step.set_gres_list step_gres step) in *.
    apply bind_Ok in H as (res2 & g4 & Hres2 & H).
    assert (mem_on conf step1 = mem_on conf step) as Hmem1 by done.
    assert (same_nodes res res2 /\
            Res.cpus_used res2 =
            <[ Z.to_nat (j + 1) := u16 (used + alloc) ]> (Res.cpus_used res) /\
            Res.core_bitmap_used res2 = Res.core_bitmap_used res /\
            (mem_on conf step = false ->
             Res.memory_used res2 = Res.memory_used res) /\
            (mem_on conf step = true ->
             exists a mused,
               Res.memory_used res = Some a /\
               a !! Z.to_nat (j + 1) = Some mused /\
               Res.memory_used res2 =
               Some (<[ Z.to_nat (j + 1) :=
                          u32 (mused + Step.mem_per_cpu step * alloc) ]> a)))
      as (Hn2 & Hcu2 & Hcb2 & Hoff2 & Hon2).
    { unfold mem_on, _is_mem_resv in *. simpl in Hres2.
      destruct (negb (Step.mem_per_cpu step =? 0) && Conf.cr_memory conf).
      - apply bind_Ok in Hres2 as (a & g5 & Ha & Hres2).
        apply deref_Ok in Ha as [Ha ->]. simpl in Ha.
        apply bind_Ok in Hres2 as (mused & g6 & Hm & Hres2).
        apply array_get_Ok in Hm as (_ & Hm & ->).
        apply bind_Ok in Hres2 as (mu & g7 & Hmu & Hres2).
        apply array_set_Ok in Hmu as (_ & -> & ->). inv_run.
        split.
        { repeat split; simpl; try done. by rewrite length_insert.
          by rewrite Ha. }
        split; [done|]. split; [done|]. split; [done|].
        intros _. exists a, mused. by repeat split.
      - inv_run. split.
        { repeat split; simpl; try done. by rewrite length_insert. }
        split; [done|]. split; [done|]. split; [done|]. done. }
    apply bind_Ok in H as ([step2 res3] & g5 & Hpick & H).
    assert ((exists b, step2 = Step.set_core_bitmap_job b step1) /\
            (exists u, res3 = Res.set_core_bitmap_used u res2) /\
            (pick = false -> step2 = step1 /\ res3 = res2))
      as ([b Hstep2] & [u Hres3] & Hnopick).
    { destruct pick.
      - apply pick_step_cores_frame in Hpick as [? ?]. by repeat split.
      - apply ret_Ok in Hpick as [[= <- <-] _].
        split; [exists (Step.core_bitmap_job step1); by destruct step1|].
        split; [exists (Res.core_bitmap_used res2); by destruct res2|done]. }
    assert (same_nodes res res3 /\ same_shape step step2 /\
            (mem_on conf step = false ->
             Res.memory_used res3 = Res.memory_used res) /\
            (forall m, m <> Z.to_nat (j + 1) -> same_at res res3 m) /\
            debited_at (mem_on conf step) (Step.mem_per_cpu step) res res3
                       (j + 1) alloc)
      as (Hn3 & Hsh3 & Hoff3 & Hsame3 & Hdeb3).
    { subst res3 step2. split.
      { destruct Hn2 as (?&?&?&?&?&?&?). by repeat split. }
      split; [by repeat split|]. split; [done|]. split.
      - intros m Hm. split; simpl.
        + rewrite Hcu2. by apply list_lookup_insert_ne.
        + unfold memory_used_at. simpl. destruct (mem_on conf step).
          * destruct Hon2 as (a & mu & Ha & Hmu & ->); [done|].
            rewrite Ha. by apply list_lookup_insert_ne.
          * by rewrite Hoff2.
      - split.
        + exists used. split; [done|]. simpl. rewrite Hcu2.
          apply list_lookup_insert_eq. by eapply lookup_lt_Some.
        + intros Hon. destruct (Hon2 Hon) as (a & mu & Ha & Hmu & Hr).
          exists mu. unfold memory_used_at. simpl. rewrite Hr, Ha.
          split; [done|]. apply list_lookup_insert_eq.
          by eapply lookup_lt_Some. }
    assert (pick = false ->
            Res.core_bitmap_used res3 = Res.core_bitmap_used res /\
            Step.core_bitmap_job step2 = Step.core_bitmap_job step)
      as Hcores3.
    { intros Hp. destruct (Hnopick Hp) as [-> ->]. by split. }
    subst alloc.
    destruct (u32 (k + 1) =? u32 (Layout.node_cnt layout - 1)).
    + inv_run. simpl. split; [done|]. split; [done|]. split; [done|].
      split; [done|]. split.
      * intros m Hm. apply Hsame3. intros ->.
        apply (Hm (j + 1, k + 1)); [|done]. by left.
      * intros jj kk Hin. apply elem_of_cons in Hin as [[= -> ->]|Hin].
        2:{ by apply elem_of_nil in Hin. }
        split; [done|]. split; [done|]. eauto.
    + apply IH in H as (Hn & Hsh & Hoff & Hcores & Hsame & Hpairs);
        [|lia|lia].
      simpl in Hn, Hoff, Hcores, Hsame, Hpairs.
      assert (Res.node_bitmap res3 = Res.node_bitmap res) as Hbm
        by apply Hn3.
      assert (Step.step_node_bitmap step2 = Step.step_node_bitmap step)
        as Hsb by apply Hsh3.
      assert (mem_on conf step2 = mem_on conf step) as Hmem3.
      { unfold mem_on. destruct Hsh3 as (_&_&_&->&_). done. }
      assert (Step.mem_per_cpu step2 = Step.mem_per_cpu step) as Hmpc
        by apply Hsh3.
      assert (Step.cpus_per_task step2 = Step.cpus_per_task step) as Hcpt
        by apply Hsh3.
      rewrite Hbm, Hsb in Hsame, Hpairs.
      rewrite Hmem3 in Hoff, Hpairs. rewrite Hmpc, Hcpt in Hpairs.
      set (rest_pairs := lps_pairs (Res.node_bitmap res)
             (Step.step_node_bitmap step) (Layout.node_cnt layout) rest
             (j + 1) (k + 1)) in *.
      assert (forall p, p ∈ rest_pairs -> Z.to_nat p.1 <> Z.to_nat (j + 1))
        as Hlater.
      { intros p Hp. apply lps_pairs_gt in Hp. lia. }
      split; [by eapply same_nodes_trans|].
      split; [by eapply same_shape_trans|].
      split; [intros Hm; by rewrite Hoff, Hoff3|].
      split.
      { intros Hp. destruct (Hcores Hp) as [-> ->]. by apply Hcores3. }
      split.
      * intros m Hm.
        destruct (Hsame m) as [Hc Hmem].
        { intros p Hp. apply Hm. by right. }
        destruct (Hsame3 m) as [Hc1 Hmem1'].
        { intros ->. apply (Hm (j + 1, k + 1)); [by left|done]. }
        split; congruence.
      * intros jj kk Hin. apply elem_of_cons in Hin as [[= -> ->]|Hin].
        -- split; [done|]. split; [done|]. exists tasks. split; [done|].
           destruct (Hsame (Z.to_nat (j + 1)) Hlater) as [Hc Hmem].
           destruct Hdeb3 as [(u0 & Hu & Hu') Hmemc].
           split.
           ++ exists u0. split; [done|]. congruence.
           ++ intros Hon. destruct (Hmemc Hon) as (mu & Hm0 & Hm1).
              exists mu. split; [done|]. congruence.
        -- destruct (Hpairs jj kk Hin) as (Hjj & Hkk & t & Ht & Hdeb).
           split; [done|]. split; [done|]. exists t. split; [done|].
           assert (Z.to_nat jj <> Z.to_nat (j + 1)) as Hne.
           { apply (Hlater (jj, kk) Hin). }
           destruct (Hsame3 _ Hne) as [Hc Hmem].
           destruct Hdeb as [(u0 & Hu & Hu') Hmemc].
           split.
           ++ exists u0. split; [congruence|]. done.
           ++ intros Hon. destruct (Hmemc Hon) as (mu & Hm0 & Hm1).
              exists mu. split; [congruence|]. done.
Qed.

(** ** Allocation and deallocation of a whole step *)

Lemma mem_accounted_cases (step : Step.t G) res :
  let lacking :=
    negb (Step.mem_per_cpu step =? 0) && Conf.cr_memory conf &&
    (negb (is_Some_b (Res.memory_allocated res)) ||
     negb (is_Some_b (Res.memory_used res))) in
  (lacking = true -> mem_accounted conf step res = false) /\
  (lacking = false -> mem_accounted conf step res = mem_on conf step).
Proof.
  unfold mem_accounted, mem_on.
  destruct (negb (Step.mem_per_cpu step =? 0)), (Conf.cr_memory conf),
    (is_Some_b (Res.memory_allocated res)), (is_Some_b (Res.memory_used res));
    simpl; by split.
Qed.

(** step_alloc_lps on a step with a layout and a job with nodes, in terms
    of the positions it visits. *)
Lemma step_alloc_lps_pairs (step : Step.t G) (job : Job.t G) layout g
  step' job' g' :
  step_alloc_lps conf plug step job g = Ok (step', job') g' ->
  Step.step_layout step = Some layout ->
  bit_ffs (Res.node_bitmap (Job.job_resrcs job)) <> -1 ->
  let res := Job.job_resrcs job in
  let res' := Job.job_resrcs job' in
  let mem := mem_accounted conf step res in
  same_nodes res res' /\
  Step.step_id step' = Step.step_id step /\
  Step.step_node_bitmap step' = Step.step_node_bitmap step /\
  Step.cpus_per_task step' = Step.cpus_per_task step /\
  Step.step_layout step' = Some layout /\
  mem_accounted conf step' res' = mem /\
  (mem = true -> Step.mem_per_cpu step' = Step.mem_per_cpu step) /\
  (mem = false -> Res.memory_used res' = Res.memory_used res) /\
  (forall m, (forall p, p ∈ step_pairs step res layout -> Z.to_nat p.1 <> m) ->
             same_at res res' m) /\
  (forall jj kk, (jj, kk) ∈ step_pairs step res layout ->
     0 <= jj /\ 0 <= kk /\
     exists tasks,
       Layout.tasks layout !! Z.to_nat kk = Some tasks /\
       debited_at mem (Step.mem_per_cpu step) res res' jj
                  (i32 (tasks * Step.cpus_per_task step))).
Proof.
  intros Hrun Hlayout Hne res res' mem.
  unfold step_alloc_lps in Hrun. rewrite Hlayout in Hrun. fold res in Hrun.
  apply Z.eqb_neq in Hne. fold res in Hne. rewrite Hne in Hrun.
  set (choice := if Conf.have_bg conf then (false, step) else _) in Hrun.
  assert (same_shape step choice.2) as Hsh1.
  { subst choice. destruct (Conf.have_bg conf); [apply same_shape_refl|].
    destruct (is_Some_b _); [apply same_shape_refl|].
    destruct (_ || _); [by repeat split|apply same_shape_refl]. }
  destruct choice as [pick step1]. simpl in Hsh1.
  apply bind_Ok in Hrun as (step2 & g2 & Hstep2 & Hrun).
  pose proof (mem_accounted_cases step res) as [Hlack Hnolack].
  fold mem in Hlack, Hnolack.
  assert (Step.mem_per_cpu step1 = Step.mem_per_cpu step) as Hmpc1
    by apply Hsh1.
  rewrite Hmpc1 in Hstep2. unfold _is_mem_resv in Hstep2.
  assert (Step.step_id step2 = Step.step_id step /\
          Step.step_node_bitmap step2 = Step.step_node_bitmap step /\
          Step.cpus_per_task step2 = Step.cpus_per_task step /\
          Step.step_layout step2 = Some layout /\
          mem_on conf step2 = mem /\
          (mem = true -> Step.mem_per_cpu step2 = Step.mem_per_cpu step))
    as (Hid2 & Hbm2 & Hcpt2 & Hlay2 & Hmem2 & Hmpc2).
  { destruct Hsh1 as (E1 & E2 & E3 & E4 & E5 & _).
    destruct (negb (Step.mem_per_cpu step =? 0) && Conf.cr_memory conf &&
              _) eqn:Hl.
    - apply bind_Ok in Hstep2 as (? & g3 & _ & Hstep2). inv_run. simpl.
      rewrite (Hlack eq_refl). unfold mem_on. simpl.
      repeat split; try done; congruence.
    - inv_run. rewrite (Hnolack eq_refl). unfold mem_on. rewrite E4.
      repeat split; try done; congruence. }
  apply alloc_loop_spec in Hrun
    as (Hn & Hsh & Hoff & _ & Hsame & Hpairs); [|lia|lia].
  fold res res' in Hn, Hoff, Hsame, Hpairs.
  rewrite Hbm2 in Hsame, Hpairs. rewrite Hmem2 in Hoff, Hpairs.
  rewrite Hcpt2 in Hpairs. fold (step_pairs step res layout) in Hsame, Hpairs.
  destruct Hsh as (F1 & F2 & F3 & F4 & F5 & _).
  split; [done|]. split; [congruence|]. split; [congruence|].
  split; [congruence|]. split; [congruence|]. split.
  { unfold mem_accounted, mem_on. rewrite F4. fold (mem_on conf step2).
    rewrite Hmem2. destruct Hn as (_ & _ & _ & -> & _ & _ & ->).
    subst mem. unfold mem_accounted.
    destruct (mem_on conf step); simpl; [|done].
    by destruct (is_Some_b (Res.memory_allocated res)),
                (is_Some_b (Res.memory_used res)). }
  split; [intros Hm; rewrite F4; by apply Hmpc2|].
  split; [by intros ->; apply Hoff|]. split; [done|].
  intros jj kk Hin. destruct (Hpairs jj kk Hin) as (? & ? & t & Ht & Hdeb).
  split; [done|]. split; [done|]. exists t. split; [done|].
  destruct Hdeb as [Hc Hm]. split; [done|]. intros Hon.
  rewrite <- (Hmpc2 Hon). by apply Hm.
Qed.

(** _step_dealloc_lps on a step with a layout and a job with nodes, in
    terms of the positions it visits. *)
Lemma step_dealloc_lps_pairs (step : Step.t G) (job : Job.t G) layout g
  step' job' g' :
  _step_dealloc_lps conf step job g = Ok (step', job') g' ->
  Step.step_layout step = Some layout ->
  bit_ffs (Res.node_bitmap (Job.job_resrcs job)) <> -1 ->
  let res := Job.job_resrcs job in
  let res' := Job.job_resrcs job' in
  let mem := mem_accounted conf step res in
  same_nodes res res' /\
  (mem = false -> Res.memory_used res' = Res.memory_used res) /\
  Res.core_bitmap_used res' =
  (if Conf.have_bg conf then Res.core_bitmap_used res
   else match Step.core_bitmap_job step with
        | Some b => bit_and (Res.core_bitmap_used res) (bit_not b)
        | None => Res.core_bitmap_used res
        end) /\
  (Conf.have_bg conf = false -> Step.core_bitmap_job step' = None) /\
  (forall m, (forall p, p ∈ step_pairs step res layout -> Z.to_nat p.1 <> m) ->
             same_at res res' m) /\
  (forall jj kk, (jj, kk) ∈ step_pairs step res layout ->
     0 <= jj /\ 0 <= kk /\
     exists tasks,
       Layout.tasks layout !! Z.to_nat kk = Some tasks /\
       given_back_at mem (Step.mem_per_cpu step) res res' jj
                     (i32 (tasks * Step.cpus_per_task step))).
Proof.
  intros Hrun Hlayout Hne res res' mem.
  unfold _step_dealloc_lps in Hrun. rewrite Hlayout in Hrun. fold res in Hrun.
  apply Z.eqb_neq in Hne. fold res in Hne. rewrite Hne in Hrun.
  apply bind_Ok in Hrun as (step2 & g2 & Hstep2 & Hrun).
  pose proof (mem_accounted_cases step res) as [Hlack Hnolack].
  fold mem in Hlack, Hnolack. unfold _is_mem_resv in Hstep2.
  assert (Step.step_node_bitmap step2 = Step.step_node_bitmap step /\
          Step.cpus_per_task step2 = Step.cpus_per_task step /\
          Step.core_bitmap_job step2 = Step.core_bitmap_job step /\
          mem_on conf step2 = mem /\
          (mem = true -> Step.mem_per_cpu step2 = Step.mem_per_cpu step))
    as (Hbm2 & Hcpt2 & Hcb2 & Hmem2 & Hmpc2).
  { destruct (negb (Step.mem_per_cpu step =? 0) && Conf.cr_memory conf &&
              _) eqn:Hl.
    - apply bind_Ok in Hstep2 as (? & g3 & _ & Hstep2). inv_run. simpl.
      rewrite (Hlack eq_refl). unfold mem_on. simpl. by repeat split.
    - inv_run. rewrite (Hnolack eq_refl). by repeat split. }
  apply bind_Ok in Hrun as (res1 & g3 & Hloop & Hrun).
  apply dealloc_loop_spec in Hloop
    as (Hlay & _ & Hoff & Hsame & Hpairs); [|lia|lia].
  rewrite Hbm2 in Hsame, Hpairs. rewrite Hmem2 in Hoff.
  fold (step_pairs step res layout) in Hsame, Hpairs.
  assert (Res.cpus_used res' = Res.cpus_used res1 /\
          Res.memory_used res' = Res.memory_used res1 /\
          same_nodes res1 res' /\
          Res.core_bitmap_used res' =
          (if Conf.have_bg conf then Res.core_bitmap_used res
           else match Step.core_bitmap_job step with
                | Some b => bit_and (Res.core_bitmap_used res) (bit_not b)
                | None => Res.core_bitmap_used res
                end) /\
          (Conf.have_bg conf = false -> Step.core_bitmap_job step' = None))
    as (Hcu & Hmu & Hn1 & Hcores & Hfreed).
  { subst res'. destruct Hlay as (_ & _ & _ & _ & _ & Hused & _).
    rewrite Hcb2 in Hrun. destruct (Conf.have_bg conf).
    - inv_run. simpl. repeat split; try done.
    - destruct (Step.core_bitmap_job step) as [b|] eqn:Hb; inv_run; simpl;
        rewrite ?Hused; repeat split; try done. }
  split.
  { eapply same_nodes_trans; [|exact Hn1].
    destruct Hlay as (?&?&?&?&?&?&?&?). by repeat split. }
  split; [intros Hm; by rewrite Hmu, Hoff|]. split; [done|].
  split; [done|]. split.
  - intros m Hm. destruct (Hsame m Hm) as [Hc Hmm]. split; [congruence|].
    unfold memory_used_at in *. by rewrite Hmu.
  - intros jj kk Hin. destruct (Hpairs jj kk Hin) as (? & ? & t & Ht & Hcr).
    split; [done|]. split; [done|]. exists t. split; [done|].
    rewrite Hcpt2 in Hcr. destruct Hcr as [(used & Hu & Hu' & _) Hm].
    split.
    + exists used. split; [done|]. by rewrite Hcu.
    + intros Hon. rewrite Hmem2 in Hm.
      destruct (Hm Hon) as (mu & Hm0 & Hm1 & _).
      exists mu. split; [done|]. rewrite <- (Hmpc2 Hon).
      unfold memory_used_at in *. by rewrite Hmu.
Qed.

(** ** Debits and credits node by node *)

Lemma step_pairs_closed (step : Step.t G) res layout jj kk :
  1 <= Layout.node_cnt layout < 4294967296 ->
  (jj, kk) ∈ step_pairs step res layout <->
  exists i, step_node res step layout i /\
            jj = job_pos (Res.node_bitmap res) i /\
            kk = step_pos (Res.node_bitmap res) (Step.step_node_bitmap step) i.
Proof.
  intros Hcnt. unfold step_pairs, step_node.
  set (jb := Res.node_bitmap res). set (sb := Step.step_node_bitmap step).
  destruct (range_incl_covers jb) as (Hrange & Hcover & Hbelow).
  rewrite Hrange.
  set (a := Z.to_nat (bit_ffs jb)) in *.
  set (n := Z.to_nat (bit_fls jb + 1 - bit_ffs jb)) in *.
  assert (job_pos jb a = 0) as Hja.
  { unfold job_pos. by rewrite bit_set_count_clear. }
  assert (step_pos jb sb a = 0) as Hsa.
  { unfold step_pos. rewrite bit_set_count_clear; [done|].
    intros i Hi. by rewrite bit_test_and, Hbelow. }
  pose proof (lps_pairs_closed jb sb (Layout.node_cnt layout) n a jj kk) as Hc.
  rewrite Hja, Hsa in Hc. simpl in Hc. rewrite Hc by lia. split.
  - intros (i & _ & ? & ? & -> & -> & ?). exists i. done.
  - intros (i & (Hb & ? & ?) & -> & ->). exists i.
    split; [by apply Hcover|done].
Qed.

Lemma step_pairs_ext (step step' : Step.t G) res res' layout :
  Res.node_bitmap res' = Res.node_bitmap res ->
  Step.step_node_bitmap step' = Step.step_node_bitmap step ->
  step_pairs step' res' layout = step_pairs step res layout.
Proof. intros Hr Hs. unfold step_pairs. by rewrite Hr, Hs. Qed.

(** X10. step_alloc_lps, for a step with a layout of node_cnt >= 1 nodes
    whose products tasks[k] * cpus_per_task fit an int: at every node of
    the step, with position n in the job and k in the step, cpus_used[n]
    grows by tasks[k] * cpus_per_task (as a uint16_t) and, when memory is
    accounted for the step, memory_used[n] grows by mem_per_cpu times
    that (as a uint32_t); the counters of all other nodes are untouched,
    and the step keeps its id, nodes and layout. *)
Theorem step_alloc_lps_debits (step : Step.t G) (job : Job.t G) layout g
  step1 job1 g1 :
  step_alloc_lps conf plug step job g = Ok (step1, job1) g1 ->
  Step.step_layout step = Some layout ->
  let res := Job.job_resrcs job in
  let res1 := Job.job_resrcs job1 in
  let jb := Res.node_bitmap res in
  let sb := Step.step_node_bitmap step in
  Forall (fun t => -2147483648 <= t * Step.cpus_per_task step < 2147483648)
         (Layout.tasks layout) ->
  1 <= Layout.node_cnt layout < 4294967296 ->
  (forall i, step_node res step layout i ->
     exists tasks used,
       Layout.tasks layout !! Z.to_nat (step_pos jb sb i) = Some tasks /\
       Res.cpus_used res !! Z.to_nat (job_pos jb i) = Some used /\
       Res.cpus_used res1 !! Z.to_nat (job_pos jb i) =
       Some (u16 (used + tasks * Step.cpus_per_task step)) /\
       (mem_accounted conf step res = true ->
        exists mem_used,
          memory_used_at res (Z.to_nat (job_pos jb i)) = Some mem_used /\
          memory_used_at res1 (Z.to_nat (job_pos jb i)) =
          Some (u32 (mem_used +
                     Step.mem_per_cpu step *
                     (tasks * Step.cpus_per_task step))))) /\
  (forall m, (forall i, step_node res step layout i ->
                        Z.to_nat (job_pos jb i) <> m) ->
             same_at res res1 m) /\
  Step.step_id step1 = Step.step_id step /\
  Step.step_node_bitmap step1 = Step.step_node_bitmap step /\
  Step.step_layout step1 = Some layout /\
  Job.step_list job1 = Job.step_list job.
Proof.
  intros Hrun Hlayout res res1 jb sb Htasks Hcnt.
  pose proof (step_alloc_lps_frame _ _ _ _ _ _ Hrun) as (_ & Hlist & _).
  destruct (Z.eq_dec (bit_ffs jb) (-1)) as [Hempty|Hne].
  { unfold step_alloc_lps in Hrun. rewrite Hlayout in Hrun.
    fold res jb in Hrun. rewrite Hempty in Hrun. simpl in Hrun. inv_run.
    assert (forall i, bit_test jb i = false) as Hnone.
    { unfold bit_ffs in Hempty.
      destruct (bit_ffs_from_spec 0 jb) as [[_ ?]|(d & Hd & _)]; [done|lia]. }
    split. { intros i (Hi & _). fold jb in Hi. by rewrite Hnone in Hi. }
    by repeat split. }
  apply step_alloc_lps_pairs with (layout := layout) in Hrun
    as (_ & Hid & Hbm & _ & Hlay & _ & _ & _ & Hsame & Hpairs);
    [|done|done].
  fold res res1 in Hsame, Hpairs.
  split; [|split; [|by repeat split]].
  - intros i Hnode.
    destruct (Hpairs (job_pos jb i) (step_pos jb sb i))
      as (_ & _ & tasks & Ht & (used & Hu & Hu') & Hmem).
    { apply step_pairs_closed; [done|]. eauto. }
    assert (-2147483648 <= tasks * Step.cpus_per_task step < 2147483648)
      as Hfit.
    { rewrite Forall_forall in Htasks. apply Htasks.
      by eapply list_elem_of_lookup_2. }
    rewrite i32_id in Hu', Hmem by done.
    exists tasks, used. by repeat split.
  - intros m Hm. apply Hsame. intros [jj kk] Hp. simpl.
    apply step_pairs_closed in Hp as (i & Hnode & -> & ->); [|done].
    by apply Hm.
Qed.

(** Allocation and deallocation cancel on the counters, for any record
    of the step with the nodes, layout, CPUs per task and memory per CPU
    of the one step_alloc_lps returned, and any record of the job with the
    resources it left. *)
Lemma alloc_dealloc_restores (step : Step.t G) (job : Job.t G)
  layout g step1 job1 g1 stepX jobX gX step2 job2 g2 :
  step_alloc_lps conf plug step job g = Ok (step1, job1) g1 ->
  same_shape step1 stepX ->
  Job.job_resrcs jobX = Job.job_resrcs job1 ->
  _step_dealloc_lps conf stepX jobX gX = Ok (step2, job2) g2 ->
  Step.step_layout step = Some layout ->
  let res := Job.job_resrcs job in
  let jb := Res.node_bitmap res in
  let sb := Step.step_node_bitmap step in
  1 <= Layout.node_cnt layout < 4294967296 ->
  0 <= Step.cpus_per_task step ->
  (mem_accounted conf step res = true -> 0 <= Step.mem_per_cpu step) ->
  Forall (fun t => 0 <= t) (Layout.tasks layout) ->
  (forall i tasks used,
     step_node res step layout i ->
     Layout.tasks layout !! Z.to_nat (step_pos jb sb i) = Some tasks ->
     Res.cpus_used res !! Z.to_nat (job_pos jb i) = Some used ->
     0 <= used /\ used + tasks * Step.cpus_per_task step < 65536) ->
  (forall i tasks mem_used,
     mem_accounted conf step res = true ->
     step_node res step layout i ->
     Layout.tasks layout !! Z.to_nat (step_pos jb sb i) = Some tasks ->
     memory_used_at res (Z.to_nat (job_pos jb i)) = Some mem_used ->
     0 <= mem_used /\
     mem_used + Step.mem_per_cpu step * (tasks * Step.cpus_per_task step) <
     4294967296) ->
  Res.cpus_used (Job.job_resrcs job2) = Res.cpus_used res /\
  Res.memory_used (Job.job_resrcs job2) = Res.memory_used res.
Proof.
  intros Halloc (_ & HbmX & HcptX & HmpcX & HlayX & _) HresX Hdealloc Hlayout
         res jb sb Hcnt Hcpt Hmpc Htasks Hcpus Hmems.
  split.
  all: destruct (Z.eq_dec (bit_ffs jb) (-1)) as [Hempty|Hne].
  1,3: unfold step_alloc_lps in Halloc; rewrite Hlayout in Halloc;
       fold res jb in Halloc; rewrite Hempty in Halloc; simpl in Halloc;
       apply ret_Ok in Halloc as [[= <- <-] _];
       unfold _step_dealloc_lps in Hdealloc;
       rewrite HlayX, Hlayout, HresX in Hdealloc;
       fold res jb in Hdealloc; rewrite Hempty in Hdealloc;
       simpl in Hdealloc; apply ret_Ok in Hdealloc as [[= _ <-] _];
       by rewrite HresX.
  all: apply step_alloc_lps_pairs with (layout := layout) in Halloc
         as (Hn1 & _ & Hbm1 & Hcpt1 & Hlay1 & Hmem1 & Hmpc1 & Hoff1 & Hsame1
             & Hdeb); [|done|done];
       fold res in Hn1, Hmem1, Hmpc1, Hoff1, Hsame1, Hdeb;
       assert (Res.node_bitmap (Job.job_resrcs job1) = jb) as Hjb1
         by apply Hn1;
       assert (mem_accounted conf stepX (Job.job_resrcs job1) =
               mem_accounted conf step1 (Job.job_resrcs job1)) as HmX
         by (unfold mem_accounted, mem_on; by rewrite HmpcX);
       apply step_dealloc_lps_pairs with (layout := layout) in Hdealloc
         as (Hn2 & Hoff2 & _ & _ & Hsame2 & Hback);
         [|by rewrite HlayX|by rewrite HresX, Hjb1];
       rewrite HresX in Hn2, Hoff2, Hsame2, Hback;
       rewrite HmX in Hoff2, Hback; rewrite HmpcX, HcptX in Hback;
       rewrite (step_pairs_ext step stepX res _ layout Hjb1
                  (eq_trans HbmX Hbm1)) in Hsame2, Hback;
       rewrite Hmem1 in Hoff2, Hback; rewrite Hcpt1 in Hback.
  - apply list_eq. intros m.
    destruct (decide (Exists (fun p : Z * Z => Z.to_nat p.1 = m)
                             (step_pairs step res layout))) as [Hex|Hnex].
    + apply Exists_exists in Hex as ([jj kk] & Hin & <-). simpl.
      destruct (Hdeb jj kk Hin) as (_ & _ & t & Ht & (used & Hu & Hu1) & _).
      destruct (Hback jj kk Hin) as (_ & _ & t' & Ht' & (u1 & Hv & Hv2) & _).
      assert (t' = t) as -> by congruence.
      apply step_pairs_closed in Hin as (i & Hnode & -> & ->); [|done].
      destruct (Hcpus i t used Hnode Ht Hu) as [Hu0 Hfit].
      assert (0 <= t) as Ht0.
      { rewrite Forall_forall in Htasks. apply Htasks.
        by eapply list_elem_of_lookup_2. }
      rewrite i32_id in Hu1, Hv2 by nia.
      rewrite Hu1 in Hv. inversion Hv; subst u1.
      rewrite Hv2, Hu. rewrite (u16_id (used + _)) by nia.
      destruct (Z.geb_spec (used + t * Step.cpus_per_task step)
                           (t * Step.cpus_per_task step)); [|lia].
      f_equal. rewrite u16_id by nia. lia.
    + destruct (Hsame1 m) as [Hc1 _].
      { intros p Hp Heq. apply Hnex, Exists_exists. eauto. }
      destruct (Hsame2 m) as [Hc2 _].
      { intros p Hp Heq. apply Hnex, Exists_exists. eauto. }
      congruence.
  - destruct (mem_accounted conf step res) eqn:Hmem.
    2:{ by rewrite Hoff2, Hoff1. }
    specialize (Hmpc eq_refl).
    assert (forall m, memory_used_at (Job.job_resrcs job2) m =
                      memory_used_at res m) as Hpoint.
    { intros m.
      destruct (decide (Exists (fun p : Z * Z => Z.to_nat p.1 = m)
                               (step_pairs step res layout))) as [Hex|Hnex].
      - apply Exists_exists in Hex as ([jj kk] & Hin & <-). simpl.
        destruct (Hdeb jj kk Hin) as (_ & _ & t & Ht & (used & Hu & _) & Hd).
        destruct (Hback jj kk Hin) as (_ & _ & t' & Ht' & _ & Hb).
        assert (t' = t) as -> by congruence.
        destruct (Hd eq_refl) as (mu & Hm0 & Hm1).
        destruct (Hb eq_refl) as (mu1 & Hm1' & Hm2).
        rewrite (Hmpc1 eq_refl) in Hm2.
        apply step_pairs_closed in Hin as (i & Hnode & -> & ->); [|done].
        destruct (Hmems i t mu eq_refl Hnode Ht Hm0) as [Hmu0 Hfit].
        destruct (Hcpus i t used Hnode Ht Hu) as [Hu0 Hfitc].
        assert (0 <= t) as Ht0.
        { rewrite Forall_forall in Htasks. apply Htasks.
          by eapply list_elem_of_lookup_2. }
        rewrite i32_id in Hm1, Hm2 by nia.
        rewrite Hm1 in Hm1'. inversion Hm1'; subst mu1.
        rewrite Hm2, Hm0. f_equal. unfold credit.
        rewrite (u32_id (mu + _)) by nia.
        rewrite u32_id by nia.
        destruct (Z.geb_spec
                    (mu + Step.mem_per_cpu step *
                          (t * Step.cpus_per_task step))
                    (Step.mem_per_cpu step * (t * Step.cpus_per_task step)));
          lia.
      - destruct (Hsame1 m) as [_ Hc1].
        { intros p Hp Heq. apply Hnex, Exists_exists. eauto. }
        destruct (Hsame2 m) as [_ Hc2].
        { intros p Hp Heq. apply Hnex, Exists_exists. eauto. }
        congruence. }
    unfold memory_used_at in Hpoint.
    destruct (Res.memory_used (Job.job_resrcs job2)) as [a2|] eqn:E2,
             (Res.memory_used res) as [a0|] eqn:E0.
    + f_equal. apply list_eq. apply Hpoint.
    + exfalso. unfold mem_accounted in Hmem. rewrite E0 in Hmem.
      simpl in Hmem. by rewrite andb_false_r in Hmem.
    + exfalso. destruct Hn1 as (_&_&_&_&_&_&K1).
      destruct Hn2 as (_&_&_&_&_&_&K2). fold res in K1.
      rewrite E2, K1, E0 in K2. done.
    + done.
Qed.


(** X11. Allocation and deallocation cancel on the counters: when
    step_alloc_lps has debited a step and _step_dealloc_lps then credits
    it, cpus_used[] and memory_used[] of the job are what they were
    before the allocation, provided the debits fitted the counters (no
    cpus_used[n] + tasks * cpus_per_task beyond a uint16_t, no
    memory_used[n] + mem_per_cpu * tasks * cpus_per_task beyond a
    uint32_t, at the nodes of the step). *)
Theorem step_alloc_dealloc_round_trip (step : Step.t G) (job : Job.t G)
  layout g step1 job1 g1 step2 job2 g2 :
  step_alloc_lps conf plug step job g = Ok (step1, job1) g1 ->
  _step_dealloc_lps conf step1 job1 g1 = Ok (step2, job2) g2 ->
  Step.step_layout step = Some layout ->
  let res := Job.job_resrcs job in
  let jb := Res.node_bitmap res in
  let sb := Step.step_node_bitmap step in
  1 <= Layout.node_cnt layout < 4294967296 ->
  0 <= Step.cpus_per_task step -> 0 <= Step.mem_per_cpu step ->
  Forall (fun t => 0 <= t) (Layout.tasks layout) ->
  (forall i tasks used,
     step_node res step layout i ->
     Layout.tasks layout !! Z.to_nat (step_pos jb sb i) = Some tasks ->
     Res.cpus_used res !! Z.to_nat (job_pos jb i) = Some used ->
     0 <= used /\ used + tasks * Step.cpus_per_task step < 65536) ->
  (forall i tasks mem_used,
     step_node res step layout i ->
     Layout.tasks layout !! Z.to_nat (step_pos jb sb i) = Some tasks ->
     memory_used_at res (Z.to_nat (job_pos jb i)) = Some mem_used ->
     0 <= mem_used /\
     mem_used + Step.mem_per_cpu step * (tasks * Step.cpus_per_task step) <
     4294967296) ->
  Res.cpus_used (Job.job_resrcs job2) = Res.cpus_used res /\
  Res.memory_used (Job.job_resrcs job2) = Res.memory_used res /\
  Job.step_list job2 = Job.step_list job.
Proof.
  intros Halloc Hdealloc Hlayout res jb sb Hcnt Hcpt Hmpc Htasks Hcpus Hmems.
  pose proof (step_alloc_lps_frame _ _ _ _ _ _ Halloc) as (_ & Hlist1 & _).
  pose proof (step_dealloc_lps_frame _ _ _ _ _ _ Hdealloc) as (Hlist2 & _).
  destruct (alloc_dealloc_restores step job layout g step1 job1 g1 step1 job1
              g1 step2 job2 g2 Halloc (same_shape_refl step1) eq_refl
              Hdealloc Hlayout Hcnt Hcpt (fun _ => Hmpc) Htasks Hcpus
              (fun i tasks mem_used _ => Hmems i tasks mem_used))
    as [Hc Hm].
  split; [exact Hc|]. split; [exact Hm|congruence].
Qed.
(** ** Cores at the release of a step *)

Lemma bit_test_not b o :
  (o < length b)%nat -> bit_test (bit_not b) o = negb (bit_test b o).
Proof.
  intros Ho. unfold bit_test, bit_not.
  rewrite list_lookup_fmap.
  destruct (b !! o) eqn:E; [done|].
  apply lookup_ge_None in E. lia.
Qed.

Lemma bit_test_and_not u b o :
  length u = length b ->
  bit_test (bit_and u (bit_not b)) o = bit_test u o && negb (bit_test b o).
Proof.
  intros Hlen. rewrite bit_test_and.
  destruct (decide (o < length b)%nat) as [Ho|Ho].
  - by rewrite bit_test_not.
  - assert (bit_test u o = false) as ->; [|done].
    unfold bit_test. rewrite lookup_ge_None_2; [done|lia].
Qed.

(** A step that is not exclusive, or that uses all CPUs of the job, gets
    the whole core bitmap of the job, and no core is marked as used. *)
Lemma step_alloc_lps_shared (step : Step.t G) (job : Job.t G) layout g
  step1 job1 g1 :
  step_alloc_lps conf plug step job g = Ok (step1, job1) g1 ->
  Step.step_layout step = Some layout ->
  bit_ffs (Res.node_bitmap (Job.job_resrcs job)) <> -1 ->
  Conf.have_bg conf = false ->
  Step.core_bitmap_job step = None ->
  Step.exclusive step = 0 \/ Step.cpu_count step = Job.total_cpus job ->
  Res.core_bitmap_used (Job.job_resrcs job1) =
  Res.core_bitmap_used (Job.job_resrcs job) /\
  Step.core_bitmap_job step1 = Some (Res.core_bitmap (Job.job_resrcs job)).
Proof.
  intros Hrun Hlayout Hne Hbg Hcb Hshared.
  unfold step_alloc_lps in Hrun. rewrite Hlayout, Hbg, Hcb in Hrun.
  apply Z.eqb_neq in Hne. rewrite Hne in Hrun. simpl in Hrun.
  assert ((Step.exclusive step =? 0) ||
          (Step.cpu_count step =? Job.total_cpus job) = true) as Hsh.
  { destruct Hshared as [-> | ->]; [done|].
    rewrite Z.eqb_refl. apply orb_true_r. }
  rewrite Hsh in Hrun.
  apply bind_Ok in Hrun as (step2 & g2 & Hstep2 & Hrun).
  assert (Step.core_bitmap_job step2 =
          Some (Res.core_bitmap (Job.job_resrcs job))) as Hcb2.
  { destruct (_ && _ && _).
    - apply bind_Ok in Hstep2 as (? & g3 & _ & Hstep2). by inv_run.
    - by inv_run. }
  apply alloc_loop_spec in Hrun as (_ & _ & _ & Hcores & _); [|lia|lia].
  destruct (Hcores eq_refl) as [-> ->]. done.
Qed.

(** X12. When a step that is not exclusive (or that uses all CPUs of the
    job) is allocated and later released on a system that is not
    BlueGene, the allocation marks no core as used, but the release
    clears in core_bitmap_used every core of the job's core_bitmap: also
    the cores that other, exclusive steps of the job still hold. The
    step's own core bitmap is freed. *)
Theorem shared_step_release_clears_cores (step : Step.t G) (job : Job.t G)
  layout g step1 job1 g1 step2 job2 g2 :
  step_alloc_lps conf plug step job g = Ok (step1, job1) g1 ->
  _step_dealloc_lps conf step1 job1 g1 = Ok (step2, job2) g2 ->
  Step.step_layout step = Some layout ->
  let res := Job.job_resrcs job in
  bit_ffs (Res.node_bitmap res) <> -1 ->
  Conf.have_bg conf = false ->
  Step.core_bitmap_job step = None ->
  Step.exclusive step = 0 \/ Step.cpu_count step = Job.total_cpus job ->
  bit_size (Res.core_bitmap_used res) = bit_size (Res.core_bitmap res) ->
  Res.core_bitmap_used (Job.job_resrcs job1) = Res.core_bitmap_used res /\
  Step.core_bitmap_job step1 = Some (Res.core_bitmap res) /\
  Step.core_bitmap_job step2 = None /\
  (forall o, bit_test (Res.core_bitmap_used (Job.job_resrcs job2)) o =
             bit_test (Res.core_bitmap_used res) o &&
             negb (bit_test (Res.core_bitmap res) o)) /\
  (forall o, bit_test (Res.core_bitmap res) o = true ->
             bit_test (Res.core_bitmap_used (Job.job_resrcs job2)) o = false).
Proof.
  intros Halloc Hdealloc Hlayout res Hne Hbg Hcb Hshared Hsize.
  destruct (step_alloc_lps_shared _ _ _ _ _ _ _ Halloc Hlayout Hne Hbg Hcb
              Hshared) as [Hused1 Hcb1].
  fold res in Hused1, Hcb1.
  apply step_alloc_lps_pairs with (layout := layout) in Halloc
    as (Hn1 & _ & _ & _ & Hlay1 & _); [|done|done].
  fold res in Hn1.
  apply step_dealloc_lps_pairs with (layout := layout) in Hdealloc
    as (_ & _ & Hused2 & Hfreed & _); [|done|].
  2:{ destruct Hn1 as (-> & _). done. }
  rewrite Hbg, Hcb1, Hused1 in Hused2.
  split; [done|]. split; [done|]. split; [by apply Hfreed|].
  assert (forall o, bit_test (Res.core_bitmap_used (Job.job_resrcs job2)) o =
                    bit_test (Res.core_bitmap_used res) o &&
                    negb (bit_test (Res.core_bitmap res) o)) as Hbits.
  { intros o. rewrite Hused2. by apply bit_test_and_not. }
  split; [done|]. intros o Ho. rewrite Hbits, Ho. apply andb_false_r.
Qed.

(** ** The node picker stays inside the job *)

Lemma bit_subset_refl a : bit_subset a a.
Proof. by intros i. Qed.

Lemma bit_subset_trans a b c :
  bit_subset a b -> bit_subset b c -> bit_subset a c.
Proof. intros H1 H2 i Hi. by apply H2, H1. Qed.

Lemma bit_subset_alloc n a : bit_subset (bit_alloc n) a.
Proof. intros i. by rewrite bit_test_alloc. Qed.

Lemma bit_subset_and_l a b : bit_subset (bit_and a b) a.
Proof. intros i. rewrite bit_test_and. by intros [? _]%andb_prop. Qed.

Lemma bit_subset_and_r a b : bit_subset (bit_and a b) b.
Proof. intros i. rewrite bit_test_and. by intros [_ ?]%andb_prop. Qed.

Lemma bit_test_or a b i :
  bit_test (bit_or a b) i = true ->
  bit_test a i = true \/ bit_test b i = true.
Proof.
  unfold bit_test, bit_or. rewrite lookup_zip_with.
  destruct (a !! i) as [x|]; simpl; [|done].
  destruct (b !! i) as [y|]; simpl; [|done].
  by intros [?|?]%orb_prop; [left|right].
Qed.

Lemma bit_subset_or a b c :
  bit_subset a c -> bit_subset b c -> bit_subset (bit_or a b) c.
Proof. intros Ha Hb i [?|?]%bit_test_or; [by apply Ha|by apply Hb]. Qed.

Lemma bit_subset_clear a i : bit_subset (bit_clear a i) a.
Proof.
  intros j. rewrite bit_test_clear. by destruct (decide (i = j)).
Qed.

Lemma bit_super_set_subset a b :
  bit_super_set a b = true -> bit_subset a b.
Proof.
  revert b. induction a as [|x a IH]; intros b Hs i Hi.
  { by rewrite bit_test_nil in Hi. }
  destruct b as [|y b]; simpl in Hs; apply andb_prop in Hs as [Hx Hs].
  - destruct i as [|i]; unfold bit_test in Hi; simpl in Hi.
    + subst x. done.
    + specialize (IH [] Hs i Hi). by rewrite bit_test_nil in IH.
  - destruct i as [|i]; unfold bit_test in Hi |- *; simpl in Hi |- *.
    + subst x. done.
    + by apply (IH b Hs i).
Qed.

Lemma pick_first_subset n b : bit_subset (pick_first n b) b.
Proof.
  revert n. induction b as [|x b IH]; intros n i Hi; simpl in Hi.
  { by rewrite bit_test_nil in Hi. }
  destruct n as [|m]; [|destruct x].
  - destruct i as [|i]; unfold bit_test in Hi |- *; simpl in Hi |- *;
      [done|by apply (IH O i)].
  - destruct i as [|i]; unfold bit_test in Hi |- *; simpl in Hi |- *;
      [done|by apply (IH m i)].
  - destruct i as [|i]; unfold bit_test in Hi |- *; simpl in Hi |- *;
      [done|by apply (IH (S m) i)].
Qed.

Lemma bit_pick_cnt_subset b n p :
  bit_pick_cnt b n = Some p -> bit_subset p b.
Proof.
  unfold bit_pick_cnt. destruct (_ <? _); [done|].
  intros [= <-]. apply pick_first_subset.
Qed.

(** Take a run that returned apart along the tests of the code. *)
Ltac run_cases :=
  repeat first
    [ progress inv_run
    | match goal with
      | H : (if ?c then _ else _) _ = Ok _ _ |- _ => destruct c eqn:?
      | H : (match ?x with Some _ => _ | None => _ end) _ = Ok _ _ |- _ =>
          destruct x eqn:?
      | H : (match ?x with inl _ => _ | inr _ => _ end) _ = Ok _ _ |- _ =>
          destruct x eqn:?
      | H : (let '(_, _) := ?x in _) _ = Ok _ _ |- _ => destruct x eqn:?
      | H : log_msg _ _ _ = Ok _ _ |- _ => apply log_msg_Ok in H; subst
      end
    | progress simplify_eq/= ].

Lemma usable_step_subset (job : Job.t G) spec gres cpt st i g st' g' :
  usable_step plug job spec gres cpt st i g = Ok (inr st') g' ->
  bit_subset (Usable.nodes_avail st') (Usable.nodes_avail st).
Proof.
  unfold usable_step. intros Hrun.
  run_cases; simpl; try apply bit_subset_refl; apply bit_subset_clear.
Qed.

Lemma usable_loop_subset (job : Job.t G) spec gres cpt nodes :
  forall st g st' g',
    usable_loop plug job spec gres cpt nodes st g = Ok (inr st') g' ->
    bit_subset (Usable.nodes_avail st') (Usable.nodes_avail st).
Proof.
  induction nodes as [|i rest IH]; intros st g st' g' Hrun; simpl in Hrun.
  { inv_run. simplify_eq. apply bit_subset_refl. }
  apply bind_Ok in Hrun as ([rc|st1] & g1 & Hstep & Hrest).
  { by apply ret_Ok in Hrest as [? _]. }
  eapply bit_subset_trans; [by eapply IH|by eapply usable_step_subset].
Qed.

Lemma negb_super_set_subset a b :
  negb (bit_super_set a b) = false -> bit_subset a b.
Proof. intros H%negb_false_iff. by apply bit_super_set_subset. Qed.

Lemma pick_named_nodes_subset jb spec avail g spec1 avail' picked g' :
  pick_named_nodes conf plug jb spec avail g =
    Ok (inr (spec1, avail', picked)) g' ->
  bit_subset avail' avail /\
  (forall p, picked = Some p -> bit_subset p avail).
Proof.
  unfold pick_named_nodes. intros Hrun.
  run_cases;
    repeat match goal with
    | H : negb (bit_super_set _ _) = false |- _ =>
        apply negb_super_set_subset in H
    end;
    (split; [|intros p Hp; simplify_eq]);
    first [ apply bit_subset_refl | apply bit_subset_alloc
          | apply bit_subset_and_l | assumption | idtac ].
  all: destruct (Req.task_dist spec); run_cases; done.
Qed.

Lemma pick_relative_or_idle_subset (job : Job.t G) spec avail g avail' idle g' :
  pick_relative_or_idle job spec avail g = Ok (inr (avail', idle)) g' ->
  bit_subset avail' avail /\
  (forall b, idle = Some b -> bit_subset b avail).
Proof.
  unfold pick_relative_or_idle. intros Hrun.
  run_cases; (split; [|intros b Hb; simplify_eq]);
    first [ apply bit_subset_refl | apply bit_subset_and_l
          | apply bit_subset_and_r ].
Qed.

Lemma bit_subset_minus a b A : bit_subset a A -> bit_subset (bit_and a b) A.
Proof. intros H. eapply bit_subset_trans; [apply bit_subset_and_l|done]. Qed.

Lemma pick_min_nodes_subset A jb spec blocked maps g maps' cnt g' :
  maps_in A maps ->
  pick_min_nodes cluster jb spec blocked maps g = Ok (inr (maps', cnt)) g' ->
  maps_in A maps'.
Proof.
  destruct maps as [[avail idle] picked]. intros (Ha & Hi & Hp).
  simpl in Ha, Hi, Hp. unfold pick_min_nodes. intros Hrun.
  run_cases;
    repeat match goal with
    | H : bit_pick_cnt _ _ = Some _ |- _ => apply bit_pick_cnt_subset in H
    end;
    (split; [|split; intros b Hb; simpl in Hb; simplify_eq]); simpl;
    repeat first
      [ assumption | apply bit_subset_minus | apply bit_subset_or
      | by apply Hi | by apply Hp
      | match goal with
        | H : bit_subset ?x (bit_and _ _) |- bit_subset ?x _ =>
            eapply bit_subset_trans; [exact H|apply bit_subset_minus]
        | H : bit_subset ?x ?y |- bit_subset ?x _ =>
            eapply bit_subset_trans; [exact H|]
        end ].
Qed.

Lemma add_nodes_loop_subset A (job : Job.t G) jb usable fuel :
  forall spec avail picked cnt cpus g spec' avail' picked' cnt' cpus' g',
    bit_subset avail A -> bit_subset picked A ->
    add_nodes_loop cluster fuel job jb usable
      (spec, avail, picked, cnt, cpus) g =
      Ok (spec', avail', picked', cnt', cpus') g' ->
    bit_subset picked' A.
Proof.
  induction fuel as [|fuel IH];
    intros spec avail picked cnt cpus g spec' avail' picked' cnt' cpus' g'
           Ha Hp Hrun; simpl in Hrun.
  { by inv_run. }
  destruct (negb _); [by inv_run|].
  destruct (bit_pick_cnt avail 1) as [node_tmp|] eqn:Hpick; [|by inv_run].
  apply bit_pick_cnt_subset in Hpick.
  apply bind_Ok in Hrun as (cpu_cnt & g1 & _ & Hrun).
  assert (bit_subset (bit_or picked node_tmp) A) as Hor.
  { apply bit_subset_or; [done|]. by eapply bit_subset_trans. }
  destruct (cpu_cnt =? 0).
  - eapply IH; [| |exact Hrun]; [by apply bit_subset_minus|done].
  - destruct (_ && _); [by inv_run|].
    eapply IH; [| |exact Hrun]; [by apply bit_subset_minus|done].
Qed.

Lemma pick_cpu_count_subset A (job : Job.t G) jb spec usable blocked maps cnt
    g picked spec' g' :
  maps_in A maps ->
  pick_cpu_count cluster job jb spec usable blocked maps cnt g =
    Ok (Some picked, SLURM_SUCCESS, spec') g' ->
  bit_subset picked A.
Proof.
  destruct maps as [[avail idle] nodes_picked]. intros (Ha & _ & Hp).
  simpl in Ha, Hp. unfold pick_cpu_count. intros Hrun.
  destruct (Req.cpu_count spec =? 0).
  { inv_run. by apply Hp. }
  apply bind_Ok in Hrun as (p0 & g1 & [-> ->]%deref_Ok & Hrun).
  apply bind_Ok in Hrun as (c0 & g2 & _ & Hrun).
  apply bind_Ok in Hrun as ([[[[s1 a1] p1] n1] c1] & g3 & Hadd & Hrun).
  assert (bit_subset p1 A) as Hp1.
  { destruct (_ && _).
    - eapply add_nodes_loop_subset; [exact Ha|by apply Hp|exact Hadd].
    - inv_run. by apply Hp. }
  unfold cleanup in Hrun. run_cases; done.
Qed.

Lemma pick_shared_subset (job : Job.t G) jb spec gres cpt avail g
    picked rc spec' g' :
  pick_shared conf cluster plug job jb spec gres cpt avail g =
    Ok (Some picked, rc, spec') g' ->
  rc = SLURM_SUCCESS /\ bit_subset picked avail.
Proof.
  unfold pick_shared. intros H.
  apply bind_Ok in H as (u & g1 & Hu & H).
  assert (match u with
          | inl _ => True
          | inr (av, _, _, _) => bit_subset av avail
          end) as Hav.
  { destruct (_ || _).
    - apply bind_Ok in Hu as ([rc0|st] & g0 & Hloop & Hu); inv_run;
        simpl; try done.
      by apply usable_loop_subset in Hloop.
    - inv_run. apply bit_subset_refl. }
  destruct u as [rc0|[[[av usable] mbn] mbc]]; [by inv_run|].
  destruct (Req.min_nodes spec =? INFINITE); [by inv_run|].
  apply bind_Ok in H as (named & g2 & Hnamed & H).
  destruct named as [[res spec1]|[[spec1 av1] pk]].
  { unfold pick_named_nodes, cleanup in Hnamed. run_cases. }
  apply pick_named_nodes_subset in Hnamed as [Hav1 Hpk].
  apply bind_Ok in H as (rel & g3 & Hrel & H).
  destruct rel as [|[av2 idle]]; [by inv_run|].
  apply pick_relative_or_idle_subset in Hrel as [Hav2 Hidle].
  apply bind_Ok in H as (c & g4 & _ & H).
  destruct c as [spec2|spec2]; [by inv_run|].
  apply bind_Ok in H as (m & g5 & Hm & H).
  destruct m as [rc0|[maps npc]]; [by inv_run|].
  assert (maps_in avail maps) as Hmaps.
  { eapply pick_min_nodes_subset; [|exact Hm]. split; [|split]; simpl.
    - by do 2 (eapply bit_subset_trans; [eassumption|]).
    - intros b Hb. do 2 (eapply bit_subset_trans; [|eassumption]).
      by apply Hidle.
    - intros b Hb. eapply bit_subset_trans; [by apply Hpk|done]. }
  assert (rc = SLURM_SUCCESS) as ->.
  { unfold pick_cpu_count, cleanup in H.
    destruct maps as [[? ?] ?]. run_cases; done. }
  split; [done|]. by eapply pick_cpu_count_subset.
Qed.

Lemma pick_exclusive_subset (job : Job.t G) jb spec gres cpt avail g
    picked rc g' :
  pick_exclusive cluster plug job jb spec gres cpt avail g =
    Ok (Some picked, rc) g' ->
  rc = SLURM_SUCCESS /\ bit_subset picked avail.
Proof.
  unfold pick_exclusive. intros H.
  apply bind_Ok in H as (sel & g1 & _ & H).
  destruct sel as [|sel]; [by inv_run|].
  destruct (excl_loop _ _ _ _ _ _ _ _) as [st|] eqn:Hloop; [|done].
  apply excl_loop_frame in Hloop as [_ Hsub]. simpl in Hsub.
  unfold excl_verdict in H.
  destruct (_ >=? Req.num_tasks spec).
  - inv_run. by split.
  - destruct (_ >=? _); by inv_run.
Qed.

Lemma pick_step_nodes_inside now (job : Job.t G) spec gres cpt g
    picked rc spec' job' g' :
  _pick_step_nodes conf cluster plug now job spec gres cpt g =
    Ok (Some picked, rc, spec', job') g' ->
  bit_subset picked (job_up_nodes cluster job).
Proof.
  intros Hrun. unfold _pick_step_nodes in Hrun. unfold job_up_nodes.
  destruct (Job.node_bitmap job) as [jb|]; [|by inv_run].
  destruct (_ && _); [by inv_run|].
  apply bind_Ok in Hrun as (spec1 & g1 & _ & Hrun).
  apply bind_Ok in Hrun as ([early job1] & g2 & _ & Hrun).
  destruct early as [rc0|]; [by inv_run|].
  destruct (negb (Req.exclusive spec1 =? 0)).
  - apply bind_Ok in Hrun as ([pk rc1] & g3 & Hex & Hrun). inv_run.
    by apply pick_exclusive_subset in Hex as [_ ?].
  - apply bind_Ok in Hrun as ([[pk rc1] spec2] & g3 & Hsh & Hrun).
    inv_run. by apply pick_shared_subset in Hsh as [_ ?].
Qed.

(** X13. Whatever the request, a bitmap that _pick_step_nodes returns
    comes with SLURM_SUCCESS and holds only nodes of the job that are up;
    and the call leaves the steps, the resources and the gres of the job
    as they were. *)
Theorem pick_step_nodes_inside_job now (job : Job.t G) spec gres cpt g
    picked rc spec' job' g' :
  _pick_step_nodes conf cluster plug now job spec gres cpt g =
    Ok (Some picked, rc, spec', job') g' ->
  rc = SLURM_SUCCESS /\
  bit_subset picked (job_up_nodes cluster job) /\
  (forall i, bit_test picked i = true ->
     exists job_node_bitmap,
       Job.node_bitmap job = Some job_node_bitmap /\
       bit_test job_node_bitmap i = true /\
       bit_test (Cluster.up_node_bitmap cluster) i = true) /\
  same_accounting job job'.
Proof.
  intros Hrun.
  pose proof (pick_step_nodes_frame _ _ _ _ _ _ _ _ _ _ _ Hrun) as [Hacc _].
  unfold _pick_step_nodes in Hrun. unfold job_up_nodes.
  destruct (Job.node_bitmap job) as [jb|]; [|by inv_run].
  destruct (_ && _); [by inv_run|].
  apply bind_Ok in Hrun as (spec1 & g1 & _ & Hrun).
  apply bind_Ok in Hrun as ([early job1] & g2 & _ & Hrun).
  destruct early as [rc0|]; [by inv_run|].
  assert (rc = SLURM_SUCCESS /\
          bit_subset picked (bit_and jb (Cluster.up_node_bitmap cluster)))
    as [Hrc Hsub].
  { destruct (negb (Req.exclusive spec1 =? 0)).
    - apply bind_Ok in Hrun as ([pk rc1] & g3 & Hex & Hrun). inv_run.
      by apply pick_exclusive_subset in Hex.
    - apply bind_Ok in Hrun as ([[pk rc1] spec2] & g3 & Hsh & Hrun).
      inv_run. by apply pick_shared_subset in Hsh. }
  do 2 (split; [done|]). split; [|done].
  intros i Hi. apply Hsub in Hi. rewrite bit_test_and in Hi.
  apply andb_prop in Hi as [? ?]. by exists jb.
Qed.
(** ** The record of a created step *)

Lemma same_record_refl (step : Step.t G) : same_record step step.
Proof. by repeat split. Qed.

Lemma same_record_trans (s1 s2 s3 : Step.t G) :
  same_record s1 s2 -> same_record s2 s3 -> same_record s1 s3.
Proof.
  intros (?&?&?&?&?&?&?) (?&?&?&?&?&?&?). repeat split; congruence.
Qed.

Lemma alloc_loop_record pick layout nodes :
  forall jni sni (step : Step.t G) (job : Job.t G) g step1 job1 g1,
    alloc_loop conf plug pick layout nodes jni sni step job g =
      Ok (step1, job1) g1 ->
    same_record step step1.
Proof.
  induction nodes as [|i rest IH]; intros jni sni step job g step1 job1 g1;
    simpl; intros H; [inv_run; apply same_record_refl|].
  destruct (negb (bit_test (Res.node_bitmap _) i)); [by eapply IH|].
  destruct (negb (bit_test (Step.step_node_bitmap step) i)); [by eapply IH|].
  destruct (_ >=? _); [done|].
  apply bind_Ok in H as (tasks & g2 & _ & H).
  apply bind_Ok in H as (used & g3 & _ & H).
  apply bind_Ok in H as (cu & g4 & _ & H).
  destruct (Plug.gres_plugin_step_alloc _ _ _ _ _) as [sg jg].
  apply bind_Ok in H as (res2 & g5 & _ & H).
  apply bind_Ok in H as ([step2 res3] & g6 & Hcores & H).
  assert (same_record step step2) as Hrec.
  { destruct pick.
    - apply pick_step_cores_frame in Hcores as [[b ->] _]. by repeat split.
    - inv_run. by repeat split. }
  destruct (_ =? _).
  - by inv_run.
  - apply IH in H. by eapply same_record_trans.
Qed.

Lemma step_alloc_lps_record (step : Step.t G) (job : Job.t G) g step1 job1 g1 :
  step_alloc_lps conf plug step job g = Ok (step1, job1) g1 ->
  same_record step step1.
Proof.
  unfold step_alloc_lps. intros H.
  destruct (Step.step_layout step); [|inv_run; apply same_record_refl].
  destruct (_ =? -1); [inv_run; apply same_record_refl|].
  destruct (if Conf.have_bg conf then _ else _) as [pick s1] eqn:Hpick.
  assert (same_record step s1) as Hs1.
  { destruct (Conf.have_bg conf); [inv_run; apply same_record_refl|].
    destruct (is_Some_b _); [inv_run; apply same_record_refl|].
    destruct (_ || _); inv_run; by repeat split. }
  apply bind_Ok in H as (s2 & g2 & Hs2 & H).
  assert (same_record s1 s2) as Hs2'.
  { destruct (_ && _ && _) in Hs2; inv_run; by repeat split. }
  apply alloc_loop_record in H.
  eapply same_record_trans; [exact Hs1|]. by eapply same_record_trans.
Qed.

Lemma step_create_launch_record now k (step : Step.t G) (job : Job.t G)
    spec node_list cpt g rc spec' job' s g' :
  step_create_launch conf plug now k step job spec node_list cpt g =
    Ok (rc, spec', job', Some s) g' ->
  same_record step s.
Proof.
  unfold step_create_launch. intros H.
  apply bind_Ok in H as ([layout step1] & g1 & Hlay & H).
  assert (same_record step step1) as H1.
  { apply step_layout_create_frame in Hlay as [->| ->]; by repeat split. }
  destruct layout as [layout|].
  2:{ apply bind_Ok in H as ([? ?] & ? & _ & H). by inv_run. }
  apply bind_Ok in H as (spec1 & g2 & _ & H).
  set (step2 := Step.set_step_layout (Some layout) step1) in *.
  set (step3 := if negb (Req.resv_port_cnt spec1 =? NO_VAL16)
                then Step.set_resv_port_cnt (Req.resv_port_cnt spec1) step2
                else step2) in *.
  assert (same_record step1 step3) as H3.
  { unfold step3, step2. destruct (negb _); by repeat split. }
  destruct (negb (rc_is_success _)).
  { apply bind_Ok in H as ([? ?] & ? & _ & H). by inv_run. }
  destruct (Plug.switch_alloc_jobinfo plug) as [sw|]; [|done].
  destruct (Plug.switch_build_jobinfo _ _ _ _ _ _).
  { apply bind_Ok in H as (? & ? & _ & H).
    apply bind_Ok in H as ([? ?] & ? & _ & H). by inv_run. }
  apply bind_Ok in H as ([step5 job1] & g3 & Halloc & H).
  apply step_alloc_lps_record in Halloc. inv_run.
  eapply same_record_trans; [exact H1|].
  eapply same_record_trans; [exact H3|].
  eapply same_record_trans; [|exact Halloc]. by repeat split.
Qed.

Lemma step_create_finish_record now k (step : Step.t G) (job : Job.t G)
    spec batch node_list cpt g rc spec' job' s g' :
  step_create_finish conf plug now k step job spec batch node_list cpt g =
    Ok (rc, spec', job', Some s) g' ->
  same_record step s.
Proof.
  unfold step_create_finish. intros H.
  apply bind_Ok in H as ([[[rc1 spec1] job1] launched] & g1 & Hl & H).
  destruct launched as [step1|]; [|by inv_run].
  assert (same_record step step1) as H1.
  { destruct (negb batch).
    - by apply step_create_launch_record in Hl.
    - inv_run. apply same_record_refl. }
  destruct (Plug.checkpoint_alloc_jobinfo plug); [|done].
  inv_run. eapply same_record_trans; [exact H1|]. by repeat split.
Qed.

Lemma step_create_record_fields now (job : Job.t G) spec batch gres nodeset
    cpt orig g rc spec' job' s g' :
  step_create_record conf plug now job spec batch gres nodeset cpt orig g =
    Ok (rc, spec', job', Some s) g' ->
  Step.step_node_bitmap s = nodeset /\
  Step.start_time s = now /\
  Step.batch_step s = batch /\
  Step.cpus_per_task s = u16 cpt /\
  Step.exclusive s = Req.exclusive spec /\
  Step.time_limit s = step_time_limit_of (Req.time_limit spec) /\
  (Conf.enforce_part_limits conf = true ->
   Step.time_limit s = INFINITE \/
   Step.time_limit s <= Job.part_max_time job).
Proof.
  unfold step_create_record, step_time_limit_of. intros H.
  apply bind_Ok in H as ([created job1] & g1 & Hc & H).
  unfold _create_step_record in Hc.
  destruct (_ >=? STEP_ID_LIMIT); [by inv_run|].
  inv_run. simpl in H.
  destruct (match Req.node_list spec with Some _ => _ | None => _ end)
    as [node_list spec1] eqn:Hsel.
  assert (Req.time_limit spec1 = Req.time_limit spec /\
          Req.exclusive spec1 = Req.exclusive spec) as [Htl Hex].
  { destruct (Req.node_list spec); [destruct (Req.task_dist spec)|];
      by inversion Hsel. }
  simpl in H. rewrite Htl in H.
  destruct (_ || _ || _) eqn:Hspecial.
  { apply step_create_finish_record in H as (_&Hb&Hst&Hl&Hbs&Hc&He).
    simpl in *. rewrite Hb, Hst, Hl, Hbs, Hc, He, Hex. repeat split. auto. }
  destruct (_ && _) eqn:Hpart.
  { apply bind_Ok in H as (? & g2 & _ & H).
    apply bind_Ok in H as ([? ?] & g3 & _ & H). by inv_run. }
  apply step_create_finish_record in H as (_&Hb&Hst&Hl&Hbs&Hc&He).
  simpl in *. rewrite Hb, Hst, Hl, Hbs, Hc, He, Hex. repeat split.
  intros Henf. rewrite Henf, andb_true_r in Hpart. right. lia.
Qed.

Lemma default_num_tasks_time_limit spec n :
  Req.time_limit (default_num_tasks spec n) = Req.time_limit spec /\
  Req.exclusive (default_num_tasks spec n) = Req.exclusive spec.
Proof.
  unfold default_num_tasks.
  destruct (_ =? NO_VAL); [destruct (negb _)|]; done.
Qed.

Lemma normalize_overcommit_time_limit spec :
  Req.time_limit (normalize_overcommit spec) = Req.time_limit spec /\
  Req.exclusive (normalize_overcommit spec) = Req.exclusive spec.
Proof.
  unfold normalize_overcommit.
  destruct (negb (Req.overcommit spec =? 0)); [|done].
  destruct (negb (Req.exclusive spec =? 0)); done.
Qed.

Lemma step_create_job_fields now (job : Job.t G) spec batch g
    rc spec' job' s g' :
  step_create_job conf cluster plug now job spec batch g =
    Ok (rc, spec', job', Some s) g' ->
  bit_subset (Step.step_node_bitmap s) (job_up_nodes cluster job) /\
  Step.start_time s = now /\
  Step.batch_step s = batch /\
  Step.exclusive s = Req.exclusive spec /\
  Step.time_limit s = step_time_limit_of (Req.time_limit spec) /\
  (Conf.enforce_part_limits conf = true ->
   Step.time_limit s = INFINITE \/
   Step.time_limit s <= Job.part_max_time job).
Proof.
  unfold step_create_job. intros H.
  pose proof (normalize_overcommit_time_limit spec) as [Htl1 Hex1].
  destruct (_ <? 1); [by inv_run|].
  set (spec2 := if Req.no_kill _ >? 1 then _ else _) in H.
  assert (Req.time_limit spec2 = Req.time_limit spec /\
          Req.exclusive spec2 = Req.exclusive spec) as [Htl2 Hex2].
  { subst spec2. by destruct (_ >? 1). }
  destruct (Plug.gres_plugin_step_state_validate _ _ _) as [i gres].
  destruct (negb (rc_is_success i)); [by inv_run|].
  apply bind_Ok in H as ([[[nodeset rc3] spec3] job2] & g2 & Hpick & H).
  destruct nodeset as [nodeset|]; [|by inv_run].
  pose proof (pick_step_nodes_frame _ _ _ _ _ _ _ _ _ _ _ Hpick)
    as (_ & Hcounts & _ & _ & _ & Hpm).
  destruct Hcounts as (_ & _ & _ & Hex3 & Htl3 & _).
  apply pick_step_nodes_inside in Hpick.
  destruct (task_count_too_big _ _ _).
  { apply bind_Ok in H as (? & g3 & _ & H). by inv_run. }
  pose proof (default_num_tasks_time_limit spec3
                (Z.of_nat (bit_set_count nodeset))) as [Htl4 Hex4].
  apply step_create_record_fields in H as (Hb & Hst & Hbs & _ & He & Hl & Hp).
  rewrite Hb, Hst, Hbs, He, Hl, Hex4, Hex3, Hex2, Htl4, Htl3, Htl2.
  repeat split; try done.
  intros Henf. rewrite Hl, Htl4, Htl3, Htl2, Hpm in Hp. by apply Hp.
Qed.

(** X14. A step that step_create hands back is in the registry of its job
    under its own id, runs only on nodes of the job that are up, starts
    now, keeps the batch flag and the exclusive flag of the request, and
    has the time limit of the request with NO_VAL, 0 and INFINITE all
    meaning no limit; when partition limits are enforced a finite limit
    is within the partition's. *)
Theorem step_create_new_record now (jobs : list (Job.t G)) spec batch g
    jk job rc spec' jobs' s g' :
  find_job_record jobs (Req.job_id spec) = Some jk ->
  jobs !! jk = Some job ->
  fresh_id (Job.step_list job) (Job.next_step_id job) ->
  step_create conf cluster plug now jobs spec batch g =
    Ok (rc, spec', jobs', Some s) g' ->
  exists job',
    jobs' = <[ jk := job' ]> jobs /\
    found_step (Job.step_list job') (Step.step_id s) = Some s /\
    bit_subset (Step.step_node_bitmap s) (job_up_nodes cluster job) /\
    Step.start_time s = now /\
    Step.batch_step s = batch /\
    Step.exclusive s = Req.exclusive spec /\
    Step.time_limit s = step_time_limit_of (Req.time_limit spec) /\
    (Conf.enforce_part_limits conf = true ->
     Step.time_limit s = INFINITE \/
     Step.time_limit s <= Job.part_max_time job).
Proof.
  intros Hfind Hjob Hfresh Hrun.
  apply step_create_inv in Hrun
    as [(_ & _ & _ & Hnone)|(jk0 & job0 & job' & g1 & Hf & Hj & -> & Hrun)];
    [done|].
  rewrite Hfind in Hf. injection Hf as <-.
  rewrite Hjob in Hj. injection Hj as <-.
  destruct Hrun as [(Hnone & _)|Hrun]; [done|].
  exists job'. split; [done|].
  pose proof (step_create_job_outcome _ _ _ _ _ _ _ _ _ _ Hfresh Hrun)
    as (_ & _ & _ & Hid & Hlist & Hlim & _).
  split; [|by eapply step_create_job_fields].
  unfold found_step. rewrite find_step_record_index.
  2:{ rewrite Hid. unfold STEP_ID_LIMIT, NO_VAL in *. lia. }
  rewrite Hlist, step_index_app_last; [|by rewrite Hid|done].
  simpl. by rewrite lookup_app_r, Nat.sub_diag.
Qed.
(** ** The core picker only adds cores of the job *)

Lemma grown_within_refl within b : grown_within within b b.
Proof. split; [done|]. split; [done|]. intros o H1 H2. congruence. Qed.

Lemma grown_within_trans within b1 b2 b3 :
  grown_within within b1 b2 -> grown_within within b2 b3 ->
  grown_within within b1 b3.
Proof.
  intros (Hs1 & Hm1 & Hn1) (Hs2 & Hm2 & Hn2). split; [congruence|].
  split; [by auto|]. intros o H3 H1.
  destruct (bit_test b2 o) eqn:H2; [by apply Hn1|by apply Hn2].
Qed.

Lemma grown_within_set within b o :
  bit_test within o = true -> grown_within within b (bit_set b o).
Proof.
  intros Hw. split; [|split].
  - unfold bit_size, bit_set. by rewrite length_insert.
  - intros o'. apply bit_test_set_mono.
  - intros o'. rewrite bit_test_set.
    destruct (decide (o = o')) as [<-|]; [done|]. congruence.
Qed.

Lemma pick_idle_cores_grown jni all pairs :
  forall cpu res sb g r c res1 sb1 g1,
    pick_idle_cores plug jni all pairs cpu res sb g =
      Ok (r, c, res1, sb1) g1 ->
    g1 = g /\
    (exists used1, res1 = Res.set_core_bitmap_used used1 res) /\
    grown_within (Res.core_bitmap res) (Res.core_bitmap_used res)
                 (Res.core_bitmap_used res1) /\
    grown_within (Res.core_bitmap res) sb sb1.
Proof.
  induction pairs as [|[ci si] rest IH];
    intros cpu res sb g r c res1 sb1 g1 Hrun; simpl in Hrun.
  { inv_run. split; [done|]. split; [by exists (Res.core_bitmap_used res1);
      destruct res1|]. split; apply grown_within_refl. }
  set (off := Plug.get_job_resources_offset plug res jni si ci) in *.
  destruct (off <? 0); [done|].
  destruct (bit_test (Res.core_bitmap res) (Z.to_nat off)) eqn:Hjob;
    simpl in Hrun; [|by apply IH in Hrun].
  destruct (negb all && _); [by apply IH in Hrun|].
  set (res' := Res.set_core_bitmap_used _ res) in *.
  assert (forall rres ssb,
    (exists used1, rres = Res.set_core_bitmap_used used1 res') /\
    grown_within (Res.core_bitmap res') (Res.core_bitmap_used res')
                 (Res.core_bitmap_used rres) /\
    grown_within (Res.core_bitmap res') (bit_set sb (Z.to_nat off)) ssb ->
    (exists used1, rres = Res.set_core_bitmap_used used1 res) /\
    grown_within (Res.core_bitmap res) (Res.core_bitmap_used res)
                 (Res.core_bitmap_used rres) /\
    grown_within (Res.core_bitmap res) sb ssb) as Hstep.
  { intros rres ssb ([used1 ->] & Hu & Hs). split; [by exists used1|].
    split.
    - eapply grown_within_trans; [|exact Hu]. by apply grown_within_set.
    - eapply grown_within_trans; [|exact Hs]. by apply grown_within_set. }
  destruct (i32 (cpu - 1) =? 0).
  - inv_run. split; [done|]. apply Hstep. split; [by exists
      (Res.core_bitmap_used res')|]. split; apply grown_within_refl.
  - apply IH in Hrun as (-> & Hrest). split; [done|]. by apply Hstep.
Qed.

Lemma pick_busy_cores_grown res jni pairs :
  forall cpu sb g c sb1 g1,
    pick_busy_cores plug res jni pairs cpu sb g = Ok (c, sb1) g1 ->
    g1 = g /\ grown_within (Res.core_bitmap res) sb sb1.
Proof.
  induction pairs as [|[ci si] rest IH]; intros cpu sb g c sb1 g1 Hrun;
    simpl in Hrun.
  { inv_run. split; [done|apply grown_within_refl]. }
  set (off := Plug.get_job_resources_offset plug res jni si ci) in *.
  destruct (off <? 0); [done|].
  destruct (bit_test (Res.core_bitmap res) (Z.to_nat off)) eqn:Hjob;
    simpl in Hrun; [|by apply IH in Hrun].
  destruct (bit_test sb (Z.to_nat off)); [by apply IH in Hrun|].
  destruct (i32 (cpu - 1) =? 0).
  - inv_run. split; [done|]. by apply grown_within_set.
  - apply IH in Hrun as (-> & Hrest). split; [done|].
    eapply grown_within_trans; [|exact Hrest]. by apply grown_within_set.
Qed.

(** X15. _pick_step_cores never takes a core away and never takes a core
    outside the job: the step's core bitmap and core_bitmap_used of the
    job keep their sizes and every bit they had, and every bit that is new
    in either is a bit of the job's core_bitmap; nothing else of the step
    or of the job's resources is written. A step without a core bitmap
    starts from an empty one of the size of the job's. *)
Theorem pick_step_cores_confined (step : Step.t G) res jni tasks g
    step' res' g' :
  _pick_step_cores plug step res jni tasks g = Ok (step', res') g' ->
  let before :=
    match Step.core_bitmap_job step with
    | Some b => b
    | None => bit_alloc (bit_size (Res.core_bitmap res))
    end in
  exists after used',
    step' = Step.set_core_bitmap_job (Some after) step /\
    res' = Res.set_core_bitmap_used used' res /\
    grown_within (Res.core_bitmap res) before after /\
    grown_within (Res.core_bitmap res) (Res.core_bitmap_used res) used'.
Proof.
  intros H before. unfold _pick_step_cores in H. fold before in H.
  destruct (Plug.get_job_resources_cnt plug res jni) as [[sockets cores]|];
    [|done].
  apply bind_Ok in H as ([[[returned cnt] res1] sb] & g2 & Hidle & H).
  apply pick_idle_cores_grown in Hidle as (-> & [used1 ->] & Hu & Hs).
  simpl in Hu.
  destruct (returned || _).
  - inv_run. by exists sb, used1.
  - apply bind_Ok in H as (? & g3 & _ & H).
    destruct (cores =? 0); [done|].
    apply bind_Ok in H as (last & g4 & _ & H).
    apply bind_Ok in H as ([cnt2 sb2] & g5 & Hbusy & H).
    apply pick_busy_cores_grown in Hbusy as (-> & Hs2). simpl in Hs2.
    inv_run. exists sb2, used1. do 2 (split; [done|]).
    split; [by eapply grown_within_trans|done].
Qed.
(** ** Exclusive mode keeps to max_nodes and to nodes with a free task *)

Lemma step_pos_ext jb sb sb' m :
  (forall j, (j < m)%nat -> bit_test sb j = bit_test sb' j) ->
  step_pos jb sb m = step_pos jb sb' m.
Proof.
  induction m as [|m IH]; intros Hext; [done|].
  rewrite !step_pos_S, IH by (intros; apply Hext; lia).
  by rewrite Hext by lia.
Qed.

Lemma step_pos_le jb sb m : 0 <= step_pos jb sb m <= Z.of_nat m.
Proof.
  unfold step_pos.
  pose proof (bit_set_count_le (take m (bit_and jb sb))) as Hle.
  rewrite length_take in Hle. lia.
Qed.

Lemma bit_set_count_take_beyond b m :
  (forall i, (m <= i)%nat -> bit_test b i = false) ->
  bit_set_count (take m b) = bit_set_count b.
Proof.
  revert m. induction b as [|x b IH]; intros m Hhigh; [by destruct m|].
  destruct m as [|m].
  - assert (x = false) as -> by (apply (Hhigh 0%nat); lia).
    simpl. rewrite <- (IH 0%nat); [by rewrite take_0|].
    intros i _. apply (Hhigh (S i)). lia.
  - simpl. rewrite IH; [done|]. intros i Hi. apply (Hhigh (S i)). lia.
Qed.

(** One turn of the loop on a node of the job: a node that stays
    available has a free task and was counted, and the count was below
    max_nodes. *)
Lemma excl_step_count (job : Job.t G) spec gres cpt sel st i st' :
  excl_step plug job spec gres cpt sel st i = Some st' ->
  bit_test (Res.node_bitmap (Job.job_resrcs job)) i = true ->
  Excl.node_inx st' = Excl.node_inx st + 1 /\
  (bit_test (Excl.nodes_avail st') i = false ->
   Excl.nodes_picked_cnt st' = Excl.nodes_picked_cnt st) /\
  (bit_test (Excl.nodes_avail st') i = true ->
   Excl.nodes_picked_cnt st' = u32 (Excl.nodes_picked_cnt st + 1) /\
   (Req.max_nodes spec <> 0 ->
    Excl.nodes_picked_cnt st < Req.max_nodes spec) /\
   exists avail_tasks total_tasks,
     excl_node_tasks plug job spec gres cpt (Excl.node_inx st + 1) =
     Some (avail_tasks, total_tasks) /\
     0 < avail_tasks).
Proof.
  unfold excl_step. intros Hstep Hjob. rewrite Hjob in Hstep.
  simpl in Hstep.
  destruct (bit_test (Excl.nodes_avail st) i) eqn:Hav; simpl in Hstep.
  2:{ inversion Hstep; subst; simpl. rewrite Hav. by repeat split. }
  destruct (excl_node_tasks plug job spec gres cpt (Excl.node_inx st + 1))
    as [[a t]|] eqn:Htasks; [|done].
  simpl in Hstep.
  destruct (negb (Req.max_nodes spec =? 0) && _) eqn:Hmax.
  { inversion Hstep; subst; simpl.
    rewrite bit_test_clear, decide_True by done. by repeat split. }
  destruct ((a <=? 0) || _) eqn:Hdrop.
  { inversion Hstep; subst; simpl.
    rewrite bit_test_clear, decide_True by done. by repeat split. }
  inversion Hstep; subst; simpl. rewrite Hav.
  split; [done|]. split; [done|]. intros _. split; [done|]. split.
  - intros Hne. apply Z.eqb_neq in Hne. rewrite Hne in Hmax.
    simpl in Hmax. lia.
  - exists a, t. split; [done|].
    apply orb_false_iff in Hdrop as [Ha _]. lia.
Qed.

Lemma excl_loop_count (job : Job.t G) spec gres cpt sel n :
  let rb := Res.node_bitmap (Job.job_resrcs job) in
  forall m st st',
    excl_loop plug job spec gres cpt sel (seq m n) st = Some st' ->
    Excl.node_inx st = job_pos rb m - 1 ->
    Excl.nodes_picked_cnt st = step_pos rb (Excl.nodes_avail st) m ->
    Z.of_nat (m + n) < 4294967296 ->
    (Req.max_nodes spec <> 0 ->
     Excl.nodes_picked_cnt st <= Req.max_nodes spec) ->
    (forall i, (i < m)%nat -> bit_test rb i = true ->
       bit_test (Excl.nodes_avail st) i = true ->
       has_free_task plug job spec gres cpt i) ->
    Excl.nodes_picked_cnt st' =
      step_pos rb (Excl.nodes_avail st') (m + n) /\
    (Req.max_nodes spec <> 0 ->
     Excl.nodes_picked_cnt st' <= Req.max_nodes spec) /\
    (forall i, (i < m + n)%nat -> bit_test rb i = true ->
       bit_test (Excl.nodes_avail st') i = true ->
       has_free_task plug job spec gres cpt i).
Proof.
  intros rb. induction n as [|n IH];
    intros m st st' Hloop Hinx Hcnt Hsize Hmax Hfree; simpl in Hloop.
  { inversion Hloop; subst st'. rewrite Nat.add_0_r. by repeat split. }
  destruct (excl_step plug job spec gres cpt sel st m) as [st1|] eqn:Hstep;
    [|done].
  simpl in Hloop.
  pose proof (excl_step_cases _ _ _ _ _ _ _ _ Hstep) as (Hother & Hat & Hcase).
  assert (step_pos rb (Excl.nodes_avail st1) m =
          step_pos rb (Excl.nodes_avail st) m) as Hpos.
  { apply step_pos_ext. intros j Hj. apply Hother. lia. }
  replace (m + S n)%nat with (S m + n)%nat by lia.
  destruct (bit_test rb m) eqn:Hjob.
  - pose proof (excl_step_count _ _ _ _ _ _ _ _ Hstep Hjob)
      as (Hinx1 & Hout & Hin).
    apply (IH (S m) st1 st' Hloop); [| | lia | |].
    + rewrite Hinx1, Hinx, job_pos_S. fold rb. rewrite Hjob. lia.
    + rewrite step_pos_S, Hpos, Hjob. simpl.
      destruct (bit_test (Excl.nodes_avail st1) m) eqn:Hb.
      * destruct (Hin eq_refl) as (-> & _ & _). rewrite Hcnt.
        pose proof (step_pos_le rb (Excl.nodes_avail st) m).
        rewrite u32_id by lia. done.
      * rewrite (Hout eq_refl), Hcnt. lia.
    + intros Hne. destruct (bit_test (Excl.nodes_avail st1) m) eqn:Hb.
      * destruct (Hin eq_refl) as (-> & Hlt & _). specialize (Hlt Hne).
        pose proof (step_pos_le rb (Excl.nodes_avail st) m).
        rewrite u32_id by lia. lia.
      * rewrite (Hout eq_refl). by apply Hmax.
    + intros i Hi Hji Hai. destruct (decide (i = m)) as [->|Hne].
      * destruct (Hin Hai) as (_ & _ & a & t & Htasks & Ha).
        exists a, t. split; [|done]. rewrite <- Htasks. f_equal.
        fold rb. lia.
      * apply Hfree; [lia|done|]. by rewrite <- Hother.
  - fold rb in Hcase. rewrite Hjob in Hcase. simpl in Hcase. subst st1.
    apply (IH (S m) st st' Hloop); [| | lia | done |].
    + rewrite Hinx, job_pos_S. rewrite Hjob. lia.
    + rewrite step_pos_S, Hjob. simpl. lia.
    + intros i Hi Hji Hai. destruct (decide (i = m)) as [->|Hne];
        [congruence|]. apply Hfree; [lia|done|done].
Qed.

Lemma range_end_le b :
  (Z.to_nat (bit_ffs b) + Z.to_nat (bit_fls b + 1 - bit_ffs b) <=
   S (length b))%nat.
Proof.
  unfold bit_ffs, bit_fls.
  destruct (bit_ffs_from_spec 0 b) as [[-> Hall]|(d & -> & Hd & _)];
    destruct (bit_fls_from_spec 0 b) as [[-> Hall']|(e & -> & He & _)].
  - simpl. lia.
  - by rewrite Hall in He.
  - by rewrite Hall' in Hd.
  - apply bit_test_lt in Hd, He. lia.
Qed.

Lemma pick_exclusive_count (job : Job.t G) jb spec gres cpt avail g
    picked rc g' :
  let rb := Res.node_bitmap (Job.job_resrcs job) in
  pick_exclusive cluster plug job jb spec gres cpt avail g =
    Ok (Some picked, rc) g' ->
  Z.of_nat (bit_size rb) < 4294967295 ->
  0 <= Req.max_nodes spec ->
  (Req.max_nodes spec <> 0 ->
   Z.of_nat (bit_set_count (bit_and rb picked)) <= Req.max_nodes spec) /\
  (forall i, bit_test rb i = true -> bit_test picked i = true ->
     has_free_task plug job spec gres cpt i).
Proof.
  intros rb H Hsize Hsign. unfold pick_exclusive in H.
  apply bind_Ok in H as (sel & g1 & _ & H).
  destruct sel as [|sel]; [by inv_run|].
  destruct (excl_loop _ _ _ _ _ _ _ _) as [st|] eqn:Hloop; [|done].
  assert (picked = Excl.nodes_avail st) as ->.
  { unfold excl_verdict in H. destruct (_ >=? Req.num_tasks spec).
    - by inv_run.
    - destruct (_ >=? _); by inv_run. }
  clear H. fold rb in Hloop.
  destruct (range_incl_covers rb) as (Hrange & Hcover & Hlow).
  pose proof (range_end_le rb) as Hend.
  set (a := Z.to_nat (bit_ffs rb)) in *.
  set (n := Z.to_nat (bit_fls rb + 1 - bit_ffs rb)) in *.
  rewrite Hrange in Hloop. unfold bit_size in Hsize.
  eapply excl_loop_count with (m := a) in Hloop as (Hcnt & Hmax & Hfree);
    simpl.
  - split.
    + intros Hne. specialize (Hmax Hne). rewrite Hcnt in Hmax.
      unfold step_pos in Hmax.
      rewrite bit_set_count_take_beyond in Hmax; [done|].
      intros i Hi. rewrite bit_test_and. apply andb_false_intro1.
      destruct (bit_test rb i) eqn:Hb; [|done].
      apply Hcover in Hb. lia.
    + intros i Hi Hp. apply Hfree; [|done|done]. apply Hcover in Hi. lia.
  - unfold job_pos. fold rb. rewrite bit_set_count_clear by done. lia.
  - unfold step_pos. fold rb. rewrite bit_set_count_clear; [done|].
    intros i Hi. by rewrite bit_test_and, Hlow.
  - lia.
  - done.
  - intros i Hi Hb. fold rb in Hb. by rewrite Hlow in Hb.
Qed.

(** X16. For an exclusive request, the nodes _pick_step_nodes returns
    number at most max_nodes (when max_nodes is set) among the nodes of the
    job's resources, and each of them has room for at least one task of
    the request: its avail_tasks, computed from the free CPUs, the free
    memory and the gres of the node, is positive. *)
Theorem pick_step_nodes_exclusive_limits now (job : Job.t G) spec gres cpt g
    picked rc spec' job' g' :
  let rb := Res.node_bitmap (Job.job_resrcs job) in
  _pick_step_nodes conf cluster plug now job spec gres cpt g =
    Ok (Some picked, rc, spec', job') g' ->
  Req.exclusive spec <> 0 ->
  Z.of_nat (bit_size rb) < 4294967295 ->
  0 <= Req.max_nodes spec ->
  (Req.max_nodes spec <> 0 ->
   Z.of_nat (bit_set_count (bit_and rb picked)) <= Req.max_nodes spec) /\
  (forall i, bit_test rb i = true -> bit_test picked i = true ->
     has_free_task plug job' spec' gres cpt i).
Proof.
  intros rb Hrun Hexcl Hsize Hsign. unfold _pick_step_nodes in Hrun.
  destruct (Job.node_bitmap job) as [jb|]; [|by inv_run].
  destruct (_ && _); [by inv_run|].
  apply bind_Ok in Hrun as (spec1 & g1 & Hspec1 & Hrun).
  assert (Req.exclusive spec1 = Req.exclusive spec /\
          Req.max_nodes spec1 = Req.max_nodes spec) as [Hex1 Hmax1].
  { destruct (_ && _) in Hspec1; inv_run; done. }
  apply bind_Ok in Hrun as ([early job1] & g2 & Hfirst & Hrun).
  apply first_step_check_frame in Hfirst as ((_ & Hres & _) & _).
  destruct early as [rc0|]; [by inv_run|].
  apply Z.eqb_neq in Hexcl. rewrite Hex1, Hexcl in Hrun. simpl in Hrun.
  apply bind_Ok in Hrun as ([pk rc1] & g3 & Hpick & Hrun). inv_run.
  apply pick_exclusive_count in Hpick; rewrite ?Hres, ?Hmax1; try done.
  by rewrite Hres, Hmax1 in Hpick.
Qed.
(** ** The CPU count of a set of nodes *)

Lemma array_get_Some a i v g :
  0 <= i -> a !! Z.to_nat i = Some v -> array_get a i g = Ok v g.
Proof.
  intros Hi Hv. unfold array_get.
  destruct (Z.ltb_spec i 0); [lia|]. by rewrite Hv.
Qed.

Lemma cpus_total_nonneg (job : Job.t G) usable nodes :
  (forall i, i ∈ nodes ->
     exists c, counted_cpus job usable i = Some c /\ 0 <= c) ->
  0 <= cpus_total job usable nodes.
Proof.
  induction nodes as [|i l IH]; intros Hall; simpl; [lia|].
  destruct (Hall i) as (c & -> & ?); [by left|]. simpl.
  assert (0 <= cpus_total job usable l); [|lia].
  apply IH. intros j Hj. apply Hall. by right.
Qed.

Lemma count_cpus_loop_sum (job : Job.t G) jb bitmap usable g n :
  let rb := Res.node_bitmap (Job.job_resrcs job) in
  forall m sum,
    0 <= sum ->
    (forall i, i ∈ List.filter (is_counted job jb bitmap) (seq m n) ->
       exists c, counted_cpus job usable i = Some c /\ 0 <= c) ->
    sum + cpus_total job usable
            (List.filter (is_counted job jb bitmap) (seq m n)) < 2147483648 ->
    count_cpus_loop job jb bitmap usable (seq m n) (job_pos rb m) sum g =
    Ok (sum + cpus_total job usable
                (List.filter (is_counted job jb bitmap) (seq m n))) g.
Proof.
  intros rb. induction n as [|n IH]; intros m sum Hsum Hall Htot.
  { simpl. unfold ret. f_equal. lia. }
  simpl in *. fold rb.
  destruct (is_counted job jb bitmap m) eqn:Hcnt; unfold is_counted in Hcnt;
    fold rb in Hcnt.
  2:{ destruct (bit_test rb m) eqn:Hjob; simpl in *.
      - replace (job_pos rb m + 1) with (job_pos rb (S m))
          by (rewrite job_pos_S, Hjob; lia).
        apply andb_false_iff in Hcnt as [->| ->]; simpl;
          rewrite ?orb_true_r; by apply IH.
      - replace (job_pos rb m) with (job_pos rb (S m))
          by (rewrite job_pos_S, Hjob; lia).
        by apply IH. }
  apply andb_prop in Hcnt as [[Hjob Hjb]%andb_prop Hbm].
  rewrite Hjob, Hjb, Hbm. simpl in *.
  destruct (Hall m) as (c & Hc & Hpos); [by left|].
  rewrite Hc in Htot |- *. simpl in Htot |- *.
  assert (0 <= cpus_total job usable
                 (List.filter (is_counted job jb bitmap) (seq (S m) n)))
    as Hrest.
  { apply cpus_total_nonneg. intros i Hi. apply Hall. by right. }
  unfold bind.
  assert (match usable with
          | Some usable0 => array_get usable0 (Z.of_nat m)
          | None => array_get (Res.cpus (Job.job_resrcs job))
                              (job_pos rb m + 1 - 1)
          end g = Ok c g) as ->.
  { unfold counted_cpus in Hc. fold rb in Hc. destruct usable as [u|].
    - apply array_get_Some; [lia|]. by rewrite Nat2Z.id.
    - apply array_get_Some.
      + unfold job_pos. lia.
      + rewrite <- Hc. f_equal. lia. }
  rewrite i32_id by lia.
  replace (job_pos rb m + 1) with (job_pos rb (S m))
    by (rewrite job_pos_S, Hjob; lia).
  rewrite IH; [f_equal; lia|lia| |lia].
  intros i Hi. apply Hall. by right.
Qed.

(** X17. _count_cpus only reads, and it returns the sum, over the nodes
    of the node table that are in the job's resources, in the job's node
    bitmap and in the bitmap given, of usable_cpu_cnt[i] when that array
    is given and otherwise of the job's CPU count at the position of the
    node among the nodes of the job's resources - as long as the entries
    exist, are not negative and the sum fits an int. When no node is in
    both the job's bitmap and the bitmap given it returns 0 without
    reading any array. *)
Theorem count_cpus_sum (job : Job.t G) jb bitmap usable g :
  ((forall i, i ∈ counted_nodes cluster job jb bitmap ->
      exists c, counted_cpus job usable i = Some c /\ 0 <= c) ->
   cpus_total job usable (counted_nodes cluster job jb bitmap) < 2147483648 ->
   _count_cpus cluster job jb bitmap usable g =
   Ok (cpus_total job usable (counted_nodes cluster job jb bitmap)) g) /\
  ((forall i, bit_test jb i && bit_test bitmap i = false) ->
   _count_cpus cluster job jb bitmap usable g = Ok 0 g).
Proof.
  assert (forall total,
    (forall i, i ∈ counted_nodes cluster job jb bitmap ->
       exists c, counted_cpus job usable i = Some c /\ 0 <= c) ->
    cpus_total job usable (counted_nodes cluster job jb bitmap) < 2147483648 ->
    total = cpus_total job usable (counted_nodes cluster job jb bitmap) ->
    _count_cpus cluster job jb bitmap usable g = Ok total g) as Hsum.
  { intros total Hall Htot ->. unfold _count_cpus, counted_nodes in *.
    pose proof (count_cpus_loop_sum job jb bitmap usable g
                  (Cluster.node_record_count cluster) 0%nat 0) as Hloop.
    unfold job_pos in Hloop. rewrite take_0 in Hloop.
    change (Z.of_nat (bit_set_count [])) with 0 in Hloop.
    rewrite !Z.add_0_l in Hloop.
    rewrite Hloop; [done|lia|done|lia]. }
  split; [intros Hall Htot; by apply Hsum|].
  intros Hnone.
  assert (counted_nodes cluster job jb bitmap = []) as Hempty.
  { unfold counted_nodes.
    induction (seq 0 (Cluster.node_record_count cluster)) as [|i l IH];
      [done|].
    simpl. unfold is_counted at 1. rewrite <- andb_assoc, Hnone, andb_false_r.
    done. }
  apply Hsum; rewrite Hempty; simpl; [|lia|done].
  intros i Hi. by apply elem_of_nil in Hi.
Qed.
(** ** A step that is created and then completed *)

Lemma same_owner_refl (job : Job.t G) : same_owner job job.
Proof. by split. Qed.

Lemma same_owner_trans (j1 j2 j3 : Job.t G) :
  same_owner j1 j2 -> same_owner j2 j3 -> same_owner j1 j3.
Proof. intros [? ?] [? ?]. split; congruence. Qed.

Lemma alloc_loop_keeps pick layout nodes :
  forall jni sni (step : Step.t G) (job : Job.t G) g step1 job1 g1,
    alloc_loop conf plug pick layout nodes jni sni step job g =
      Ok (step1, job1) g1 ->
    same_owner job job1 /\ Step.step_layout step1 = Step.step_layout step.
Proof.
  induction nodes as [|i rest IH]; intros jni sni step job g step1 job1 g1;
    simpl; intros H; [by inv_run|].
  destruct (negb (bit_test (Res.node_bitmap _) i)); [by eapply IH|].
  destruct (negb (bit_test (Step.step_node_bitmap step) i)); [by eapply IH|].
  destruct (_ >=? _); [done|].
  apply bind_Ok in H as (tasks & g2 & _ & H).
  apply bind_Ok in H as (used & g3 & _ & H).
  apply bind_Ok in H as (cu & g4 & _ & H).
  destruct (Plug.gres_plugin_step_alloc _ _ _ _ _) as [sg jg].
  apply bind_Ok in H as (res2 & g5 & _ & H).
  apply bind_Ok in H as ([step2 res3] & g6 & Hcores & H).
  assert (Step.step_layout step2 = Step.step_layout step) as Hlay.
  { destruct pick.
    - apply pick_step_cores_frame in Hcores as [[b ->] _]. done.
    - by inv_run. }
  destruct (_ =? _).
  - by inv_run.
  - apply IH in H as [[? ?] ->]. by repeat split.
Qed.

Lemma step_alloc_lps_keeps (step : Step.t G) (job : Job.t G) g step1 job1 g1 :
  step_alloc_lps conf plug step job g = Ok (step1, job1) g1 ->
  same_owner job job1 /\ Step.step_layout step1 = Step.step_layout step.
Proof.
  unfold step_alloc_lps. intros H.
  destruct (Step.step_layout step) eqn:Hl; [|by inv_run].
  destruct (_ =? -1); [by inv_run|].
  destruct (if Conf.have_bg conf then _ else _) as [pick s1] eqn:Hpick.
  assert (Step.step_layout s1 = Step.step_layout step) as Hs1.
  { destruct (Conf.have_bg conf); [by inv_run|].
    destruct (is_Some_b _); [by inv_run|].
    destruct (_ || _); by inv_run. }
  apply bind_Ok in H as (s2 & g2 & Hs2 & H).
  assert (Step.step_layout s2 = Step.step_layout s1) as Hs2'.
  { destruct (_ && _ && _) in Hs2; by inv_run. }
  apply alloc_loop_keeps in H as [Hown ->]. split; [done|]. congruence.
Qed.

Lemma first_step_check_owner now (job : Job.t G) node_bitmap g early job' g' :
  first_step_check cluster now job node_bitmap g = Ok (early, job') g' ->
  same_owner job job'.
Proof.
  unfold first_step_check, extend_end_time. intros H.
  destruct (Job.next_step_id job =? 0).
  - destruct (match Job.details job with Some p => p | None => false end).
    + by inv_run.
    + apply bind_Ok in H as (ready & g1 & _ & H).
      destruct ready; inv_run; [done|]. by destruct (negb _).
  - by inv_run.
Qed.

Lemma pick_step_nodes_owner now (job : Job.t G) spec gres cpt g
    picked rc spec' job' g' :
  _pick_step_nodes conf cluster plug now job spec gres cpt g =
    Ok (picked, rc, spec', job') g' ->
  same_owner job job'.
Proof.
  unfold _pick_step_nodes. intros H.
  destruct (Job.node_bitmap job) as [bm|]; [|by inv_run].
  destruct (_ && _); [by inv_run|].
  apply bind_Ok in H as (spec1 & g1 & _ & H).
  apply bind_Ok in H as ([early job1] & g2 & Hfirst & H).
  apply first_step_check_owner in Hfirst.
  destruct early as [rc0|]; [by inv_run|].
  destruct (negb (Req.exclusive spec1 =? 0)).
  - apply bind_Ok in H as ([pk rc1] & g3 & _ & H). by inv_run.
  - apply bind_Ok in H as ([[pk rc1] spec2] & g3 & _ & H). by inv_run.
Qed.

Lemma step_create_launch_alloc now k (step : Step.t G) (job : Job.t G)
    spec node_list cpt g rc spec' job' s g' :
  step_create_launch conf plug now k step job spec node_list cpt g =
    Ok (rc, spec', job', Some s) g' ->
  exists step4 g0 jobA g0',
    step_alloc_lps conf plug step4 job g0 = Ok (s, jobA) g0' /\
    job' = store_step k s jobA /\
    Step.step_node_bitmap step4 = Step.step_node_bitmap step /\
    Step.cpus_per_task step4 = Step.cpus_per_task step.
Proof.
  unfold step_create_launch. intros H.
  apply bind_Ok in H as ([layout step1] & g1 & Hlay & H).
  assert (Step.step_node_bitmap step1 = Step.step_node_bitmap step /\
          Step.cpus_per_task step1 = Step.cpus_per_task step) as [Hb1 Hc1].
  { apply step_layout_create_frame in Hlay as [->| ->]; by repeat split. }
  destruct layout as [layout|].
  2:{ apply bind_Ok in H as ([? ?] & ? & _ & H). by inv_run. }
  apply bind_Ok in H as (spec1 & g2 & _ & H).
  set (step2 := Step.set_step_layout (Some layout) step1) in *.
  set (step3 := if negb (Req.resv_port_cnt spec1 =? NO_VAL16)
                then Step.set_resv_port_cnt (Req.resv_port_cnt spec1) step2
                else step2) in *.
  assert (Step.step_node_bitmap step3 = Step.step_node_bitmap step /\
          Step.cpus_per_task step3 = Step.cpus_per_task step) as [Hb3 Hc3].
  { unfold step3, step2. destruct (negb _); by repeat split. }
  destruct (negb (rc_is_success _)).
  { apply bind_Ok in H as ([? ?] & ? & _ & H). by inv_run. }
  destruct (Plug.switch_alloc_jobinfo plug) as [sw|]; [|done].
  destruct (Plug.switch_build_jobinfo _ _ _ _ _ _).
  { apply bind_Ok in H as (? & ? & _ & H).
    apply bind_Ok in H as ([? ?] & ? & _ & H). by inv_run. }
  apply bind_Ok in H as ([step5 job1] & g3 & Halloc & H).
  apply ret_Ok in H as [[= <- <- <- <-] <-].
  eexists _, _, _, _. split; [exact Halloc|]. by repeat split.
Qed.

Lemma step_create_finish_alloc now k (step : Step.t G) (job : Job.t G)
    spec node_list cpt g rc spec' job' s g' :
  step_create_finish conf plug now k step job spec false node_list cpt g =
    Ok (rc, spec', job', Some s) g' ->
  debited_by_alloc conf plug job job' s /\ same_owner job job'.
Proof.
  intros Hrun.
  pose proof (step_create_finish_record _ _ _ _ _ _ _ _ _ _ _ _ _ _ Hrun)
    as (_ & Hbm & _ & _ & _ & Hcpt & _).
  unfold step_create_finish in Hrun. simpl in Hrun.
  apply bind_Ok in Hrun as ([[[rc1 spec1] job1] launched] & g1 & Hl & Hrun).
  destruct launched as [step1|]; [|by inv_run].
  apply step_create_launch_alloc in Hl
    as (step4 & g0 & jobA & g0' & Halloc & -> & Hb4 & Hc4).
  destruct (Plug.checkpoint_alloc_jobinfo plug) as [c|]; [|done].
  apply ret_Ok in Hrun as [[= <- <- <- <-] <-].
  pose proof (step_alloc_lps_keeps _ _ _ _ _ _ Halloc) as [Hown Hlay].
  split; [|done].
  exists step4, job, g0, step1, jobA, g0'.
  split; [exact Halloc|]. split; [done|]. split; [done|].
  split; [by repeat split|]. split; [by rewrite <- Hlay|].
  split; [by rewrite Hb4, <- Hbm|by rewrite Hc4, <- Hcpt].
Qed.

Lemma debited_by_alloc_from (j0 j job' : Job.t G) s :
  Job.job_resrcs j = Job.job_resrcs j0 ->
  debited_by_alloc conf plug j job' s -> debited_by_alloc conf plug j0 job' s.
Proof.
  intros Hres (step4 & jobB & g0 & step5 & jobA & g0' & Halloc & HB & Hrest).
  exists step4, jobB, g0, step5, jobA, g0'.
  split; [done|]. split; [congruence|done].
Qed.

Lemma step_create_record_alloc now (job : Job.t G) spec gres nodeset
    cpt orig g rc spec' job' s g' :
  step_create_record conf plug now job spec false gres nodeset cpt orig g =
    Ok (rc, spec', job', Some s) g' ->
  debited_by_alloc conf plug job job' s /\ same_owner job job'.
Proof.
  unfold step_create_record. intros H.
  apply bind_Ok in H as ([created job1] & g1 & Hc & H).
  unfold _create_step_record in Hc.
  destruct (_ >=? STEP_ID_LIMIT); [by inv_run|].
  inv_run. simpl in H.
  destruct (match Req.node_list spec with Some _ => _ | None => _ end)
    as [node_list spec1].
  simpl in H.
  destruct (_ || _ || _).
  { apply step_create_finish_alloc in H as [Hdeb Hown].
    split; [by eapply debited_by_alloc_from; [|exact Hdeb]|exact Hown]. }
  destruct (_ && _).
  { apply bind_Ok in H as (? & g2 & _ & H).
    apply bind_Ok in H as ([? ?] & g3 & _ & H). by inv_run. }
  apply step_create_finish_alloc in H as [Hdeb Hown].
  split; [by eapply debited_by_alloc_from; [|exact Hdeb]|exact Hown].
Qed.

Lemma step_create_job_alloc now (job : Job.t G) spec g rc spec' job' s g' :
  step_create_job conf cluster plug now job spec false g =
    Ok (rc, spec', job', Some s) g' ->
  debited_by_alloc conf plug job job' s /\ same_owner job job'.
Proof.
  unfold step_create_job. intros H.
  destruct (_ <? 1); [by inv_run|].
  destruct (Plug.gres_plugin_step_state_validate _ _ _) as [i gres].
  destruct (negb (rc_is_success i)); [by inv_run|].
  apply bind_Ok in H as ([[[nodeset rc3] spec3] job2] & g2 & Hpick & H).
  destruct nodeset as [nodeset|]; [|by inv_run].
  pose proof (pick_step_nodes_frame _ _ _ _ _ _ _ _ _ _ _ Hpick)
    as ((_ & Hres & _) & _).
  apply pick_step_nodes_owner in Hpick.
  destruct (task_count_too_big _ _ _).
  { apply bind_Ok in H as (? & g3 & _ & H). by inv_run. }
  apply step_create_record_alloc in H as [Hdeb Hown].
  split.
  - eapply debited_by_alloc_from; [|exact Hdeb]. exact Hres.
  - eapply same_owner_trans; [|exact Hown]. exact Hpick.
Qed.

Lemma step_alloc_lps_mem (step : Step.t G) (job : Job.t G) layout g
    step1 job1 g1 :
  step_alloc_lps conf plug step job g = Ok (step1, job1) g1 ->
  Step.step_layout step = Some layout ->
  mem_accounted conf step (Job.job_resrcs job) = true ->
  Step.mem_per_cpu step1 = Step.mem_per_cpu step.
Proof.
  intros Halloc Hlayout Hmem.
  destruct (Z.eq_dec (bit_ffs (Res.node_bitmap (Job.job_resrcs job))) (-1))
    as [Hempty|Hne].
  - unfold step_alloc_lps in Halloc. rewrite Hlayout, Hempty in Halloc.
    simpl in Halloc. by inv_run.
  - apply step_alloc_lps_pairs with (layout := layout) in Halloc
      as (_ & _ & _ & _ & _ & _ & Hmpc & _); [|done|done].
    by apply Hmpc.
Qed.

Lemma step_create_job_cpus_per_task now (job : Job.t G) spec batch g
    rc spec' job' s g' :
  step_create_job conf cluster plug now job spec batch g =
    Ok (rc, spec', job', Some s) g' ->
  0 <= Step.cpus_per_task s.
Proof.
  unfold step_create_job. intros H.
  destruct (_ <? 1); [by inv_run|].
  destruct (Plug.gres_plugin_step_state_validate _ _ _) as [i gres].
  destruct (negb (rc_is_success i)); [by inv_run|].
  apply bind_Ok in H as ([[[nodeset rc3] spec3] job2] & g2 & _ & H).
  destruct nodeset as [nodeset|]; [|by inv_run].
  destruct (task_count_too_big _ _ _).
  { apply bind_Ok in H as (? & g3 & _ & H). by inv_run. }
  apply step_create_record_fields in H as (_ & _ & _ & -> & _).
  apply u16_range.
Qed.

(** X18. When a step that step_create has created is completed by
    job_step_complete, the completion answers SLURM_SUCCESS, the step
    list of the job is the one from before the creation, and cpus_used[]
    and memory_used[] are what they were before the creation - provided
    the debits of the step fitted the counters (uint16_t for CPUs,
    uint32_t for memory) at its nodes. The next step id stays moved on by
    one. The statement is about these four fields only; the other fields
    of the job are not compared. *)
Theorem step_create_complete_round_trip now now' (jobs : list (Job.t G)) spec
    g jk job rc spec' jobs1 s g1 uid rc' jobs2 g2 layout :
  find_job_record jobs (Req.job_id spec) = Some jk ->
  jobs !! jk = Some job ->
  fresh_id (Job.step_list job) (Job.next_step_id job) ->
  may_complete plug job uid ->
  step_create conf cluster plug now jobs spec false g =
    Ok (rc, spec', jobs1, Some s) g1 ->
  job_step_complete conf plug now' jobs1 (Req.job_id spec) (Step.step_id s)
                    uid g1 = Ok (rc', jobs2) g2 ->
  Step.step_layout s = Some layout ->
  let res := Job.job_resrcs job in
  let jb := Res.node_bitmap res in
  let sb := Step.step_node_bitmap s in
  1 <= Layout.node_cnt layout < 4294967296 ->
  0 <= Step.mem_per_cpu s ->
  Forall (fun t => 0 <= t) (Layout.tasks layout) ->
  (forall i tasks used,
     step_node res s layout i ->
     Layout.tasks layout !! Z.to_nat (step_pos jb sb i) = Some tasks ->
     Res.cpus_used res !! Z.to_nat (job_pos jb i) = Some used ->
     0 <= used /\ used + tasks * Step.cpus_per_task s < 65536) ->
  (forall i tasks mem_used,
     step_node res s layout i ->
     Layout.tasks layout !! Z.to_nat (step_pos jb sb i) = Some tasks ->
     memory_used_at res (Z.to_nat (job_pos jb i)) = Some mem_used ->
     0 <= mem_used /\
     mem_used + Step.mem_per_cpu s * (tasks * Step.cpus_per_task s) <
     4294967296) ->
  rc' = SLURM_SUCCESS /\
  exists job2,
    jobs2 = <[ jk := job2 ]> jobs /\
    Job.step_list job2 = Job.step_list job /\
    Res.cpus_used (Job.job_resrcs job2) = Res.cpus_used res /\
    Res.memory_used (Job.job_resrcs job2) = Res.memory_used res /\
    Job.next_step_id job2 = u32 (Job.next_step_id job + 1).
Proof.
  intros Hfind Hjob Hfresh Hmay Hcreate Hcomplete Hlayout res jb sb
         Hcnt Hmpc Htasks Hcpus Hmems.
  apply step_create_inv in Hcreate
    as [(_ & _ & _ & Hnone)|(jk0 & job0 & job' & g0 & Hf & Hj & -> & Hrun)];
    [done|].
  rewrite Hfind in Hf. injection Hf as <-.
  rewrite Hjob in Hj. injection Hj as <-.
  destruct Hrun as [(Hnone & _)|Hrun]; [done|].
  pose proof (step_create_job_outcome _ _ _ _ _ _ _ _ _ _ Hfresh Hrun)
    as (_ & _ & _ & Hid & Hlist & Hlim & Hnext).
  pose proof (step_create_job_cpus_per_task _ _ _ _ _ _ _ _ _ _ Hrun) as Hcpt.
  apply step_create_job_alloc in Hrun as [Hdeb [Hjid Huid]].
  destruct Hdeb as (step4 & jobB & ga & step5 & jobA & ga' & Halloc & HB &
                    HA & Hshape & Hlay4 & Hbm4 & Hcpt4).
  assert (Step.step_id s <> NO_VAL) as Hne.
  { rewrite Hid. unfold STEP_ID_LIMIT, NO_VAL in *. lia. }
  assert (find_job_record (<[ jk := job' ]> jobs) (Req.job_id spec) = Some jk)
    as Hfind'.
  { by erewrite find_job_record_insert. }
  assert ((<[ jk := job' ]> jobs) !! jk = Some job') as Hjob'.
  { apply list_lookup_insert_eq. by eapply lookup_lt_Some. }
  assert (may_complete plug job' uid) as Hmay'.
  { unfold may_complete in *. by rewrite Huid. }
  assert (step_index (Job.step_list job') (Step.step_id s) =
          Some (length (Job.step_list job))) as Hidx.
  { rewrite Hlist. apply step_index_app_last; [by rewrite Hid|done]. }
  assert (Job.step_list job' !! length (Job.step_list job) = Some s) as Hsk.
  { rewrite Hlist. by rewrite lookup_app_r, Nat.sub_diag. }
  pose proof Hcomplete as Hinv. unfold job_step_complete in Hinv.
  rewrite Hfind' in Hinv. unfold bind at 1 in Hinv. rewrite Hjob' in Hinv.
  simpl in Hinv. rewrite (may_complete_test _ _ Hmay') in Hinv.
  rewrite (find_step_record_index _ _ Hne), Hidx in Hinv.
  unfold bind at 1 in Hinv. rewrite Hsk in Hinv. simpl in Hinv.
  apply bind_Ok in Hinv as ([s1 j2] & gd & Hdealloc & _).
  pose proof (step_dealloc_lps_frame _ _ _ _ _ _ Hdealloc)
    as (Hl2 & _ & _ & _ & Hn2 & Hid1 & _).
  simpl in Hl2, Hn2.
  rewrite (job_step_complete_found _ _ _ _ _ _ _ _ _ _ _ _ _ Hfind' Hjob'
             Hmay' Hne Hidx Hsk Hdealloc Hl2 Hid1) in Hcomplete.
  injection Hcomplete as <- <- _. split; [done|].
  eexists. split; [by rewrite list_insert_insert_eq|]. simpl.
  split; [by rewrite Hlist, delete_app_last|].
  assert (Step.step_layout step4 = Some layout) as Hlayout4 by congruence.
  destruct (alloc_dealloc_restores step4 jobB layout ga step5 jobA ga' s
              (Job.set_derived_ec
                 (MAX (Job.derived_ec job') (Step.exit_code s)) job')
              g1 s1 j2 gd Halloc Hshape HA Hdealloc Hlayout4)
    as [Hc Hm].
  - done.
  - by rewrite Hcpt4.
  - intros Hacc.
    rewrite <- (step_alloc_lps_mem _ _ _ _ _ _ _ Halloc Hlayout4 Hacc).
    destruct Hshape as (_ & _ & _ & <- & _). done.
  - done.
  - rewrite HB, Hbm4, Hcpt4. intros i tasks used Hnode.
    apply Hcpus. unfold step_node in *. by rewrite <- Hbm4.
  - rewrite HB, Hbm4, Hcpt4. intros i tasks mem_used Hacc Hnode.
    pose proof (step_alloc_lps_mem _ _ _ _ _ _ _ Halloc Hlayout4) as E.
    rewrite HB in E. rewrite <- (E Hacc).
    destruct Hshape as (_ & _ & _ & <- & _).
    apply Hmems. unfold step_node in *. by rewrite <- Hbm4.
  - rewrite Hc, Hm, HB. do 2 (split; [done|]). by rewrite Hn2.
Qed.
(** ** Before the first step of a job *)

Lemma first_step_nodes_ready_ok node_bitmap g nodes :
  Forall (fun i => bit_test node_bitmap i = true ->
                   (i < Cluster.node_record_count cluster)%nat) nodes ->
  first_step_nodes_ready cluster nodes node_bitmap g =
  Ok (negb (existsb (fun i => bit_test node_bitmap i && node_waking cluster i)
                    nodes)) g.
Proof.
  induction nodes as [|i rest IH]; intros Hall; [done|].
  apply Forall_cons in Hall as [Hi Hrest]. simpl.
  destruct (bit_test node_bitmap i) eqn:Hb; simpl; [|by apply IH].
  unfold node_waking.
  destruct (lookup_lt_is_Some_2 (Cluster.node_record_table cluster) i
              (Hi eq_refl)) as [node Hnode].
  rewrite Hnode. unfold bind. simpl.
  destruct (Node.power_save node || Node.no_respond node); [done|].
  by apply IH.
Qed.

Lemma first_step_range node_bitmap :
  let nodes :=
    range_incl (bit_ffs node_bitmap)
               (Z.of_nat (Cluster.node_record_count cluster) - 1) in
  Forall (fun i => bit_test node_bitmap i = true ->
                   (i < Cluster.node_record_count cluster)%nat) nodes /\
  existsb (fun i => bit_test node_bitmap i && node_waking cluster i) nodes =
  nodes_waking cluster node_bitmap.
Proof.
  intros nodes. subst nodes. unfold range_incl, nodes_waking.
  set (count := Cluster.node_record_count cluster).
  assert (forall i, bit_test node_bitmap i = true ->
            0 <= bit_ffs node_bitmap /\
            (Z.to_nat (bit_ffs node_bitmap) <= i)%nat) as Hffs.
  { intros i Hi. unfold bit_ffs.
    destruct (bit_ffs_from_spec 0 node_bitmap)
      as [[_ Hall]|(d & -> & _ & Hlow)].
    - by rewrite Hall in Hi.
    - split; [lia|]. destruct (Nat.le_gt_cases d i); [lia|].
      by rewrite Hlow in Hi. }
  split.
  - apply Forall_forall. intros i Hi Hb. apply list_elem_of_In, in_seq in Hi.
    destruct (Hffs i Hb). lia.
  - apply eq_true_iff_eq. rewrite !existsb_exists.
    assert (forall i,
      bit_test node_bitmap i && node_waking cluster i = true ->
      bit_test node_bitmap i = true /\ (i < count)%nat) as Hf.
    { intros i [Hb Hw]%andb_prop. split; [done|]. unfold node_waking in Hw.
      destruct (Cluster.node_record_table cluster !! i) eqn:E; [|done].
      by eapply lookup_lt_Some. }
    split; intros (i & Hi & Hfi); exists i; (split; [|done]);
      apply in_seq; apply in_seq in Hi;
      destruct (Hf i Hfi) as [Hb Hlt]; destruct (Hffs i Hb); lia.
Qed.

Lemma first_step_check_run now (job : Job.t G) jb g :
  first_step_check cluster now job jb g =
  Ok (if Job.next_step_id job =? 0 then
        if prolog_running job then (Some ESLURM_PROLOG_RUNNING, job)
        else if nodes_waking cluster jb
             then (Some ESLURM_NODES_BUSY, extend_end_time now job)
             else (None,
                   Job.set_job_state
                     (Z.ldiff (Job.job_state job) JOB_CONFIGURING) job)
      else (None, job)) g.
Proof.
  unfold first_step_check, prolog_running.
  destruct (Job.next_step_id job =? 0); [|done].
  destruct (match Job.details job with Some r => r | None => false end);
    [done|].
  destruct (first_step_range jb) as [Hall Hex].
  unfold bind. rewrite (first_step_nodes_ready_ok jb g _ Hall), Hex.
  by destruct (nodes_waking cluster jb).
Qed.

(** X19. Before the first step of a job (next_step_id 0) _pick_step_nodes
    picks nothing while the prolog runs (ESLURM_PROLOG_RUNNING, job
    untouched) or while a node of the job is powering up or not
    responding (ESLURM_NODES_BUSY, and end_time is moved to now +
    time_limit * 60 unless the limit is INFINITE); otherwise it clears
    JOB_CONFIGURING in job_state and writes nothing else of the job. For
    later steps the job record is not written at all. *)
Theorem pick_step_nodes_first_step now (job : Job.t G) spec gres cpt g jb :
  Job.node_bitmap job = Some jb ->
  Req.max_nodes spec = 0 \/ Req.min_nodes spec <= Req.max_nodes spec ->
  let run := _pick_step_nodes conf cluster plug now job spec gres cpt g in
  (Job.next_step_id job = 0 -> prolog_running job = true ->
   exists spec1 g1,
     run = Ok (None, ESLURM_PROLOG_RUNNING, spec1, job) g1) /\
  (Job.next_step_id job = 0 -> prolog_running job = false ->
   nodes_waking cluster jb = true ->
   exists spec1 g1,
     run = Ok (None, ESLURM_NODES_BUSY, spec1,
               if Job.time_limit job =? INFINITE then job
               else Job.set_end_time
                      (now + u32 (Job.time_limit job * 60)) job) g1) /\
  (forall picked rc spec' job' g',
     run = Ok (picked, rc, spec', job') g' ->
     (Job.next_step_id job <> 0 -> job' = job) /\
     (Job.next_step_id job = 0 -> prolog_running job = false ->
      nodes_waking cluster jb = false ->
      job' = Job.set_job_state
               (Z.ldiff (Job.job_state job) JOB_CONFIGURING) job)).
Proof.
  intros Hjb Hcount run.
  set (first :=
    if Job.next_step_id job =? 0 then
      if prolog_running job then (Some ESLURM_PROLOG_RUNNING, job)
      else if nodes_waking cluster jb
           then (Some ESLURM_NODES_BUSY, extend_end_time now job)
           else (None,
                 Job.set_job_state
                   (Z.ldiff (Job.job_state job) JOB_CONFIGURING) job)
    else (None, job)).
  assert (exists spec1 g1 (rest : Job.t G -> M pick_result),
    run = match first.1 with
          | Some rc => Ok (None, rc, spec1, first.2) g1
          | None => rest first.2 g1
          end /\
    forall job1 picked rc spec' job' g',
      rest job1 g1 = Ok (picked, rc, spec', job') g' -> job' = job1)
    as (spec1 & g1 & rest & Hrun & Hkeep).
  { subst run. unfold _pick_step_nodes. rewrite Hjb.
    assert (negb (Req.max_nodes spec =? 0) &&
            (Req.max_nodes spec <? Req.min_nodes spec) = false) as ->.
    { destruct Hcount as [->|Hle]; [done|].
      apply andb_false_intro2. lia. }
    set (reset := if _ && _ then _ else _).
    assert (exists spec1 g1, reset g = Ok spec1 g1) as (spec1 & g1 & Hreset).
    { subst reset. destruct (_ && _); by eexists _, _. }
    exists spec1, g1,
      (fun job1 =>
         if negb (Req.exclusive spec1 =? 0)
         then do (picked0, rc0) <-
                pick_exclusive cluster plug job1 jb spec1 gres cpt
                  (bit_and (bit_copy jb) (Cluster.up_node_bitmap cluster)) ;;
              ret (picked0, rc0, spec1, job1)
         else do (picked0, rc0, spec2) <-
                pick_shared conf cluster plug job1 jb spec1 gres cpt
                  (bit_and (bit_copy jb) (Cluster.up_node_bitmap cluster)) ;;
              ret (picked0, rc0, spec2, job1)).
    split.
    - unfold bind at 1. rewrite Hreset.
      unfold bind at 1. rewrite first_step_check_run. fold first.
      by destruct first as [[rc0|] job1].
    - intros job1 picked rc spec' job' g' H. simpl in H.
      destruct (negb (Req.exclusive spec1 =? 0)).
      + apply bind_Ok in H as ([? ?] & ? & _ & H). by inv_run.
      + apply bind_Ok in H as ([[? ?] ?] & ? & _ & H). by inv_run. }
  clearbody run. subst run. split; [|split].
  - intros Hn Hp. exists spec1, g1. apply Z.eqb_eq in Hn.
    subst first. by rewrite Hn, Hp.
  - intros Hn Hp Hw. exists spec1, g1. apply Z.eqb_eq in Hn.
    subst first. rewrite Hn, Hp, Hw. simpl. unfold extend_end_time.
    destruct (Job.time_limit job =? INFINITE); reflexivity.
  - intros picked rc spec' job' g' H. split.
    + intros Hn. apply Z.eqb_neq in Hn. subst first. rewrite Hn in H.
      by apply Hkeep in H.
    + intros Hn Hp Hw. apply Z.eqb_eq in Hn. subst first.
      rewrite Hn, Hp, Hw in H. by apply Hkeep in H.
Qed.
(** ** Partial completion: refusals, batch steps and the switch handle *)

Lemma step_partial_comp_step_switch (step : Step.t G) req g
    rc step' rem max_rc g' :
  step_partial_comp_step step req g = Ok (rc, step', rem, max_rc) g' ->
  Step.batch_step step = false ->
  (rem = Some 0 -> Step.switch_job step' = None) /\
  (rem <> Some 0 -> Step.switch_job step' = Step.switch_job step) /\
  (rc <> SLURM_SUCCESS -> step' = step /\ rem = None /\ max_rc = None).
Proof.
  unfold step_partial_comp_step. intros H Hbatch. rewrite Hbatch in H.
  destruct (_ <? _).
  { apply bind_Ok in H as (? & ? & _ & H). inv_run. by repeat split. }
  destruct (match Step.exit_node_bitmap step with
            | Some _ => _ | None => _ end) as [[b code]|].
  2:{ apply bind_Ok in H as (? & ? & _ & H). inv_run. by repeat split. }
  apply ret_Ok in H as [[= <- <- <- <-] <-].
  destruct (Z.eqb_spec (Z.of_nat (bit_clear_count
              (bit_nset b (Z.to_nat (Cmsg.range_first req))
                        (Z.to_nat (Cmsg.range_last req))))) 0) as [E|E].
  - split; [done|]. split; [|done]. intros Hne. by rewrite E in Hne.
  - split; [|by split]. intros [= Hz]. done.
Qed.

(** X20. step_partial_comp refuses, without touching the job table or
    writing *rem and *max_rc, a report for an unknown job
    (ESLURM_INVALID_JOB_ID), for a pending job (ESLURM_JOB_PENDING), from a
    caller who is neither a slurm user nor the owner
    (ESLURM_USER_ID_MISSING), and for an unknown step
    (ESLURM_INVALID_JOB_ID), in this order. A batch step is done at once:
    its exit code becomes the reported code and *rem is 0. For any other
    step the switch handle is dropped exactly when the report leaves no
    node outstanding, and the step then no longer counts for
    step_epilog_complete. *)
Theorem step_partial_comp_edges (jobs : list (Job.t G)) req uid g :
  let run := step_partial_comp plug jobs req uid g in
  (find_job_record jobs (Cmsg.job_id req) = None ->
   exists g', run = Ok (ESLURM_INVALID_JOB_ID, jobs, None, None) g') /\
  (forall jk job,
     find_job_record jobs (Cmsg.job_id req) = Some jk ->
     jobs !! jk = Some job ->
     (IS_JOB_PENDING job = true ->
      exists g', run = Ok (ESLURM_JOB_PENDING, jobs, None, None) g') /\
     (IS_JOB_PENDING job = false ->
      Plug.validate_slurm_user plug uid = false ->
      uid <> Job.user_id job ->
      exists g', run = Ok (ESLURM_USER_ID_MISSING, jobs, None, None) g') /\
     (IS_JOB_PENDING job = false -> may_report plug job uid ->
      (find_step_record (Job.step_list job) (Cmsg.job_step_id req) = None ->
       exists g', run = Ok (ESLURM_INVALID_JOB_ID, jobs, None, None) g') /\
      (forall sk step,
         find_step_record (Job.step_list job) (Cmsg.job_step_id req) =
           Some sk ->
         Job.step_list job !! sk = Some step ->
         (Step.batch_step step = true ->
          run =
          Ok (SLURM_SUCCESS,
              <[ jk := store_step sk
                         (Step.set_exit_code (Cmsg.step_rc req) step) job ]>
                jobs,
              Some 0, Some (Cmsg.step_rc req)) g) /\
         (Step.batch_step step = false ->
          forall rc jobs' rem max_rc g',
            run = Ok (rc, jobs', rem, max_rc) g' ->
            exists step',
              jobs' = <[ jk := store_step sk step' job ]> jobs /\
              (rc <> SLURM_SUCCESS -> step' = step /\ rem = None) /\
              (rem = Some 0 ->
               Step.switch_job step' = None /\
               forall i, awaits_epilog i step' = false) /\
              (rem <> Some 0 ->
               Step.switch_job step' = Step.switch_job step))))).
Proof.
  intros run. split.
  { intros Hnone. subst run. unfold step_partial_comp. rewrite Hnone.
    by eexists. }
  intros jk job Hfind Hjob.
  assert (forall k : Job.t G -> M (slurm_rc * list (Job.t G) * option Z *
                                   option Z),
            (job_ptr <- deref (jobs !! jk) ;; k job_ptr) g = k job g)
    as Hderef.
  { intros k. unfold bind. by rewrite Hjob. }
  assert (may_report plug job uid ->
          negb (Plug.validate_slurm_user plug uid) &&
          negb (uid =? Job.user_id job) = false) as Htest.
  { intros [->| ->]; [done|]. rewrite Z.eqb_refl. apply andb_false_r. }
  split; [|split].
  - intros Hpend. subst run. unfold step_partial_comp.
    rewrite Hfind, Hderef, Hpend. by eexists.
  - intros Hpend Hval Hne. subst run. unfold step_partial_comp.
    apply Z.eqb_neq in Hne. rewrite Hfind, Hderef, Hpend, Hval, Hne.
    by eexists.
  - intros Hpend Hmay. split.
    { intros Hnone. subst run. unfold step_partial_comp.
      rewrite Hfind, Hderef, Hpend, (Htest Hmay), Hnone. by eexists. }
    intros sk step Hstep Hsk.
    assert (run =
            (do (rc, step1, rem, max_rc) <- step_partial_comp_step step req ;;
             ret (rc, <[ jk := store_step sk step1 job ]> jobs, rem, max_rc)) g)
      as Hrun.
    { subst run. unfold step_partial_comp.
      rewrite Hfind, Hderef, Hpend, (Htest Hmay), Hstep.
      unfold bind at 1. by rewrite Hsk. }
    clearbody run. subst run. split.
    + intros Hbatch. unfold bind, step_partial_comp_step. by rewrite Hbatch.
    + intros Hbatch rc jobs' rem max_rc g' H.
      apply bind_Ok in H as ([[[rc1 step1] rem1] mrc1] & g1 & Hs & H).
      apply ret_Ok in H as [[= <- <- <- <-] <-].
      apply step_partial_comp_step_switch in Hs
        as (Hdone & Hmore & Hfail); [|done].
      exists step1. split; [done|]. split; [|split; [|done]].
      * intros Hrc. destruct (Hfail Hrc) as (-> & -> & _). done.
      * intros Hz. split; [by apply Hdone|]. intros i.
        unfold awaits_epilog. by rewrite (Hdone Hz).
Qed.
(** ** Counting picked nodes *)

Lemma bit_size_and a b : bit_size a = bit_size b -> bit_size (bit_and a b) = bit_size a.
Proof.
  unfold bit_size, bit_and. intros H. rewrite length_zip_with. lia.
Qed.

Lemma bit_size_or a b : bit_size a = bit_size b -> bit_size (bit_or a b) = bit_size a.
Proof.
  unfold bit_size, bit_or. intros H. rewrite length_zip_with. lia.
Qed.

Lemma bit_size_not a : bit_size (bit_not a) = bit_size a.
Proof. unfold bit_size, bit_not. by rewrite length_map. Qed.

Lemma bit_size_pick_first k b : bit_size (pick_first k b) = bit_size b.
Proof.
  revert k. induction b as [|x b IH]; intros k; [done|].
  unfold bit_size in *. destruct k as [|k]; simpl; [by rewrite IH|].
  destruct x; simpl; by rewrite IH.
Qed.

Lemma bit_set_count_pick_first k b :
  (k <= bit_set_count b)%nat -> bit_set_count (pick_first k b) = k.
Proof.
  revert k. induction b as [|x b IH]; intros k Hk; simpl in *.
  { lia. }
  destruct k as [|k]; simpl.
  - by rewrite (IH 0%nat) by lia.
  - destruct x; simpl in *; rewrite IH; lia.
Qed.

Lemma bit_pick_cnt_spec b nbits p :
  bit_pick_cnt b nbits = Some p -> 0 <= nbits ->
  bit_size p = bit_size b /\ bit_subset p b /\
  Z.of_nat (bit_set_count p) = nbits.
Proof.
  unfold bit_pick_cnt. destruct (Z.ltb_spec (Z.of_nat (bit_set_count b)) nbits);
    [done|].
  intros [= <-] Hpos. split; [apply bit_size_pick_first|].
  split; [apply pick_first_subset|].
  rewrite bit_set_count_pick_first; lia.
Qed.

Lemma bit_set_count_or_disjoint a b :
  bit_size a = bit_size b -> bit_disjoint a b ->
  bit_set_count (bit_or a b) = (bit_set_count a + bit_set_count b)%nat.
Proof.
  revert b. induction a as [|x a IH]; intros [|y b] Hsize Hdis; try done.
  simpl. injection Hsize as Hsize.
  rewrite (IH b Hsize).
  2:{ intros i Hi. apply (Hdis (S i)). exact Hi. }
  specialize (Hdis 0%nat). unfold bit_test in Hdis. simpl in Hdis.
  destruct x, y; simpl; first [lia | by specialize (Hdis eq_refl)].
Qed.

Lemma bit_disjoint_minus a p : bit_size a = bit_size p -> bit_disjoint p (bit_and a (bit_not p)).
Proof.
  intros Hsize i Hi. rewrite bit_test_and_not by done. by rewrite Hi, andb_false_r.
Qed.

Lemma bit_disjoint_subset a b b' :
  bit_disjoint a b -> bit_subset b' b -> bit_disjoint a b'.
Proof.
  intros Hdis Hsub i Hi. destruct (bit_test b' i) eqn:E; [|done].
  apply Hsub in E. by rewrite (Hdis i Hi) in E.
Qed.

Lemma bit_disjoint_sym a b : bit_disjoint a b -> bit_disjoint b a.
Proof.
  intros Hdis i Hi. destruct (bit_test a i) eqn:E; [|done].
  by rewrite (Hdis i E) in Hi.
Qed.

Lemma bit_disjoint_or a b c :
  bit_disjoint a c -> bit_disjoint b c -> bit_disjoint (bit_or a b) c.
Proof. intros Ha Hb i [?|?]%bit_test_or; [by apply Ha|by apply Hb]. Qed.

Lemma bit_disjoint_alloc n a : bit_disjoint (bit_alloc n) a.
Proof. intros i. by rewrite bit_test_alloc. Qed.

Lemma bit_set_count_alloc n : bit_set_count (bit_alloc n) = 0%nat.
Proof. unfold bit_alloc. induction n as [|n IH]; [done|]. simpl. by rewrite IH. Qed.

Lemma maps_ok_pick n avail picked from node_tmp k :
  maps_ok n avail picked ->
  bit_size from = n -> bit_subset from avail ->
  bit_pick_cnt from k = Some node_tmp -> 0 <= k ->
  maps_ok n (bit_and avail (bit_not node_tmp)) (bit_or picked node_tmp) /\
  Z.of_nat (bit_set_count (bit_or picked node_tmp)) =
  Z.of_nat (bit_set_count picked) + k.
Proof.
  intros (Ha & Hp & Hdis) Hfrom Hsub Hpick Hk.
  apply bit_pick_cnt_spec in Hpick as (Hsize & Hin & Hcnt); [|done].
  assert (bit_size node_tmp = n) as Ht by congruence.
  assert (bit_disjoint picked node_tmp) as Hdt.
  { eapply bit_disjoint_subset; [exact Hdis|].
    by eapply bit_subset_trans. }
  split; [split; [|split]|].
  - rewrite bit_size_and; [done|]. by rewrite bit_size_not, Ha, Ht.
  - rewrite bit_size_or; congruence.
  - apply bit_disjoint_or.
    + eapply bit_disjoint_subset; [exact Hdis|apply bit_subset_and_l].
    + apply bit_disjoint_minus. congruence.
  - rewrite bit_set_count_or_disjoint by (congruence || done). lia.
Qed.

Lemma pick_min_nodes_count n jb spec blocked avail idle picked g
    maps' cnt g' :
  maps_ok n avail picked -> idle_ok n avail idle ->
  0 <= Req.min_nodes spec < 2147483648 ->
  Z.of_nat (bit_set_count picked) <= Req.min_nodes spec ->
  pick_min_nodes cluster jb spec blocked (avail, idle, Some picked) g =
    Ok (inr (maps', cnt)) g' ->
  exists picked',
    maps'.2 = Some picked' /\
    maps_ok n maps'.1.1 picked' /\
    Z.of_nat (bit_set_count picked') = Req.min_nodes spec /\
    cnt = Req.min_nodes spec.
Proof.
  intros Hok Hidle Hmin Hcnt0 Hrun. unfold pick_min_nodes in Hrun.
  destruct (Z.eqb_spec (Req.min_nodes spec) 0) as [Hz|Hnz].
  { apply ret_Ok in Hrun as [[= <- <-] _]. exists picked. simpl.
    split; [done|]. split; [done|]. lia. }
  unfold bind at 1 in Hrun. simpl in Hrun.
  set (cnt0 := Z.of_nat (bit_set_count picked)) in *.
  assert (u32 cnt0 = cnt0) as Hu by (apply u32_id; lia).
  assert (i32 (Req.min_nodes spec - cnt0) = Req.min_nodes spec - cnt0)
    as Hi by (apply i32_id; lia).
  assert (i32 (Req.min_nodes spec) = Req.min_nodes spec) as Hi'
    by (apply i32_id; lia).
  assert (u32 (Req.min_nodes spec) = Req.min_nodes spec) as Hu'
    by (apply u32_id; lia).
  apply bind_Ok in Hrun as (r1 & g1 & Hr1 & Hrun).
  assert (exists avail1 idle1 picked1 npc1,
    r1 = inr (avail1, idle1, picked1, npc1) /\
    maps_ok n avail1 picked1 /\
    npc1 = Z.of_nat (bit_set_count picked1) /\
    npc1 <= Req.min_nodes spec) as (avail1 & idle1 & picked1 & npc1 & -> &
                                    Hok1 & Hnpc1 & Hle1).
  { destruct idle as [idle0|]; [|inv_run; by eexists _, _, _, _].
    destruct (_ && _) eqn:Hcond; [|inv_run; by eexists _, _, _, _].
    rewrite Hi in Hr1.
    destruct (bit_pick_cnt idle0 _) as [node_tmp|] eqn:Hpick; [|by inv_run].
    destruct (Hidle idle0 eq_refl) as [Hsz Hsub].
    destruct (maps_ok_pick _ _ _ _ _ _ Hok Hsz Hsub Hpick) as [Hok' Hc'];
      [lia|].
    inv_run. eexists _, _, _, _. split; [done|]. split; [exact Hok'|].
    rewrite Hi', Hc'. fold cnt0. lia. }
  simpl in Hrun. rewrite Hnpc1 in Hrun.
  set (c1 := Z.of_nat (bit_set_count picked1)) in *.
  assert (u32 c1 = c1) as Hu1 by (apply u32_id; lia).
  rewrite Hu1 in Hrun.
  destruct (Z.gtb_spec (Req.min_nodes spec) c1) as [Hgt|Hle].
  - assert (i32 (Req.min_nodes spec - c1) = Req.min_nodes spec - c1)
      as Hi1 by (apply i32_id; lia).
    rewrite Hi1 in Hrun.
    destruct (bit_pick_cnt avail1 _) as [node_tmp|] eqn:Hpick.
    2:{ destruct (_ <=? _); [by inv_run|]. destruct (negb _); by inv_run. }
    destruct Hok1 as (Ha1 & Hp1 & Hd1).
    destruct (maps_ok_pick n avail1 picked1 avail1 node_tmp _
                (conj Ha1 (conj Hp1 Hd1)) Ha1 (bit_subset_refl _) Hpick)
      as [Hok' Hc']; [lia|].
    apply ret_Ok in Hrun as [[= <- <-] _]. eexists. simpl.
    split; [done|]. split; [exact Hok'|]. rewrite Hc'. fold c1. lia.
  - apply ret_Ok in Hrun as [[= <- <-] _]. exists picked1. simpl.
    split; [done|]. split; [exact Hok1|]. subst c1. lia.
Qed.

Lemma add_nodes_loop_count n (job : Job.t G) jb usable fuel :
  forall spec avail picked cnt cpus g spec' avail' picked' cnt' cpus' g',
    maps_ok n avail picked ->
    Z.of_nat n < 2147483648 ->
    cnt = Z.of_nat (bit_set_count picked) ->
    (Req.min_nodes spec <> 0 -> Req.min_nodes spec = cnt) ->
    Req.max_nodes spec = 0 \/ cnt < Req.max_nodes spec ->
    add_nodes_loop cluster fuel job jb usable
      (spec, avail, picked, cnt, cpus) g =
      Ok (spec', avail', picked', cnt', cpus') g' ->
    cnt' = Z.of_nat (bit_set_count picked') /\
    (Req.min_nodes spec' <> 0 -> Req.min_nodes spec' = cnt') /\
    (Req.max_nodes spec <> 0 -> cnt' <= Req.max_nodes spec) /\
    Req.max_nodes spec' = Req.max_nodes spec /\
    Req.cpu_count spec' = Req.cpu_count spec /\
    Req.min_nodes spec <= Req.min_nodes spec'.
Proof.
  induction fuel as [|fuel IH];
    intros spec avail picked cnt cpus g spec' avail' picked' cnt' cpus' g'
           Hok Hn Hcnt Hmin Hmax Hrun; simpl in Hrun.
  { apply ret_Ok in Hrun as [[= <- <- <- <- <-] _].
    split; [done|]. split; [done|]. split; [lia|]. by repeat split. }
  destruct (negb _).
  { apply ret_Ok in Hrun as [[= <- <- <- <- <-] _].
    split; [done|]. split; [done|]. split; [lia|]. by repeat split. }
  destruct (bit_pick_cnt avail 1) as [node_tmp|] eqn:Hpick.
  2:{ apply ret_Ok in Hrun as [[= <- <- <- <- <-] _].
      split; [done|]. split; [done|]. split; [lia|]. by repeat split. }
  apply bind_Ok in Hrun as (cpu_cnt & g1 & _ & Hrun).
  pose proof Hok as (Ha & Hp & Hd).
  destruct (maps_ok_pick n avail picked avail node_tmp 1 Hok Ha
              (bit_subset_refl _) Hpick) as [Hok' Hc']; [lia|].
  destruct (cpu_cnt =? 0).
  - eapply IH in Hrun; [exact Hrun| |done|done|done|done].
    destruct Hok' as (Ha' & _ & _). split; [done|]. split; [done|].
    eapply bit_disjoint_subset; [exact Hd|apply bit_subset_and_l].
  - set (picked1 := bit_or picked node_tmp) in *.
    assert (Z.of_nat (bit_set_count picked1) <= Z.of_nat n) as Hle.
    { destruct Hok' as (_ & Hp' & _). rewrite <- Hp'.
      pose proof (bit_set_count_le picked1). unfold bit_size. lia. }
    assert (i32 (cnt + 1) = Z.of_nat (bit_set_count picked1)) as Hi.
    { rewrite i32_id; lia. }
    rewrite Hi in Hrun.
    assert (u32 (Z.of_nat (bit_set_count picked1)) =
            Z.of_nat (bit_set_count picked1)) as Hu by (apply u32_id; lia).
    rewrite !Hu in Hrun.
    set (spec1 := if negb (Req.min_nodes spec =? 0) then _ else spec) in *.
    assert (Req.max_nodes spec1 = Req.max_nodes spec /\
            Req.cpu_count spec1 = Req.cpu_count spec /\
            (Req.min_nodes spec1 <> 0 ->
             Req.min_nodes spec1 = Z.of_nat (bit_set_count picked1)) /\
            Req.min_nodes spec <= Req.min_nodes spec1)
      as (Hmax1 & Hcpu1 & Hmin1 & Hmono1).
    { subst spec1. destruct (Z.eqb_spec (Req.min_nodes spec) 0); simpl.
      - repeat split; try done; lia.
      - repeat split; try done. rewrite (Hmin n0). lia. }
    rewrite Hmax1 in Hrun.
    destruct (Z.eqb_spec (Req.max_nodes spec) 0) as [Hz|Hnz]; simpl in Hrun.
    + eapply IH in Hrun; [|exact Hok'|done|done|done|by left; rewrite Hmax1].
      destruct Hrun as (H1 & H2 & H3 & H4 & H5 & H6).
      rewrite Hmax1 in H3, H4. rewrite Hcpu1 in H5.
      do 5 (split; [done|]). lia.
    + destruct (Z.geb_spec (Z.of_nat (bit_set_count picked1))
                           (Req.max_nodes spec)) as [Hge|Hlt].
      * apply ret_Ok in Hrun as [[= <- <- <- <- <-] _].
        split; [done|]. split; [done|]. split; [|done]. intros _.
        destruct Hmax as [?|?]; [done|]. lia.
      * eapply IH in Hrun;
          [|exact Hok'|done|done|done|by right; rewrite Hmax1].
        destruct Hrun as (H1 & H2 & H3 & H4 & H5 & H6).
        rewrite Hmax1 in H3, H4. rewrite Hcpu1 in H5.
        do 5 (split; [done|]). lia.
Qed.

Lemma pick_cpu_count_count n (job : Job.t G) jb spec usable blocked
    avail idle picked npc g picked' rc spec' g' :
  maps_ok n avail picked -> Z.of_nat n < 2147483648 ->
  npc = Z.of_nat (bit_set_count picked) ->
  (Req.min_nodes spec <> 0 -> Req.min_nodes spec = npc) ->
  (Req.max_nodes spec <> 0 -> npc <= Req.max_nodes spec) ->
  pick_cpu_count cluster job jb spec usable blocked
                 (avail, idle, Some picked) npc g =
    Ok (Some picked', rc, spec') g' ->
  (Req.min_nodes spec' <> 0 ->
   Req.min_nodes spec' = Z.of_nat (bit_set_count picked')) /\
  (Req.max_nodes spec <> 0 ->
   Z.of_nat (bit_set_count picked') <= Req.max_nodes spec) /\
  Req.min_nodes spec <= Req.min_nodes spec'.
Proof.
  intros Hok Hn Hnpc Hmin Hmax Hrun. unfold pick_cpu_count in Hrun.
  destruct (Req.cpu_count spec =? 0).
  { apply ret_Ok in Hrun as [[= <- <- <-] _]. rewrite <- Hnpc.
    split; [done|]. split; [done|lia]. }
  unfold bind at 1 in Hrun. simpl in Hrun.
  apply bind_Ok in Hrun as (c0 & g2 & _ & Hrun).
  apply bind_Ok in Hrun as ([[[[s1 a1] p1] n1] c1] & g3 & Hadd & Hrun).
  assert ((Req.min_nodes s1 <> 0 ->
           Req.min_nodes s1 = Z.of_nat (bit_set_count p1)) /\
          (Req.max_nodes spec <> 0 ->
           Z.of_nat (bit_set_count p1) <= Req.max_nodes spec) /\
          Req.min_nodes spec <= Req.min_nodes s1) as Hres.
  { assert (u32 npc = npc) as Hu.
    { apply u32_id. pose proof (bit_set_count_le picked).
      destruct Hok as (_ & Hp & _). unfold bit_size in Hp. lia. }
    rewrite Hu in Hadd.
    destruct (_ && _) eqn:Hcond.
    - apply andb_prop in Hcond as [_ Hroom].
      eapply add_nodes_loop_count in Hadd; [|exact Hok|done|done| |].
      + destruct Hadd as (-> & H2 & H3 & _ & _ & H6). done.
      + by rewrite <- Hnpc.
      + rewrite <- Hnpc. apply orb_prop in Hroom as [Hz|Hgt]; [left|right];
          lia.
    - apply ret_Ok in Hadd as [[= <- <- <- <- <-] _]. rewrite <- Hnpc.
      split; [done|]. split; [done|lia]. }
  unfold cleanup in Hrun. destruct (Req.cpu_count s1 >? u32 c1).
  - destruct (_ <=? _); [by inv_run|]. destruct (negb _); by inv_run.
  - apply ret_Ok in Hrun as [[= <- <- <-] _]. done.
Qed.

Lemma pick_named_nodes_count n jb spec avail g spec1 avail' p g' :
  bit_size avail = n ->
  (forall nl sel, Req.node_list spec = Some nl ->
     Plug.node_name2bitmap plug nl = Some sel -> bit_size sel = n) ->
  0 < Req.min_nodes spec ->
  Req.max_nodes spec = 0 \/ Req.min_nodes spec <= Req.max_nodes spec ->
  pick_named_nodes conf plug jb spec avail g =
    Ok (inr (spec1, avail', Some p)) g' ->
  maps_ok n avail' p /\
  Z.of_nat (bit_set_count p) <= Req.min_nodes spec1 /\
  0 <= Req.min_nodes spec1 <= Z.max (Req.min_nodes spec) (Z.of_nat n) /\
  (Req.max_nodes spec = 0 \/ Req.min_nodes spec1 <= Req.max_nodes spec) /\
  Req.max_nodes spec1 = Req.max_nodes spec /\
  Req.cpu_count spec1 = Req.cpu_count spec /\
  (Req.task_dist spec <> SLURM_DIST_ARBITRARY \/ Req.node_list spec = None ->
   Req.min_nodes spec1 = Req.min_nodes spec).
Proof.
  intros Ha Horacle Hmin Hmax Hrun. unfold pick_named_nodes in Hrun.
  destruct (Req.node_list spec) as [nl|] eqn:Hnl.
  2:{ apply ret_Ok in Hrun as [[= <- <- <-] _].
      split; [|rewrite bit_set_count_alloc; repeat split; try done; lia].
      split; [done|]. split; [by rewrite bit_size_alloc|].
      apply bit_disjoint_alloc. }
  destruct (Plug.node_name2bitmap plug nl) as [sel|] eqn:Hsel.
  2:{ apply bind_Ok in Hrun as (? & ? & _ & Hrun). by inv_run. }
  pose proof (Horacle nl sel eq_refl Hsel) as Hs.
  destruct (negb (bit_super_set sel jb)).
  { apply bind_Ok in Hrun as (? & ? & _ & Hrun). by inv_run. }
  destruct (negb (bit_super_set sel avail)).
  { apply bind_Ok in Hrun as (? & ? & _ & Hrun). by inv_run. }
  apply bind_Ok in Hrun as ([spec0 selected] & g1 & Hdist & Hrun).
  assert (selected = None \/
          (selected = Some sel /\
           Req.max_nodes spec0 = Req.max_nodes spec /\
           Req.cpu_count spec0 = Req.cpu_count spec /\
           ((spec0 = spec) \/
            (Req.task_dist spec = SLURM_DIST_ARBITRARY /\
             Req.min_nodes spec0 = Z.of_nat (bit_set_count sel)))))
    as [->|(-> & Hmax0 & Hcpu0 & Hmin0)].
  { destruct (Req.task_dist spec) eqn:Htd;
      try (apply ret_Ok in Hdist as [[= <- <-] _]; right; by repeat split;
           try left).
    destruct (String.eqb _ _).
    - apply bind_Ok in Hdist as (? & ? & _ & Hdist).
      apply ret_Ok in Hdist as [[= <- <-] _]. by left.
    - apply ret_Ok in Hdist as [[= <- <-] _]. right.
      repeat split; try done. by right. }
  { by inv_run. }
  pose proof (bit_set_count_le sel) as Hle. unfold bit_size in Hs.
  set (node_cnt := if _ || _ then Z.of_nat (bit_set_count sel) else 0) in *.
  rewrite Hmax0 in Hrun.
  destruct (negb (Req.max_nodes spec =? 0) && (node_cnt >? _)) eqn:Hover.
  { apply bind_Ok in Hrun as (? & ? & _ & Hrun). by inv_run. }
  assert (Req.max_nodes spec = 0 \/
          Req.min_nodes spec0 <= Req.max_nodes spec) as Hmax1.
  { destruct Hmin0 as [->|[_ Hc]]; [done|].
    destruct (Z.eqb_spec (Req.max_nodes spec) 0) as [?|Hnz]; [by left|].
    right. simpl in Hover. subst node_cnt.
    apply Z.eqb_neq in Hnz. rewrite Hmax0, Hnz, orb_true_r in Hover. lia. }
  assert (0 <= Req.min_nodes spec0 <=
          Z.max (Req.min_nodes spec) (Z.of_nat n)) as Hrange.
  { destruct Hmin0 as [->|[_ ->]]; lia. }
  assert (Req.task_dist spec <> SLURM_DIST_ARBITRARY \/ Some nl = None ->
          Req.min_nodes spec0 = Req.min_nodes spec) as Hsame.
  { intros [Hne|?]; [|done]. by destruct Hmin0 as [->|[? _]]. }
  destruct (negb (Req.min_nodes spec0 =? 0) && (node_cnt >? _)) eqn:Hmore.
  - apply ret_Ok in Hrun as [[= <- <- <-] _].
    split; [|rewrite bit_set_count_alloc; repeat split; try done; lia].
    split; [done|]. split; [by rewrite bit_size_alloc|].
    apply bit_disjoint_alloc.
  - apply ret_Ok in Hrun as [[= <- <- <-] _].
    split; [|split; [|split; [exact Hrange|];
                      split; [exact Hmax1|]; split; [done|];
                      split; [done|exact Hsame]]].
    + split; [|split; [done|]].
      * rewrite bit_size_and; [done|]. rewrite bit_size_not.
        unfold bit_size in *. congruence.
      * apply bit_disjoint_minus. unfold bit_size in *. congruence.
    + unfold bit_copy.
      destruct (Z.eqb_spec (Req.min_nodes spec0) 0) as [Hz|Hnz].
      * destruct Hmin0 as [->|[_ Hc]]; lia.
      * subst node_cnt. simpl in Hmore. lia.
Qed.

Lemma bit_size_clear a i : bit_size (bit_clear a i) = bit_size a.
Proof. unfold bit_size, bit_clear. by rewrite length_insert. Qed.

Lemma usable_step_size (job : Job.t G) spec gres cpt st i g st' g' :
  usable_step plug job spec gres cpt st i g = Ok (inr st') g' ->
  bit_size (Usable.nodes_avail st') = bit_size (Usable.nodes_avail st).
Proof.
  unfold usable_step. intros Hrun.
  run_cases; simpl; try done; apply bit_size_clear.
Qed.

Lemma usable_loop_size (job : Job.t G) spec gres cpt nodes :
  forall st g st' g',
    usable_loop plug job spec gres cpt nodes st g = Ok (inr st') g' ->
    bit_size (Usable.nodes_avail st') = bit_size (Usable.nodes_avail st).
Proof.
  induction nodes as [|i rest IH]; intros st g st' g' Hrun; simpl in Hrun.
  { inv_run. by simplify_eq. }
  apply bind_Ok in Hrun as ([rc|st1] & g1 & Hstep & Hrest).
  { by apply ret_Ok in Hrest as [? _]. }
  apply usable_step_size in Hstep. apply IH in Hrest. congruence.
Qed.

Lemma steps_used_size n (steps : list (Step.t G)) :
  Forall (fun s => bit_size (Step.step_node_bitmap s) = n) steps ->
  forall acc, bit_size acc = n ->
    bit_size (fold_left (fun idle step_p =>
                           bit_or idle (Step.step_node_bitmap step_p))
                        steps acc) = n.
Proof.
  induction 1 as [|s steps Hs _ IH]; intros acc Hacc; [done|].
  simpl. apply IH. rewrite bit_size_or; congruence.
Qed.

Lemma pick_relative_or_idle_ok n (job : Job.t G) spec avail picked g
    avail' idle g' :
  maps_ok n avail picked ->
  Forall (fun s => bit_size (Step.step_node_bitmap s) = n)
         (Job.step_list job) ->
  pick_relative_or_idle job spec avail g = Ok (inr (avail', idle)) g' ->
  maps_ok n avail' picked /\ idle_ok n avail' idle.
Proof.
  intros (Ha & Hp & Hd) Hsteps Hrun. unfold pick_relative_or_idle in Hrun.
  destruct (negb _).
  - destruct (bit_pick_cnt avail _) as [r|] eqn:Hpick.
    2:{ apply bind_Ok in Hrun as (? & ? & _ & Hrun). by inv_run. }
    apply ret_Ok in Hrun as [[= <- <-] _].
    assert (bit_size r = n) as Hr.
    { unfold bit_pick_cnt in Hpick. destruct (_ <? _); [done|].
      injection Hpick as <-. by rewrite bit_size_pick_first. }
    split; [|by intros ? ?].
    split; [|split; [done|]].
    + rewrite bit_size_and; [done|]. rewrite bit_size_not. congruence.
    + eapply bit_disjoint_subset; [exact Hd|apply bit_subset_and_l].
  - apply ret_Ok in Hrun as [[= <- <-] _]. split; [done|].
    intros idle [= <-]. split; [|apply bit_subset_and_r].
    pose proof (steps_used_size n _ Hsteps (bit_alloc (bit_size avail)))
      as Hacc.
    rewrite bit_size_alloc in Hacc. specialize (Hacc Ha).
    rewrite bit_size_and; rewrite bit_size_not; congruence.
Qed.

Lemma cpu_count_to_min_nodes_bounds (job : Job.t G) spec g spec2 g' :
  cpu_count_to_min_nodes job spec g = Ok (inr spec2) g' ->
  0 <= Req.min_nodes spec -> 0 <= Req.cpu_count spec < 2147483648 ->
  Req.max_nodes spec = 0 \/ Req.min_nodes spec <= Req.max_nodes spec ->
  (forall values v0,
     Res.cpu_array_value (Job.job_resrcs job) = Some values ->
     values !! 0%nat = Some v0 -> 0 <= v0 < 65536) ->
  Req.max_nodes spec2 = Req.max_nodes spec /\
  Req.cpu_count spec2 = Req.cpu_count spec /\
  Req.min_nodes spec <= Req.min_nodes spec2 <=
    Z.max (Req.min_nodes spec) (Req.cpu_count spec) /\
  (Req.max_nodes spec = 0 \/ Req.min_nodes spec2 <= Req.max_nodes spec).
Proof.
  intros Hrun Hmin Hcpu Hmax Hvals. unfold cpu_count_to_min_nodes in Hrun.
  destruct (Res.cpu_array_value (Job.job_resrcs job)) as [values|] eqn:Hv.
  2:{ apply ret_Ok in Hrun as [[= <-] _]. repeat split; try done; lia. }
  destruct (_ && _).
  2:{ apply ret_Ok in Hrun as [[= <-] _]. repeat split; try done; lia. }
  apply bind_Ok in Hrun as (v0 & g1 & Hget & Hrun).
  apply array_get_Ok in Hget as (_ & Hv0 & ->).
  specialize (Hvals values v0 eq_refl Hv0).
  destruct (Z.eqb_spec v0 0); [done|].
  set (i := i32 _) in *.
  assert (0 <= i <= Req.cpu_count spec) as Hi.
  { subst i. rewrite u32_id by lia.
    assert (0 <= (Req.cpu_count spec + (v0 - 1)) / v0 <= Req.cpu_count spec).
    { split; [apply Z.div_pos; lia|].
      assert ((Req.cpu_count spec + (v0 - 1)) / v0 < Req.cpu_count spec + 1);
        [|lia].
      apply Z.div_lt_upper_bound; nia. }
    rewrite i32_id; lia. }
  rewrite (u32_id i) in Hrun by lia. simpl in Hrun.
  destruct (negb _ && _) eqn:Hover.
  { apply bind_Ok in Hrun as (? & ? & _ & Hrun). by inv_run. }
  apply ret_Ok in Hrun as [[= <-] _]. simpl.
  split; [done|]. split; [done|].
  destruct (Z.gtb_spec i (Req.min_nodes spec)) as [Hgt|Hle].
  - split; [lia|]. simpl in Hover.
    destruct (Z.eqb_spec (Req.max_nodes spec) 0); [by left|right].
    simpl in Hover. lia.
  - split; [lia|done].
Qed.

Lemma pick_unpicked_none (job : Job.t G) jb spec usable blocked mbn
    avail idle g picked rc spec' g' m g1 :
  pick_min_nodes cluster jb spec mbn (avail, idle, None) g = Ok m g1 ->
  match m with
  | inl _ => True
  | inr (maps, npc) =>
      pick_cpu_count cluster job jb spec usable blocked maps npc g1 <>
      Ok (Some picked, rc, spec') g'
  end.
Proof.
  unfold pick_min_nodes. intros Hm.
  destruct (Req.min_nodes spec =? 0).
  - apply ret_Ok in Hm as [<- <-]. unfold pick_cpu_count.
    destruct (Req.cpu_count spec =? 0); [by intros H; inv_run|].
    by intros H.
  - by unfold bind in Hm.
Qed.

Lemma pick_shared_count n (job : Job.t G) jb spec gres cpt avail g
    picked rc spec' g' :
  bit_size avail = n -> Z.of_nat n < 2147483648 ->
  (forall nl sel, Req.node_list spec = Some nl ->
     Plug.node_name2bitmap plug nl = Some sel -> bit_size sel = n) ->
  Forall (fun s => bit_size (Step.step_node_bitmap s) = n)
         (Job.step_list job) ->
  (forall values v0,
     Res.cpu_array_value (Job.job_resrcs job) = Some values ->
     values !! 0%nat = Some v0 -> 0 <= v0 < 65536) ->
  0 < Req.min_nodes spec < 2147483648 ->
  0 <= Req.cpu_count spec < 2147483648 ->
  Req.max_nodes spec = 0 \/ Req.min_nodes spec <= Req.max_nodes spec ->
  pick_shared conf cluster plug job jb spec gres cpt avail g =
    Ok (Some picked, rc, spec') g' ->
  (Req.min_nodes spec' <> 0 ->
   Z.of_nat (bit_set_count picked) = Req.min_nodes spec') /\
  (Req.max_nodes spec <> 0 ->
   Z.of_nat (bit_set_count picked) <= Req.max_nodes spec) /\
  (Req.task_dist spec <> SLURM_DIST_ARBITRARY \/ Req.node_list spec = None ->
   Req.min_nodes spec <= Req.min_nodes spec').
Proof.
  intros Ha Hn Horacle Hsteps Hvals Hmin Hcpu Hmax H.
  unfold pick_shared in H.
  apply bind_Ok in H as (u & g1 & Hu & H).
  assert (match u with
          | inl _ => True
          | inr (av, _, _, _) => bit_size av = n
          end) as Hav.
  { destruct (_ || _).
    - apply bind_Ok in Hu as ([rc0|st] & g0 & Hloop & Hu); inv_run;
        simpl; try done.
      by apply usable_loop_size in Hloop.
    - by inv_run. }
  destruct u as [rc0|[[[av usable] mbn] mbc]]; [by inv_run|].
  destruct (Z.eqb_spec (Req.min_nodes spec) INFINITE) as [Hinf|_].
  { unfold INFINITE in Hinf. lia. }
  apply bind_Ok in H as (named & g2 & Hnamed & H).
  destruct named as [[res spec1]|[[spec1 av1] pk]].
  { unfold pick_named_nodes, cleanup in Hnamed. run_cases. }
  destruct pk as [p|].
  2:{ apply bind_Ok in H as (rel & g3 & _ & H).
      destruct rel as [|[av2 idle]]; [by inv_run|].
      apply bind_Ok in H as (c & g4 & _ & H).
      destruct c as [spec2|spec2]; [by inv_run|].
      apply bind_Ok in H as (m & g5 & Hm & H).
      eapply pick_unpicked_none in Hm.
      destruct m as [rc0|[maps npc]]; [by inv_run|]. by apply Hm in H. }
  apply pick_named_nodes_count with (n := n) in Hnamed
    as (Hok1 & Hc1 & Hr1 & Hmax1 & Hmx1 & Hcpu1 & Hsame1);
    [|done|done|lia|done].
  apply bind_Ok in H as (rel & g3 & Hrel & H).
  destruct rel as [|[av2 idle]]; [by inv_run|].
  apply pick_relative_or_idle_ok with (n := n) (picked := p) in Hrel
    as [Hok2 Hidle2]; [|done|done].
  apply bind_Ok in H as (c & g4 & Hc & H).
  destruct c as [spec2|spec2]; [by inv_run|].
  apply cpu_count_to_min_nodes_bounds in Hc
    as (Hmx2 & Hcpu2 & Hmin2 & Hmax2);
    [|lia|by rewrite Hcpu1|by rewrite Hmx1|done].
  apply bind_Ok in H as (m & g5 & Hm & H).
  destruct m as [rc0|[maps npc]]; [by inv_run|].
  apply pick_min_nodes_count with (n := n) in Hm
    as (p' & Hp' & Hok' & Hcnt' & Hnpc); [|done|done|lia|lia].
  destruct maps as [[av3 idle3] pk3]. simpl in Hp', Hok'. subst pk3.
  apply pick_cpu_count_count with (n := n) in H
    as (Hfin & Hupper & Hmono); [|done|done|lia| |].
  - rewrite Hmx2, Hmx1 in Hupper.
    split; [intros Hne; by rewrite (Hfin Hne)|]. split; [done|].
    intros Hsame. rewrite <- (Hsame1 Hsame). lia.
  - intros _. lia.
  - rewrite Hmx2, Hmx1. intros Hne. rewrite Hmx1 in Hmax2.
    destruct Hmax2 as [?|?]; [done|lia].
Qed.

(** X21. For a request that is not exclusive, on a cluster whose bitmaps
    all have one bit per node, with min_nodes and cpu_count below 2^31 and
    min_nodes not 0: the nodes _pick_step_nodes returns are exactly as
    many as the min_nodes it leaves in the request (when that is not 0);
    they are at most max_nodes (when max_nodes is not 0); and min_nodes is
    never lowered unless nodes were named with an arbitrary task
    distribution. *)
Theorem pick_step_nodes_node_count now (job : Job.t G) spec gres cpt g
    picked rc spec' job' g' jb n :
  _pick_step_nodes conf cluster plug now job spec gres cpt g =
    Ok (Some picked, rc, spec', job') g' ->
  Req.exclusive spec = 0 ->
  Job.node_bitmap job = Some jb ->
  bit_size jb = n -> bit_size (Cluster.up_node_bitmap cluster) = n ->
  Z.of_nat n < 2147483648 ->
  (forall nl sel, Req.node_list spec = Some nl ->
     Plug.node_name2bitmap plug nl = Some sel -> bit_size sel = n) ->
  Forall (fun s => bit_size (Step.step_node_bitmap s) = n)
         (Job.step_list job) ->
  (forall values v0,
     Res.cpu_array_value (Job.job_resrcs job) = Some values ->
     values !! 0%nat = Some v0 -> 0 <= v0 < 65536) ->
  0 < Req.min_nodes spec < 2147483648 ->
  0 <= Req.cpu_count spec < 2147483648 ->
  (Req.min_nodes spec' <> 0 ->
   Z.of_nat (bit_set_count picked) = Req.min_nodes spec') /\
  (Req.max_nodes spec <> 0 ->
   Z.of_nat (bit_set_count picked) <= Req.max_nodes spec) /\
  (Req.task_dist spec <> SLURM_DIST_ARBITRARY \/ Req.node_list spec = None ->
   Req.min_nodes spec <= Req.min_nodes spec').
Proof.
  intros Hrun Hexcl Hjb Hsize Hup Hn Horacle Hsteps Hvals Hmin Hcpu.
  unfold _pick_step_nodes in Hrun. rewrite Hjb in Hrun.
  destruct (negb (Req.max_nodes spec =? 0) && _) eqn:Hentry; [by inv_run|].
  assert (Req.max_nodes spec = 0 \/ Req.min_nodes spec <= Req.max_nodes spec)
    as Hmax.
  { destruct (Z.eqb_spec (Req.max_nodes spec) 0); [by left|right].
    simpl in Hentry. lia. }
  apply bind_Ok in Hrun as (spec1 & g1 & Hspec1 & Hrun).
  assert (Req.exclusive spec1 = Req.exclusive spec /\
          Req.max_nodes spec1 = Req.max_nodes spec /\
          Req.min_nodes spec1 = Req.min_nodes spec /\
          Req.cpu_count spec1 = Req.cpu_count spec /\
          Req.node_list spec1 = Req.node_list spec /\
          Req.task_dist spec1 = Req.task_dist spec)
    as (Hex1 & Hmx1 & Hmn1 & Hcp1 & Hnl1 & Htd1).
  { destruct (_ && _) in Hspec1; inv_run; done. }
  apply bind_Ok in Hrun as ([early job1] & g2 & Hfirst & Hrun).
  apply first_step_check_frame in Hfirst as ((Hlist & Hres & _) & _).
  destruct early as [rc0|]; [by inv_run|].
  rewrite Hex1, Hexcl in Hrun. simpl in Hrun.
  apply bind_Ok in Hrun as ([[pk rc1] spec2] & g3 & Hsh & Hrun).
  apply ret_Ok in Hrun as [[= -> <- <- <-] _].
  apply pick_shared_count with (n := n) in Hsh.
  - by rewrite Hmx1, Hmn1, Hnl1, Htd1 in Hsh.
  - rewrite bit_size_and; unfold bit_copy; congruence.
  - done.
  - by rewrite Hnl1.
  - by rewrite Hlist.
  - by rewrite Hres.
  - by rewrite Hmn1.
  - by rewrite Hcp1.
  - by rewrite Hmx1, Hmn1.
Qed.
(** ** The run-length arrays of step_layout_create *)

Lemma reps_total_bound runs :
  Forall run_ok runs ->
  0 <= reps_total runs /\ Forall (fun run => run.2 <= reps_total runs) runs.
Proof.
  induction 1 as [|[c r] runs [_ Hr] _ [IH1 IH2]]; simpl; [by split|].
  simpl in Hr. split; [lia|]. constructor; [simpl; lia|].
  eapply Forall_impl; [exact IH2|]. intros [c' r'] H'. simpl in *. lia.
Qed.

Lemma layout_loop_runs (step : Step.t G) (job : Job.t G) jb nc n :
  let sb := Step.step_node_bitmap step in
  forall m off set runs g runs' g',
    layout_loop conf plug step job jb nc (seq m n) off set runs g =
      Ok (Some runs') g' ->
    Forall run_ok runs -> set = reps_total runs ->
    set < nc < 4294967296 ->
    Forall run_ok runs' /\
    reps_total runs' =
    Z.min nc (set + (step_pos jb sb (m + n) - step_pos jb sb m)).
Proof.
  intros sb. induction n as [|n IH];
    intros m off set runs g runs' g' Hrun Hok Hset Hnc; simpl in Hrun.
  { apply ret_Ok in Hrun as [[= <-] _]. rewrite Nat.add_0_r.
    split; [done|]. lia. }
  replace (m + S n)%nat with (S m + n)%nat by lia.
  pose proof (step_pos_S jb sb m) as HS.
  destruct (bit_test jb m) eqn:Hjb; simpl in Hrun, HS.
  2:{ apply IH in Hrun as [Hok' Htot]; [|done|done|done].
      split; [done|]. rewrite Htot. f_equal. lia. }
  fold sb in Hrun.
  destruct (bit_test sb m) eqn:Hsb; simpl in Hrun, HS.
  2:{ apply IH in Hrun as [Hok' Htot]; [|done|done|done].
      split; [done|]. rewrite Htot. f_equal. lia. }
  destruct (_ =? -1); [by inv_run|].
  destruct (_ >=? _); [done|].
  apply bind_Ok in Hrun as (cpus & g1 & _ & Hrun).
  apply bind_Ok in Hrun as (u1 & g2 & _ & Hrun).
  apply bind_Ok in Hrun as (u2 & g3 & _ & Hrun).
  destruct (MIN_int_u32 u2 _ <=? 0).
  { apply bind_Ok in Hrun as (? & ? & _ & Hrun). by inv_run. }
  apply bind_Ok in Hrun as (runs1 & g4 & Hruns1 & Hrun).
  pose proof (reps_total_bound runs Hok) as [Hpos Hbound].
  assert (Forall run_ok runs1 /\ reps_total runs1 = set + 1)
    as [Hok1 Htot1].
  { destruct runs as [|[c r] older].
    - destruct (nc <=? 0); [done|].
      apply ret_Ok in Hruns1 as [<- _]. split.
      + constructor; [|done]. split; [apply u16_range|simpl; lia].
      + simpl in *. lia.
    - apply Forall_cons in Hok as [[Hc Hr] Hold]. simpl in Hc, Hr.
      apply Forall_cons in Hbound as [Hle _]. simpl in Hle, Hset, Hpos.
      destruct (negb (c =? _)).
      + destruct (nc <=? _); [done|].
        apply ret_Ok in Hruns1 as [<- _]. split.
        * constructor; [split; [apply u16_range|simpl; lia]|].
          by constructor.
        * simpl in *. lia.
      + apply ret_Ok in Hruns1 as [<- _].
        assert (u32 (r + 1) = r + 1) as Hu by (apply u32_id; lia).
        split.
        * constructor; [split; simpl; lia|done].
        * simpl in *. lia. }
  assert (u32 (set + 1) = set + 1) as Hu by (apply u32_id; lia).
  rewrite Hu in Hrun.
  pose proof (step_pos_mono jb sb (S m) (S m + n)) as Hmono.
  destruct (Z.eqb_spec (set + 1) nc) as [Heq|Hne].
  - apply ret_Ok in Hrun as [[= <-] _]. split; [done|].
    rewrite Htot1. lia.
  - apply IH in Hrun as [Hok' Htot]; [|done|done|lia].
    split; [done|]. rewrite Htot. f_equal. lia.
Qed.

Lemma reps_total_app l1 l2 :
  reps_total (l1 ++ l2) = reps_total l1 + reps_total l2.
Proof. induction l1 as [|x l1 IH]; simpl; [done|]. rewrite IH. lia. Qed.

Lemma reps_total_rev l : reps_total (rev l) = reps_total l.
Proof.
  induction l as [|x l IH]; [done|]. simpl.
  rewrite reps_total_app, IH. simpl. lia.
Qed.

(** X22. When step_layout_create gets as far as laying the tasks out, the
    run-length arrays it hands to slurm_step_layout_create are well
    formed: every cpus_per_node[] entry is a uint16_t, every
    cpu_count_reps[] entry is at least 1, and the repetitions add up to
    the number of nodes of the step in the job's node bitmap, or to
    node_count when that is smaller. *)
Theorem step_layout_create_arrays (step : Step.t G) (job : Job.t G)
    node_list nc nt cpt td ps g layout step1 g1 jb :
  step_layout_create conf plug step job node_list nc nt cpt td ps g =
    Ok (layout, step1) g1 ->
  Job.node_bitmap job = Some jb ->
  0 < nc < 4294967296 ->
  layout = None \/
  exists runs,
    layout =
    Plug.slurm_step_layout_create plug node_list (map fst runs)
      (map snd runs) nc nt cpt td ps /\
    Forall run_ok runs /\
    reps_total runs =
    Z.min nc (Z.of_nat (bit_set_count
                          (bit_and jb (Step.step_node_bitmap step)))).
Proof.
  intros Hrun Hjb Hnc. unfold step_layout_create in Hrun.
  apply bind_Ok in Hrun as (step0 & g0 & Hstep0 & Hrun).
  assert (Step.step_node_bitmap step0 = Step.step_node_bitmap step) as Hsb.
  { destruct (_ && _ && _) in Hstep0; by inv_run. }
  rewrite Hjb in Hrun. unfold bind at 1 in Hrun. simpl in Hrun.
  apply bind_Ok in Hrun as (runs & g2 & Hloop & Hrun).
  destruct runs as [runs|]; [|left; by inv_run].
  apply ret_Ok in Hrun as [[= <- <-] _]. right.
  destruct (range_incl_covers jb) as (Hrange & Hcover & Hlow).
  set (a := Z.to_nat (bit_ffs jb)) in *.
  set (n := Z.to_nat (bit_fls jb + 1 - bit_ffs jb)) in *.
  rewrite Hrange in Hloop.
  apply layout_loop_runs in Hloop as [Hok Htot]; [|done|done|simpl; lia].
  exists (rev runs). split; [done|]. split; [by apply Forall_rev|].
  rewrite reps_total_rev, Htot, Hsb. f_equal.
  unfold step_pos.
  rewrite (bit_set_count_clear _ a).
  2:{ intros i Hi. by rewrite bit_test_and, Hlow. }
  rewrite bit_set_count_take_beyond; [lia|].
  intros i Hi. rewrite bit_test_and. apply andb_false_intro1.
  destruct (bit_test jb i) eqn:Hb; [|done]. apply Hcover in Hb. lia.
Qed.

End Properties.

(** * The properties on the example cluster *)

Lemma step_create_error_rollback_witness :
  exists rc spec' jobs' new g',
    step_create ex_conf ex_cluster ex_plug 10 [ex_job] (ex_req 9 9 1) false
                ex_glob = Ok (rc, spec', jobs', new) g' /\
    rc = ESLURM_REQUESTED_NODE_CONFIG_UNAVAILABLE /\
    new = None /\ same_accounting_all [ex_job] jobs'.
Proof.
  eexists _, _, _, _, _. split; [vm_compute; reflexivity|].
  split; [reflexivity|].
  eapply (step_create_error_rollback ex_conf ex_cluster ex_plug 10 [ex_job]
            (ex_req 9 9 1) false ex_glob).
  - intros job Hin s Hs. apply list_elem_of_singleton in Hin as ->.
    by apply elem_of_nil in Hs.
  - vm_compute. reflexivity.
  - discriminate.
Defined.


Lemma step_create_default_num_tasks_witness :
  exists spec' job' new g',
    step_create_job ex_conf ex_cluster ex_plug 10 ex_job (ex_req NO_VAL 4 0)
                    false ex_glob = Ok (SLURM_SUCCESS, spec', job', new) g' /\
    Req.num_tasks spec' = 4.
Proof.
  eexists _, _, _, _.
  erewrite (step_create_default_num_tasks ex_conf ex_cluster ex_plug 10 ex_job
              (ex_req NO_VAL 4 0) false ex_glob None); cycle 1.
  - reflexivity.
  - reflexivity.
  - vm_compute. reflexivity.
  - vm_compute. reflexivity.
  - vm_compute. split; reflexivity.
Defined.

Lemma step_create_normalization_witness :
  cpus_per_task_of (normalize_overcommit (ex_req 4 8 0)) = 2 /\
  Req.cpu_count (normalize_overcommit (ex_req 4 8 1)) = 8.
Proof.
  destruct (step_create_normalization ex_conf ex_cluster ex_plug 10 ex_job
              (ex_req 4 8 0) false ex_glob)
    as (_ & _ & Hsame & _ & Hcpt).
  - simpl. lia.
  - simpl. lia.
  - split; [|reflexivity].
    destruct Hcpt as [_ Hq]; [simpl; lia|].
    destruct Hq as [Hq _]; [discriminate|reflexivity|].
    rewrite Hq; [reflexivity|vm_compute; reflexivity].
Defined.

Lemma job_step_complete_missing_step_witness :
  job_step_complete ex_conf ex_plug 20 [ex_job1] 1 7 100 ex_glob =
  Ok (ESLURM_INVALID_JOB_ID, [ex_job1]) ex_glob /\
  exists job' g',
    job_step_complete ex_conf ex_plug 20 [ex_job1] 1 0 100 ex_glob =
    Ok (SLURM_SUCCESS, [job']) g' /\
    Job.step_list job' = [] /\
    Res.cpus_used (Job.job_resrcs job') = [0; 0] /\
    job_step_complete ex_conf ex_plug 20 [job'] 1 0 100 g' =
    Ok (ESLURM_INVALID_JOB_ID, [job']) g'.
Proof.
  split.
  - destruct (job_step_complete_missing_step ex_conf ex_plug 20 [ex_job1]
                1 7 100 ex_glob 0%nat ex_job1) as [Hmissing _].
    + reflexivity.
    + reflexivity.
    + left. reflexivity.
    + discriminate.
    + apply Hmissing. intros s Hs.
      apply list_elem_of_singleton in Hs as ->. discriminate.
  - destruct (job_step_complete_missing_step ex_conf ex_plug 20 [ex_job1]
                1 0 100 ex_glob 0%nat ex_job1) as [_ Hfound].
    + reflexivity.
    + reflexivity.
    + left. reflexivity.
    + discriminate.
    + edestruct (Hfound 0%nat ex_step0)
        as (job' & jobs' & g2 & Hrun & -> & Hlist & _ & Hres & _ & Hagain).
      * reflexivity.
      * reflexivity.
      * vm_compute. repeat constructor. by intros H%elem_of_nil.
      * vm_compute. reflexivity.
      * exists job', g2. simpl in Hrun, Hagain.
        split; [exact Hrun|]. split; [exact Hlist|].
        split; [by rewrite Hres|exact Hagain].
Defined.

Lemma step_partial_comp_report_witness :
  exists step',
    step_partial_comp ex_plug [ex_job_two] ex_cmsg 100 ex_glob =
    Ok (SLURM_SUCCESS, [store_step 0 step' ex_job_two], Some 1, Some 3)
       ex_glob /\
    Step.exit_node_bitmap step' = Some [true; false].
Proof.
  destruct (step_partial_comp_report ex_plug [ex_job_two] ex_cmsg 100 ex_glob
              0%nat ex_job_two 0%nat ex_step_two) as [_ Hok].
  - reflexivity.
  - reflexivity.
  - reflexivity.
  - right. reflexivity.
  - reflexivity.
  - reflexivity.
  - reflexivity.
  - simpl. lia.
  - simpl. lia.
  - intros b Hb. discriminate Hb.
  - destruct Hok as (step' & b' & Hrun & Hmap & Hsize & Hbits & Hcode & _).
    { vm_compute. split; [discriminate|reflexivity]. }
    assert (b' = [true; false]) as ->.
    { pose proof (Hbits 0%nat) as H0. pose proof (Hbits 1%nat) as H1.
      destruct b' as [|x [|y [|z b']]]; try discriminate Hsize.
      unfold bit_test in H0, H1. simpl in H0, H1.
      rewrite H0, H1 by (vm_compute; lia). reflexivity. }
    exists step'. split; [|exact Hmap].
    rewrite Hcode in Hrun. exact Hrun.
Defined.

Lemma check_job_step_time_limit_sweep_witness :
  exists g' hostlist,
    check_job_step_time_limit ex_conf ex_cluster ex_job_limited 100 ex_glob =
    Ok tt g' /\
    "n0" ∈ hostlist /\
    Agent.mk REQUEST_KILL_TIMELIMIT 1 hostlist (Z.of_nat (length hostlist))
             1 0 JOB_RUNNING 100 100 0 ∈ Glob.agent_queue g'.
Proof.
  destruct (check_job_step_time_limit_sweep ex_conf ex_cluster ex_job_limited
              100 ex_glob) as [_ Hrunning].
  destruct Hrunning as (g' & Hrun & Hsteps); [reflexivity|].
  destruct (Hsteps (Step.set_time_limit 1 ex_step0))
    as (hostlist & _ & Hnames & Hqueue).
  - apply list_elem_of_singleton. reflexivity.
  - discriminate.
  - discriminate.
  - vm_compute. split; [discriminate|reflexivity].
  - vm_compute. discriminate.
  - assert ("n0" ∈ hostlist) as Hn0.
    { apply Hnames; [reflexivity|].
      exists 0%nat, (Node.mk "n0" false false 4 4).
      split; [reflexivity|]. split; reflexivity. }
    exists g', hostlist. split; [exact Hrun|]. split; [exact Hn0|].
    apply Hqueue. intros ->. by apply elem_of_nil in Hn0.
Defined.

Lemma step_dealloc_lps_no_underflow_witness :
  exists step1 job1 g1,
    _step_dealloc_lps ex_conf ex_step0 ex_job1 ex_glob = Ok (step1, job1) g1 /\
    Res.cpus_used (Job.job_resrcs job1) !! 0%nat = Some 0 /\
    memory_used_at (Job.job_resrcs job1) 0 = Some 0 /\
    Forall (fun c => 0 <= c) (Res.cpus_used (Job.job_resrcs job1)).
Proof.
  eexists _, _, _. split; [vm_compute; reflexivity|].
  edestruct (step_dealloc_lps_no_underflow ex_conf ex_step0 ex_job1
               (Layout.mk "n0" 1 4 [4]) ex_glob)
    as (Hnodes & _ & Hcpus & _).
  - vm_compute. reflexivity.
  - reflexivity.
  - unfold ex_job1. simpl. constructor; [lia|]. constructor; [lia|].
    constructor.
  - unfold ex_job1. simpl. intros a Ha. inversion Ha.
    constructor; [lia|]. constructor; [lia|]. constructor.
  - unfold ex_step0. simpl. constructor; [lia|]. constructor.
  - unfold ex_step0. simpl. lia.
  - destruct (Hnodes 0%nat) as (tasks & used & Ht & Hu & Hu' & _ & Hmem).
    { vm_compute. repeat split. }
    vm_compute in Ht, Hu. inversion Ht; inversion Hu; subst tasks used.
    split; [exact Hu'|]. split; [|exact Hcpus].
    destruct Hmem as (mem_used & Hm & Hm' & _); [reflexivity..|].
    vm_compute in Hm. inversion Hm; subst mem_used. exact Hm'.
Defined.

(** C4. Job 1 holds the idle nodes n0 and n1 with four CPUs each; the
    exclusive request names n0 and asks for four tasks of one CPU. Node
    n0 has four tasks available, both nodes survive the loop, and the
    same request without the node list is granted n0. With the node list
    the picker returns no nodes and ESLURM_NODES_BUSY, and step_create
    refuses the step: n1 stays in nodes_avail, because nodes are dropped
    once there are enough tasks only when none is named (line 666), so
    bit_equal(selected_nodes, nodes_avail) fails and tasks_picked_cnt is
    zeroed, although no required node lacks processors (lines
    677-682). *)
Theorem pick_exclusive_named_node_deferred :
  Req.node_list ex_named_req = Some "n0" /\
  Req.num_tasks ex_named_req = 4 /\
  excl_node_tasks ex_plug ex_job ex_named_req None 1 0 = Some (4, 4) /\
  excl_loop ex_plug ex_job ex_named_req None 1 (Some [true; false])
            (excl_nodes ex_job) (Excl.mk (-1) [true; true] 0 0 0) =
  Some (Excl.mk 1 [true; true] 2 8 8) /\
  pick_exclusive ex_cluster ex_plug ex_job [true; true] ex_named_req None 1
                 [true; true] ex_glob =
  Ok (None, ESLURM_NODES_BUSY) ex_glob /\
  pick_exclusive ex_cluster ex_plug ex_job [true; true] (ex_req 4 4 1) None 1
                 [true; true] ex_glob =
  Ok (Some [true; false], SLURM_SUCCESS) ex_glob /\
  exists spec' jobs',
    step_create ex_conf ex_cluster ex_plug 10 [ex_job] ex_named_req false
                ex_glob =
    Ok (ESLURM_NODES_BUSY, spec', jobs', None) ex_glob.
Proof.
  repeat split; try (vm_compute; reflexivity).
  eexists _, _. vm_compute. reflexivity.
Qed.


(** ** Inputs at which the sentences as worded fail *)

Lemma missing_step_is_already_done_counterexample :
  ~ missing_step_is_already_done ex_conf ex_plug 20 [ex_job1] 1 7 100 ex_glob.
Proof.
  intros Hclaim.
  destruct (Hclaim 0%nat ex_job1) as (jobs' & g' & Hrun).
  - reflexivity.
  - reflexivity.
  - left. reflexivity.
  - intros s Hs. apply list_elem_of_singleton in Hs as ->. discriminate.
  - vm_compute in Hrun. discriminate Hrun.
Qed.


Lemma cpus_per_task_by_division_counterexample :
  cpus_per_task_of (normalize_overcommit ex_huge_req) = 1 /\
  cpus_per_task_of (normalize_overcommit ex_huge_req) <>
  cpus_per_task_by_division (normalize_overcommit ex_huge_req).
Proof. split; [reflexivity|vm_compute; discriminate]. Qed.

(** * The further properties on the example cluster *)

Lemma find_step_record_first_witness :
  found_step (Job.step_list ex_job1) NO_VAL = Some ex_step0 /\
  forall s, s ∈ Job.step_list ex_job1 -> Step.step_id s <> 7.
Proof.
  destruct (find_step_record_first (Job.step_list ex_job1) NO_VAL)
    as [Hany _].
  destruct (find_step_record_first (Job.step_list ex_job1) 7)
    as [_ Hmiss].
  split; [by rewrite Hany|]. apply Hmiss. discriminate.
Defined.

Lemma delete_step_record_lookup_witness :
  exists job',
    delete_step_record 20 ex_job1 0 ex_glob =
    Ok (SLURM_SUCCESS, job') (Glob.set_last_job_update 20 ex_glob) /\
    found_step (Job.step_list job') 0 = None.
Proof.
  destruct (delete_step_record_lookup 20 ex_job1 0 ex_glob)
    as (rc & job' & Hrun & _ & Hfound); [discriminate|].
  destruct Hfound as (-> & _ & _ & _ & _ & Hgone).
  { vm_compute. eauto. }
  exists job'. split; [exact Hrun|]. apply Hgone.
  vm_compute. repeat constructor. by intros H%elem_of_nil.
Defined.


Lemma update_step_time_limit_witness :
  exists g',
    update_step (fun _ => false) (fun _ _ => false) 50 [ex_job1] 1 0 5 7
                ex_glob =
    Ok (ESLURM_USER_ID_MISSING, [ex_job1]) g' /\
    Glob.last_job_update g' = 0.
Proof.
  destruct (update_step_time_limit (fun _ => false) (fun _ _ => false) 50
              [ex_job1] 1 0 5 7 ex_glob) as [_ Hfound].
  destruct (Hfound 0%nat ex_job1) as [Hdenied _];
    [reflexivity|reflexivity|].
  apply Hdenied; [discriminate|reflexivity|reflexivity].
Defined.

Lemma update_step_lifts_time_limit_witness :
  exists rc jobs' g1,
    update_step (fun _ => false) (fun _ _ => false) 50 [ex_job_limited] 1
                NO_VAL INFINITE 100 ex_glob = Ok (rc, jobs') g1 /\
    rc = SLURM_SUCCESS /\
    exists job' g3,
      jobs' !! 0%nat = Some job' /\
      check_job_step_time_limit ex_conf ex_cluster job' 100 ex_glob =
      Ok tt g3 /\
      Glob.agent_queue g3 = [].
Proof.
  eexists _, _, _. split; [vm_compute; reflexivity|].
  edestruct (update_step_lifts_time_limit ex_conf ex_cluster (fun _ => false)
               (fun _ _ => false) 50 [ex_job_limited] 1 100 ex_glob 0%nat
               ex_job_limited) as (Hrc & job' & Hjob & _ & Hsweep).
  - reflexivity.
  - reflexivity.
  - left. reflexivity.
  - vm_compute. reflexivity.
  - split; [exact Hrc|].
    destruct (Hsweep 100 ex_glob) as (g3 & Hrun & Hqueue).
    exists job', g3. split; [exact Hjob|]. split; [exact Hrun|exact Hqueue].
Defined.

Lemma suspend_resume_accounting_witness :
  exists step2,
    Job.step_list
      (resume_job_step 20 30 (suspend_job_step 15 20 ex_job1)) !! 0%nat =
    Some step2 /\
    Step.pre_sus_time step2 = 5 /\
    Step.tot_sus_time step2 = 10 /\
    (40 - Step.start_time step2) - Step.tot_sus_time step2 = 20.
Proof.
  destruct (suspend_resume_accounting ex_job1 0 ex_step0 15 20 30 40)
    as (step1 & step2 & _ & H2 & Hpre1 & _ & Hpre2 & Htot & _ & Hstart & _).
  - reflexivity.
  - vm_compute. discriminate.
  - vm_compute. discriminate.
  - lia.
  - exists step2. split; [exact H2|]. rewrite Hpre2, Hpre1, Htot, Hstart.
    repeat split; reflexivity.
Defined.

Lemma step_hostname_range_round_trip_witness :
  _step_hostname_to_inx ex_find_node ex_step0 "n9" = -1 /\
  _step_range_to_hostlist ex_cluster ex_step0 0 0 ex_glob =
  Ok ["n0"] ex_glob.
Proof.
  destruct (step_hostname_range_round_trip ex_cluster ex_find_node ex_step0
              "n9") as [Hunknown _].
  destruct (step_hostname_range_round_trip ex_cluster ex_find_node ex_step0
              "n0") as [_ Hknown].
  split; [by apply Hunknown|].
  destruct (Hknown 0%nat (Node.mk "n0" false false 4 4))
    as [_ Hin]; [reflexivity..|].
  destruct Hin as [_ Hrange]; [reflexivity|]. exact (Hrange ex_glob).
Defined.

Lemma step_epilog_complete_counts_witness :
  exists job',
    step_epilog_complete true ex_find_node ex_job1 "n0" = (1, job') /\
    map Step.step_id (Job.step_list job') = [0].
Proof.
  destruct (step_epilog_complete_counts true ex_find_node ex_job1 "n0")
    as [_ Hcount].
  destruct (Hcount 0%nat) as (job' & Hrun & Hids & _).
  - reflexivity.
  - reflexivity.
  - vm_compute. reflexivity.
  - intros s b Hs Hb. change (s ∈ [ex_step0]) in Hs.
    apply list_elem_of_singleton in Hs as ->. discriminate Hb.
  - exists job'. split; [exact Hrun|exact Hids].
Defined.

Lemma delete_step_records_purge_witness :
  exists job',
    delete_step_records 20 ex_job1 0 ex_glob =
    Ok job' (Glob.set_last_job_update 20 ex_glob) /\
    Job.step_list job' = [] /\ Job.next_step_id job' = 1.
Proof.
  destruct (delete_step_records_purge 20 ex_job1 0 ex_glob)
    as (job' & Hrun & Hall & _ & _ & _ & Hnext).
  exists job'. split; [exact Hrun|]. split; [|exact Hnext].
  apply Hall. discriminate.
Defined.

Lemma step_alloc_lps_debits_witness :
  exists step1 job1 g1,
    step_alloc_lps ex_conf ex_plug ex_step_shared ex_job ex_glob =
    Ok (step1, job1) g1 /\
    Res.cpus_used (Job.job_resrcs job1) !! 0%nat = Some 4 /\
    memory_used_at (Job.job_resrcs job1) 0 = Some 400 /\
    Job.step_list job1 = [].
Proof.
  eexists _, _, _. split; [vm_compute; reflexivity|].
  edestruct (step_alloc_lps_debits ex_conf ex_plug ex_step_shared ex_job
               (Layout.mk "n0" 1 4 [4]) ex_glob)
    as (Hnodes & _ & _ & _ & _ & Hlist).
  - vm_compute. reflexivity.
  - reflexivity.
  - simpl. constructor; [lia|]. constructor.
  - simpl. lia.
  - destruct (Hnodes 0%nat) as (tasks & used & Ht & Hu & Hu' & Hmem).
    { vm_compute. repeat split. }
    vm_compute in Ht, Hu. inversion Ht; inversion Hu; subst tasks used.
    split; [exact Hu'|]. split; [|exact Hlist].
    destruct Hmem as (mem_used & Hm & Hm'); [reflexivity|].
    vm_compute in Hm. inversion Hm; subst mem_used. exact Hm'.
Defined.

Lemma step_alloc_dealloc_round_trip_witness :
  exists step1 job1 g1 step2 job2 g2,
    step_alloc_lps ex_conf ex_plug ex_step_shared ex_job ex_glob =
    Ok (step1, job1) g1 /\
    _step_dealloc_lps ex_conf step1 job1 g1 = Ok (step2, job2) g2 /\
    Res.cpus_used (Job.job_resrcs job1) = [4; 0] /\
    Res.cpus_used (Job.job_resrcs job2) = [0; 0] /\
    Res.memory_used (Job.job_resrcs job2) = Some [0; 0].
Proof.
  eexists _, _, _, _, _, _. split; [vm_compute; reflexivity|].
  split; [vm_compute; reflexivity|]. split; [reflexivity|].
  edestruct (step_alloc_dealloc_round_trip ex_conf ex_plug ex_step_shared
               ex_job (Layout.mk "n0" 1 4 [4]) ex_glob)
    as (Hcpus & Hmem & _).
  - vm_compute. reflexivity.
  - vm_compute. reflexivity.
  - reflexivity.
  - simpl. lia.
  - simpl. lia.
  - simpl. lia.
  - simpl. constructor; [lia|]. constructor.
  - intros [|[|i]] tasks used [_ [Hstep _]] Ht Hu;
      [|by vm_compute in Hstep..].
    vm_compute in Ht, Hu. inversion Ht; inversion Hu; subst tasks used.
    simpl. lia.
  - intros [|[|i]] tasks used [_ [Hstep _]] Ht Hu;
      [|by vm_compute in Hstep..].
    vm_compute in Ht, Hu. inversion Ht; inversion Hu; subst tasks used.
    simpl. lia.
  - split; [exact Hcpus|exact Hmem].
Defined.

Lemma shared_step_release_clears_cores_witness :
  exists step1 job1 g1 step2 job2 g2,
    step_alloc_lps ex_conf ex_plug ex_step_shared
      (Job.set_job_resrcs ex_res_busy ex_job) ex_glob = Ok (step1, job1) g1 /\
    _step_dealloc_lps ex_conf step1 job1 g1 = Ok (step2, job2) g2 /\
    bit_test (Res.core_bitmap_used (Job.job_resrcs job1)) 0 = true /\
    bit_test (Res.core_bitmap_used (Job.job_resrcs job2)) 0 = false.
Proof.
  eexists _, _, _, _, _, _. split; [vm_compute; reflexivity|].
  split; [vm_compute; reflexivity|]. split; [reflexivity|].
  edestruct (shared_step_release_clears_cores ex_conf ex_plug ex_step_shared
               (Job.set_job_resrcs ex_res_busy ex_job)
               (Layout.mk "n0" 1 4 [4]) ex_glob)
    as (_ & _ & _ & _ & Hclear).
  - vm_compute. reflexivity.
  - vm_compute. reflexivity.
  - reflexivity.
  - vm_compute. discriminate.
  - reflexivity.
  - reflexivity.
  - left. reflexivity.
  - reflexivity.
  - apply Hclear. reflexivity.
Defined.

Lemma pick_step_nodes_inside_job_witness :
  exists picked rc spec' job' g',
    _pick_step_nodes ex_conf ex_cluster ex_plug 10 ex_job (ex_req 4 4 1)
                     None 1 ex_glob = Ok (Some picked, rc, spec', job') g' /\
    rc = SLURM_SUCCESS /\ bit_subset picked [true; true] /\
    Job.step_list job' = [].
Proof.
  eexists _, _, _, _, _. split; [vm_compute; reflexivity|].
  edestruct (pick_step_nodes_inside_job ex_conf ex_cluster ex_plug 10 ex_job
               (ex_req 4 4 1) None 1 ex_glob)
    as (Hrc & Hsub & _ & Hlist & _).
  - vm_compute. reflexivity.
  - split; [exact Hrc|]. split; [exact Hsub|exact Hlist].
Defined.

Lemma step_create_new_record_witness :
  exists rc spec' jobs' s g',
    step_create ex_conf ex_cluster ex_plug 10 [ex_job] (ex_req 4 4 1) false
                ex_glob = Ok (rc, spec', jobs', Some s) g' /\
    exists job',
      jobs' = [job'] /\
      found_step (Job.step_list job') (Step.step_id s) = Some s /\
      Step.start_time s = 10 /\ Step.time_limit s = INFINITE.
Proof.
  eexists _, _, _, _, _. split; [vm_compute; reflexivity|].
  edestruct (step_create_new_record ex_conf ex_cluster ex_plug 10 [ex_job]
               (ex_req 4 4 1) false ex_glob 0%nat ex_job)
    as (job' & Hjobs & Hfound & _ & Hstart & _ & _ & Hlimit & _).
  - reflexivity.
  - reflexivity.
  - intros s Hs. by apply elem_of_nil in Hs.
  - vm_compute. reflexivity.
  - exists job'. split; [exact Hjobs|]. split; [exact Hfound|].
    split; [exact Hstart|exact Hlimit].
Defined.

Lemma pick_step_cores_confined_witness :
  exists step' res' g' after,
    _pick_step_cores ex_plug ex_step_wide ex_res_busy 0 4 ex_glob =
    Ok (step', res') g' /\
    step' = Step.set_core_bitmap_job (Some after) ex_step_wide /\
    bit_size after = 8%nat /\
    bit_test (Res.core_bitmap_used res') 0 = true.
Proof.
  eexists _, _, _. 
  edestruct (pick_step_cores_confined ex_plug ex_step_wide ex_res_busy 0 4
               ex_glob) as (after & used' & Hstep & Hres & Hafter & Hused).
  - vm_compute. reflexivity.
  - exists after. split; [vm_compute; reflexivity|]. split; [exact Hstep|].
    destruct Hafter as (Hsize & _). split; [exact Hsize|].
    destruct Hused as (_ & Hkeep & _). rewrite Hres. apply Hkeep.
    reflexivity.
Defined.

Lemma pick_step_nodes_exclusive_limits_witness :
  exists picked rc spec' job' g',
    _pick_step_nodes ex_conf ex_cluster ex_plug 10 ex_job
      ex_req_one_node None 1 ex_glob =
    Ok (Some picked, rc, spec', job') g' /\
    Z.of_nat (bit_set_count (bit_and [true; true] picked)) <= 1.
Proof.
  eexists _, _, _, _, _. split; [vm_compute; reflexivity|].
  edestruct (pick_step_nodes_exclusive_limits ex_conf ex_cluster ex_plug 10
               ex_job ex_req_one_node None 1 ex_glob)
    as [Hmax _].
  - vm_compute. reflexivity.
  - discriminate.
  - vm_compute. reflexivity.
  - simpl. lia.
  - apply Hmax. discriminate.
Defined.

Lemma count_cpus_sum_witness :
  _count_cpus ex_cluster ex_job [true; true] [true; false] None ex_glob =
  Ok 4 ex_glob /\
  _count_cpus ex_cluster ex_job [true; true] [false; false] None ex_glob =
  Ok 0 ex_glob.
Proof.
  destruct (count_cpus_sum ex_cluster ex_job [true; true] [true; false] None
              ex_glob) as [Hsum _].
  destruct (count_cpus_sum ex_cluster ex_job [true; true] [false; false] None
              ex_glob) as [_ Hnone].
  split.
  - apply Hsum.
    + intros i Hi. change (i ∈ [0%nat]) in Hi.
      apply list_elem_of_singleton in Hi as ->. exists 4.
      split; [reflexivity|lia].
    + vm_compute. reflexivity.
  - apply Hnone. intros [|[|i]]; reflexivity.
Defined.

Lemma step_create_complete_round_trip_witness :
  exists rc spec' jobs1 s g1 rc' job2 g2,
    step_create ex_conf ex_cluster ex_plug 10 [ex_job]
      (Req.set_mem_per_cpu 100 (ex_req 4 4 1)) false ex_glob =
    Ok (rc, spec', jobs1, Some s) g1 /\
    job_step_complete ex_conf ex_plug 20 jobs1 1 (Step.step_id s) 100 g1 =
    Ok (rc', [job2]) g2 /\
    rc' = SLURM_SUCCESS /\
    Job.step_list job2 = [] /\
    Res.cpus_used (Job.job_resrcs job2) = [0; 0] /\
    Res.memory_used (Job.job_resrcs job2) = Some [0; 0] /\
    Job.next_step_id job2 = 1.
Proof.
  eexists _, _, _, _, _, _, _, _. split; [vm_compute; reflexivity|].
  split; [vm_compute; reflexivity|].
  edestruct (step_create_complete_round_trip ex_conf ex_cluster ex_plug 10 20
               [ex_job] (Req.set_mem_per_cpu 100 (ex_req 4 4 1)) ex_glob
               0%nat ex_job)
    with (layout := Layout.mk "n0" 1 4 [4]) (uid := 100)
    as (Hrc & job2 & Hjobs & Hlist & Hcpus & Hmem & Hnext).
  - reflexivity.
  - reflexivity.
  - intros s Hs. by apply elem_of_nil in Hs.
  - left. reflexivity.
  - vm_compute. reflexivity.
  - vm_compute. reflexivity.
  - reflexivity.
  - simpl. lia.
  - simpl. lia.
  - simpl. constructor; [lia|]. constructor.
  - intros [|[|i]] tasks used [_ [Hstep _]] Ht Hu;
      [|by vm_compute in Hstep..].
    vm_compute in Ht, Hu. inversion Ht; inversion Hu; subst tasks used.
    simpl. lia.
  - intros [|[|i]] tasks used [_ [Hstep _]] Ht Hu;
      [|by vm_compute in Hstep..].
    vm_compute in Ht, Hu. inversion Ht; inversion Hu; subst tasks used.
    simpl. lia.
  - simpl in Hjobs. inversion Hjobs; subst job2.
    split; [exact Hrc|]. split; [exact Hlist|]. split; [exact Hcpus|].
    split; [exact Hmem|exact Hnext].
Defined.

Lemma pick_step_nodes_first_step_witness :
  exists picked rc spec' job' g',
    _pick_step_nodes ex_conf ex_cluster ex_plug 10 ex_job (ex_req 4 4 1)
                     None 1 ex_glob = Ok (picked, rc, spec', job') g' /\
    job' = Job.set_job_state (Z.ldiff JOB_RUNNING JOB_CONFIGURING) ex_job.
Proof.
  eexists _, _, _, _, _. split; [vm_compute; reflexivity|].
  destruct (pick_step_nodes_first_step ex_conf ex_cluster ex_plug 10 ex_job
              (ex_req 4 4 1) None 1 ex_glob [true; true])
    as (_ & _ & Hjob).
  - reflexivity.
  - left. reflexivity.
  - edestruct Hjob as [_ Hfirst]; [vm_compute; reflexivity|].
    apply Hfirst; reflexivity.
Defined.

Lemma step_partial_comp_edges_witness :
  exists g',
    step_partial_comp ex_plug [ex_job1] ex_cmsg 7 ex_glob =
    Ok (ESLURM_USER_ID_MISSING, [ex_job1], None, None) g'.
Proof.
  destruct (step_partial_comp_edges ex_plug [ex_job1] ex_cmsg 7 ex_glob)
    as [_ Hfound].
  destruct (Hfound 0%nat ex_job1) as (_ & Hdenied & _);
    [reflexivity|reflexivity|].
  apply Hdenied; [reflexivity|reflexivity|discriminate].
Defined.

Lemma pick_step_nodes_node_count_witness :
  exists picked rc spec' job' g',
    _pick_step_nodes ex_conf ex_cluster ex_plug 10 ex_job ex_req_shared
                     None 1 ex_glob = Ok (Some picked, rc, spec', job') g' /\
    Z.of_nat (bit_set_count picked) = Req.min_nodes spec' /\
    Z.of_nat (bit_set_count picked) <= 2 /\
    1 <= Req.min_nodes spec'.
Proof.
  eexists _, _, _, _, _. split; [vm_compute; reflexivity|].
  edestruct (pick_step_nodes_node_count ex_conf ex_cluster ex_plug 10 ex_job
               ex_req_shared None 1 ex_glob)
    as (Hmin & Hmax & Hgrow).
  - vm_compute. reflexivity.
  - reflexivity.
  - reflexivity.
  - reflexivity.
  - reflexivity.
  - simpl. lia.
  - intros nl sel [=].
  - constructor.
  - intros values v0 [= <-] [= <-]. lia.
  - simpl. lia.
  - simpl. lia.
  - split; [apply Hmin; vm_compute; discriminate|].
    split; [apply Hmax; vm_compute; discriminate|].
    apply Hgrow. left. vm_compute. discriminate.
Defined.

Lemma step_layout_create_arrays_witness :
  exists layout step1 g1,
    step_layout_create ex_conf ex_plug ex_step_shared ex_job "n0" 1 4 1
      SLURM_DIST_BLOCK 0 ex_glob = Ok (Some layout, step1) g1 /\
    exists runs,
      Some layout =
      Plug.slurm_step_layout_create ex_plug "n0" (map fst runs)
        (map snd runs) 1 4 1 SLURM_DIST_BLOCK 0 /\
      Forall run_ok runs /\
      reps_total runs = 1.
Proof.
  eexists _, _, _. split; [vm_compute; reflexivity|].
  edestruct (step_layout_create_arrays ex_conf ex_plug ex_step_shared ex_job
               "n0" 1 4 1 SLURM_DIST_BLOCK 0 ex_glob)
    as [Hnone | (runs & Hlayout & Hok & Htotal)].
  - vm_compute. reflexivity.
  - reflexivity.
  - lia.
  - discriminate Hnone.
  - exists runs. split; [exact Hlayout|]. split; [exact Hok|exact Htotal].
Defined.
